(** * P2P gossip simulation: a shallow embedding of the node and topology code

    The repository holds two drafts of the same simulator:
    - [p2p-gossip-simulation.cc], one file, where a node hands every outgoing
      message to a callback of the simulation object (module [Mono]);
    - [p2pnode.cc] with [p2pnetwork.cc], where a node owns one TCP socket per
      peer and peers register themselves with a [REGISTER:<id>] message
      (module [Tcp]).

    Unsigned 32 and 64 bit integers are integers in [Z] with the wrap-around
    written out, [std::string] is [string], [std::map] and
    [std::unordered_set] are [gmap] and [gset], C++ exceptions are the
    [Throw] results of the type [result]. *)

From Stdlib Require Import ZArith String Ascii List Lia QArith Qround.
From Stdlib Require Import DecimalString DecimalPos DecimalN DecimalFacts.
From stdpp Require Import base gmap sets list sorting.

Local Open Scope Z_scope.

(** ** Machine integers, exceptions and the pieces of the C++ library *)

Module Cxx.

Definition u32 (x : Z) : Z := x mod 2 ^ 32.
Definition u64 (x : Z) : Z := x mod 2 ^ 64.

(** [std::string::npos], the largest [size_t]. *)
Definition npos : Z := 2 ^ 64 - 1.

(** [unsigned long] has 64 bits on the LP64 platforms ns-3 builds on. *)
Definition ULONG_MAX : Z := 2 ^ 64 - 1.

Inductive exn : Type :=
| invalid_argument
| out_of_range.

Inductive result (A : Type) : Type :=
| Ok (a : A)
| Throw (e : exn).
Arguments Ok {A} a.
Arguments Throw {A} e.

Definition bind {A B : Type} (r : result A) (k : A -> result B) : result B :=
  match r with
  | Ok a => k a
  | Throw e => Throw e
  end.

(** *** [std::string] *)

Definition size (s : string) : Z := Z.of_nat (String.length s).

Fixpoint drop (n : nat) (s : string) : string :=
  match n, s with
  | O, _ => s
  | S n', String _ s' => drop n' s'
  | S _, EmptyString => EmptyString
  end.

(** Offset of the first occurrence of [pat] in [s], counted from [off]. *)
Fixpoint find_in (pat s : string) (off : nat) : option nat :=
  if String.prefix pat s then Some off
  else match s with
       | EmptyString => None
       | String _ s' => find_in pat s' (S off)
       end.

(** [str.find(pat, pos)]. *)
Definition find (str pat : string) (pos : Z) : Z :=
  if size str <? pos then npos
  else match find_in pat (drop (Z.to_nat pos) str) (Z.to_nat pos) with
       | Some k => Z.of_nat k
       | None => npos
       end.

(** [str.substr(pos, count)]: throws when [pos] is past the end, and clips
    [count] to what is left. *)
Definition substr (str : string) (pos count : Z) : result string :=
  if size str <? pos then Throw out_of_range
  else Ok (String.substring (Z.to_nat pos)
                            (Z.to_nat (Z.min count (size str - pos))) str).

(** *** [std::stoul] in base 10, after [strtoul]: white space, an optional
    sign, then the longest run of decimal digits. *)

Definition isspace (c : ascii) : bool :=
  let n := Z.of_nat (nat_of_ascii c) in
  (n =? 32) || ((9 <=? n) && (n <=? 13)).

Fixpoint skip_space (s : string) : string :=
  match s with
  | String c s' => if isspace c then skip_space s' else s
  | EmptyString => s
  end.

Definition digit_of (c : ascii) : option Z :=
  let n := Z.of_nat (nat_of_ascii c) in
  if (48 <=? n) && (n <=? 57) then Some (n - 48) else None.

(** Value of the digits at the head of [s], on top of [acc]. *)
Fixpoint scan_digits (acc : Z) (s : string) : Z :=
  match s with
  | String c s' =>
      match digit_of c with
      | Some d => scan_digits (acc * 10 + d) s'
      | None => acc
      end
  | EmptyString => acc
  end.

Definition starts_with_digit (s : string) : bool :=
  match s with
  | String c _ => match digit_of c with Some _ => true | None => false end
  | EmptyString => false
  end.

Definition stoul (s : string) : result Z :=
  let s1 := skip_space s in
  let '(neg, s2) :=
    match s1 with
    | String "-"%char r => (true, r)
    | String "+"%char r => (false, r)
    | _ => (false, s1)
    end in
  if starts_with_digit s2 then
    let v := scan_digits 0 s2 in
    if ULONG_MAX <? v then Throw out_of_range
    else Ok (if neg : bool then u64 (- v) else v)
  else Throw invalid_argument.

(** [std::to_string] and [operator<<] on an unsigned integer. *)
Definition to_string (x : Z) : string :=
  NilEmpty.string_of_uint (N.to_uint (Z.to_N x)).

(** *** What the platform decides

    A finite [double] is a rational.  How text is converted to a double
    ([std::stod]), how a double is printed ([operator<<]) and how a time in
    nanosecond steps becomes seconds ([Time::GetSeconds]) involve rounding;
    [std::hash] is implementation-defined.  They are taken as given. *)
Definition double : Type := Q.

Class Platform : Type := {
  stod : string -> result double;
  show_double : double -> string;
  GetSeconds : Z -> double;
  hash_u32 : Z -> Z;
  hash_u64 : Z -> Z
}.

End Cxx.

Import Cxx.

Declare Scope result_scope.
Delimit Scope result_scope with result.
Notation "x <- r ;; k" := (bind r (fun x => k))
  (at level 100, r at next level, right associativity) : result_scope.
Local Open Scope result_scope.

(** ** Shares and their wire format

    [struct Share] of [p2p-gossip-simulation.cc]; [p2pnode.cc] uses the same
    fields and has the same [ToString] and [FromString]. *)

Record Share : Type := mkShare {
  originNodeId : Z;
  shareId : Z;
  timestamp : double;
  nodesVisited : gset Z
}.

(** [Share::operator==]. *)
Definition Share_eq (a b : Share) : bool :=
  (originNodeId a =? originNodeId b) && (shareId a =? shareId b).

(** [std::hash<Share>]. *)
Definition Share_hash `{Platform} (share : Share) : Z :=
  Z.lxor (hash_u32 (originNodeId share)) (hash_u32 (shareId share)).

(** The pair the specification calls the identity of a share. *)
Definition identity (share : Share) : Z * Z :=
  (originNodeId share, shareId share).

(** [Share::ToString]. *)
Definition ToString `{Platform} (share : Share) : string :=
  ("SHARE:" ++ to_string (originNodeId share) ++ ":" ++
   to_string (shareId share) ++ ":" ++ show_double (timestamp share))%string.

(** [Share share;] is default-initialised: the set of visited nodes starts
    empty, and the struct gives its three scalar fields no initialiser, so
    what they hold is an input of the model, the scalars of [uninit]. *)
Definition default_init (uninit : Share) : Share :=
  mkShare (originNodeId uninit) (shareId uninit) (timestamp uninit) ∅.

(** [Share::FromString]. *)
Definition FromString `{Platform} (uninit : Share) (str : string)
  : result Share :=
  let share := default_init uninit in
  let firstColon := find str ":"%string 0 in
  let secondColon := find str ":"%string (u64 (firstColon + 1)) in
  let thirdColon := find str ":"%string (u64 (secondColon + 1)) in
  if negb (firstColon =? npos) && negb (secondColon =? npos) &&
     negb (thirdColon =? npos)
  then
    f1 <- substr str (u64 (firstColon + 1))
                 (u64 (secondColon - firstColon - 1)) ;;
    o <- stoul f1 ;;
    f2 <- substr str (u64 (secondColon + 1))
                 (u64 (thirdColon - secondColon - 1)) ;;
    i <- stoul f2 ;;
    f3 <- substr str (u64 (thirdColon + 1)) npos ;;
    t <- stod f3 ;;
    Ok (mkShare (u32 o) (u32 i) t (nodesVisited share))
  else Ok share.

(** Number of colons in a message. *)
Fixpoint colons (s : string) : nat :=
  match s with
  | String c s' => (if Ascii.eqb c ":"%char then 1 else 0)%nat + colons s'
  | EmptyString => 0%nat
  end.

(** A platform to run the model on concrete inputs: [std::hash] on integers
    is the identity, as in libstdc++ and libc++; the three conversions of
    [double] are coarse stand-ins that keep whole seconds. *)
Definition sample_platform : Platform := {|
  stod := fun s => v <- stoul s ;; Ok (inject_Z v);
  show_double := fun q => to_string (Qfloor q);
  GetSeconds := fun t => Qmake t 1000000000;
  hash_u32 := fun x => x;
  hash_u64 := fun x => x
|}.

(** ** The single-file draft, [p2p-gossip-simulation.cc] *)

Module Mono.

Record P2PNode : Type := mkNode {
  m_id : Z;
  m_peers : list Z;
  m_processedShares : list Share;
  m_sharesSent : Z;
  m_sharesReceived : Z;
  m_sharesGenerated : Z;
  m_sharesForwarded : Z
}.

(** What a node asks of the rest of the simulation: a call of the
    [m_onSendShare] callback, or a [Simulator::Schedule] of its next
    [GenerateAndGossipShare] (the delay, drawn in [2, 5), is left out). *)
Inductive Action : Type :=
| ASend (peerId : Z) (msg : string)
| ASchedule.

Definition new_P2PNode (id : Z) : P2PNode :=
  mkNode id [] [] 0 0 0 0.

(** [std::unordered_set<Share>]: membership is decided by
    [Share::operator==]; [insert] keeps the element already there. *)
Definition processed_find (share : Share) (set : list Share) : bool :=
  existsb (Share_eq share) set.

Definition processed_insert (share : Share) (set : list Share)
  : list Share :=
  if processed_find share set then set else set ++ [share].

Definition AddPeer (peerId : Z) (n : P2PNode) : P2PNode :=
  if bool_decide (peerId ∈ m_peers n) then n
  else mkNode (m_id n) (m_peers n ++ [peerId]) (m_processedShares n)
              (m_sharesSent n) (m_sharesReceived n) (m_sharesGenerated n)
              (m_sharesForwarded n).

Section Node.
Context `{Platform}.

Fixpoint gossip_loop (msg : string) (ps : list Z) (sent : Z)
  : Z * list Action :=
  match ps with
  | [] => (sent, [])
  | peerId :: ps' =>
      let '(sent', acts) := gossip_loop msg ps' (u32 (sent + 1)) in
      (sent', ASend peerId msg :: acts)
  end.

Definition GossipShareToPeers (share : Share) (n : P2PNode)
  : P2PNode * list Action :=
  let '(sent, acts) :=
    gossip_loop (ToString share) (m_peers n) (m_sharesSent n) in
  (mkNode (m_id n) (m_peers n) (m_processedShares n) sent
          (m_sharesReceived n) (m_sharesGenerated n)
          (m_sharesForwarded n), acts).

(** The share [GenerateAndGossipShare] creates; [now] is
    [Simulator::Now()] in time steps. *)
Definition new_share (now : Z) (n : P2PNode) : Share :=
  mkShare (m_id n) (m_sharesGenerated n) (GetSeconds now) {[ m_id n ]}.

Definition GenerateAndGossipShare (now : Z) (n : P2PNode)
  : P2PNode * list Action :=
  match m_peers n with
  | [] => (n, [ASchedule])
  | _ =>
      let share := new_share now n in
      let n1 := mkNode (m_id n) (m_peers n)
                       (processed_insert share (m_processedShares n))
                       (m_sharesSent n) (m_sharesReceived n)
                       (u32 (m_sharesGenerated n + 1))
                       (m_sharesForwarded n) in
      let '(n2, acts) := GossipShareToPeers share n1 in
      (n2, acts ++ [ASchedule])
  end.

Definition ReceiveShare (uninit : Share) (shareMsg : string)
                        (n : P2PNode)
  : result (P2PNode * list Action) :=
  let received := u32 (m_sharesReceived n + 1) in
  share <- FromString uninit shareMsg ;;
  if processed_find share (m_processedShares n) then
    Ok (mkNode (m_id n) (m_peers n) (m_processedShares n)
               (m_sharesSent n) received (m_sharesGenerated n)
               (m_sharesForwarded n), [])
  else
    let n1 := mkNode (m_id n) (m_peers n)
                     (processed_insert share (m_processedShares n))
                     (m_sharesSent n) received (m_sharesGenerated n)
                     (u32 (m_sharesForwarded n + 1)) in
    let share' := mkShare (originNodeId share) (shareId share)
                          (timestamp share)
                          ({[ m_id n ]} ∪ nodesVisited share) in
    Ok (GossipShareToPeers share' n1).

(** The callbacks that reach one node during a run. *)
Inductive Event : Type :=
| EvAddPeer (peerId : Z)
| EvGenerate (now : Z)
| EvReceive (shareMsg : string).

Definition step (uninit : Share) (ev : Event) (n : P2PNode)
  : result (P2PNode * list Action) :=
  match ev with
  | EvAddPeer peerId => Ok (AddPeer peerId n, [])
  | EvGenerate now => Ok (GenerateAndGossipShare now n)
  | EvReceive shareMsg => ReceiveShare uninit shareMsg n
  end.

Fixpoint run (uninit : Share) (evs : list Event) (n : P2PNode)
  : result (P2PNode * list Action) :=
  match evs with
  | [] => Ok (n, [])
  | ev :: evs' =>
      r1 <- step uninit ev n ;;
      let '(n1, acts1) := r1 in
      r2 <- run uninit evs' n1 ;;
      let '(n2, acts2) := r2 in
      Ok (n2, acts1 ++ acts2)
  end.

End Node.

(** *** The simulation object: nodes and links *)

(** The devices and the channel of a link are ns-3 handles; the delay the
    channel was created with stands for them. *)
Record ConnectionInfo : Type := mkConn {
  channelDelayMs : double
}.

Record Simulation : Type := mkSim {
  m_p2pNodes : list P2PNode;
  m_connections : gmap (Z * Z) ConnectionInfo
}.

Definition new_Simulation (numNodes : Z) : Simulation :=
  mkSim (new_P2PNode <$> seqZ 0 numNodes) ∅.

(** [m_nodes.GetN()]: the node container is parallel to [m_p2pNodes]. *)
Definition GetN (sim : Simulation) : Z :=
  Z.of_nat (length (m_p2pNodes sim)).

Definition in_range (sim : Simulation) (i : Z) : bool :=
  (0 <=? i) && (i <? GetN sim).

(** Indexing past the end of the containers is undefined: [None].  The
    address [10.(i+1).(j+1).0] goes to the ns-3 address helper and is
    left to it. *)
Definition ConnectNodes (i j : Z) (latencyMs : double) (sim : Simulation)
  : option Simulation :=
  if in_range sim i && in_range sim j then
    Some (mkSim (alter (AddPeer i) (Z.to_nat j)
                       (alter (AddPeer j) (Z.to_nat i) (m_p2pNodes sim)))
                (<[ (i, j) := mkConn latencyMs ]> (m_connections sim)))
  else None.

(** The random engine: what the [k]-th use of a distribution returns. *)
Record Rng : Type := mkRng {
  uniform_real : nat -> double;
  uniform_int : nat -> Z -> Z -> Z
}.

Definition Qltb (x y : Q) : bool := negb (Qle_bool y x).

Section Topology.
Variable rng : Rng.
Variable connectionProbability : double.
Variable latency : double.

(** The inner loop over [j = i + 1 .. numNodes - 1]. *)
Fixpoint connect_row (i : Z) (js : list Z) (st : Simulation * nat)
  : option (Simulation * nat) :=
  match js with
  | [] => Some st
  | j :: js' =>
      let '(sim, k) := st in
      st' ← (if Qltb (uniform_real rng k) connectionProbability
             then sim' ← ConnectNodes i j latency sim; Some (sim', S k)
             else Some (sim, S k));
      connect_row i js' st'
  end.

Fixpoint connect_rows (n : Z) (rows : list Z) (st : Simulation * nat)
  : option (Simulation * nat) :=
  match rows with
  | [] => Some st
  | i :: rows' =>
      st' ← connect_row i (seqZ (i + 1) (n - (i + 1))) st;
      connect_rows n rows' st'
  end.

(** [while (j == i) j = nodeDist(rng);], at most [fuel] more draws. *)
Fixpoint pick_other (fuel : nat) (n i j : Z) (k : nat)
  : option (Z * nat) :=
  if j =? i then
    match fuel with
    | O => None
    | S fuel' =>
        pick_other fuel' n i (uniform_int rng k 0 (u32 (n - 1))) (S k)
    end
  else Some (j, k).

Fixpoint ensure_peers (fuel : nat) (n : Z) (rows : list Z)
                      (st : Simulation * nat)
  : option (Simulation * nat) :=
  match rows with
  | [] => Some st
  | i :: rows' =>
      let '(sim, k) := st in
      node ← m_p2pNodes sim !! Z.to_nat i;
      st' ← (match m_peers node with
             | [] =>
                 let j := uniform_int rng k 0 (u32 (n - 1)) in
                 '(j', k') ← pick_other fuel n i j (S k);
                 sim' ← ConnectNodes i j' latency sim;
                 Some (sim', k')
             | _ => Some st
             end);
      ensure_peers fuel n rows' st'
  end.

(** [CreateRandomTopology]; what follows the two passes (sockets and
    routing tables) belongs to the transport. *)
Definition CreateRandomTopology (fuel : nat) (sim : Simulation)
  : option Simulation :=
  let numNodes := GetN sim in
  st1 ← connect_rows numNodes (seqZ 0 numNodes) (sim, O);
  st2 ← ensure_peers fuel numNodes (seqZ 0 numNodes) st1;
  Some (fst st2).

End Topology.

End Mono.

(** ** The socket draft, [p2pnode.cc] and [p2pnetwork.cc] *)

Module Tcp.

(** A [Ptr<Socket>] is named after how it came to be. *)
Inductive Socket : Type :=
| ServerSocket (node : Z)
| ClientSocket (local remote : Z)
| AcceptedSocket (local remote : Z).

(** [p2pnode.h] is not among the sources: the members are the ones
    [p2pnode.cc] uses, with the types its calls fix.  [processedShares]
    holds what [insert(share.shareId)] puts there, 32 bit share ids. *)
Record P2PNode : Type := mkNode {
  id : Z;
  peers : list Z;
  peersockets : gmap Z Socket;
  serverSocket : option Socket;
  processedShares : gset Z;
  sharesSent : Z;
  sharesReceived : Z;
  sharesGenerated : Z;
  sharesForwarded : Z;
  isrunning : bool
}.

(** Calls into the transport and the scheduler; the delay of a scheduled
    [GenerateAndGossipShare], drawn in [2, 5), is left out. *)
Inductive Action : Type :=
| ASend (peerId : Z) (sock : Socket) (msg : string) (bytesSent : Z)
| AClose (sock : Socket)
| ASchedule.

Definition new_P2PNode (i : Z) : P2PNode :=
  mkNode i [] ∅ None ∅ 0 0 0 0 false.

Definition set_peers (ps : list Z) (n : P2PNode) : P2PNode :=
  mkNode (id n) ps (peersockets n) (serverSocket n) (processedShares n)
         (sharesSent n) (sharesReceived n) (sharesGenerated n)
         (sharesForwarded n) (isrunning n).

Definition set_peersockets (m : gmap Z Socket) (n : P2PNode) : P2PNode :=
  mkNode (id n) (peers n) m (serverSocket n) (processedShares n)
         (sharesSent n) (sharesReceived n) (sharesGenerated n)
         (sharesForwarded n) (isrunning n).

Definition set_serverSocket (s : option Socket) (n : P2PNode) : P2PNode :=
  mkNode (id n) (peers n) (peersockets n) s (processedShares n)
         (sharesSent n) (sharesReceived n) (sharesGenerated n)
         (sharesForwarded n) (isrunning n).

Definition set_processedShares (p : gset Z) (n : P2PNode) : P2PNode :=
  mkNode (id n) (peers n) (peersockets n) (serverSocket n) p
         (sharesSent n) (sharesReceived n) (sharesGenerated n)
         (sharesForwarded n) (isrunning n).

Definition set_sharesSent (c : Z) (n : P2PNode) : P2PNode :=
  mkNode (id n) (peers n) (peersockets n) (serverSocket n)
         (processedShares n) c (sharesReceived n) (sharesGenerated n)
         (sharesForwarded n) (isrunning n).

Definition set_sharesReceived (c : Z) (n : P2PNode) : P2PNode :=
  mkNode (id n) (peers n) (peersockets n) (serverSocket n)
         (processedShares n) (sharesSent n) c (sharesGenerated n)
         (sharesForwarded n) (isrunning n).

Definition set_sharesGenerated (c : Z) (n : P2PNode) : P2PNode :=
  mkNode (id n) (peers n) (peersockets n) (serverSocket n)
         (processedShares n) (sharesSent n) (sharesReceived n) c
         (sharesForwarded n) (isrunning n).

Definition set_sharesForwarded (c : Z) (n : P2PNode) : P2PNode :=
  mkNode (id n) (peers n) (peersockets n) (serverSocket n)
         (processedShares n) (sharesSent n) (sharesReceived n)
         (sharesGenerated n) c (isrunning n).

Definition set_isrunning (b : bool) (n : P2PNode) : P2PNode :=
  mkNode (id n) (peers n) (peersockets n) (serverSocket n)
         (processedShares n) (sharesSent n) (sharesReceived n)
         (sharesGenerated n) (sharesForwarded n) b.

Definition SetupServerSocket (n : P2PNode) : P2PNode :=
  set_serverSocket (Some (ServerSocket (id n))) n.

(** [Stop]: the sockets are closed as the map enumerates them. *)
Definition Stop (n : P2PNode) : P2PNode * list Action :=
  (set_peersockets ∅ (set_isrunning false n),
   match serverSocket n with
   | Some s => [AClose s]
   | None => []
   end ++ (AClose <$> (map_to_list (peersockets n)).*2)).

Definition AddPeer (peerId : Z) (n : P2PNode) : P2PNode :=
  if bool_decide (peerId ∈ peers n) then n
  else set_peers (peers n ++ [peerId]) n.

Definition AddPeerSocket (peerId : Z) (socket : Socket) (n : P2PNode)
  : P2PNode :=
  set_peersockets (<[ peerId := socket ]> (peersockets n)) n.

Definition StartGeneratingShares (n : P2PNode) : P2PNode * list Action :=
  (set_isrunning true n, [ASchedule]).

Section Node.
Context `{Platform}.

(** [peerSocket->Send(packet)]: what the [k]-th call of the run returns,
    the number of bytes taken or a negative error code. *)
Variable Send : nat -> Socket -> string -> Z.

(** The 64 bit seed of [GenerateUniqueShareId]. *)
Definition share_seed (now : Z) (n : P2PNode) : Z :=
  u64 (u64 (id n * 1000000) + u64 (sharesGenerated n * 1000) +
       u64 (Z.rem now 1000)).

Definition GenerateUniqueShareId (now : Z) (n : P2PNode) : Z :=
  u32 (hash_u64 (share_seed now n)).

(** The share [GenerateAndGossipShare] creates. *)
Definition new_share (now : Z) (n : P2PNode) : Share :=
  mkShare (id n) (GenerateUniqueShareId now n) (GetSeconds now) ∅.

Fixpoint gossip_loop (msg : string) (ps : list Z)
                     (socks : gmap Z Socket) (sent : Z) (k : nat)
  : gmap Z Socket * Z * nat * list Action :=
  match ps with
  | [] => (socks, sent, k, [])
  | peerId :: ps' =>
      match socks !! peerId with
      | None => gossip_loop msg ps' socks sent k
      | Some peerSocket =>
          let bytesSent := Send k peerSocket msg in
          let '(socks', sent', k', acts) :=
            if 0 <? bytesSent
            then gossip_loop msg ps' socks (u32 (sent + 1)) (S k)
            else gossip_loop msg ps' (delete peerId socks) sent (S k) in
          (socks', sent', k',
           ASend peerId peerSocket msg bytesSent :: acts)
      end
  end.

Definition GossipShareToPeers (share : Share) (n : P2PNode) (k : nat)
  : P2PNode * nat * list Action :=
  let '(socks, sent, k', acts) :=
    gossip_loop (ToString share) (peers n) (peersockets n)
                (sharesSent n) k in
  (set_sharesSent sent (set_peersockets socks n), k', acts).

Definition GenerateAndGossipShare (now : Z) (n : P2PNode) (k : nat)
  : P2PNode * nat * list Action :=
  match peers n with
  | [] => (n, k, [ASchedule])
  | _ =>
      if negb (isrunning n) then (n, k, [])
      else
        let share := new_share now n in
        let n1 := set_sharesGenerated (u32 (sharesGenerated n + 1)) n in
        let n2 := set_processedShares
                    ({[ shareId share ]} ∪ processedShares n1) n1 in
        let '(n3, k', acts) := GossipShareToPeers share n2 k in
        (n3, k', acts ++ [ASchedule])
  end.

(** The part of [ReceiveShare] after the registration branch. *)
Definition process_share (uninit : Share) (shareMsg : string)
                         (n : P2PNode) (k : nat)
  : result (P2PNode * nat * list Action) :=
  let n1 := set_sharesReceived (u32 (sharesReceived n + 1)) n in
  share <- FromString uninit shareMsg ;;
  if bool_decide (shareId share ∈ processedShares n1) then Ok (n1, k, [])
  else
    let n2 := set_processedShares
                ({[ shareId share ]} ∪ processedShares n1) n1 in
    let n3 := set_sharesForwarded (u32 (sharesForwarded n2 + 1)) n2 in
    Ok (GossipShareToPeers share n3 k).

Definition ReceiveShare (uninit : Share) (shareMsg : string)
                        (socket : Socket) (n : P2PNode) (k : nat)
  : result (P2PNode * nat * list Action) :=
  if find shareMsg "REGISTER:"%string 0 =? 0 then
    let colonPos := find shareMsg ":"%string 0 in
    if negb (colonPos =? npos) then
      field <- substr shareMsg (u64 (colonPos + 1)) npos ;;
      v <- stoul field ;;
      let peerId := u32 v in
      Ok (set_peers (peers n ++ [peerId])
            (set_peersockets (<[ peerId := socket ]> (peersockets n)) n),
          k, [])
    else process_share uninit shareMsg n k
  else process_share uninit shareMsg n k.

(** The callbacks that reach one node during a run. *)
Inductive Event : Type :=
| EvSetupServerSocket
| EvAddPeer (peerId : Z)
| EvAddPeerSocket (peerId : Z) (socket : Socket)
| EvStart
| EvStop
| EvGenerate (now : Z)
| EvReceive (shareMsg : string) (socket : Socket).

Definition step (uninit : Share) (ev : Event) (n : P2PNode) (k : nat)
  : result (P2PNode * nat * list Action) :=
  match ev with
  | EvSetupServerSocket => Ok (SetupServerSocket n, k, [])
  | EvAddPeer peerId => Ok (AddPeer peerId n, k, [])
  | EvAddPeerSocket peerId socket =>
      Ok (AddPeerSocket peerId socket n, k, [])
  | EvStart => let '(n', acts) := StartGeneratingShares n in
               Ok (n', k, acts)
  | EvStop => let '(n', acts) := Stop n in Ok (n', k, acts)
  | EvGenerate now => Ok (GenerateAndGossipShare now n k)
  | EvReceive shareMsg socket => ReceiveShare uninit shareMsg socket n k
  end.

Fixpoint run (uninit : Share) (evs : list Event) (n : P2PNode) (k : nat)
  : result (P2PNode * nat * list Action) :=
  match evs with
  | [] => Ok (n, k, [])
  | ev :: evs' =>
      r1 <- step uninit ev n k ;;
      let '(n1, k1, acts1) := r1 in
      r2 <- run uninit evs' n1 k1 ;;
      let '(n2, k2, acts2) := r2 in
      Ok (n2, k2, acts1 ++ acts2)
  end.

End Node.

(** *** [P2PGossipNetworkSimulation] of [p2pnetwork.cc] *)

(** The devices, the channel and the interfaces of a link are ns-3
    handles; the delay the channel was created with stands for them. *)
Record ConnectionInfo : Type := mkConn {
  channelDelayMs : double
}.

Record Network : Type := mkNet {
  p2pNodes : list P2PNode;
  connections : gmap (Z * Z) ConnectionInfo
}.

Definition new_Network (numNodes : Z) : Network :=
  mkNet (new_P2PNode <$> seqZ 0 numNodes) ∅.

(** [nodes.GetN()]: the node container is parallel to [p2pNodes]. *)
Definition GetN (net : Network) : Z :=
  Z.of_nat (length (p2pNodes net)).

Definition in_range (net : Network) (i : Z) : bool :=
  (0 <=? i) && (i <? GetN net).

(** [ConnectNodes]: [nodes.Get] past the end is undefined, [None]; the
    address of the link is left to the ns-3 address helper. *)
Definition ConnectNodes (i j : Z) (latencyMs : double) (net : Network)
  : option Network :=
  if in_range net i && in_range net j then
    Some (mkNet (p2pNodes net)
                (<[ (i, j) := mkConn latencyMs ]> (connections net)))
  else None.

Section Topology.
(** What the [k]-th call of [dist(rng)] returns. *)
Variable uniform_real : nat -> double.
Variable connectionProbability : double.
Variable latency : double.

(** The inner loop over [j = i + 1 .. numNodes - 1], with the flag
    [connected]. *)
Fixpoint connect_row (i : Z) (js : list Z)
                     (st : Network * nat * bool)
  : option (Network * nat * bool) :=
  match js with
  | [] => Some st
  | j :: js' =>
      let '(net, k, connected) := st in
      st' ← (if Mono.Qltb (uniform_real k) connectionProbability
             then net' ← ConnectNodes i j latency net;
                  Some (net', S k, true)
             else Some (net, S k, connected));
      connect_row i js' st'
  end.

Fixpoint connect_rows (n : Z) (rows : list Z) (st : Network * nat)
  : option (Network * nat) :=
  match rows with
  | [] => Some st
  | i :: rows' =>
      let '(net, k) := st in
      '(net1, k1, connected) ←
        connect_row i (seqZ (i + 1) (n - (i + 1))) (net, k, false);
      net2 ← (if negb connected then
                if (i =? 0) && (0 <? n)
                then ConnectNodes 0 1 latency net1
                else ConnectNodes i (u32 (i - 1)) latency net1
              else Some net1);
      connect_rows n rows' (net2, k1)
  end.

(** [CreateRandomTopology], up to the point where it schedules
    [makeconnections] five seconds later. *)
Definition CreateRandomTopology (net : Network) : option Network :=
  let numNodes := GetN net in
  '(net1, _) ← connect_rows numNodes (seqZ 0 numNodes) (net, O);
  Some (mkNet (SetupServerSocket <$> p2pNodes net1) (connections net1)).

End Topology.

(** A packet on its way: sent by [msg_from] on a socket connected to the
    server port of [msg_to]. *)
Record Message : Type := mkMsg {
  msg_from : Z;
  msg_to : Z;
  msg_text : string
}.

(** [ConnectPeerSockets]. *)
Definition ConnectPeerSockets (i j : Z) (net : Network)
  : option (Network * Message) :=
  if in_range net i then
    let socket := ClientSocket i j in
    let reg := ("REGISTER:" ++ to_string i)%string in
    Some (mkNet (alter (fun n => AddPeer j (AddPeerSocket j socket n))
                       (Z.to_nat i) (p2pNodes net))
                (connections net),
          mkMsg i j reg)
  else None.

(** The order of the keys of [std::map<std::pair<uint32_t, uint32_t>, _>]. *)
Definition key_le (a b : Z * Z) : Prop :=
  a.1 < b.1 ∨ (a.1 = b.1 ∧ a.2 <= b.2).

#[global] Instance key_le_dec : RelDecision key_le.
Proof. intros a b. unfold key_le. apply _. Defined.

Definition connection_keys (net : Network) : list (Z * Z) :=
  merge_sort key_le (map_to_list (connections net)).*1.

Fixpoint connect_all (keys : list (Z * Z)) (net : Network)
  : option (Network * list Message) :=
  match keys with
  | [] => Some (net, [])
  | (i, j) :: keys' =>
      '(net1, m) ← ConnectPeerSockets i j net;
      '(net2, ms) ← connect_all keys' net1;
      Some (net2, m :: ms)
  end.

(** [makeconnections], with the registration packets it sends. *)
Definition makeconnections (net : Network)
  : option (Network * list Message) :=
  connect_all (connection_keys net) net.

Section Delivery.
Context `{Platform}.
Variable Send : nat -> Socket -> string -> Z.
Variable uninit : Share.

(** The transport hands a packet to its destination: [HandleRead] on
    the socket the destination accepted calls [ReceiveShare].  A packet
    for a node that does not exist is never delivered. *)
Definition deliver (m : Message) (st : Network * nat)
  : result (Network * nat * list Action) :=
  let '(net, k) := st in
  match p2pNodes net !! Z.to_nat (msg_to m) with
  | Some n =>
      r <- ReceiveShare Send uninit (msg_text m)
             (AcceptedSocket (msg_to m) (msg_from m)) n k ;;
      let '(n', k', acts) := r in
      Ok (mkNet (<[ Z.to_nat (msg_to m) := n' ]> (p2pNodes net))
                (connections net), k', acts)
  | None => Ok (net, k, [])
  end.

Fixpoint deliver_all (ms : list Message) (st : Network * nat)
  : result (Network * nat * list Action) :=
  match ms with
  | [] => Ok (st, [])
  | m :: ms' =>
      r1 <- deliver m st ;;
      let '(net1, k1, acts1) := r1 in
      r2 <- deliver_all ms' (net1, k1) ;;
      let '(net2, k2, acts2) := r2 in
      Ok (net2, k2, acts1 ++ acts2)
  end.

End Delivery.

End Tcp.

(** ** Vocabulary of the properties *)

Module Trace.
Import Tcp.

(** A send that the transport took. *)
Definition succeeded (a : Action) : bool :=
  match a with
  | ASend _ _ _ bytesSent => 0 <? bytesSent
  | _ => false
  end.

(** A send addressed to [p]. *)
Definition sent_to (p : Z) (a : Action) : bool :=
  match a with
  | ASend q _ _ _ => bool_decide (q = p)
  | _ => false
  end.

(** A send to [p] that the transport refused. *)
Definition failed_to (p : Z) (a : Action) : bool :=
  sent_to p a && negb (succeeded a).

Definition is_receive (ev : Event) : bool :=
  match ev with
  | EvReceive _ _ => true
  | _ => false
  end.

Definition is_start (ev : Event) : bool :=
  match ev with
  | EvStart => true
  | _ => false
  end.

Definition mono_is_receive (ev : Mono.Event) : bool :=
  match ev with
  | Mono.EvReceive _ => true
  | _ => false
  end.

(** How many events of a run are packets handed to the node. *)
Definition receives (evs : list Event) : Z :=
  Z.of_nat (length (filter is_receive evs)).

Definition mono_receives (evs : list Mono.Event) : Z :=
  Z.of_nat (length (filter mono_is_receive evs)).

(** One [++] on a 32 bit counter. *)
Definition bump (c : Z) : Z := u32 (c + 1).

(** What one flood leaves behind: the counter, the number of calls of
    [Send], the socket map and the sends themselves. *)
Definition gossip_post (msg : string) (ps : list Z)
    (socks : gmap Z Socket) (sent : Z) (k : nat)
    (socks' : gmap Z Socket) (sent' : Z) (k' : nat) (acts : list Action)
  : Prop :=
  u32 sent' = u32 (sent + Z.of_nat (length (filter succeeded acts))) /\
  k' = (k + length acts)%nat /\
  (forall p, socks' !! p =
             if existsb (failed_to p) acts then None else socks !! p) /\
  Forall (fun a => exists p s b,
            a = ASend p s msg b /\ p ∈ ps /\ socks !! p = Some s) acts /\
  (forall p s, p ∈ ps -> socks !! p = Some s ->
               exists b, ASend p s msg b ∈ acts) /\
  (forall a1 a a2 p, acts = a1 ++ a :: a2 -> failed_to p a = true ->
                     existsb (sent_to p) a2 = false).

(** The shares a run of the single-file draft creates, in order. *)
Fixpoint mono_created `{Platform} (uninit : Share) (evs : list Mono.Event)
                      (n : Mono.P2PNode) : list Share :=
  match evs with
  | [] => []
  | ev :: evs' =>
      match ev, Mono.m_peers n with
      | Mono.EvGenerate now, _ :: _ => [Mono.new_share now n]
      | _, _ => []
      end ++
      match Mono.step uninit ev n with
      | Ok (n', _) => mono_created uninit evs' n'
      | Throw _ => []
      end
  end.

(** The shares a run of [p2pnode.cc] creates, each with the seed that
    [GenerateUniqueShareId] hashed for it. *)
Fixpoint created `{Platform} (Send : nat -> Socket -> string -> Z)
                 (uninit : Share) (evs : list Event) (n : P2PNode) (k : nat)
  : list (Z * Share) :=
  match evs with
  | [] => []
  | ev :: evs' =>
      match ev, peers n, isrunning n with
      | EvGenerate now, _ :: _, true => [(share_seed now n, new_share now n)]
      | _, _, _ => []
      end ++
      match step Send uninit ev n k with
      | Ok (n', k', _) => created Send uninit evs' n' k'
      | Throw _ => []
      end
  end.

(** No generation event of the run fires at a negative time. *)
Definition times_nonneg (evs : list Event) : Prop :=
  Forall (fun ev => match ev with EvGenerate now => 0 <= now | _ => True end)
         evs.

End Trace.

Module Graph.

(** The peer list of node [a], empty when there is no such node. *)
Definition mono_peers_of (sim : Mono.Simulation) (a : Z) : list Z :=
  if Mono.in_range sim a then
    match Mono.m_p2pNodes sim !! Z.to_nat a with
    | Some n => Mono.m_peers n
    | None => []
    end
  else [].

Definition peers_of (net : Tcp.Network) (a : Z) : list Z :=
  if Tcp.in_range net a then
    match Tcp.p2pNodes net !! Z.to_nat a with
    | Some n => Tcp.peers n
    | None => []
    end
  else [].

Definition opt_peers (o : option Mono.P2PNode) : list Z :=
  match o with
  | Some n => Mono.m_peers n
  | None => []
  end.

(** Every link of the table is in the peer lists of both its ends. *)
Definition mono_symmetric (sim : Mono.Simulation) : Prop :=
  forall a b, is_Some (Mono.m_connections sim !! (a, b)) ->
              b ∈ mono_peers_of sim a /\ a ∈ mono_peers_of sim b.

Definition symmetric (net : Tcp.Network) : Prop :=
  forall a b, is_Some (Tcp.connections net !! (a, b)) ->
              b ∈ peers_of net a /\ a ∈ peers_of net b.

(** Same nodes, and no peer list lost an entry. *)
Definition mono_extends (sim sim' : Mono.Simulation) : Prop :=
  Mono.GetN sim' = Mono.GetN sim /\
  forall a x, x ∈ mono_peers_of sim a -> x ∈ mono_peers_of sim' a.

Definition extends (net net' : Tcp.Network) : Prop :=
  Tcp.GetN net' = Tcp.GetN net /\
  forall a x, x ∈ peers_of net a -> x ∈ peers_of net' a.

(** Every uniform integer draw lies in the range of its distribution. *)
Definition draws_in_range (rng : Mono.Rng) (n : Z) : Prop :=
  forall m, 0 <= Mono.uniform_int rng m 0 (n - 1) < n.

(** Whatever node is asked for and however far the engine has run, a
    later draw is another node. *)
Definition fair (rng : Mono.Rng) (n : Z) : Prop :=
  forall i k, exists m, (k <= m)%nat /\ Mono.uniform_int rng m 0 (n - 1) <> i.

(** The packet [ConnectPeerSockets] sends for the link [key]. *)
Definition reg_packet (key : Z * Z) : Tcp.Message :=
  Tcp.mkMsg key.1 key.2 ("REGISTER:" ++ to_string key.1).

(** The ends of every link are nodes of the network. *)
Definition keys_in_range (net : Tcp.Network) : Prop :=
  forall a b, is_Some (Tcp.connections net !! (a, b)) ->
              0 <= a < Tcp.GetN net /\ 0 <= b < Tcp.GetN net.

End Graph.

(** ** Concrete inputs for the examples *)

Module Sample.

(** A default-initialised [Share] whose memory happened to hold zeros. *)
Definition zeros : Share := mkShare 0 0 0%Q ∅.

(** A default-initialised [Share] whose memory held something else. *)
Definition junk : Share := mkShare 3735928559 48879 2%Q ∅.

(** A transport that takes every packet whole. *)
Definition taken (k : nat) (sock : Tcp.Socket) (msg : string) : Z :=
  size msg.

(** A transport that refuses every packet for node 2. *)
Definition refuses_2 (k : nat) (sock : Tcp.Socket) (msg : string) : Z :=
  match sock with
  | Tcp.ClientSocket _ 2 => -1
  | _ => size msg
  end.

(** Draws of [dist(rng)] that are all one half. *)
Definition halves (k : nat) : double := (1 # 2)%Q.

(** A random engine whose integer draws walk through the range. *)
Definition walking : Mono.Rng :=
  Mono.mkRng halves (fun k lo hi => lo + Z.of_nat k mod (hi - lo + 1)).

(** With the range [0, 0] a uniform integer draw can only be 0. *)
Definition only_zero : Mono.Rng :=
  Mono.mkRng halves (fun k lo hi => lo).

(** Node 0 with the peers 1, 2, 3 and a socket to each. *)
Definition wired : Tcp.P2PNode :=
  Tcp.AddPeerSocket 3 (Tcp.ClientSocket 0 3)
    (Tcp.AddPeer 3
       (Tcp.AddPeerSocket 2 (Tcp.ClientSocket 0 2)
          (Tcp.AddPeer 2
             (Tcp.AddPeerSocket 1 (Tcp.ClientSocket 0 1)
                (Tcp.AddPeer 1 (Tcp.new_P2PNode 0)))))).

Definition mono_wired : Mono.P2PNode :=
  Mono.AddPeer 3 (Mono.AddPeer 2 (Mono.AddPeer 1 (Mono.new_P2PNode 0))).

End Sample.

(** ** Vocabulary of the wire format and of quiet nodes *)

Module Wire.

(** Both identity fields fit the 32 bits they have in [struct Share]. *)
Definition fits (S : Share) : Prop :=
  0 <= originNodeId S < 2 ^ 32 /\ 0 <= shareId S < 2 ^ 32.

(** [a] is a call of the send callback with the text of a share that is in
    the processed set [set]. *)
Definition mono_sends_processed `{Platform} (set : list Share)
    (a : Mono.Action) : Prop :=
  match a with
  | Mono.ASend _ msg =>
      exists S, msg = ToString S /\ fits S /\
                Mono.processed_find S set = true
  | Mono.ASchedule => True
  end.

Definition sends_processed `{Platform} (set : gset Z) (a : Tcp.Action)
  : Prop :=
  match a with
  | Tcp.ASend _ _ msg _ =>
      exists S, msg = ToString S /\ fits S /\ shareId S ∈ set
  | _ => True
  end.

End Wire.

Module Quiet.

(** An event that gives the node no socket: not [AddPeerSocket], and no
    packet that starts with [REGISTER:]. *)
Definition adds_no_socket (ev : Tcp.Event) : Prop :=
  match ev with
  | Tcp.EvAddPeerSocket _ _ => False
  | Tcp.EvReceive msg _ => find msg "REGISTER:" 0 <> 0
  | _ => True
  end.

Definition is_send (a : Tcp.Action) : bool :=
  match a with
  | Tcp.ASend _ _ _ _ => true
  | _ => false
  end.

End Quiet.

(** ** Vocabulary of the shape of the topology *)

Module Shape.
Import Graph.

(** There is a link between [a] and [b], whichever end it was made from. *)
Definition mono_linked (sim : Mono.Simulation) (a b : Z) : Prop :=
  is_Some (Mono.m_connections sim !! (a, b)) \/
  is_Some (Mono.m_connections sim !! (b, a)).

Definition linked (net : Tcp.Network) (a b : Z) : Prop :=
  is_Some (Tcp.connections net !! (a, b)) \/
  is_Some (Tcp.connections net !! (b, a)).

(** Every link joins two different nodes of the simulation and is recorded
    in one direction only. *)
Definition mono_links_simple (sim : Mono.Simulation) : Prop :=
  forall a b, is_Some (Mono.m_connections sim !! (a, b)) ->
    a <> b /\ 0 <= a < Mono.GetN sim /\ 0 <= b < Mono.GetN sim /\
    ~ is_Some (Mono.m_connections sim !! (b, a)).

(** The peer list of every node holds the nodes it is linked to, each
    once. *)
Definition mono_peers_exact (sim : Mono.Simulation) : Prop :=
  forall a, NoDup (mono_peers_of sim a) /\
            forall b, b ∈ mono_peers_of sim a <-> mono_linked sim a b.

(** The socket map of node [a], empty when there is no such node. *)
Definition sockets_of (net : Tcp.Network) (a : Z) : gmap Z Tcp.Socket :=
  if Tcp.in_range net a then
    match Tcp.p2pNodes net !! Z.to_nat a with
    | Some n => Tcp.peersockets n
    | None => ∅
    end
  else ∅.

(** Every link so far was recorded from its lower end. *)
Definition mono_ordered (sim : Mono.Simulation) : Prop :=
  forall a b, is_Some (Mono.m_connections sim !! (a, b)) -> a < b.

(** No link of the table joins a node to itself. *)
Definition links_distinct (net : Tcp.Network) : Prop :=
  forall a b, is_Some (Tcp.connections net !! (a, b)) -> a <> b.

End Shape.

(** ** The getters the statistics read *)

Module Stat.

(** [GetProcessedSharesCount] of [p2p-gossip-simulation.cc]: the list that
    stands for the set holds every element once. *)
Definition mono_GetProcessedSharesCount (n : Mono.P2PNode) : Z :=
  Z.of_nat (length (Mono.m_processedShares n)).

(** [GetProcessedSharesCount] and [GetPeerSocketsCount] of [p2pnode.cc]. *)
Definition GetProcessedSharesCount (n : Tcp.P2PNode) : Z :=
  Z.of_nat (base.size (Tcp.processedShares n)).

Definition GetPeerSocketsCount (n : Tcp.P2PNode) : Z :=
  Z.of_nat (base.size (Tcp.peersockets n)).

Definition mono_is_AddPeer (ev : Mono.Event) : bool :=
  match ev with
  | Mono.EvAddPeer _ => true
  | _ => false
  end.

End Stat.

(** ** The single-file draft as a network

    A node of [p2p-gossip-simulation.cc] sends through the callback
    [m_onSendShare], which the simulation object sets to
    [SendShareToPeer]; the transport hands each packet to [HandleRead] of
    the node it was sent to, which calls [ReceiveShare]. *)

Module MonoNet.
Import Mono.

(** A packet the transport holds: the node at which [SendShareToPeer]
    created the sending socket, the node it connected to, and the text. *)
Record Packet : Type := mkPacket {
  pkt_source : Z;
  pkt_dest : Z;
  pkt_text : string
}.

(** The simulation object with its message counter, and the packets that
    are on their way. *)
Record World : Type := mkWorld {
  w_sim : Simulation;
  m_totalMessagesSent : Z;
  in_flight : list Packet
}.

(** [SendShareToPeer].  The counter goes up first; the source node is read
    from the text between the first two colons; [m_nodes.Get] past the end
    of the container is undefined, [Ok None]. *)
Definition SendShareToPeer (peerId : Z) (message : string) (w : World)
  : result (option World) :=
  let total := u32 (m_totalMessagesSent w + 1) in
  let firstColon := find message ":"%string 0 in
  let secondColon := find message ":"%string (u64 (firstColon + 1)) in
  field <- substr message (u64 (firstColon + 1))
                  (u64 (secondColon - firstColon - 1)) ;;
  v <- stoul field ;;
  let sourceNodeId := u32 v in
  if in_range (w_sim w) peerId && in_range (w_sim w) sourceNodeId then
    Ok (Some (mkWorld (w_sim w) total
                (in_flight w ++ [mkPacket sourceNodeId peerId message])))
  else Ok None.

(** The calls of the callback one flood makes, in order. *)
Fixpoint send_all (acts : list Action) (w : World)
  : result (option World) :=
  match acts with
  | [] => Ok (Some w)
  | ASend peerId msg :: acts' =>
      r <- SendShareToPeer peerId msg w ;;
      match r with
      | Some w' => send_all acts' w'
      | None => Ok None
      end
  | ASchedule :: acts' => send_all acts' w
  end.

Definition put_node (a : Z) (n : P2PNode) (flight : list Packet)
                    (w : World) : World :=
  mkWorld (mkSim (<[ Z.to_nat a := n ]> (m_p2pNodes (w_sim w)))
                 (m_connections (w_sim w)))
          (m_totalMessagesSent w) flight.

(** What the simulator runs next: the generation event of node [a] at
    time [now], or the delivery of the [k]-th packet on its way. *)
Inductive NetEvent : Type :=
| NGenerate (a : Z) (now : Z)
| NDeliver (k : nat).

Section Net.
Context `{Platform}.

Definition net_step (uninit : Share) (ev : NetEvent) (w : World)
  : result (option World) :=
  match ev with
  | NGenerate a now =>
      if in_range (w_sim w) a then
        match m_p2pNodes (w_sim w) !! Z.to_nat a with
        | Some n =>
            let '(n', acts) := GenerateAndGossipShare now n in
            send_all acts (put_node a n' (in_flight w) w)
        | None => Ok None
        end
      else Ok None
  | NDeliver k =>
      match in_flight w !! k with
      | Some pkt =>
          if in_range (w_sim w) (pkt_dest pkt) then
            match m_p2pNodes (w_sim w) !! Z.to_nat (pkt_dest pkt) with
            | Some n =>
                r <- ReceiveShare uninit (pkt_text pkt) n ;;
                let '(n', acts) := r in
                send_all acts
                  (put_node (pkt_dest pkt) n' (delete k (in_flight w)) w)
            | None => Ok None
            end
          else Ok None
      | None => Ok (Some w)
      end
  end.

Fixpoint net_run (uninit : Share) (evs : list NetEvent) (w : World)
  : result (option World) :=
  match evs with
  | [] => Ok (Some w)
  | ev :: evs' =>
      r <- net_step uninit ev w ;;
      match r with
      | Some w' => net_run uninit evs' w'
      | None => Ok None
      end
  end.

End Net.

End MonoNet.

(** ** Vocabulary of floods across the network *)

Module Flood.
Import Mono MonoNet Wire.

(** The sum the statistics would get from [GetSharesSent] of all nodes. *)
Definition sent_sum (nodes : list P2PNode) : Z :=
  foldr (fun n acc => m_sharesSent n + acc) 0 nodes.

(** The calls of the send callback among the actions of a node. *)
Definition sends (acts : list Action) : list (Z * string) :=
  omap (fun a => match a with
                 | ASend p msg => Some (p, msg)
                 | ASchedule => None
                 end) acts.

(** Whatever the time stamp, its printed form is no longer than 2^32
    characters. *)
Definition prints_fit `{Platform} : Prop :=
  forall t, size (show_double t) <= 2 ^ 32.

(** Node [a] exists and has the share [S] in its processed set. *)
Definition holds (w : World) (a : Z) (S : Share) : Prop :=
  exists n, in_range (w_sim w) a = true /\
            m_p2pNodes (w_sim w) !! Z.to_nat a = Some n /\
            processed_find S (m_processedShares n) = true.

(** The text of the packet is the text of a share with the identity of
    [S]. *)
Definition carries `{Platform} (pkt : Packet) (S : Share) : Prop :=
  exists S', pkt_text pkt = ToString S' /\ fits S' /\
             identity S' = identity S.

(** [b] has [S], or a packet with it is on its way to [b]. *)
Definition covered `{Platform} (w : World) (b : Z) (S : Share) : Prop :=
  holds w b S \/
  exists pkt, pkt ∈ in_flight w /\ pkt_dest pkt = b /\ carries pkt S.

(** Every share a node holds has reached each of its peers or is on its
    way there; every packet is the text of a share, for a node that
    exists; the counters and the shares of every node fit 32 bits. *)
Definition flood_inv `{Platform} (w : World) : Prop :=
  (forall a S b, holds w a S -> b ∈ Graph.mono_peers_of (w_sim w) a ->
                 covered w b S) /\
  (forall pkt, pkt ∈ in_flight w ->
     in_range (w_sim w) (pkt_dest pkt) = true /\
     exists S', pkt_text pkt = ToString S' /\ fits S') /\
  (forall n, n ∈ m_p2pNodes (w_sim w) ->
     0 <= m_id n < 2 ^ 32 /\ 0 <= m_sharesGenerated n < 2 ^ 32 /\
     Forall fits (m_processedShares n)).

End Flood.

(** ** Concrete inputs for the network examples *)

Module Line.
Import Mono MonoNet.

(** Like [sample_platform], with the printed seconds capped so that every
    time stamp has a short text. *)
Definition capped_platform : Platform := {|
  stod := fun s => v <- stoul s ;; Ok (inject_Z v);
  show_double := fun q => to_string (Z.min (Qfloor q) 4294967295);
  GetSeconds := fun t => Qmake t 1000000000;
  hash_u32 := fun x => x;
  hash_u64 := fun x => x
|}.

(** Three nodes in a line, 0 - 1 - 2, nothing sent yet. *)
Definition line : World :=
  mkWorld
    (mkSim [AddPeer 1 (new_P2PNode 0);
            AddPeer 2 (AddPeer 0 (new_P2PNode 1));
            AddPeer 1 (new_P2PNode 2)]
           (<[ (1, 2) := mkConn 5%Q ]> (<[ (0, 1) := mkConn 5%Q ]> ∅)))
    0 [].

(** Node 0 creates a share, and the transport delivers packet after
    packet until none is left. *)
Definition one_flood : list NetEvent :=
  [NGenerate 0 5000000000; NDeliver 0; NDeliver 0; NDeliver 0; NDeliver 0].

End Line.

(** ** [SetupNetAnim], the same in both drafts *)

Module NetAnim.

(** The colours of [UpdateNodeColor]. *)
Inductive Colour : Type :=
| Red
| Green
| Blue.

(** What the animation is told about one node. *)
Record NodeAnim : Type := mkAnim {
  anim_x : double;
  anim_y : double;
  anim_description : string;
  anim_colour : Colour
}.

(** [std::ceil(std::sqrt(numNodes))]: the square root of a 32 bit number
    is computed in [double], which is exact enough for the ceiling to be
    the integer one. *)
Definition gridSize (numNodes : Z) : Z := Z.sqrt_up numNodes.

Definition colour_of (degree : Z) : Colour :=
  if 4 <? degree then Red
  else if 2 <? degree then Green
  else Blue.

Definition node_anim (gridSize : Z) (i : nat) (degree : Z) : NodeAnim :=
  let row := Z.of_nat i / gridSize in
  let col := Z.of_nat i mod gridSize in
  mkAnim (100 * inject_Z col)%Q (100 * inject_Z row)%Q
         ("Node " ++ to_string (Z.of_nat i))
         (colour_of degree).

(** [SetupNetAnim] on the peer counts of the nodes.  It begins with
    [m_nodes.Get(0)], which is undefined without a node: [None]. *)
Definition SetupNetAnim (degrees : list Z) : option (list NodeAnim) :=
  let numNodes := Z.of_nat (length degrees) in
  if numNodes =? 0 then None
  else Some (imap (node_anim (gridSize numNodes)) degrees).

Definition mono_SetupNetAnim (sim : Mono.Simulation)
  : option (list NodeAnim) :=
  SetupNetAnim ((fun n => Z.of_nat (length (Mono.m_peers n)))
                <$> Mono.m_p2pNodes sim).

Definition tcp_SetupNetAnim (net : Tcp.Network) : option (list NodeAnim) :=
  SetupNetAnim ((fun n => Z.of_nat (length (Tcp.peers n)))
                <$> Tcp.p2pNodes net).

End NetAnim.

(** ** The socket draft as a network

    What a node of [p2pnode.cc] sends on a socket, the transport hands to
    [HandleRead] on the socket at the other end, which calls
    [ReceiveShare]; [Start] and [StopAllNodes] of [p2pnetwork.cc] start
    and stop every node.  As in [Tcp.deliver], [RecvFrom] is taken to
    return the packets one by one, as they were sent; when and in which
    order they arrive is left to the events of a run. *)

Module TcpNet.
Import Tcp.

(** The node at the other end of a connected socket. *)
Definition remote (s : Socket) : option Z :=
  match s with
  | ServerSocket _ => None
  | ClientSocket _ r => Some r
  | AcceptedSocket _ r => Some r
  end.

(** The socket at the other end. *)
Definition far_end (s : Socket) : Socket :=
  match s with
  | ServerSocket n => ServerSocket n
  | ClientSocket l r => AcceptedSocket r l
  | AcceptedSocket l r => ClientSocket r l
  end.

(** A packet on its way: the socket it was sent on, and its text. *)
Record Segment : Type := mkSegment {
  seg_socket : Socket;
  seg_text : string
}.

(** The network, the number of calls of [Send] so far, and the packets on
    their way. *)
Record World : Type := mkWorld {
  w_net : Network;
  w_calls : nat;
  on_wire : list Segment
}.

(** The sends the transport took. *)
Definition segments (acts : list Action) : list Segment :=
  omap (fun a => match a with
                 | ASend _ sock msg bytesSent =>
                     if 0 <? bytesSent then Some (mkSegment sock msg)
                     else None
                 | _ => None
                 end) acts.

Definition put_node (a : Z) (n : P2PNode) (k : nat)
                    (wire : list Segment) (w : World) : World :=
  mkWorld (mkNet (<[ Z.to_nat a := n ]> (p2pNodes (w_net w)))
                 (connections (w_net w)))
          k wire.

(** The loop of [Start] over the nodes. *)
Definition StartAll (net : Network) : Network :=
  mkNet ((fun n => (StartGeneratingShares n).1) <$> p2pNodes net)
        (connections net).

(** [StopAllNodes], with the sockets it closes. *)
Definition StopAllNodes (net : Network) : Network * list Action :=
  (mkNet ((fun n => (Stop n).1) <$> p2pNodes net) (connections net),
   concat ((fun n => (Stop n).2) <$> p2pNodes net)).

(** What the simulator runs next. *)
Inductive NetEvent : Type :=
| NStart
| NStopAllNodes
| NGenerate (a : Z) (now : Z)
| NDeliver (i : nat).

Section Net.
Context `{Platform}.
Variable Send : nat -> Socket -> string -> Z.
Variable uninit : Share.

Definition net_step (ev : NetEvent) (w : World) : result (option World) :=
  match ev with
  | NStart => Ok (Some (mkWorld (StartAll (w_net w)) (w_calls w) (on_wire w)))
  | NStopAllNodes =>
      Ok (Some (mkWorld (StopAllNodes (w_net w)).1 (w_calls w) (on_wire w)))
  | NGenerate a now =>
      if in_range (w_net w) a then
        match p2pNodes (w_net w) !! Z.to_nat a with
        | Some n =>
            let '(n', k', acts) :=
              GenerateAndGossipShare Send now n (w_calls w) in
            Ok (Some (put_node a n' k' (on_wire w ++ segments acts) w))
        | None => Ok None
        end
      else Ok None
  | NDeliver i =>
      match on_wire w !! i with
      | Some seg =>
          match remote (seg_socket seg) with
          | Some d =>
              if in_range (w_net w) d then
                match p2pNodes (w_net w) !! Z.to_nat d with
                | Some n =>
                    r <- ReceiveShare Send uninit (seg_text seg)
                           (far_end (seg_socket seg)) n (w_calls w) ;;
                    let '(n', k', acts) := r in
                    Ok (Some (put_node d n' k'
                                (delete i (on_wire w) ++ segments acts) w))
                | None => Ok None
                end
              else Ok None
          | None => Ok None
          end
      | None => Ok (Some w)
      end
  end.

Fixpoint net_run (evs : list NetEvent) (w : World)
  : result (option World) :=
  match evs with
  | [] => Ok (Some w)
  | ev :: evs' =>
      r <- net_step ev w ;;
      match r with
      | Some w' => net_run evs' w'
      | None => Ok None
      end
  end.

End Net.

End TcpNet.

Module TcpFlood.
Import Tcp TcpNet Wire.

(** Node [b] exists and has the share id [x] in its processed set. *)
Definition holds (w : World) (b : Z) (x : Z) : Prop :=
  exists n, in_range (w_net w) b = true /\
            p2pNodes (w_net w) !! Z.to_nat b = Some n /\
            x ∈ processedShares n.

(** The text of the packet is the text of a share with the id [x]. *)
Definition carries `{Platform} (seg : Segment) (x : Z) : Prop :=
  exists S', seg_text seg = ToString S' /\ fits S' /\ shareId S' = x.

Definition covered `{Platform} (w : World) (b : Z) (x : Z) : Prop :=
  holds w b x \/
  exists seg, seg ∈ on_wire w /\ remote (seg_socket seg) = Some b /\
              carries seg x.

(** Every socket of the node is the one to the peer it is filed under, a
    node of the network that is in the peer list. *)
Definition well_wired (net : Network) (n : P2PNode) : Prop :=
  map_Forall (fun b s => b ∈ peers n /\ remote s = Some b /\
                         in_range net b = true)
             (peersockets n).

(** Nothing is on its way, no node has processed a share, and the sockets
    are well wired. *)
Definition fresh (w : World) : Prop :=
  on_wire w = [] /\
  Forall (fun n => processedShares n = ∅ /\ 0 <= id n < 2 ^ 32 /\
                   well_wired (w_net w) n)
         (p2pNodes (w_net w)).

(** Every share id a node has processed has reached each of the peers it
    has a socket to, or is on its way there; every packet is the text of
    a share, for a node that exists; the sockets are well wired. *)
Definition flood_inv `{Platform} (w : World) : Prop :=
  (forall a n b s x,
     in_range (w_net w) a = true ->
     p2pNodes (w_net w) !! Z.to_nat a = Some n ->
     peersockets n !! b = Some s -> x ∈ processedShares n ->
     covered w b x) /\
  (forall seg, seg ∈ on_wire w ->
     exists d, remote (seg_socket seg) = Some d /\
               in_range (w_net w) d = true /\
               exists S', seg_text seg = ToString S' /\ fits S') /\
  (forall n, n ∈ p2pNodes (w_net w) ->
     0 <= id n < 2 ^ 32 /\ well_wired (w_net w) n).

End TcpFlood.

(** ** The totals of [PrintStatistics] *)

Module TcpTotals.
Import Tcp.

(** The five totals [PrintStatistics] of [p2pnetwork.cc] adds up in 32
    bits; the lines it logs are left out. *)
Record Totals : Type := mkTotals {
  totalSharesReceived : Z;
  totalSharesGenerated : Z;
  totalSharesForwarded : Z;
  totalSharesSent : Z;
  totalSocketConnections : Z
}.

Definition add_node (t : Totals) (node : P2PNode) : Totals :=
  mkTotals (u32 (totalSharesReceived t + sharesReceived node))
           (u32 (totalSharesGenerated t + sharesGenerated node))
           (u32 (totalSharesForwarded t + sharesForwarded node))
           (u32 (totalSharesSent t + sharesSent node))
           (u32 (totalSocketConnections t + Stat.GetPeerSocketsCount node)).

Definition PrintStatistics (net : Network) : Totals :=
  fold_left add_node (p2pNodes net) (mkTotals 0 0 0 0 0).

(** The sum of a counter over the nodes, without the wrap. *)
Definition sum_over (f : P2PNode -> Z) (nodes : list P2PNode) : Z :=
  foldr (fun n acc => f n + acc) 0 nodes.

End TcpTotals.

Module Triangle.
Import Tcp TcpNet.

(** Every node is started, node 0 creates a share, and the transport
    delivers packet after packet. *)
Definition one_flood : list NetEvent :=
  [NStart; NGenerate 0 5000000000;
   NDeliver 0; NDeliver 0; NDeliver 0; NDeliver 0;
   NDeliver 0; NDeliver 0; NDeliver 0; NDeliver 0].

(** Every node is started and node 0 creates a share. *)
Definition first_sends : list NetEvent :=
  [NStart; NGenerate 0 5000000000].

(** The share of node 0 has reached node 1. *)
Definition mid_flood : list NetEvent :=
  [NStart; NGenerate 0 5000000000; NDeliver 0].

(** What is still scheduled when the nodes are stopped. *)
Definition leftovers : list NetEvent :=
  [NDeliver 0; NGenerate 1 6000000000; NStart; NGenerate 2 7000000000;
   NDeliver 0].

End Triangle.

(** * Properties *)

(** ** Strings: [find], [substr], [stoul], [to_string] *)

Section StringFacts.

Lemma u64_small x : 0 <= x < 2 ^ 64 -> u64 x = x.
Proof. intros Hx. unfold u64. apply Z.mod_small. exact Hx. Qed.

Lemma u32_small x : 0 <= x < 2 ^ 32 -> u32 x = x.
Proof. intros Hx. unfold u32. apply Z.mod_small. exact Hx. Qed.

Lemma u32_range x : 0 <= u32 x < 2 ^ 32.
Proof. unfold u32. apply Z.mod_pos_bound. reflexivity. Qed.

Lemma drop_drop a b s : drop a (drop b s) = drop (a + b) s.
Proof.
  revert s. induction b as [|b IH]; intros s.
  - rewrite Nat.add_0_r. reflexivity.
  - rewrite Nat.add_succ_r. destruct s as [|c s]; simpl.
    + destruct a; reflexivity.
    + apply IH.
Qed.

Lemma length_drop n s :
  String.length (drop n s) = (String.length s - n)%nat.
Proof.
  revert s. induction n as [|n IH]; intros [|c s]; simpl; auto with arith.
Qed.

Lemma prefix_colon c s :
  String.prefix ":" (String c s) = Ascii.eqb c ":"%char.
Proof.
  cbn [String.prefix]. destruct (ascii_dec ":" c) as [<-|Hne].
  - destruct s; reflexivity.
  - symmetry. apply Ascii.eqb_neq. congruence.
Qed.

(** The first colon found splits the colons of the text. *)
Lemma find_in_colon s : forall off,
  match find_in ":" s off with
  | None => colons s = 0%nat
  | Some k => (off <= k)%nat /\ (k - off < String.length s)%nat /\
              colons s = S (colons (drop (S (k - off)) s))
  end.
Proof.
  induction s as [|c s IH]; intros off.
  - reflexivity.
  - cbn [find_in]. rewrite prefix_colon. cbn [colons].
    destruct (Ascii.eqb c ":") eqn:Hc.
    + rewrite Nat.sub_diag. cbn. lia.
    + specialize (IH (S off)). destruct (find_in ":" s (S off)) as [k|].
      * destruct IH as (Hle & Hlt & Hcount).
        replace (k - off)%nat with (S (k - S off)) by lia.
        cbn [drop String.length]. split; [lia|]. split; [lia|].
        rewrite Hcount. reflexivity.
      * rewrite IH. reflexivity.
Qed.

Lemma find_colon str pos :
  0 <= pos <= size str -> size str < npos ->
  (find str ":" pos = npos /\ colons (drop (Z.to_nat pos) str) = 0%nat) \/
  (pos <= find str ":" pos < size str /\
   colons (drop (Z.to_nat pos) str) =
   S (colons (drop (Z.to_nat (find str ":" pos + 1)) str))).
Proof.
  intros Hpos Hsize. unfold find.
  destruct (Z.ltb_spec (size str) pos) as [Hlt|_]; [lia|].
  pose proof (find_in_colon (drop (Z.to_nat pos) str) (Z.to_nat pos)) as Hf.
  destruct (find_in ":" (drop (Z.to_nat pos) str) (Z.to_nat pos)) as [k|].
  - right. destruct Hf as (Hle & Hlen & Hcount).
    rewrite length_drop in Hlen. unfold size in *.
    split; [lia|]. rewrite Hcount, drop_drop. do 2 f_equal.
    f_equal. lia.
  - left. split; [reflexivity|exact Hf].
Qed.

End StringFacts.

Section Decoding.
Context `{Platform}.

(** With fewer than three colons one of the three searches fails, and
    [FromString] hands back the local it declared. *)
Lemma FromString_few_colons uninit str :
  size str < npos -> (colons str < 3)%nat ->
  FromString uninit str = Ok (default_init uninit).
Proof.
  intros Hsize Hfew. unfold FromString.
  assert (Hnpos : npos = 2 ^ 64 - 1) by reflexivity.
  assert (Hsz : 0 <= size str) by (unfold size; lia).
  destruct (find_colon str 0) as [[-> _]|[Hp Hc1]]; [lia|exact Hsize| |].
  { rewrite Z.eqb_refl. reflexivity. }
  set (p := find str ":" 0) in *.
  rewrite (u64_small (p + 1)) by lia.
  destruct (find_colon str (p + 1)) as [[-> _]|[Hq Hc2]];
    [lia|exact Hsize| |].
  { rewrite Z.eqb_refl, andb_false_r. reflexivity. }
  set (q := find str ":" (p + 1)) in *.
  rewrite (u64_small (q + 1)) by lia.
  destruct (find_colon str (q + 1)) as [[-> _]|[Hr Hc3]];
    [lia|exact Hsize| |].
  { rewrite Z.eqb_refl, andb_false_r. reflexivity. }
  change (Z.to_nat 0) with 0%nat in Hc1. cbn [drop] in Hc1.
  rewrite Hc1, Hc2, Hc3 in Hfew. lia.
Qed.

End Decoding.

(** ** Printing a number and reading it back *)

Section Decimal.
Import Decimal.

Local Open Scope N_scope.

Lemma of_uint_cons (mk : uint -> uint) (v : N) (d : uint) :
  (forall d', rev (mk d') = revapp d' (mk Nil)) ->
  Unsigned.of_lu (mk Nil) = v ->
  N.of_uint (mk d) = v * 10 ^ Unsigned.usize d + N.of_uint d.
Proof.
  intros Hrev Hv. unfold N.of_uint.
  rewrite !Unsigned.of_uint_alt, Hrev, Unsigned.of_lu_revapp, Hv.
  apply N.add_comm.
Qed.

Local Open Scope Z_scope.

Local Ltac digit_case IH :=
  cbn [NilEmpty.string_of_uint scan_digits Unsigned.usize];
  match goal with
  | |- context [digit_of ?c] =>
      let v := eval vm_compute in (digit_of c) in
      change (digit_of c) with v; cbv iota
  end;
  rewrite IH;
  match goal with
  | |- context [N.of_uint (?mk ?d)] =>
      let v := eval vm_compute in (Unsigned.of_lu (mk Nil)) in
      rewrite (of_uint_cons mk v d (fun _ => eq_refl) eq_refl)
  end;
  rewrite N2Z.inj_add, N2Z.inj_mul, N2Z.inj_pow, N2Z.inj_succ;
  rewrite Z.pow_succ_r by apply N2Z.is_nonneg;
  cbn [Z.of_N]; ring.

Lemma scan_digits_uint (d : uint) : forall acc,
  scan_digits acc (NilEmpty.string_of_uint d) =
  acc * 10 ^ Z.of_N (Unsigned.usize d) + Z.of_N (N.of_uint d).
Proof.
  induction d as [|d IH|d IH|d IH|d IH|d IH|d IH|d IH|d IH|d IH|d IH];
    intros acc; [cbn; ring|digit_case IH ..].
Qed.

Lemma stoul_uint (d : uint) :
  d <> Nil -> Z.of_N (N.of_uint d) <= ULONG_MAX ->
  stoul (NilEmpty.string_of_uint d) = Ok (Z.of_N (N.of_uint d)).
Proof.
  intros Hd Hmax.
  assert (Hscan := scan_digits_uint d 0). rewrite Z.mul_0_l, Z.add_0_l in Hscan.
  destruct d; [congruence|..];
    unfold stoul; cbn [NilEmpty.string_of_uint skip_space];
    match goal with
    | |- context [isspace ?c] =>
        let v := eval vm_compute in (isspace c) in
        change (isspace c) with v; cbv iota
    end;
    cbn [starts_with_digit];
    match goal with
    | |- context [digit_of ?c] =>
        let v := eval vm_compute in (digit_of c) in
        change (digit_of c) with v; cbv iota
    end;
    cbn [NilEmpty.string_of_uint] in Hscan; rewrite Hscan;
    match goal with
    | |- context [?a <? ?b] => destruct (Z.ltb_spec a b)
    end; first [lia|reflexivity].
Qed.

Lemma stoul_to_string (x : Z) :
  0 <= x <= ULONG_MAX -> stoul (to_string x) = Ok x.
Proof.
  intros Hx. unfold to_string.
  assert (Hback : Z.of_N (N.of_uint (N.to_uint (Z.to_N x))) = x)
    by (rewrite DecimalN.Unsigned.of_to; lia).
  rewrite stoul_uint; [congruence| |lia].
  unfold N.to_uint. destruct (Z.to_N x); [discriminate|].
  apply Unsigned.to_uint_nonnil.
Qed.

End Decimal.

(** ** Flooding and deduplication in the single-file draft *)

Section MonoNode.
Context `{Platform}.
Import Mono.

Lemma u32_add_l a b : u32 (u32 a + b) = u32 (a + b).
Proof. unfold u32. apply Zplus_mod_idemp_l. Qed.

Lemma u32_idem a : u32 (u32 a) = u32 a.
Proof. unfold u32. apply Zmod_mod. Qed.

Lemma mono_gossip_loop_acts msg ps : forall sent,
  (gossip_loop msg ps sent).2 = (fun p => ASend p msg) <$> ps.
Proof.
  induction ps as [|p ps IH]; intros sent; cbn [gossip_loop].
  - reflexivity.
  - specialize (IH (u32 (sent + 1))).
    destruct (gossip_loop msg ps (u32 (sent + 1))) as [sent' acts].
    cbn in *. congruence.
Qed.

Lemma mono_gossip_loop_sent msg ps : forall sent,
  u32 (gossip_loop msg ps sent).1 = u32 (sent + Z.of_nat (length ps)).
Proof.
  induction ps as [|p ps IH]; intros sent; cbn [gossip_loop].
  - cbn. f_equal. lia.
  - specialize (IH (u32 (sent + 1))).
    destruct (gossip_loop msg ps (u32 (sent + 1))) as [sent' acts].
    cbn [fst] in *. rewrite IH, u32_add_l. f_equal. cbn [length]. lia.
Qed.

Lemma mono_gossip_spec share n :
  exists sent,
    GossipShareToPeers share n =
      (mkNode (m_id n) (m_peers n) (m_processedShares n) sent
              (m_sharesReceived n) (m_sharesGenerated n)
              (m_sharesForwarded n),
       (fun p => ASend p (ToString share)) <$> m_peers n) /\
    u32 sent = u32 (m_sharesSent n + Z.of_nat (length (m_peers n))).
Proof.
  unfold GossipShareToPeers.
  pose proof (mono_gossip_loop_acts (ToString share) (m_peers n)
                (m_sharesSent n)) as Hacts.
  pose proof (mono_gossip_loop_sent (ToString share) (m_peers n)
                (m_sharesSent n)) as Hsent.
  destruct (gossip_loop _ _ _) as [sent acts]. cbn in *.
  exists sent. subst acts. auto.
Qed.

Lemma Share_eq_refl S : Share_eq S S = true.
Proof. unfold Share_eq. rewrite !Z.eqb_refl. reflexivity. Qed.

Lemma Share_eq_identity a b : Share_eq a b = true <-> identity a = identity b.
Proof.
  unfold Share_eq, identity. rewrite andb_true_iff, !Z.eqb_eq.
  split; [intros [-> ->]; reflexivity|intros [= -> ->]; auto].
Qed.

Lemma processed_find_insert S set :
  processed_find S (processed_insert S set) = true.
Proof.
  unfold processed_insert. destruct (processed_find S set) eqn:Hf; [exact Hf|].
  unfold processed_find. rewrite existsb_app. cbn.
  rewrite Share_eq_refl. apply orb_true_iff. auto.
Qed.

Lemma processed_fresh_once S set :
  processed_find S set = false ->
  length (filter (fun x => Share_eq S x) (set ++ [S])) = 1%nat.
Proof.
  unfold processed_find. intros Hf. rewrite filter_app, length_app.
  replace (filter (fun x => Share_eq S x) set) with (@nil Share).
  - rewrite filter_cons_True by (rewrite Share_eq_refl; exact I).
    reflexivity.
  - symmetry. induction set as [|x set IH]; [reflexivity|].
    cbn in Hf. apply orb_false_iff in Hf as [Hx Hset].
    rewrite filter_cons_False by (rewrite Hx; intros []). auto.
Qed.

End MonoNode.

(** ** Flooding over sockets *)

Section TcpGossip.
Context `{Platform}.
Variable Send : nat -> Tcp.Socket -> string -> Z.
Import Tcp Trace.

Lemma failed_to_taken p q s m b :
  (0 <? b) = true -> failed_to p (ASend q s m b) = false.
Proof.
  intros Hb. unfold failed_to, succeeded. rewrite Hb. apply andb_false_r.
Qed.

Lemma failed_to_refused p q s m b :
  (0 <? b) = false -> failed_to p (ASend q s m b) = bool_decide (q = p).
Proof.
  intros Hb. unfold failed_to, succeeded, sent_to. rewrite Hb.
  apply andb_true_r.
Qed.

Lemma sent_to_absent msg (ps : list Z) (socks : gmap Z Socket) acts p :
  socks !! p = None ->
  Forall (fun a => exists q s b,
            a = ASend q s msg b /\ q ∈ ps /\ socks !! q = Some s) acts ->
  existsb (sent_to p) acts = false.
Proof.
  intros Hnone Hall. induction Hall as [|a acts Ha _ IH]; [reflexivity|].
  cbn [existsb]. rewrite IH, orb_false_r.
  destruct Ha as (q & s & b & -> & _ & Hq). cbn.
  apply bool_decide_eq_false. congruence.
Qed.

Lemma gossip_loop_post msg ps : forall socks sent k socks' sent' k' acts,
  gossip_loop Send msg ps socks sent k = (socks', sent', k', acts) ->
  gossip_post msg ps socks sent k socks' sent' k' acts.
Proof.
  induction ps as [|p0 ps IH]; intros socks sent k socks' sent' k' acts Hrun;
    cbn [gossip_loop] in Hrun.
  { injection Hrun as <- <- <- <-. unfold gossip_post. cbn.
    repeat split; auto with lia.
    - f_equal. lia.
    - intros p s Hp. inversion Hp.
    - intros [|??] ???; discriminate. }
  destruct (socks !! p0) as [s0|] eqn:Hs0.
  2:{ apply IH in Hrun as (Hsent & Hk & Hsocks & Hall & Hevery & Honce).
      unfold gossip_post. repeat split; auto.
      - eapply Forall_impl; [exact Hall|].
        intros a (p & s & b & -> & Hp & Hs). exists p, s, b.
        repeat split; auto. now right.
      - intros p s Hp Hs. apply Hevery; [|exact Hs].
        apply elem_of_cons in Hp as [->|Hp]; [congruence|exact Hp]. }
  set (b0 := Send k s0 msg) in *.
  destruct (0 <? b0) eqn:Hb0.
  - destruct (gossip_loop Send msg ps socks (u32 (sent + 1)) (S k))
      as [[[socks1 sent1] k1] acts1] eqn:Hrest.
    injection Hrun as <- <- <- <-.
    apply IH in Hrest as (Hsent & Hk & Hsocks & Hall & Hevery & Honce).
    unfold gossip_post. repeat split.
    + rewrite filter_cons_True by (cbn; rewrite Hb0; exact I).
      rewrite Hsent, u32_add_l. f_equal. cbn [length]. lia.
    + cbn [length]. lia.
    + intros p. rewrite Hsocks. cbn [existsb].
      rewrite (failed_to_taken p) by exact Hb0. reflexivity.
    + constructor.
      * exists p0, s0, b0. repeat split; auto. now left.
      * eapply Forall_impl; [exact Hall|].
        intros a (p & s & b & -> & Hp & Hs). exists p, s, b.
        repeat split; auto. now right.
    + intros p s Hp Hs. apply elem_of_cons in Hp as [->|Hp].
      * replace s with s0 by congruence. exists b0. now left.
      * destruct (Hevery p s Hp Hs) as [b Hb]. exists b. now right.
    + intros [|a' a1] a a2 p Heq Hfail.
      * injection Heq as <- <-.
        rewrite failed_to_taken in Hfail by exact Hb0. discriminate.
      * injection Heq as _ Heq. eapply Honce; eauto.
  - destruct (gossip_loop Send msg ps (delete p0 socks) sent (S k))
      as [[[socks1 sent1] k1] acts1] eqn:Hrest.
    injection Hrun as <- <- <- <-.
    apply IH in Hrest as (Hsent & Hk & Hsocks & Hall & Hevery & Honce).
    unfold gossip_post. repeat split.
    + rewrite filter_cons_False by (cbn; rewrite Hb0; intros []).
      exact Hsent.
    + cbn [length]. lia.
    + intros p. rewrite Hsocks. cbn [existsb].
      rewrite (failed_to_refused p) by exact Hb0.
      destruct (decide (p0 = p)) as [->|Hne].
      * rewrite bool_decide_eq_true_2 by reflexivity. cbn [orb].
        rewrite lookup_delete_eq. destruct (existsb _ _); reflexivity.
      * rewrite bool_decide_eq_false_2 by exact Hne. cbn [orb].
        rewrite lookup_delete_ne by exact Hne. reflexivity.
    + constructor.
      * exists p0, s0, b0. repeat split; auto. now left.
      * eapply Forall_impl; [exact Hall|].
        intros a (p & s & b & -> & Hp & Hs). exists p, s, b.
        repeat split; auto; [now right|].
        apply lookup_delete_Some in Hs. tauto.
    + intros p s Hp Hs. destruct (decide (p = p0)) as [->|Hne].
      * replace s with s0 by congruence. exists b0. now left.
      * apply elem_of_cons in Hp as [->|Hp]; [congruence|].
        destruct (Hevery p s Hp) as [b Hb].
        { rewrite lookup_delete_ne by congruence. exact Hs. }
        exists b. now right.
    + intros [|a' a1] a a2 p Heq Hfail.
      * injection Heq as <- <-.
        rewrite failed_to_refused in Hfail by exact Hb0.
        apply bool_decide_eq_true in Hfail as <-.
        eapply sent_to_absent; [|exact Hall]. apply lookup_delete_eq.
      * injection Heq as _ Heq. eapply Honce; eauto.
Qed.

End TcpGossip.

(** ** The claims about one node *)

Section NodeClaims.
Context `{Platform}.
Import Trace.

(** C9.  [GossipShareToPeers] of [p2pnode.cc] counts in [sharesSent] the
    sends the transport took and only those; a refused send erases the
    socket of that peer from [peersockets] and leaves [peers] as it was;
    no later send of the same flood goes to that peer; every peer that had
    a socket when the flood began is tried.  The single-file draft hands
    each peer's message to a callback that reports nothing back, and counts
    every one of them. *)
Theorem failed_send_drops_the_socket :
  (forall (Send : nat -> Tcp.Socket -> string -> Z) share n k,
     let '(n', k', acts) := Tcp.GossipShareToPeers Send share n k in
     u32 (Tcp.sharesSent n') =
       u32 (Tcp.sharesSent n +
            Z.of_nat (length (filter succeeded acts))) /\
     Tcp.peers n' = Tcp.peers n /\
     (forall p, Tcp.peersockets n' !! p =
                if existsb (failed_to p) acts then None
                else Tcp.peersockets n !! p) /\
     (forall a1 a a2 p, acts = a1 ++ a :: a2 -> failed_to p a = true ->
                        existsb (sent_to p) a2 = false) /\
     (forall p s, p ∈ Tcp.peers n -> Tcp.peersockets n !! p = Some s ->
                  exists b, Tcp.ASend p s (ToString share) b ∈ acts)) /\
  (forall share n,
     let '(n', acts) := Mono.GossipShareToPeers share n in
     acts = (fun p => Mono.ASend p (ToString share)) <$> Mono.m_peers n /\
     u32 (Mono.m_sharesSent n') =
       u32 (Mono.m_sharesSent n + Z.of_nat (length (Mono.m_peers n))) /\
     Mono.m_peers n' = Mono.m_peers n).
Proof.
  split.
  - intros Send share n k. unfold Tcp.GossipShareToPeers.
    destruct (Tcp.gossip_loop Send (ToString share) (Tcp.peers n)
                (Tcp.peersockets n) (Tcp.sharesSent n) k)
      as [[[socks sent] k'] acts] eqn:Hloop.
    apply gossip_loop_post in Hloop
      as (Hsent & _ & Hsocks & _ & Hevery & Honce).
    cbn. auto.
  - intros share n.
    destruct (mono_gossip_spec share n) as (sent & -> & Hsent).
    cbn. auto.
Qed.

Lemma tcp_gossip_keeps Send share n k :
  let '(n', _, _) := Tcp.GossipShareToPeers Send share n k in
  Tcp.sharesForwarded n' = Tcp.sharesForwarded n /\
  Tcp.sharesReceived n' = Tcp.sharesReceived n /\
  Tcp.sharesGenerated n' = Tcp.sharesGenerated n /\
  Tcp.processedShares n' = Tcp.processedShares n /\
  Tcp.isrunning n' = Tcp.isrunning n /\
  Tcp.peers n' = Tcp.peers n /\
  Tcp.id n' = Tcp.id n.
Proof.
  unfold Tcp.GossipShareToPeers.
  destruct (Tcp.gossip_loop _ _ _ _ _ _) as [[[socks sent] k'] acts].
  cbn. auto 10.
Qed.

(** C1.  A share message that [N] has not processed yet, delivered twice:
    the first delivery inserts the share, adds one to the forwarded
    counter and floods it to the peers of [N]; the second delivery sends
    nothing, leaves the counter and the processed set as they are, and the
    share is in the set once.  [p2pnode.cc] keys its set by [shareId]
    alone, and there a share message is one that is not a registration. *)
Theorem second_delivery_is_dropped :
  (forall uninit msg S n,
     FromString uninit msg = Ok S ->
     Mono.processed_find S (Mono.m_processedShares n) = false ->
     exists n1 n2,
       Mono.ReceiveShare uninit msg n =
         Ok (n1, (fun p => Mono.ASend p (ToString S)) <$> Mono.m_peers n) /\
       Mono.ReceiveShare uninit msg n1 = Ok (n2, []) /\
       Mono.m_sharesForwarded n1 = u32 (Mono.m_sharesForwarded n + 1) /\
       Mono.m_sharesForwarded n2 = Mono.m_sharesForwarded n1 /\
       Mono.m_processedShares n1 = Mono.m_processedShares n ++ [S] /\
       Mono.m_processedShares n2 = Mono.m_processedShares n1 /\
       length (filter (fun x => Share_eq S x) (Mono.m_processedShares n2))
         = 1%nat) /\
  (forall (Send : nat -> Tcp.Socket -> string -> Z)
          uninit msg S sock1 sock2 n k,
     find msg "REGISTER:" 0 <> 0 ->
     FromString uninit msg = Ok S ->
     shareId S ∉ Tcp.processedShares n ->
     exists n1 k1 acts1 n2,
       Tcp.ReceiveShare Send uninit msg sock1 n k = Ok (n1, k1, acts1) /\
       Tcp.ReceiveShare Send uninit msg sock2 n1 k1 = Ok (n2, k1, []) /\
       Tcp.sharesForwarded n1 = u32 (Tcp.sharesForwarded n + 1) /\
       Tcp.sharesForwarded n2 = Tcp.sharesForwarded n1 /\
       Tcp.processedShares n1 = {[ shareId S ]} ∪ Tcp.processedShares n /\
       Tcp.processedShares n2 = Tcp.processedShares n1 /\
       Forall (fun a => exists p s b,
                 a = Tcp.ASend p s (ToString S) b /\ p ∈ Tcp.peers n)
              acts1 /\
       (forall p s, p ∈ Tcp.peers n -> Tcp.peersockets n !! p = Some s ->
                    exists b, Tcp.ASend p s (ToString S) b ∈ acts1)).
Proof.
  split.
  - intros uninit msg S n Hmsg Hfresh.
    assert (Hin : Mono.processed_find S (Mono.m_processedShares n ++ [S])
                  = true).
    { unfold Mono.processed_find. rewrite existsb_app. cbn.
      rewrite Share_eq_refl. apply orb_true_iff. auto. }
    assert (Hfirst : exists sent,
      Mono.ReceiveShare uninit msg n =
        Ok (Mono.mkNode (Mono.m_id n) (Mono.m_peers n)
              (Mono.m_processedShares n ++ [S]) sent
              (u32 (Mono.m_sharesReceived n + 1)) (Mono.m_sharesGenerated n)
              (u32 (Mono.m_sharesForwarded n + 1)),
            (fun p => Mono.ASend p (ToString S)) <$> Mono.m_peers n)).
    { unfold Mono.ReceiveShare. rewrite Hmsg. cbn [bind]. rewrite Hfresh.
      match goal with
      | |- context [Mono.GossipShareToPeers ?s ?m] =>
          destruct (mono_gossip_spec s m) as (sent & -> & _)
      end.
      unfold Mono.processed_insert. rewrite Hfresh. cbn. eauto. }
    destruct Hfirst as (sent & Hfirst). rewrite Hfirst.
    eexists _, _. split; [reflexivity|].
    unfold Mono.ReceiveShare. rewrite Hmsg. cbn [bind Mono.m_processedShares].
    rewrite Hin. cbn. repeat split.
    apply processed_fresh_once. exact Hfresh.
  - intros Send uninit msg S sock1 sock2 n k Hreg Hmsg Hfresh.
    apply Z.eqb_neq in Hreg.
    unfold Tcp.ReceiveShare. rewrite Hreg. unfold Tcp.process_share.
    rewrite Hmsg. cbn [bind].
    rewrite bool_decide_eq_false_2 by exact Hfresh.
    match goal with
    | |- context [Tcp.GossipShareToPeers Send S ?m k] => set (n0 := m)
    end.
    unfold Tcp.GossipShareToPeers in *.
    destruct (Tcp.gossip_loop Send (ToString S) (Tcp.peers n0)
                (Tcp.peersockets n0) (Tcp.sharesSent n0) k)
      as [[[socks sent] k1] acts1] eqn:Hloop.
    apply gossip_loop_post in Hloop as (_ & _ & _ & Hall & Hevery & _).
    cbn in Hall, Hevery.
    eexists _, k1, acts1, _. split; [reflexivity|].
    cbn. rewrite bool_decide_eq_true_2
      by (apply elem_of_union; left; apply elem_of_singleton; reflexivity).
    repeat split; auto.
    eapply Forall_impl; [exact Hall|].
    intros a (p & s & b & -> & Hp & _). eauto.
Qed.

End NodeClaims.

Section NodeExamples.
Import Sample.
#[local] Existing Instance sample_platform.

Lemma failed_send_drops_the_socket_witness :
  let '(n', k', acts) :=
    Tcp.GossipShareToPeers refuses_2 (mkShare 0 7 0%Q ∅) wired 0 in
  u32 (Tcp.sharesSent n') = 2 /\
  Tcp.peers n' = [1; 2; 3] /\
  Tcp.peersockets n' !! 2 = None /\
  Tcp.peersockets n' !! 3 = Some (Tcp.ClientSocket 0 3).
Proof.
  pose proof (proj1 failed_send_drops_the_socket refuses_2
                (mkShare 0 7 0%Q ∅) wired 0%nat) as Hthm.
  destruct (Tcp.GossipShareToPeers refuses_2 (mkShare 0 7 0%Q ∅) wired 0)
    as [[n' k'] acts] eqn:Hrun.
  destruct Hthm as (Hsent & Hpeers & Hsocks & _ & _).
  assert (Hacts : acts =
    [Tcp.ASend 1 (Tcp.ClientSocket 0 1) "SHARE:0:7:0" 11;
     Tcp.ASend 2 (Tcp.ClientSocket 0 2) "SHARE:0:7:0" (-1);
     Tcp.ASend 3 (Tcp.ClientSocket 0 3) "SHARE:0:7:0" 11]).
  { vm_compute in Hrun. injection Hrun as _ _ <-. reflexivity. }
  subst acts. rewrite Hsent, Hpeers, !Hsocks.
  repeat split; vm_compute; reflexivity.
Defined.

Lemma second_delivery_is_dropped_witness :
  exists n1 n2,
    Mono.ReceiveShare zeros "SHARE:3:7:12" mono_wired =
      Ok (n1, [Mono.ASend 1 "SHARE:3:7:12"; Mono.ASend 2 "SHARE:3:7:12";
               Mono.ASend 3 "SHARE:3:7:12"]) /\
    Mono.ReceiveShare zeros "SHARE:3:7:12" n1 = Ok (n2, []) /\
    Mono.m_sharesForwarded n2 = 1.
Proof.
  destruct (proj1 second_delivery_is_dropped zeros "SHARE:3:7:12"%string
              (mkShare 3 7 12%Q ∅) mono_wired)
    as (n1 & n2 & H1 & H2 & Hf1 & Hf2 & _);
    [vm_compute; reflexivity|vm_compute; reflexivity|].
  exists n1, n2. split; [exact H1|]. split; [exact H2|].
  rewrite Hf2, Hf1. reflexivity.
Defined.

End NodeExamples.

(** ** Decoding, identity and the peer list *)

Section DecodingClaims.
Context `{Platform}.

(** A message with fewer than three colons, in general: [FromString]
    assigns no field, so it returns the local [Share share;] with the
    scalars its declaration left uninitialised, and nothing is thrown;
    [ReceiveShare] then runs that share through the processed set like any
    other: it is recorded, and once it is there the next such message is
    dropped. *)
Theorem few_colons_decode_to_the_default uninit str :
  size str < npos -> (colons str < 3)%nat ->
  FromString uninit str = Ok (default_init uninit) /\
  (forall n, exists n' acts,
     Mono.ReceiveShare uninit str n = Ok (n', acts) /\
     Mono.processed_find (default_init uninit) (Mono.m_processedShares n')
       = true /\
     (Mono.processed_find (default_init uninit) (Mono.m_processedShares n)
        = true ->
      acts = [] /\
      Mono.m_sharesForwarded n' = Mono.m_sharesForwarded n /\
      Mono.m_processedShares n' = Mono.m_processedShares n)) /\
  (forall (Send : nat -> Tcp.Socket -> string -> Z) sock n k,
     find str "REGISTER:" 0 <> 0 ->
     exists n' k' acts,
       Tcp.ReceiveShare Send uninit str sock n k = Ok (n', k', acts) /\
       shareId uninit ∈ Tcp.processedShares n' /\
       (shareId uninit ∈ Tcp.processedShares n ->
        acts = [] /\
        Tcp.sharesForwarded n' = Tcp.sharesForwarded n /\
        Tcp.processedShares n' = Tcp.processedShares n)).
Proof.
  intros Hsize Hfew.
  pose proof (FromString_few_colons uninit str Hsize Hfew) as Hdec.
  split; [exact Hdec|]. split.
  - intros n. unfold Mono.ReceiveShare. rewrite Hdec. cbn [bind].
    destruct (Mono.processed_find (default_init uninit)
                (Mono.m_processedShares n)) eqn:Hfound.
    + eexists _, _. split; [reflexivity|]. cbn. auto.
    + match goal with
      | |- context [Mono.GossipShareToPeers ?s ?m] =>
          destruct (mono_gossip_spec s m) as (sent & -> & _)
      end.
      eexists _, _. split; [reflexivity|]. cbn.
      split; [apply processed_find_insert|discriminate].
  - intros Send sock n k Hreg. apply Z.eqb_neq in Hreg.
    unfold Tcp.ReceiveShare. rewrite Hreg. unfold Tcp.process_share.
    rewrite Hdec. cbn [bind].
    destruct (decide (shareId uninit ∈ Tcp.processedShares n)) as [Hin|Hout].
    + rewrite bool_decide_eq_true_2 by exact Hin.
      eexists _, _, _. split; [reflexivity|]. cbn. auto.
    + rewrite bool_decide_eq_false_2 by exact Hout.
      match goal with
      | |- context [Tcp.GossipShareToPeers Send ?s ?m k] =>
          pose proof (tcp_gossip_keeps Send s m k) as Hkeep;
          destruct (Tcp.GossipShareToPeers Send s m k) as [[n' k'] acts]
      end.
      destruct Hkeep as (_ & _ & _ & Hproc & _).
      exists n', k', acts. split; [reflexivity|].
      rewrite Hproc. cbn. split; [|contradiction].
      apply elem_of_union. left. apply elem_of_singleton. reflexivity.
Qed.

Lemma AddPeer_twice peerId n :
  Tcp.AddPeer peerId (Tcp.AddPeer peerId n) = Tcp.AddPeer peerId n.
Proof.
  assert (Hin : peerId ∈ Tcp.peers (Tcp.AddPeer peerId n)).
  { unfold Tcp.AddPeer.
    destruct (decide (peerId ∈ Tcp.peers n)) as [Hin|Hout].
    - rewrite bool_decide_eq_true_2 by exact Hin. exact Hin.
    - rewrite bool_decide_eq_false_2 by exact Hout. cbn.
      apply elem_of_app. right. now left. }
  unfold Tcp.AddPeer at 1. rewrite bool_decide_eq_true_2 by exact Hin.
  reflexivity.
Qed.

Lemma AddPeer_NoDup peerId n :
  NoDup (Tcp.peers n) -> NoDup (Tcp.peers (Tcp.AddPeer peerId n)).
Proof.
  intros Hnd. unfold Tcp.AddPeer.
  destruct (decide (peerId ∈ Tcp.peers n)) as [Hin|Hout].
  - rewrite bool_decide_eq_true_2 by exact Hin. exact Hnd.
  - rewrite bool_decide_eq_false_2 by exact Hout. cbn.
    apply NoDup_app. repeat split; [exact Hnd| |apply NoDup_singleton].
    intros x Hx Hx'. apply list_elem_of_singleton in Hx'. congruence.
Qed.

(** In the single-file draft the hash of a share and the answer of the
    processed set depend on the pair [(originNodeId, shareId)] only. *)
Lemma mono_identity_is_the_pair a b :
  identity a = identity b ->
  Share_hash a = Share_hash b /\
  forall set, Mono.processed_find a set = Mono.processed_find b set.
Proof.
  unfold identity, Share_hash. intros [= Ho Hi]. rewrite Ho, Hi.
  split; [reflexivity|]. intros set. unfold Mono.processed_find.
  induction set as [|x set IH]; [reflexivity|]. cbn [existsb].
  rewrite IH. unfold Share_eq. rewrite Ho, Hi. reflexivity.
Qed.

Lemma mono_other_origin_not_found a b set :
  originNodeId a <> originNodeId b ->
  Mono.processed_find a set = false ->
  Mono.processed_find a (Mono.processed_insert b set) = false.
Proof.
  intros Hne Hfresh. unfold Mono.processed_insert.
  destruct (Mono.processed_find b set); [exact Hfresh|].
  unfold Mono.processed_find in *. rewrite existsb_app, Hfresh. cbn.
  unfold Share_eq. apply Z.eqb_neq in Hne. rewrite Hne. reflexivity.
Qed.

End DecodingClaims.

Section DecodingExamples.
Import Sample.
#[local] Existing Instance sample_platform.

Lemma few_colons_decode_to_the_default_witness :
  FromString zeros "SHARE:3:7" = Ok (default_init zeros).
Proof.
  apply (few_colons_decode_to_the_default zeros "SHARE:3:7").
  - vm_compute. reflexivity.
  - vm_compute. lia.
Defined.

(** A share record whose origin field is empty: three colons are there,
    so the fields are converted, and [std::stoul] throws on the empty
    one.  [ReceiveShare] lets the exception through. *)
Lemma empty_field_raises :
  colons "SHARE::7:1" = 3%nat /\
  FromString zeros "SHARE::7:1" = Throw invalid_argument /\
  Mono.ReceiveShare zeros "SHARE::7:1" mono_wired = Throw invalid_argument /\
  Tcp.ReceiveShare taken zeros "SHARE::7:1" (Tcp.AcceptedSocket 0 1) wired 0
    = Throw invalid_argument.
Proof. repeat split; vm_compute; reflexivity. Qed.

(** C5 at a failing input.  The message ["SHARE:3:7"] has two colons, so
    [FromString] assigns no field and returns [Share share;] as declared:
    the struct gives its scalars no initialiser, and the identity that
    comes back is what the memory held, zero only if the memory was.
    With [junk] there, both drafts record the identity 3735928559:48879
    as a new share, count it as forwarded and flood its text to the three
    peers. *)
Lemma malformed_share_has_uninitialised_fields :
  (colons "SHARE:3:7" = 2)%nat /\
  (forall uninit, FromString uninit "SHARE:3:7" = Ok (default_init uninit)) /\
  FromString junk "SHARE:3:7" = Ok junk /\
  identity junk = (3735928559, 48879) /\
  match Tcp.ReceiveShare taken junk "SHARE:3:7" (Tcp.AcceptedSocket 0 1)
          wired 0 with
  | Ok (n1, _, acts1) =>
      Tcp.processedShares n1 = {[ 48879 ]} /\
      Tcp.sharesForwarded n1 = 1 /\
      acts1 = [Tcp.ASend 1 (Tcp.ClientSocket 0 1) (ToString junk) 24;
               Tcp.ASend 2 (Tcp.ClientSocket 0 2) (ToString junk) 24;
               Tcp.ASend 3 (Tcp.ClientSocket 0 3) (ToString junk) 24]
  | Throw _ => False
  end /\
  match Mono.ReceiveShare junk "SHARE:3:7" mono_wired with
  | Ok (n1, acts1) =>
      Mono.m_processedShares n1 = [junk] /\
      Mono.m_sharesForwarded n1 = 1 /\
      acts1 = [Mono.ASend 1 (ToString junk); Mono.ASend 2 (ToString junk);
               Mono.ASend 3 (ToString junk)]
  | Throw _ => False
  end.
Proof.
  split; [reflexivity|]. split.
  - intros uninit. apply FromString_few_colons; vm_compute; [reflexivity|lia].
  - vm_compute. repeat split; reflexivity.
Qed.

(** C2 at a failing input.  Node 0 of [p2pnode.cc] has forwarded share 7
    of origin 1; share 7 of origin 2 then arrives for the first time and
    is dropped as a duplicate.  The single-file draft forwards both. *)
Lemma same_shareId_other_origin_is_dropped :
  match Tcp.ReceiveShare taken zeros "SHARE:1:7:0"
          (Tcp.AcceptedSocket 0 1) wired 0 with
  | Ok (n1, k1, acts1) =>
      length acts1 = 3%nat /\
      Tcp.ReceiveShare taken zeros "SHARE:2:7:0"
        (Tcp.AcceptedSocket 0 2) n1 k1
      = Ok (Tcp.set_sharesReceived 2 n1, k1, [])
  | Throw _ => False
  end /\
  match Mono.ReceiveShare zeros "SHARE:1:7:0" mono_wired with
  | Ok (n1, acts1) =>
      match Mono.ReceiveShare zeros "SHARE:2:7:0" n1 with
      | Ok (n2, acts2) =>
          acts2 = [Mono.ASend 1 "SHARE:2:7:0"; Mono.ASend 2 "SHARE:2:7:0";
                   Mono.ASend 3 "SHARE:2:7:0"] /\
          Mono.m_sharesForwarded n2 = 2
      | Throw _ => False
      end
  | Throw _ => False
  end.
Proof. vm_compute. repeat split; reflexivity. Qed.

(** C8 at a failing input.  Three nodes and connection probability 1:
    the last row of [CreateRandomTopology] links node 2 to node 1 a second
    time, [makeconnections] adds peer 2 to node 1 through [AddPeer], and
    the registration of node 2 then appends 2 again. *)
Lemma registration_appends_a_known_peer :
  (exists n', Tcp.ReceiveShare taken zeros "REGISTER:3"
                (Tcp.AcceptedSocket 0 3)
                (Tcp.AddPeer 3 (Tcp.new_P2PNode 0)) 0 = Ok (n', O, []) /\
              Tcp.peers n' = [3; 3]) /\
  match Tcp.CreateRandomTopology halves 1%Q 5%Q (Tcp.new_Network 3) with
  | Some net =>
      match Tcp.makeconnections net with
      | Some (net1, msgs) =>
          match Tcp.deliver_all taken zeros msgs (net1, O) with
          | Ok (net2, _, _) =>
              Tcp.peers <$> Tcp.p2pNodes net2
              = [[1; 2]; [2; 0; 2]; [1; 0; 1]]
          | Throw _ => False
          end
      | None => False
      end
  | None => False
  end.
Proof.
  split.
  - eexists. split; vm_compute; reflexivity.
  - vm_compute. reflexivity.
Qed.

End DecodingExamples.

(** ** Runs of one node: the counters *)

Section Counters.
Context `{Platform}.
Import Trace.

Lemma bump_iter m r :
  0 <= r < 2 ^ 32 -> Nat.iter m bump r = u32 (r + Z.of_nat m).
Proof.
  intros Hr. induction m as [|m IH].
  - rewrite Z.add_0_r. symmetry. apply u32_small. exact Hr.
  - rewrite Nat.iter_succ, IH. unfold bump. rewrite u32_add_l.
    f_equal. lia.
Qed.

Lemma u32_succ_small c : 0 <= c -> c + 1 < 2 ^ 32 -> u32 (c + 1) = c + 1.
Proof. intros. apply u32_small. lia. Qed.

Lemma mono_AddPeer_keeps p n :
  Mono.m_sharesForwarded (Mono.AddPeer p n) = Mono.m_sharesForwarded n /\
  Mono.m_sharesReceived (Mono.AddPeer p n) = Mono.m_sharesReceived n /\
  Mono.m_sharesGenerated (Mono.AddPeer p n) = Mono.m_sharesGenerated n /\
  Mono.m_id (Mono.AddPeer p n) = Mono.m_id n.
Proof. unfold Mono.AddPeer. destruct (bool_decide _); cbn; auto. Qed.

Lemma mono_step_counters uninit ev n n' acts c :
  Mono.step uninit ev n = Ok (n', acts) ->
  0 <= Mono.m_sharesForwarded n <= Mono.m_sharesReceived n ->
  Mono.m_sharesReceived n <= c ->
  c + mono_receives [ev] < 2 ^ 32 ->
  0 <= Mono.m_sharesForwarded n' <= Mono.m_sharesReceived n' /\
  Mono.m_sharesReceived n' <= c + mono_receives [ev].
Proof.
  intros Hstep Hinv Hc Hroom. destruct ev as [p|now|msg]; cbn in Hstep.
  - change (mono_receives [Mono.EvAddPeer p]) with 0 in *.
    injection Hstep as <- <-.
    destruct (mono_AddPeer_keeps p n) as (-> & -> & _). lia.
  - change (mono_receives [Mono.EvGenerate now]) with 0 in *.
    injection Hstep as Hgen. unfold Mono.GenerateAndGossipShare in Hgen.
    destruct (Mono.m_peers n) eqn:Hpeers.
    + injection Hgen as <- <-. lia.
    + match type of Hgen with
      | context [Mono.GossipShareToPeers ?s ?m] =>
          destruct (mono_gossip_spec s m) as (sent & Hg & _);
          rewrite Hg in Hgen
      end.
      injection Hgen as <- <-. cbn. lia.
  - change (mono_receives [Mono.EvReceive msg]) with 1 in *.
    unfold Mono.ReceiveShare in Hstep.
    destruct (FromString uninit msg) as [share|e]; [|discriminate].
    cbn [bind] in Hstep.
    destruct (Mono.processed_find share (Mono.m_processedShares n)).
    + injection Hstep as <- <-. cbn.
      rewrite u32_succ_small by lia. lia.
    + match type of Hstep with
      | context [Mono.GossipShareToPeers ?s ?m] =>
          destruct (mono_gossip_spec s m) as (sent & Hg & _);
          rewrite Hg in Hstep
      end.
      injection Hstep as <- <-. cbn.
      rewrite !u32_succ_small by lia. lia.
Qed.

Lemma mono_receives_cons ev evs :
  mono_receives (ev :: evs) = mono_receives [ev] + mono_receives evs.
Proof.
  unfold mono_receives. rewrite !filter_cons, filter_nil.
  destruct (decide _); cbn [length]; lia.
Qed.

Lemma mono_receives_nonneg evs : 0 <= mono_receives evs.
Proof. unfold mono_receives. lia. Qed.

Lemma mono_run_counters uninit evs : forall n n' acts c,
  Mono.run uninit evs n = Ok (n', acts) ->
  0 <= Mono.m_sharesForwarded n <= Mono.m_sharesReceived n ->
  Mono.m_sharesReceived n <= c ->
  c + mono_receives evs < 2 ^ 32 ->
  0 <= Mono.m_sharesForwarded n' <= Mono.m_sharesReceived n'.
Proof.
  induction evs as [|ev evs IH]; intros n n' acts c Hrun Hinv Hc Hroom.
  - injection Hrun as <- _. exact Hinv.
  - cbn [Mono.run] in Hrun. rewrite mono_receives_cons in Hroom.
    pose proof (mono_receives_nonneg evs).
    destruct (Mono.step uninit ev n) as [[n1 acts1]|e] eqn:Hstep;
      [|discriminate].
    cbn [bind] in Hrun.
    destruct (Mono.run uninit evs n1) as [[n2 acts2]|e] eqn:Hrest;
      [|discriminate].
    injection Hrun as <- _.
    destruct (mono_step_counters uninit ev n n1 acts1 c Hstep Hinv Hc)
      as [Hinv1 Hc1]; [lia|].
    eapply (IH n1 n2 acts2 (c + mono_receives [ev])); eauto. lia.
Qed.

End Counters.

Section TcpCounters.
Context `{Platform}.
Variable Send : nat -> Tcp.Socket -> string -> Z.
Variable uninit : Share.
Import Tcp Trace.

Lemma tcp_AddPeer_keeps p n :
  sharesForwarded (AddPeer p n) = sharesForwarded n /\
  sharesReceived (AddPeer p n) = sharesReceived n /\
  sharesGenerated (AddPeer p n) = sharesGenerated n /\
  isrunning (AddPeer p n) = isrunning n /\
  id (AddPeer p n) = id n.
Proof. unfold AddPeer. destruct (bool_decide _); cbn; auto. Qed.

Lemma tcp_receive_cases msg sock n k n' k' acts :
  ReceiveShare Send uninit msg sock n k = Ok (n', k', acts) ->
  sharesGenerated n' = sharesGenerated n /\
  isrunning n' = isrunning n /\
  id n' = id n /\
  ((sharesReceived n' = sharesReceived n /\
    sharesForwarded n' = sharesForwarded n) \/
   (sharesReceived n' = u32 (sharesReceived n + 1) /\
    (sharesForwarded n' = sharesForwarded n \/
     sharesForwarded n' = u32 (sharesForwarded n + 1)))).
Proof.
  assert (Hshare : process_share Send uninit msg n k = Ok (n', k', acts) ->
    sharesGenerated n' = sharesGenerated n /\
    isrunning n' = isrunning n /\
    id n' = id n /\
    ((sharesReceived n' = sharesReceived n /\
      sharesForwarded n' = sharesForwarded n) \/
     (sharesReceived n' = u32 (sharesReceived n + 1) /\
      (sharesForwarded n' = sharesForwarded n \/
       sharesForwarded n' = u32 (sharesForwarded n + 1))))).
  { unfold process_share.
    destruct (FromString uninit msg) as [share|e]; [|discriminate].
    cbn [bind]. destruct (bool_decide _).
    - intros [= <- <- <-]. cbn. auto 10.
    - match goal with
      | |- context [GossipShareToPeers Send share ?m k] =>
          pose proof (tcp_gossip_keeps Send share m k) as Hkeep;
          destruct (GossipShareToPeers Send share m k) as [[n1 k1] acts1]
      end.
      destruct Hkeep as (Hf & Hr & Hg & _ & Hrun & _ & Hid).
      intros [= <- <- <-]. rewrite Hf, Hr, Hg, Hrun, Hid. cbn. auto 10. }
  unfold ReceiveShare.
  destruct (find msg "REGISTER:" 0 =? 0); [|exact Hshare].
  destruct (negb (find msg ":" 0 =? npos)); [|exact Hshare].
  destruct (substr msg _ npos) as [field|e]; [|discriminate].
  cbn [bind]. destruct (stoul field) as [v|e]; [|discriminate].
  cbn [bind]. intros [= <- <- <-]. cbn. auto 10.
Qed.

Lemma tcp_generate_cases now n k :
  let '(n', k', acts) := GenerateAndGossipShare Send now n k in
  sharesReceived n' = sharesReceived n /\
  sharesForwarded n' = sharesForwarded n /\
  isrunning n' = isrunning n /\
  id n' = id n /\
  (isrunning n = false ->
   n' = n /\ k' = k /\
   acts = match peers n with [] => [ASchedule] | _ => [] end).
Proof.
  unfold GenerateAndGossipShare. destruct (peers n) as [|p ps]; [auto 10|].
  destruct (isrunning n) eqn:Hrun; cbn [negb]; [|auto 10].
  match goal with
  | |- context [GossipShareToPeers Send ?s ?m k] =>
      pose proof (tcp_gossip_keeps Send s m k) as Hkeep;
      destruct (GossipShareToPeers Send s m k) as [[n1 k1] acts1]
  end.
  destruct Hkeep as (Hf & Hr & _ & _ & Hrunning & _ & Hid).
  rewrite Hf, Hr, Hrunning, Hid. cbn.
  repeat split; auto; discriminate.
Qed.

Lemma tcp_step_counters ev n k n' k' acts c :
  step Send uninit ev n k = Ok (n', k', acts) ->
  0 <= sharesForwarded n <= sharesReceived n ->
  sharesReceived n <= c ->
  c + receives [ev] < 2 ^ 32 ->
  0 <= sharesForwarded n' <= sharesReceived n' /\
  sharesReceived n' <= c + receives [ev].
Proof.
  intros Hstep Hinv Hc Hroom.
  assert (Hev : 0 <= receives [ev] <= 1).
  { unfold receives. rewrite filter_cons, filter_nil.
    destruct (decide _); cbn [length]; lia. }
  destruct ev as [|p|p s| | |now|msg sock]; cbn [step] in Hstep.
  - injection Hstep as <- <- <-. cbn. lia.
  - injection Hstep as <- <- <-.
    destruct (tcp_AddPeer_keeps p n) as (-> & -> & _). lia.
  - injection Hstep as <- <- <-. cbn. lia.
  - injection Hstep as <- <- <-. cbn. lia.
  - injection Hstep as <- <- <-. cbn. lia.
  - pose proof (tcp_generate_cases now n k) as Hgen.
    destruct (GenerateAndGossipShare Send now n k) as [[n1 k1] acts1].
    injection Hstep as <- <- <-. destruct Hgen as (-> & -> & _). lia.
  - change (receives [EvReceive msg sock]) with 1 in *.
    apply tcp_receive_cases in Hstep
      as (_ & _ & _ & [[-> ->]|[-> [->| ->]]]);
      rewrite ?u32_succ_small by lia; lia.
Qed.

Lemma receives_cons ev evs :
  receives (ev :: evs) = receives [ev] + receives evs.
Proof.
  unfold receives. rewrite !filter_cons, filter_nil.
  destruct (decide _); cbn [length]; lia.
Qed.

Lemma tcp_run_counters evs : forall n k n' k' acts c,
  run Send uninit evs n k = Ok (n', k', acts) ->
  0 <= sharesForwarded n <= sharesReceived n ->
  sharesReceived n <= c ->
  c + receives evs < 2 ^ 32 ->
  0 <= sharesForwarded n' <= sharesReceived n'.
Proof.
  induction evs as [|ev evs IH]; intros n k n' k' acts c Hrun Hinv Hc Hroom.
  - injection Hrun as <- _ _. exact Hinv.
  - cbn [run] in Hrun. rewrite receives_cons in Hroom.
    assert (0 <= receives evs) by (unfold receives; lia).
    destruct (step Send uninit ev n k) as [[[n1 k1] acts1]|e] eqn:Hstep;
      [|discriminate].
    cbn [bind] in Hrun.
    destruct (run Send uninit evs n1 k1) as [[[n2 k2] acts2]|e] eqn:Hrest;
      [|discriminate].
    injection Hrun as <- _ _.
    destruct (tcp_step_counters ev n k n1 k1 acts1 c Hstep Hinv Hc)
      as [Hinv1 Hc1]; [lia|].
    eapply (IH n1 k1 n2 k2 acts2 (c + receives [ev])); eauto. lia.
Qed.

(** A stopped node stays stopped, and its generated counter stands still,
    through every event but a new start. *)
Lemma tcp_step_stopped ev n k n' k' acts :
  step Send uninit ev n k = Ok (n', k', acts) ->
  is_start ev = false -> isrunning n = false ->
  isrunning n' = false /\ sharesGenerated n' = sharesGenerated n.
Proof.
  intros Hstep Hev Hstopped.
  destruct ev as [|p|p s| | |now|msg sock]; cbn [step] in Hstep;
    try discriminate Hev.
  - injection Hstep as <- <- <-. cbn. auto.
  - injection Hstep as <- <- <-.
    destruct (tcp_AddPeer_keeps p n) as (_ & _ & -> & -> & _). auto.
  - injection Hstep as <- <- <-. cbn. auto.
  - injection Hstep as <- <- <-. cbn. auto.
  - pose proof (tcp_generate_cases now n k) as Hgen.
    destruct (GenerateAndGossipShare Send now n k) as [[n1 k1] acts1].
    injection Hstep as <- <- <-.
    destruct Hgen as (_ & _ & _ & _ & Hsame).
    destruct (Hsame Hstopped) as (-> & _). auto.
  - apply tcp_receive_cases in Hstep as (-> & -> & _). auto.
Qed.

Lemma tcp_run_stopped evs : forall n k n' k' acts,
  run Send uninit evs n k = Ok (n', k', acts) ->
  forallb (fun ev => negb (is_start ev)) evs = true ->
  isrunning n = false ->
  isrunning n' = false /\ sharesGenerated n' = sharesGenerated n.
Proof.
  induction evs as [|ev evs IH]; intros n k n' k' acts Hrun Hevs Hstopped.
  - injection Hrun as <- _ _. auto.
  - cbn [run] in Hrun. cbn [forallb] in Hevs.
    apply andb_true_iff in Hevs as [Hev Hevs].
    apply negb_true_iff in Hev.
    destruct (step Send uninit ev n k) as [[[n1 k1] acts1]|e] eqn:Hstep;
      [|discriminate].
    cbn [bind] in Hrun.
    destruct (run Send uninit evs n1 k1) as [[[n2 k2] acts2]|e] eqn:Hrest;
      [|discriminate].
    injection Hrun as <- _ _.
    destruct (tcp_step_stopped ev n k n1 k1 acts1 Hstep Hev Hstopped)
      as [Hstopped1 Hgen1].
    destruct (IH n1 k1 n2 k2 acts2 Hrest Hevs Hstopped1) as [-> ->].
    auto.
Qed.

End TcpCounters.

Section RunClaims.
Context `{Platform}.
Import Trace.

(** C10, as the code has it.  In every run of a node from its
    construction in which fewer than 2^32 packets are handed to it, the
    forwarded counter is at most the received counter.  (Every prefix of
    a run is a run, so this holds at every point; the counters have 32
    bits, and the bound keeps the received counter from wrapping.) *)
Theorem forwarded_at_most_received_below_wrap :
  (forall uninit evs i n acts,
     Mono.run uninit evs (Mono.new_P2PNode i) = Ok (n, acts) ->
     mono_receives evs < 2 ^ 32 ->
     Mono.m_sharesForwarded n <= Mono.m_sharesReceived n) /\
  (forall (Send : nat -> Tcp.Socket -> string -> Z) uninit evs i k n k' acts,
     Tcp.run Send uninit evs (Tcp.new_P2PNode i) k = Ok (n, k', acts) ->
     receives evs < 2 ^ 32 ->
     Tcp.sharesForwarded n <= Tcp.sharesReceived n).
Proof.
  split.
  - intros uninit evs i n acts Hrun Hroom.
    apply (mono_run_counters uninit evs _ n acts 0 Hrun); cbn; lia.
  - intros Send uninit evs i k n k' acts Hrun Hroom.
    apply (tcp_run_counters Send uninit evs _ k n k' acts 0 Hrun); cbn; lia.
Qed.

(** C4, as the code has it.  [Stop] clears [isrunning]; through whatever
    happens to the node afterwards, short of a new start, the flag stays
    clear and [sharesGenerated] stands still; a generation event that
    fires then leaves the node as it is and sends nothing, and it
    schedules no further generation event when the node has a peer (with
    no peer it reschedules itself, as it does on a running node). *)
Theorem stopped_node_generates_nothing
    (Send : nat -> Tcp.Socket -> string -> Z) uninit n evs k n' k' acts :
  forallb (fun ev => negb (is_start ev)) evs = true ->
  Tcp.run Send uninit evs (Tcp.Stop n).1 k = Ok (n', k', acts) ->
  Tcp.isrunning (Tcp.Stop n).1 = false /\
  Tcp.isrunning n' = false /\
  Tcp.sharesGenerated n' = Tcp.sharesGenerated n /\
  forall now,
    Tcp.GenerateAndGossipShare Send now n' k' =
      (n', k', match Tcp.peers n' with
               | [] => [Tcp.ASchedule]
               | _ => []
               end).
Proof.
  intros Hevs Hrun.
  destruct (tcp_run_stopped Send uninit evs _ k n' k' acts Hrun Hevs eq_refl)
    as [Hstopped Hgen].
  repeat split; auto.
  intros now. pose proof (tcp_generate_cases Send now n' k') as Hcases.
  destruct (Tcp.GenerateAndGossipShare Send now n' k') as [[n1 k1] acts1].
  destruct Hcases as (_ & _ & _ & _ & Hsame).
  destruct (Hsame Hstopped) as (-> & -> & ->). reflexivity.
Qed.

Lemma mono_run_duplicates uninit msg share m : forall n,
  FromString uninit msg = Ok share ->
  Mono.processed_find share (Mono.m_processedShares n) = true ->
  Mono.run uninit (replicate m (Mono.EvReceive msg)) n =
    Ok (Mono.mkNode (Mono.m_id n) (Mono.m_peers n)
          (Mono.m_processedShares n) (Mono.m_sharesSent n)
          (Nat.iter m bump (Mono.m_sharesReceived n))
          (Mono.m_sharesGenerated n) (Mono.m_sharesForwarded n), []).
Proof.
  intros n Hmsg. revert n. induction m as [|m IH]; intros n Hfound.
  - destruct n; reflexivity.
  - change (replicate (S m) (Mono.EvReceive msg))
      with (Mono.EvReceive msg :: replicate m (Mono.EvReceive msg)).
    cbn [Mono.run Mono.step]. unfold Mono.ReceiveShare at 1.
    rewrite Hmsg. cbn [bind]. rewrite Hfound. cbn [bind].
    rewrite IH by exact Hfound. cbn [bind].
    rewrite Nat.iter_succ_r. reflexivity.
Qed.

(** A share delivered [m + 1] times to a node without peers that has not
    seen it. *)
Lemma mono_run_same_share uninit msg share m n :
  FromString uninit msg = Ok share ->
  Mono.processed_find share (Mono.m_processedShares n) = false ->
  Mono.m_peers n = [] ->
  exists n' acts,
    Mono.run uninit (replicate (S m) (Mono.EvReceive msg)) n
      = Ok (n', acts) /\
    Mono.m_sharesReceived n' = Nat.iter (S m) bump (Mono.m_sharesReceived n) /\
    Mono.m_sharesForwarded n' = bump (Mono.m_sharesForwarded n).
Proof.
  intros Hmsg Hfresh Hpeers. rewrite replicate_S.
  cbn [Mono.run Mono.step]. unfold Mono.ReceiveShare at 1.
  rewrite Hmsg. cbn [bind]. rewrite Hfresh.
  unfold Mono.GossipShareToPeers. cbn [Mono.m_peers]. rewrite Hpeers.
  cbn [Mono.gossip_loop bind].
  rewrite (mono_run_duplicates uninit msg share m).
  - cbn [bind]. eexists _, _. split; [reflexivity|].
    cbn [Mono.m_sharesReceived Mono.m_sharesForwarded].
    rewrite Nat.iter_succ_r. split; reflexivity.
  - exact Hmsg.
  - cbn [Mono.m_processedShares]. apply processed_find_insert.
Qed.

End RunClaims.

Section RunExamples.
Import Sample Trace.
#[local] Existing Instance sample_platform.

Lemma forwarded_at_most_received_below_wrap_witness :
  exists n acts,
    Mono.run zeros [Mono.EvAddPeer 1; Mono.EvReceive "SHARE:1:7:0";
                    Mono.EvReceive "SHARE:1:7:0"; Mono.EvGenerate 3]
             (Mono.new_P2PNode 0) = Ok (n, acts) /\
    Mono.m_sharesForwarded n <= Mono.m_sharesReceived n.
Proof.
  destruct (Mono.run zeros
              [Mono.EvAddPeer 1; Mono.EvReceive "SHARE:1:7:0";
               Mono.EvReceive "SHARE:1:7:0"; Mono.EvGenerate 3]
              (Mono.new_P2PNode 0)) as [[n acts]|e] eqn:Hrun;
    [|vm_compute in Hrun; discriminate Hrun].
  exists n, acts. split; [reflexivity|].
  apply (proj1 forwarded_at_most_received_below_wrap zeros _ 0 n acts Hrun).
  vm_compute. reflexivity.
Defined.

(** One share delivered 2^32 times to a new node: the first delivery is
    forwarded, the others are counted and dropped, and the received
    counter is back at 0 below the forwarded counter. *)
Lemma received_counter_wraps :
  exists n acts,
    Mono.run zeros
      (replicate (Z.to_nat 4294967296) (Mono.EvReceive "SHARE:1:1:0"))
      (Mono.new_P2PNode 0) = Ok (n, acts) /\
    Mono.m_sharesReceived n = 0 /\ Mono.m_sharesForwarded n = 1 /\
    ~ Mono.m_sharesForwarded n <= Mono.m_sharesReceived n.
Proof.
  change 4294967296 with (Z.succ 4294967295).
  rewrite Z2Nat.inj_succ by (intro Hc; discriminate Hc).
  destruct (mono_run_same_share zeros "SHARE:1:1:0" (mkShare 1 1 0%Q ∅)
              (Z.to_nat 4294967295) (Mono.new_P2PNode 0))
    as (n & acts & Hrun & Hreceived & Hforwarded);
    [vm_compute; reflexivity|reflexivity|reflexivity|].
  exists n, acts. split; [exact Hrun|].
  rewrite Hreceived, Hforwarded, bump_iter by (split; [discriminate|reflexivity]).
  rewrite Nat2Z.inj_succ, Z2Nat.id by discriminate.
  split; [reflexivity|]. split; [reflexivity|].
  intros Hle. apply Hle. reflexivity.
Qed.

Lemma stopped_node_generates_nothing_witness :
  exists n' k' acts,
    Tcp.run taken zeros
      [Tcp.EvGenerate 5; Tcp.EvReceive "SHARE:1:7:0" (Tcp.AcceptedSocket 0 1);
       Tcp.EvGenerate 9]
      (Tcp.Stop (Tcp.StartGeneratingShares wired).1).1 0
    = Ok (n', k', acts) /\
    Tcp.isrunning n' = false /\
    Tcp.sharesGenerated n' = 0.
Proof.
  assert (Hok : exists n' k' acts,
    Tcp.run taken zeros
      [Tcp.EvGenerate 5; Tcp.EvReceive "SHARE:1:7:0" (Tcp.AcceptedSocket 0 1);
       Tcp.EvGenerate 9]
      (Tcp.Stop (Tcp.StartGeneratingShares wired).1).1 0
    = Ok (n', k', acts))
    by (vm_compute; eexists _, _, _; reflexivity).
  destruct Hok as (n' & k' & acts & Hrun).
  exists n', k', acts. split; [exact Hrun|].
  destruct (stopped_node_generates_nothing taken zeros _
              [Tcp.EvGenerate 5;
               Tcp.EvReceive "SHARE:1:7:0" (Tcp.AcceptedSocket 0 1);
               Tcp.EvGenerate 9] _ _ _ _ eq_refl Hrun)
    as (_ & Hstopped & Hgen & _).
  split; [exact Hstopped|exact Hgen].
Defined.

(** A node stopped before it got a peer: the generation event that fires
    afterwards schedules the next one. *)
Lemma stopped_node_without_peers_reschedules :
  let n := (Tcp.Stop (Tcp.new_P2PNode 0)).1 in
  Tcp.isrunning n = false /\
  Tcp.GenerateAndGossipShare taken 3000000000 n 0 = (n, O, [Tcp.ASchedule]).
Proof. split; reflexivity. Qed.

End RunExamples.

(** ** The identities of the shares a node creates *)

Section Created.
Context `{Platform}.
Import Trace.

Lemma u32_shift_ne g d :
  0 <= g < 2 ^ 32 -> 0 < d < 2 ^ 32 -> u32 (g + d) <> g.
Proof.
  intros Hg Hd. unfold u32.
  destruct (Z_lt_le_dec (g + d) (2 ^ 32)) as [Hlt|Hge].
  - rewrite Z.mod_small by lia. lia.
  - replace (g + d) with (g + d - 2 ^ 32 + 1 * 2 ^ 32) by ring.
    rewrite Z_mod_plus_full, Z.mod_small by lia. lia.
Qed.

Lemma mono_step_generated uninit ev n n' acts :
  Mono.step uninit ev n = Ok (n', acts) ->
  Mono.m_id n' = Mono.m_id n /\
  Mono.m_sharesGenerated n' =
    match ev, Mono.m_peers n with
    | Mono.EvGenerate _, _ :: _ => u32 (Mono.m_sharesGenerated n + 1)
    | _, _ => Mono.m_sharesGenerated n
    end.
Proof.
  intros Hstep. destruct ev as [p|now|msg]; cbn [Mono.step] in Hstep.
  - injection Hstep as <- _.
    destruct (mono_AddPeer_keeps p n) as (_ & _ & -> & ->).
    destruct (Mono.m_peers n); auto.
  - injection Hstep as Hgen. unfold Mono.GenerateAndGossipShare in Hgen.
    destruct (Mono.m_peers n) eqn:Hpeers.
    + injection Hgen as <- _. auto.
    + match type of Hgen with
      | context [Mono.GossipShareToPeers ?s ?m] =>
          destruct (mono_gossip_spec s m) as (sent & Hg & _);
          rewrite Hg in Hgen
      end.
      injection Hgen as <- _. cbn. auto.
  - unfold Mono.ReceiveShare in Hstep.
    destruct (FromString uninit msg) as [share|e]; [|discriminate].
    cbn [bind] in Hstep.
    destruct (Mono.processed_find share (Mono.m_processedShares n)).
    + injection Hstep as <- _. cbn. destruct (Mono.m_peers n); auto.
    + match type of Hstep with
      | context [Mono.GossipShareToPeers ?s ?m] =>
          destruct (mono_gossip_spec s m) as (sent & Hg & _);
          rewrite Hg in Hstep
      end.
      injection Hstep as <- _. cbn. destruct (Mono.m_peers n); auto.
Qed.

Lemma mono_created_ids uninit evs : forall n,
  0 <= Mono.m_sharesGenerated n < 2 ^ 32 ->
  Z.of_nat (length (mono_created uninit evs n)) <= 2 ^ 32 ->
  NoDup (shareId <$> mono_created uninit evs n) /\
  forall s, s ∈ mono_created uninit evs n ->
    originNodeId s = Mono.m_id n /\
    exists j, 0 <= j < Z.of_nat (length (mono_created uninit evs n)) /\
              shareId s = u32 (Mono.m_sharesGenerated n + j).
Proof.
  induction evs as [|ev evs IH]; intros n Hg Hlen.
  { cbn. split; [constructor|]. intros s Hs. inversion Hs. }
  cbn [mono_created] in *.
  destruct (Mono.step uninit ev n) as [[n' acts]|e] eqn:Hstep.
  2:{ destruct ev as [p|now|msg]; try discriminate Hstep.
      cbn. split; [constructor|]. intros s Hs. inversion Hs. }
  destruct (mono_step_generated uninit ev n n' acts Hstep) as [Hid Hgen].
  assert (Hcases :
    (exists now, ev = Mono.EvGenerate now /\ Mono.m_peers n <> [] /\
       match ev, Mono.m_peers n with
       | Mono.EvGenerate now, _ :: _ => [Mono.new_share now n]
       | _, _ => []
       end = [Mono.new_share now n]) \/
    (match ev, Mono.m_peers n with
     | Mono.EvGenerate now, _ :: _ => [Mono.new_share now n]
     | _, _ => []
     end = [] /\
     Mono.m_sharesGenerated n' = Mono.m_sharesGenerated n)).
  { revert Hgen. destruct ev as [p|now|msg]; auto.
    destruct (Mono.m_peers n) eqn:Hp; auto.
    intros _. left. exists now. repeat split. discriminate. }
  destruct Hcases as [(now & -> & Hpeers & Hhead)|[Hhead Hsame]];
    rewrite Hhead in *.
  - destruct (Mono.m_peers n) as [|p ps] eqn:Hp; [congruence|].
    cbn [app length] in *.
    destruct (IH n') as [Hnd Hall];
      [rewrite Hgen; apply u32_range|lia|].
    split.
    + cbn [fmap list_fmap]. constructor; [|exact Hnd].
      intros Hin. apply list_elem_of_fmap in Hin as (s & Hs & Hin).
      destruct (Hall s Hin) as (_ & j & Hj & Hsj).
      rewrite Hgen, u32_add_l in Hsj.
      replace (Mono.m_sharesGenerated n + 1 + j)
        with (Mono.m_sharesGenerated n + (1 + j)) in Hsj by ring.
      cbn in Hs. rewrite Hsj in Hs.
      symmetry in Hs. revert Hs. apply u32_shift_ne; lia.
    + intros s Hs. apply elem_of_cons in Hs as [->|Hs].
      * split; [reflexivity|]. exists 0. split; [lia|].
        cbn. rewrite Z.add_0_r. symmetry. apply u32_small. exact Hg.
      * destruct (Hall s Hs) as (Ho & j & Hj & Hsj).
        split; [congruence|]. exists (1 + j). split; [lia|].
        rewrite Hsj, Hgen, u32_add_l. f_equal. ring.
  - cbn [app] in *. destruct (IH n') as [Hnd Hall]; [congruence|lia|].
    split; [exact Hnd|]. intros s Hs.
    destruct (Hall s Hs) as (Ho & j & Hj & Hsj).
    split; [congruence|]. exists j. split; [lia|congruence].
Qed.

End Created.

Section TcpCreated.
Context `{Platform}.
Variable Send : nat -> Tcp.Socket -> string -> Z.
Variable uninit : Share.
Import Tcp Trace.

Lemma share_seed_value now n :
  0 <= id n < 2 ^ 32 -> 0 <= sharesGenerated n < 2 ^ 32 -> 0 <= now ->
  0 <= Z.rem now 1000 < 1000 /\
  share_seed now n = id n * 1000000 + sharesGenerated n * 1000 + Z.rem now 1000.
Proof.
  intros Hid Hg Hnow.
  assert (Hr : 0 <= Z.rem now 1000 < 1000) by (apply Z.rem_bound_pos; lia).
  split; [exact Hr|]. unfold share_seed.
  rewrite (u64_small (id n * 1000000)) by lia.
  rewrite (u64_small (sharesGenerated n * 1000)) by lia.
  rewrite (u64_small (Z.rem now 1000)) by lia.
  apply u64_small. lia.
Qed.

Lemma tcp_step_generated ev n k n' k' acts :
  step Send uninit ev n k = Ok (n', k', acts) ->
  id n' = id n /\
  sharesGenerated n' =
    match ev, peers n, isrunning n with
    | EvGenerate _, _ :: _, true => u32 (sharesGenerated n + 1)
    | _, _, _ => sharesGenerated n
    end.
Proof.
  intros Hstep.
  destruct ev as [|p|p s| | |now|msg sock]; cbn [step] in Hstep.
  - injection Hstep as <- _ _. auto.
  - injection Hstep as <- _ _.
    destruct (tcp_AddPeer_keeps p n) as (_ & _ & -> & _ & ->). auto.
  - injection Hstep as <- _ _. auto.
  - injection Hstep as <- _ _. auto.
  - injection Hstep as <- _ _. auto.
  - injection Hstep as Hgen. unfold GenerateAndGossipShare in Hgen.
    destruct (peers n) eqn:Hpeers.
    + injection Hgen as <- _ _. auto.
    + destruct (isrunning n) eqn:Hrun; cbn [negb] in Hgen.
      * match type of Hgen with
        | context [GossipShareToPeers Send ?s ?m k] =>
            pose proof (tcp_gossip_keeps Send s m k) as Hkeep;
            destruct (GossipShareToPeers Send s m k) as [[n1 k1] acts1]
        end.
        injection Hgen as <- _ _.
        destruct Hkeep as (_ & _ & -> & _ & _ & _ & ->). auto.
      * injection Hgen as <- _ _. auto.
  - apply tcp_receive_cases in Hstep as (-> & _ & -> & _).
    split; [reflexivity|]. destruct (peers n); reflexivity.
Qed.

Lemma seed_apart i g d r r' :
  0 <= g < 2 ^ 32 -> 0 < d < 2 ^ 32 ->
  0 <= r < 1000 -> 0 <= r' < 1000 ->
  i * 1000000 + g * 1000 + r <> i * 1000000 + u32 (g + d) * 1000 + r'.
Proof.
  intros Hg Hd Hr Hr' Heq.
  pose proof (u32_shift_ne g d Hg Hd) as Hne.
  pose proof (u32_range (g + d)) as Hrange. lia.
Qed.

Lemma created_seeds evs : forall n k,
  0 <= id n < 2 ^ 32 -> 0 <= sharesGenerated n < 2 ^ 32 ->
  times_nonneg evs ->
  Z.of_nat (length (created Send uninit evs n k)) <= 2 ^ 32 ->
  NoDup (created Send uninit evs n k).*1 /\
  forall c, c ∈ created Send uninit evs n k ->
    originNodeId c.2 = id n /\
    shareId c.2 = u32 (hash_u64 c.1) /\
    exists j r,
      0 <= j < Z.of_nat (length (created Send uninit evs n k)) /\
      0 <= r < 1000 /\
      c.1 = id n * 1000000 + u32 (sharesGenerated n + j) * 1000 + r.
Proof.
  induction evs as [|ev evs IH]; intros n k Hid Hg Htimes Hlen.
  { cbn. split; [constructor|]. intros c Hc. inversion Hc. }
  apply Forall_cons in Htimes as [Hnow Htimes].
  cbn [created] in *.
  destruct (step Send uninit ev n k) as [[[n' k'] acts]|e] eqn:Hstep.
  2:{ destruct ev as [|p|p s| | |now|msg sock]; try discriminate Hstep.
      cbn. split; [constructor|]. intros c Hc. inversion Hc. }
  destruct (tcp_step_generated ev n k n' k' acts Hstep) as [Hid' Hgen].
  assert (Hcases :
    (exists now, ev = EvGenerate now /\ 0 <= now /\
       sharesGenerated n' = u32 (sharesGenerated n + 1) /\
       match ev, peers n, isrunning n with
       | EvGenerate now, _ :: _, true => [(share_seed now n, new_share now n)]
       | _, _, _ => []
       end = [(share_seed now n, new_share now n)]) \/
    (match ev, peers n, isrunning n with
     | EvGenerate now, _ :: _, true => [(share_seed now n, new_share now n)]
     | _, _, _ => []
     end = [] /\
     sharesGenerated n' = sharesGenerated n)).
  { revert Hgen. destruct ev as [|p|p s| | |now|msg sock]; auto.
    destruct (peers n); auto. destruct (isrunning n); auto.
    intros Hgen. left. exists now. auto. }
  destruct Hcases as [(now & -> & Hnonneg & Hnext & Hhead)|[Hhead Hsame]];
    rewrite Hhead in *.
  - cbn [app length] in *.
    destruct (share_seed_value now n Hid Hg Hnonneg) as [Hr Hseed].
    destruct (IH n' k') as [Hnd Hall];
      [congruence|rewrite Hnext; apply u32_range|exact Htimes|lia|].
    split.
    + cbn [fmap list_fmap fst]. constructor; [|exact Hnd].
      intros Hin. apply list_elem_of_fmap in Hin as (c & Hc & Hin).
      destruct (Hall c Hin) as (_ & _ & j & r & Hj & Hrj & Hcj).
      rewrite Hnext, u32_add_l, Hid' in Hcj.
      replace (sharesGenerated n + 1 + j)
        with (sharesGenerated n + (1 + j)) in Hcj by ring.
      cbn [fst] in Hc. rewrite Hseed, Hcj in Hc. revert Hc.
      apply seed_apart; lia.
    + intros c Hc. apply elem_of_cons in Hc as [->|Hc].
      * cbn [fst snd new_share originNodeId shareId].
        split; [reflexivity|]. split; [reflexivity|].
        exists 0, (Z.rem now 1000). split; [lia|]. split; [exact Hr|].
        rewrite Z.add_0_r, (u32_small (sharesGenerated n)) by exact Hg.
        exact Hseed.
      * destruct (Hall c Hc) as (Ho & Hh & j & r & Hj & Hrj & Hcj).
        split; [congruence|]. split; [exact Hh|].
        exists (1 + j), r. split; [lia|]. split; [exact Hrj|].
        rewrite Hcj, Hnext, u32_add_l, Hid', Z.add_assoc. reflexivity.
  - cbn [app] in *.
    destruct (IH n' k') as [Hnd Hall]; [congruence|congruence|exact Htimes|lia|].
    split; [exact Hnd|]. intros c Hc.
    destruct (Hall c Hc) as (Ho & Hh & j & r & Hj & Hrj & Hcj).
    split; [congruence|]. split; [exact Hh|].
    exists j, r. split; [lia|]. split; [exact Hrj|]. congruence.
Qed.

End TcpCreated.

Section CreatedClaims.
Context `{Platform}.
Import Trace.

(** C3, as the code has it.  Among the shares one node creates in a run, as
    long as it creates no more than 2^32 of them: in the single-file draft
    the share ids, a 32 bit counter, are pairwise different; in [p2pnode.cc]
    the 64 bit seeds handed to the hash are pairwise different, and each
    share id is the hash of its seed cut to 32 bits.  Every share carries
    the id of its node as origin, so shares of different nodes differ. *)
Theorem created_shares_differ_below_wrap :
  (forall uninit evs n,
     0 <= Mono.m_sharesGenerated n < 2 ^ 32 ->
     Z.of_nat (length (mono_created uninit evs n)) <= 2 ^ 32 ->
     NoDup (shareId <$> mono_created uninit evs n) /\
     Forall (fun s => originNodeId s = Mono.m_id n)
            (mono_created uninit evs n)) /\
  (forall (Send : nat -> Tcp.Socket -> string -> Z) uninit evs n k,
     0 <= Tcp.id n < 2 ^ 32 -> 0 <= Tcp.sharesGenerated n < 2 ^ 32 ->
     times_nonneg evs ->
     Z.of_nat (length (created Send uninit evs n k)) <= 2 ^ 32 ->
     NoDup (created Send uninit evs n k).*1 /\
     Forall (fun c => originNodeId c.2 = Tcp.id n /\
                      shareId c.2 = u32 (hash_u64 c.1))
            (created Send uninit evs n k)).
Proof.
  split.
  - intros uninit evs n Hg Hlen.
    destruct (mono_created_ids uninit evs n Hg Hlen) as [Hnd Hall].
    split; [exact Hnd|]. apply Forall_forall. intros s Hs.
    apply (Hall s Hs).
  - intros Send uninit evs n k Hid Hg Htimes Hlen.
    destruct (created_seeds Send uninit evs n k Hid Hg Htimes Hlen)
      as [Hnd Hall].
    split; [exact Hnd|]. apply Forall_forall. intros c Hc.
    destruct (Hall c Hc) as (Ho & Hh & _). auto.
Qed.

Lemma mono_created_generate uninit now m n :
  Mono.m_peers n <> [] ->
  exists n1,
    mono_created uninit (replicate (S m) (Mono.EvGenerate now)) n =
      Mono.new_share now n ::
      mono_created uninit (replicate m (Mono.EvGenerate now)) n1 /\
    Mono.m_peers n1 = Mono.m_peers n /\
    Mono.m_sharesGenerated n1 = bump (Mono.m_sharesGenerated n).
Proof.
  intros Hpeers. rewrite replicate_S. cbn [mono_created Mono.step].
  unfold Mono.GenerateAndGossipShare.
  destruct (Mono.m_peers n) as [|p ps] eqn:Hp; [congruence|].
  match goal with
  | |- context [Mono.GossipShareToPeers ?s ?x] =>
      destruct (mono_gossip_spec s x) as (sent & -> & _)
  end.
  eexists. split; [reflexivity|]. cbn. auto.
Qed.

(** The last of [m + 1] shares created in a row. *)
Lemma mono_created_last uninit now m : forall n,
  Mono.m_peers n <> [] ->
  exists s,
    s ∈ mono_created uninit (replicate (S m) (Mono.EvGenerate now)) n /\
    shareId s = Nat.iter m bump (Mono.m_sharesGenerated n).
Proof.
  induction m as [|m IH]; intros n Hpeers.
  - destruct (mono_created_generate uninit now 0 n Hpeers)
      as (n1 & -> & Hp1 & Hg1).
    exists (Mono.new_share now n). split; [now left|reflexivity].
  - destruct (mono_created_generate uninit now (S m) n Hpeers)
      as (n1 & -> & Hp1 & Hg1).
    destruct (IH n1) as (s & Hs & Hid); [congruence|].
    exists s. split; [now right|].
    rewrite Hid, Hg1, Nat.iter_succ_r. reflexivity.
Qed.

Lemma mono_created_wraps uninit now m n :
  Mono.m_peers n <> [] -> 0 <= Mono.m_sharesGenerated n < 2 ^ 32 ->
  u32 (Z.of_nat (S m)) = 0 ->
  ~ NoDup (shareId <$>
           mono_created uninit (replicate (S (S m)) (Mono.EvGenerate now)) n).
Proof.
  intros Hpeers Hg Hwrap.
  destruct (mono_created_generate uninit now (S m) n Hpeers)
    as (n1 & -> & Hp1 & Hg1).
  destruct (mono_created_last uninit now m n1) as (s & Hs & Hid);
    [congruence|].
  rewrite Hg1 in Hid. rewrite <- Nat.iter_succ_r in Hid.
  rewrite bump_iter in Hid by exact Hg.
  unfold u32 in *. rewrite <- Zplus_mod_idemp_r, Hwrap, Z.add_0_r in Hid.
  rewrite Z.mod_small in Hid by exact Hg.
  cbn [fmap list_fmap]. intros Hnd. apply NoDup_cons in Hnd as [Hout _].
  apply Hout. apply list_elem_of_fmap. exists s. split; [|exact Hs].
  cbn. congruence.
Qed.

End CreatedClaims.

Section CreatedExamples.
Import Sample Trace.
#[local] Existing Instance sample_platform.

Lemma created_shares_differ_below_wrap_witness :
  NoDup (shareId <$>
         mono_created zeros [Mono.EvGenerate 2; Mono.EvReceive "SHARE:1:7:0";
                             Mono.EvGenerate 5; Mono.EvGenerate 9]
                      mono_wired).
Proof.
  apply (proj1 created_shares_differ_below_wrap zeros
           [Mono.EvGenerate 2; Mono.EvReceive "SHARE:1:7:0";
            Mono.EvGenerate 5; Mono.EvGenerate 9] mono_wired).
  - split; [discriminate|reflexivity].
  - vm_compute. discriminate.
Defined.

(** A node of the single-file draft that creates 2^32 + 1 shares: the last
    one has the share id of the first, and the same origin. *)
Lemma share_id_repeats_after_wrap :
  ~ NoDup (shareId <$>
           mono_created zeros
             (replicate (Z.to_nat 4294967297) (Mono.EvGenerate 0))
             (Mono.AddPeer 1 (Mono.new_P2PNode 0))).
Proof.
  change 4294967297 with (Z.succ (Z.succ 4294967295)).
  rewrite !Z2Nat.inj_succ by (intro Hc; discriminate Hc).
  apply mono_created_wraps.
  - discriminate.
  - split; [discriminate|reflexivity].
  - rewrite Nat2Z.inj_succ, Z2Nat.id by discriminate. reflexivity.
Qed.

(** In [p2pnode.cc], with the identity hash of libstdc++: the first share of
    node 0 and its share number 4294967, created 296 time steps into a
    microsecond, get the same 32 bit id from different seeds. *)
Lemma truncated_hash_collides :
  let first := Tcp.set_isrunning true wired in
  let later := Tcp.set_sharesGenerated 4294967 first in
  Tcp.share_seed 0 first <> Tcp.share_seed 3000000296 later /\
  Tcp.GenerateUniqueShareId 0 first =
  Tcp.GenerateUniqueShareId 3000000296 later.
Proof. split; [discriminate|reflexivity]. Qed.

End CreatedExamples.

(** ** Topology of the single-file draft *)

Section MonoTopology.
Import Mono Graph.

Lemma mono_AddPeer_peers p n :
  p ∈ m_peers (AddPeer p n) /\
  forall x, x ∈ m_peers n -> x ∈ m_peers (AddPeer p n).
Proof.
  unfold AddPeer. destruct (decide (p ∈ m_peers n)) as [Hin|Hout].
  - rewrite bool_decide_eq_true_2 by exact Hin. auto.
  - rewrite bool_decide_eq_false_2 by exact Hout. cbn. split.
    + apply elem_of_app. right. now left.
    + intros x Hx. apply elem_of_app. now left.
Qed.

Lemma opt_peers_alter_keeps f K (nodes : list P2PNode) A x :
  (forall n y, y ∈ m_peers n -> y ∈ m_peers (f n)) ->
  x ∈ opt_peers (nodes !! A) -> x ∈ opt_peers (alter f K nodes !! A).
Proof.
  intros Hf. rewrite list_lookup_alter. destruct (decide (K = A)) as [->|_];
    [|auto]. destruct (nodes !! A); cbn; auto.
Qed.

Lemma opt_peers_alter_here f K (nodes : list P2PNode) x :
  (K < length nodes)%nat -> (forall n, x ∈ m_peers (f n)) ->
  x ∈ opt_peers (alter f K nodes !! K).
Proof.
  intros HK Hf. rewrite list_lookup_alter_eq.
  destruct (lookup_lt_is_Some_2 nodes K HK) as [n ->]. cbn. apply Hf.
Qed.

Lemma mono_peers_of_opt sim a :
  0 <= a < GetN sim ->
  mono_peers_of sim a = opt_peers (m_p2pNodes sim !! Z.to_nat a).
Proof.
  intros Ha. unfold mono_peers_of, in_range.
  destruct (Z.leb_spec 0 a); [|lia]. destruct (Z.ltb_spec a (GetN sim)); [|lia].
  reflexivity.
Qed.

Lemma mono_peers_of_range sim a x :
  x ∈ mono_peers_of sim a -> 0 <= a < GetN sim.
Proof.
  unfold mono_peers_of, in_range.
  destruct (Z.leb_spec 0 a); destruct (Z.ltb_spec a (GetN sim)); cbn;
    try (intros Hx; inversion Hx; fail). lia.
Qed.

Lemma mono_ConnectNodes_spec i j lat sim sim' :
  ConnectNodes i j lat sim = Some sim' ->
  GetN sim' = GetN sim /\
  0 <= i < GetN sim /\ 0 <= j < GetN sim /\
  (forall a x, x ∈ mono_peers_of sim a -> x ∈ mono_peers_of sim' a) /\
  j ∈ mono_peers_of sim' i /\ i ∈ mono_peers_of sim' j /\
  (forall key, is_Some (m_connections sim' !! key) <->
               key = (i, j) \/ is_Some (m_connections sim !! key)).
Proof.
  unfold ConnectNodes. intros Hc.
  destruct (in_range sim i) eqn:Hi; [|discriminate].
  destruct (in_range sim j) eqn:Hj; [|discriminate].
  injection Hc as <-.
  unfold in_range in Hi, Hj.
  apply andb_true_iff in Hi as [Hi0 Hi1]. apply andb_true_iff in Hj as [Hj0 Hj1].
  apply Z.leb_le in Hi0, Hj0. apply Z.ltb_lt in Hi1, Hj1.
  assert (Hn : GetN (mkSim (alter (AddPeer i) (Z.to_nat j)
                              (alter (AddPeer j) (Z.to_nat i) (m_p2pNodes sim)))
                           (<[(i, j):=mkConn lat]> (m_connections sim)))
               = GetN sim).
  { unfold GetN. cbn. rewrite !length_alter. reflexivity. }
  split; [exact Hn|]. split; [lia|]. split; [lia|].
  assert (Hlen : GetN sim = Z.of_nat (length (m_p2pNodes sim))) by reflexivity.
  split; [|split; [|split]].
  - intros a x Hx. pose proof (mono_peers_of_range sim a x Hx) as Ha.
    rewrite mono_peers_of_opt in Hx by lia.
    rewrite mono_peers_of_opt by (rewrite Hn; lia). cbn.
    apply opt_peers_alter_keeps; [intros; now apply mono_AddPeer_peers|].
    apply opt_peers_alter_keeps; [intros; now apply mono_AddPeer_peers|].
    exact Hx.
  - rewrite mono_peers_of_opt by (rewrite Hn; lia). cbn.
    apply opt_peers_alter_keeps; [intros; now apply mono_AddPeer_peers|].
    apply opt_peers_alter_here; [lia|]. intros n.
    apply (proj1 (mono_AddPeer_peers j n)).
  - rewrite mono_peers_of_opt by (rewrite Hn; lia). cbn.
    apply opt_peers_alter_here; [rewrite length_alter; lia|].
    intros n. apply (proj1 (mono_AddPeer_peers i n)).
  - intros key. cbn. rewrite lookup_insert_is_Some. split.
    + intros [Heq|[_ Hs]]; [left; symmetry; exact Heq|right; exact Hs].
    + intros [->|Hs]; [left; reflexivity|].
      destruct (decide ((i, j) = key)); [left|right]; auto.
Qed.

Lemma mono_ConnectNodes_symmetric i j lat sim sim' :
  ConnectNodes i j lat sim = Some sim' ->
  mono_symmetric sim -> mono_symmetric sim'.
Proof.
  intros Hc Hsym a b Hab.
  destruct (mono_ConnectNodes_spec i j lat sim sim' Hc)
    as (_ & _ & _ & Hkeep & Hij & Hji & Hkeys).
  apply Hkeys in Hab as [[= -> ->]|Hold]; [auto|].
  destruct (Hsym a b Hold). auto.
Qed.

Lemma mono_extends_refl sim : mono_extends sim sim.
Proof. split; auto. Qed.

Lemma mono_extends_trans s1 s2 s3 :
  mono_extends s1 s2 -> mono_extends s2 s3 -> mono_extends s1 s3.
Proof. intros [H1 H2] [H3 H4]. split; [congruence|auto]. Qed.

Lemma mono_ConnectNodes_extends i j lat sim sim' :
  ConnectNodes i j lat sim = Some sim' -> mono_extends sim sim'.
Proof.
  intros Hc. destruct (mono_ConnectNodes_spec i j lat sim sim' Hc)
    as (Hn & _ & _ & Hkeep & _). split; auto.
Qed.

Section Loops.
Variable rng : Rng.
Variable p lat : double.

Lemma mono_connect_row_keeps i js : forall st st',
  connect_row rng p lat i js st = Some st' ->
  mono_extends st.1 st'.1 /\
  (mono_symmetric st.1 -> mono_symmetric st'.1).
Proof.
  induction js as [|j js IH]; intros [sim k] st' Hrow; cbn [connect_row] in Hrow.
  - injection Hrow as <-. split; [apply mono_extends_refl|auto].
  - destruct (Qltb (uniform_real rng k) p).
    + destruct (ConnectNodes i j lat sim) as [sim1|] eqn:Hc; [|discriminate].
      cbn in Hrow. apply IH in Hrow as [Hext Hsym]. cbn in *. split.
      * eapply mono_extends_trans; [|exact Hext].
        eapply mono_ConnectNodes_extends; eauto.
      * intros Hs. apply Hsym. eapply mono_ConnectNodes_symmetric; eauto.
    + cbn in Hrow. apply IH in Hrow. exact Hrow.
Qed.

Lemma mono_connect_rows_keeps n rows : forall st st',
  connect_rows rng p lat n rows st = Some st' ->
  mono_extends st.1 st'.1 /\
  (mono_symmetric st.1 -> mono_symmetric st'.1).
Proof.
  induction rows as [|i rows IH]; intros st st' Hrows;
    cbn [connect_rows] in Hrows.
  - injection Hrows as <-. split; [apply mono_extends_refl|auto].
  - destruct (connect_row rng p lat i _ st) as [st1|] eqn:Hrow; [|discriminate].
    cbn in Hrows. apply mono_connect_row_keeps in Hrow as [He1 Hs1].
    apply IH in Hrows as [He2 Hs2]. split; [|auto].
    eapply mono_extends_trans; eauto.
Qed.

Lemma mono_ensure_peers_keeps fuel n rows : forall st st',
  ensure_peers rng lat fuel n rows st = Some st' ->
  mono_extends st.1 st'.1 /\
  (mono_symmetric st.1 -> mono_symmetric st'.1).
Proof.
  induction rows as [|i rows IH]; intros [sim k] st' Hrows;
    cbn [ensure_peers] in Hrows.
  - injection Hrows as <-. split; [apply mono_extends_refl|auto].
  - destruct (m_p2pNodes sim !! Z.to_nat i) as [node|]; [|discriminate].
    cbn [mbind option_bind] in Hrows.
    destruct (m_peers node).
    + destruct (pick_other rng fuel n i _ (S k)) as [[j' k']|]; [|discriminate].
      cbn [mbind option_bind] in Hrows.
      destruct (ConnectNodes i j' lat sim) as [sim1|] eqn:Hc; [|discriminate].
      cbn [mbind option_bind] in Hrows.
      apply IH in Hrows as [Hext Hsym]. cbn in *. split.
      * eapply mono_extends_trans; [|exact Hext].
        eapply mono_ConnectNodes_extends; eauto.
      * intros Hs. apply Hsym. eapply mono_ConnectNodes_symmetric; eauto.
    + cbn [mbind option_bind] in Hrows. apply IH in Hrows. exact Hrows.
Qed.

Lemma mono_topology_symmetric fuel sim sim' :
  CreateRandomTopology rng p lat fuel sim = Some sim' ->
  mono_symmetric sim -> mono_symmetric sim'.
Proof.
  unfold CreateRandomTopology. intros Hrun Hsym.
  destruct (connect_rows rng p lat _ _ (sim, 0%nat)) as [st1|] eqn:H1;
    [|discriminate].
  cbn [mbind option_bind] in Hrun.
  destruct (ensure_peers rng lat fuel _ _ st1) as [st2|] eqn:H2;
    [|discriminate].
  injection Hrun as <-.
  apply mono_connect_rows_keeps in H1 as [_ Hs1].
  apply mono_ensure_peers_keeps in H2 as [_ Hs2]. auto.
Qed.

Lemma mono_ConnectNodes_total i j sim :
  0 <= i < GetN sim -> 0 <= j < GetN sim ->
  exists sim', ConnectNodes i j lat sim = Some sim'.
Proof.
  intros Hi Hj. unfold ConnectNodes, in_range.
  destruct (Z.leb_spec 0 i); [|lia]. destruct (Z.ltb_spec i (GetN sim)); [|lia].
  destruct (Z.leb_spec 0 j); [|lia]. destruct (Z.ltb_spec j (GetN sim)); [|lia].
  cbn. eauto.
Qed.

Lemma mono_connect_row_total i js : forall st,
  0 <= i < GetN st.1 -> Forall (fun j => 0 <= j < GetN st.1) js ->
  exists st', connect_row rng p lat i js st = Some st'.
Proof.
  induction js as [|j js IH]; intros [sim k] Hi Hjs; cbn [connect_row].
  - eauto.
  - apply Forall_cons in Hjs as [Hj Hjs]. cbn [fst] in *.
    destruct (Qltb (uniform_real rng k) p).
    + destruct (mono_ConnectNodes_total i j sim Hi Hj) as [sim1 Hc].
      rewrite Hc. cbn [mbind option_bind].
      destruct (mono_ConnectNodes_extends i j lat sim sim1 Hc) as [Hn _].
      apply IH; cbn [fst]; rewrite Hn; auto.
    + cbn [mbind option_bind]. apply IH; auto.
Qed.

Lemma mono_connect_rows_total n rows : forall st,
  GetN st.1 = n -> Forall (fun i => 0 <= i < n) rows ->
  exists st', connect_rows rng p lat n rows st = Some st'.
Proof.
  induction rows as [|i rows IH]; intros st Hn Hrows; cbn [connect_rows].
  - eauto.
  - apply Forall_cons in Hrows as [Hi Hrows].
    destruct (mono_connect_row_total i (seqZ (i + 1) (n - (i + 1))) st)
      as [st1 Hrow].
    + lia.
    + apply Forall_forall. intros j Hj. apply elem_of_seqZ in Hj. lia.
    + rewrite Hrow. cbn [mbind option_bind]. apply IH; [|exact Hrows].
      apply mono_connect_row_keeps in Hrow as [[Hn1 _] _]. congruence.
Qed.

Lemma pick_other_more fuel extra n i : forall j k r,
  pick_other rng fuel n i j k = Some r ->
  pick_other rng (fuel + extra) n i j k = Some r.
Proof.
  induction fuel as [|fuel IH]; intros j k r Hpick.
  - cbn [pick_other] in Hpick. destruct (j =? i) eqn:Hji; [discriminate|].
    destruct extra; cbn [Nat.add pick_other]; rewrite Hji; exact Hpick.
  - cbn [Nat.add pick_other] in *. destruct (j =? i); [auto|exact Hpick].
Qed.

Lemma pick_other_fair n i d : forall k j,
  uniform_int rng (k + d) 0 (u32 (n - 1)) <> i ->
  exists fuel j' k',
    pick_other rng fuel n i j k = Some (j', k') /\
    j' <> i /\
    (j' = j \/ exists m, j' = uniform_int rng m 0 (u32 (n - 1))).
Proof.
  induction d as [|d IH]; intros k j Hlater.
  - destruct (Z.eqb_spec j i) as [->|Hne].
    + exists 1%nat, (uniform_int rng k 0 (u32 (n - 1))), (S k).
      rewrite Nat.add_0_r in Hlater. cbn [pick_other].
      rewrite Z.eqb_refl. apply Z.eqb_neq in Hlater as Hlater'.
      rewrite Hlater'. eauto.
    + exists 0%nat, j, k. cbn [pick_other].
      apply Z.eqb_neq in Hne as Hne'. rewrite Hne'. auto.
  - destruct (Z.eqb_spec j i) as [->|Hne].
    + destruct (IH (S k) (uniform_int rng k 0 (u32 (n - 1))))
        as (fuel & j' & k' & Hpick & Hj' & Hfrom).
      { rewrite Nat.add_succ_comm. exact Hlater. }
      exists (S fuel), j', k'. cbn [pick_other]. rewrite Z.eqb_refl.
      split; [exact Hpick|]. split; [exact Hj'|].
      right. destruct Hfrom as [->|Hm]; eauto.
    + exists 0%nat, j, k. cbn [pick_other].
      apply Z.eqb_neq in Hne as Hne'. rewrite Hne'. auto.
Qed.

Lemma mono_ensure_peers_more fuel extra n rows : forall st r,
  ensure_peers rng lat fuel n rows st = Some r ->
  ensure_peers rng lat (fuel + extra) n rows st = Some r.
Proof.
  induction rows as [|i rows IH]; intros [sim k] r Hrun;
    cbn [ensure_peers] in *; [exact Hrun|].
  destruct (m_p2pNodes sim !! Z.to_nat i) as [node|]; [|discriminate].
  cbn [mbind option_bind] in *. destruct (m_peers node).
  - destruct (pick_other rng fuel n i _ (S k)) as [[j' k']|] eqn:Hpick;
      [|discriminate].
    rewrite (pick_other_more fuel extra n i _ _ _ Hpick).
    cbn [mbind option_bind] in *.
    destruct (ConnectNodes i j' lat sim); [|discriminate].
    cbn [mbind option_bind] in *. auto.
  - cbn [mbind option_bind] in *. auto.
Qed.

Lemma mono_ensure_peers_total n rows :
  1 <= n <= 2 ^ 32 -> draws_in_range rng n -> fair rng n ->
  Forall (fun i => 0 <= i < n) rows ->
  forall st, GetN st.1 = n ->
  exists fuel st',
    ensure_peers rng lat fuel n rows st = Some st' /\
    forall i, i ∈ rows -> mono_peers_of st'.1 i <> [].
Proof.
  intros Hn Hrange Hfair Hrows.
  assert (Hu : u32 (n - 1) = n - 1) by (apply u32_small; lia).
  induction Hrows as [|i rows Hi Hrows IH]; intros [sim k] Hsize.
  { exists 0%nat. eexists. split; [reflexivity|].
    intros i Hi. inversion Hi. }
  cbn [fst] in Hsize. cbn [ensure_peers].
  destruct (lookup_lt_is_Some_2 (m_p2pNodes sim) (Z.to_nat i)) as [node Hnode].
  { unfold GetN in Hsize. lia. }
  rewrite Hnode. cbn [mbind option_bind].
  assert (Hhere : mono_peers_of sim i = m_peers node).
  { rewrite mono_peers_of_opt by lia. rewrite Hnode. reflexivity. }
  destruct (m_peers node) as [|q qs] eqn:Hpeers.
  - destruct (Hfair i (S k)) as (m & Hm & Hdraw).
    destruct (pick_other_fair n i (m - S k) (S k)
                (uniform_int rng k 0 (u32 (n - 1))))
      as (fuel1 & j' & k' & Hpick & Hj' & Hfrom).
    { replace (S k + (m - S k))%nat with m by lia. rewrite Hu. exact Hdraw. }
    assert (Hj'range : 0 <= j' < n).
    { destruct Hfrom as [->|[m' ->]]; rewrite Hu; apply Hrange. }
    destruct (mono_ConnectNodes_total i j' sim) as [sim1 Hc]; [lia|lia|].
    destruct (mono_ConnectNodes_spec i j' lat sim sim1 Hc)
      as (Hn1 & _ & _ & _ & Hij & _).
    destruct (IH (sim1, k')) as (fuel2 & st' & Hrest & Hall);
      [cbn; congruence|].
    exists (fuel1 + fuel2)%nat, st'.
    rewrite (pick_other_more fuel1 fuel2 n i _ _ _ Hpick).
    cbn [mbind option_bind]. rewrite Hc. cbn [mbind option_bind].
    rewrite Nat.add_comm.
    rewrite (mono_ensure_peers_more fuel2 fuel1 n rows _ _ Hrest).
    split; [reflexivity|]. intros a Ha.
    apply elem_of_cons in Ha as [->|Ha]; [|auto].
    apply mono_ensure_peers_keeps in Hrest as [[_ Hkeep] _].
    intros Hempty. specialize (Hkeep i j' Hij). cbn [fst] in Hkeep.
    rewrite Hempty in Hkeep. inversion Hkeep.
  - destruct (IH (sim, k)) as (fuel & st' & Hrest & Hall); [exact Hsize|].
    exists fuel, st'. split; [exact Hrest|]. intros a Ha.
    apply elem_of_cons in Ha as [->|Ha]; [|auto].
    apply mono_ensure_peers_keeps in Hrest as [[_ Hkeep] _].
    intros Hempty. specialize (Hkeep i q). cbn [fst] in Hkeep.
    rewrite Hhere, Hempty in Hkeep.
    assert (Hq : q ∈ q :: qs) by now left.
    specialize (Hkeep Hq). inversion Hkeep.
Qed.

Lemma mono_new_Simulation_size n : 0 <= n -> GetN (new_Simulation n) = n.
Proof.
  intros Hn. unfold GetN, new_Simulation. cbn.
  rewrite length_fmap, length_seqZ. lia.
Qed.

Lemma mono_new_Simulation_symmetric n : mono_symmetric (new_Simulation n).
Proof.
  intros a b Hab. cbn in Hab. rewrite lookup_empty in Hab.
  destruct Hab; discriminate.
Qed.

Lemma mono_topology_total n :
  2 <= n <= 2 ^ 32 -> draws_in_range rng n -> fair rng n ->
  exists fuel sim',
    CreateRandomTopology rng p lat fuel (new_Simulation n) = Some sim' /\
    GetN sim' = n /\
    forall i, 0 <= i < n -> mono_peers_of sim' i <> [].
Proof.
  intros Hn Hrange Hfair. unfold CreateRandomTopology.
  rewrite mono_new_Simulation_size by lia.
  assert (Hrows : Forall (fun i => 0 <= i < n) (seqZ 0 n)).
  { apply Forall_forall. intros i Hi. apply elem_of_seqZ in Hi. lia. }
  destruct (mono_connect_rows_total n (seqZ 0 n) (new_Simulation n, O))
    as [st1 H1]; [apply mono_new_Simulation_size; lia|exact Hrows|].
  destruct (mono_connect_rows_keeps _ _ _ _ H1) as [[Hsize1 _] _].
  cbn [fst] in Hsize1. rewrite mono_new_Simulation_size in Hsize1 by lia.
  destruct (mono_ensure_peers_total n (seqZ 0 n)) with (st := st1)
    as (fuel & st2 & H2 & Hall);
    [lia|exact Hrange|exact Hfair|exact Hrows|exact Hsize1|].
  destruct (mono_ensure_peers_keeps _ _ _ _ _ H2) as [[Hsize2 _] _].
  exists fuel, st2.1. rewrite H1. cbn [mbind option_bind]. rewrite H2.
  cbn [mbind option_bind]. split; [reflexivity|]. split; [congruence|].
  intros i Hi. apply Hall. apply elem_of_seqZ. lia.
Qed.

Lemma pick_other_single fuel : forall k,
  draws_in_range rng 1 -> pick_other rng fuel 1 0 0 k = None.
Proof.
  induction fuel as [|fuel IH]; intros k Hr; cbn [pick_other Z.eqb];
    [reflexivity|].
  assert (Hdraw : uniform_int rng k 0 (u32 (1 - 1)) = 0).
  { specialize (Hr k). change (u32 (1 - 1)) with (1 - 1). lia. }
  rewrite Hdraw. apply IH. exact Hr.
Qed.

Lemma mono_single_node_never_completes fuel :
  draws_in_range rng 1 ->
  CreateRandomTopology rng p lat fuel (new_Simulation 1) = None.
Proof.
  intros Hr. unfold CreateRandomTopology.
  change (GetN (new_Simulation 1)) with 1.
  change (seqZ 0 1) with [0]. cbn [connect_rows].
  change (seqZ (0 + 1) (1 - (0 + 1))) with (@nil Z).
  cbn [connect_row mbind option_bind ensure_peers].
  change (m_p2pNodes (new_Simulation 1) !! Z.to_nat 0)
    with (Some (new_P2PNode 0)).
  cbn [mbind option_bind m_peers new_P2PNode].
  assert (Hdraw : uniform_int rng 0 0 (u32 (1 - 1)) = 0).
  { specialize (Hr O). change (u32 (1 - 1)) with (1 - 1). lia. }
  rewrite Hdraw, pick_other_single by exact Hr. reflexivity.
Qed.

End Loops.

Lemma walking_in_range n : 1 <= n -> draws_in_range Sample.walking n.
Proof.
  intros Hn m. cbn. replace (n - 1 - 0 + 1) with n by lia.
  pose proof (Z.mod_pos_bound (Z.of_nat m) n). lia.
Qed.

Lemma walking_fair n : 2 <= n -> fair Sample.walking n.
Proof.
  intros Hn i k. cbn. replace (n - 1 - 0 + 1) with n by lia.
  destruct (decide (Z.of_nat k mod n = i)) as [Hi|Hi].
  - exists (S k). split; [lia|]. rewrite Nat2Z.inj_succ. subst i.
    rewrite Z.add_0_l. intros Heq.
    assert (Hone : (Z.succ (Z.of_nat k) - Z.of_nat k) mod n = 0).
    { rewrite Zminus_mod, Heq, Z.sub_diag. apply Z.mod_0_l. lia. }
    replace (Z.succ (Z.of_nat k) - Z.of_nat k) with 1 in Hone by lia.
    rewrite Z.mod_1_l in Hone by lia. discriminate Hone.
  - exists k. split; [lia|]. rewrite Z.add_0_l. exact Hi.
Qed.

End MonoTopology.

(** ** The reg_packet packet: [to_string] and back *)

Section DecimalLength.

Lemma nb_digits_double d :
  (Decimal.nb_digits (Decimal.Little.double d) <= S (Decimal.nb_digits d))%nat /\
  (Decimal.nb_digits (Decimal.Little.succ_double d) <= S (Decimal.nb_digits d))%nat.
Proof.
  induction d as [|d [IH1 IH2]|d [IH1 IH2]|d [IH1 IH2]|d [IH1 IH2]|d [IH1 IH2]
                  |d [IH1 IH2]|d [IH1 IH2]|d [IH1 IH2]|d [IH1 IH2]|d [IH1 IH2]];
    cbn [Decimal.Little.double Decimal.Little.succ_double Decimal.nb_digits];
    lia.
Qed.

Lemma nb_digits_pos p :
  (Decimal.nb_digits (Pos.to_little_uint p) <= Pos.to_nat p)%nat.
Proof.
  induction p as [p IH|p IH|]; cbn [Pos.to_little_uint].
  - pose proof (proj2 (nb_digits_double (Pos.to_little_uint p))). lia.
  - pose proof (proj1 (nb_digits_double (Pos.to_little_uint p))). lia.
  - cbn. lia.
Qed.

Lemma length_string_of_uint d :
  String.length (NilEmpty.string_of_uint d) = Decimal.nb_digits d.
Proof. induction d; cbn; congruence. Qed.

Lemma to_string_size x : 0 <= x -> size (to_string x) <= x + 1.
Proof.
  intros Hx. unfold size, to_string. rewrite length_string_of_uint.
  destruct x as [|p|p]; [cbn; lia| |lia].
  cbn [Z.to_N N.to_uint]. unfold Pos.to_uint. rewrite nb_digits_rev.
  pose proof (nb_digits_pos p). lia.
Qed.

Lemma substring_drop s : forall n m,
  (String.length s <= n + m)%nat -> String.substring n m s = drop n s.
Proof.
  induction s as [|c s IH]; intros n m Hlen.
  - destruct n, m; reflexivity.
  - destruct n as [|n].
    + destruct m as [|m]; [cbn in Hlen; lia|].
      cbn [String.substring drop]. f_equal.
      rewrite (IH 0%nat m) by (cbn in Hlen; lia). reflexivity.
    + cbn [String.substring drop]. apply IH. cbn in Hlen. lia.
Qed.

End DecimalLength.

Section Registration.
Context `{Platform}.
Variable Send : nat -> Tcp.Socket -> string -> Z.
Variable uninit : Share.

Lemma size_nonneg s : 0 <= size s.
Proof. unfold size. lia. Qed.

Lemma append_cons c s t :
  (String c s ++ t)%string = String c (s ++ t)%string.
Proof. reflexivity. Qed.

Lemma append_nil t : ("" ++ t)%string = t.
Proof. reflexivity. Qed.

Lemma prefix_append p t : String.prefix p (p ++ t) = true.
Proof.
  induction p as [|c p IH].
  - rewrite append_nil. destruct t; reflexivity.
  - rewrite append_cons. cbn [String.prefix].
    destruct (ascii_dec c c); [exact IH|congruence].
Qed.

Lemma find_in_append p t off : find_in p (p ++ t) off = Some off.
Proof.
  pose proof (prefix_append p t) as Hp.
  destruct (p ++ t)%string; cbn [find_in]; rewrite Hp; reflexivity.
Qed.

Lemma find_in_colon_cons c s off :
  find_in ":" (String c s) off
  = if Ascii.eqb c ":" then Some off else find_in ":" s (S off).
Proof. cbn [find_in]. rewrite prefix_colon. reflexivity. Qed.

Lemma register_text_size t :
  size ("REGISTER:" ++ t) = 9 + size t.
Proof.
  unfold size. rewrite !append_cons, append_nil. cbn [String.length]. lia.
Qed.

Lemma ReceiveShare_register i sock n k :
  0 <= i < 2 ^ 32 ->
  Tcp.ReceiveShare Send uninit ("REGISTER:" ++ to_string i) sock n k
  = Ok (Tcp.set_peers (Tcp.peers n ++ [i])
          (Tcp.set_peersockets (<[ i := sock ]> (Tcp.peersockets n)) n),
        k, []).
Proof.
  intros Hi. unfold Tcp.ReceiveShare.
  pose proof (to_string_size i (proj1 Hi)) as Hlen.
  pose proof (size_nonneg (to_string i)) as Hpos.
  assert (Hfind : find ("REGISTER:" ++ to_string i) "REGISTER:" 0 = 0).
  { unfold find. rewrite register_text_size.
    destruct (Z.ltb_spec (9 + size (to_string i)) 0); [lia|].
    change (Z.to_nat 0) with 0%nat. cbn [drop].
    rewrite find_in_append. reflexivity. }
  assert (Hcolon : find ("REGISTER:" ++ to_string i) ":" 0 = 8).
  { unfold find. rewrite register_text_size.
    destruct (Z.ltb_spec (9 + size (to_string i)) 0); [lia|].
    change (Z.to_nat 0) with 0%nat. cbn [drop].
    rewrite !append_cons, append_nil, !find_in_colon_cons. reflexivity. }
  rewrite Hfind, Hcolon. cbn [Z.eqb Pos.eqb negb].
  change (8 =? npos) with false. cbn [negb].
  change (u64 (8 + 1)) with 9.
  unfold substr. rewrite register_text_size.
  destruct (Z.ltb_spec (9 + size (to_string i)) 9); [lia|].
  rewrite substring_drop.
  2:{ rewrite !append_cons, append_nil. cbn [String.length]. unfold size in *.
      assert (npos = 2 ^ 64 - 1) by reflexivity. lia. }
  change (Z.to_nat 9) with 9%nat. rewrite !append_cons, append_nil.
  cbn [drop].
  cbn [bind]. rewrite stoul_to_string by (unfold ULONG_MAX; lia).
  cbn [bind]. rewrite u32_small by exact Hi. reflexivity.
Qed.

End Registration.

(** ** Topology of the socket draft *)

Section TcpTopology.
Import Tcp Graph.

Lemma alter_as_insert {A} (f : A -> A) K (l : list A) x :
  l !! K = Some x -> alter f K l = <[ K := f x ]> l.
Proof.
  intros Hx. apply list_eq. intros i.
  rewrite list_lookup_alter, list_lookup_insert.
  destruct (decide (K = i)) as [->|Hne].
  - rewrite Hx. cbn. apply lookup_lt_Some in Hx.
    rewrite decide_True by auto. reflexivity.
  - rewrite decide_False by (intros [? _]; auto). reflexivity.
Qed.

Lemma tcp_AddPeer_peers q n :
  q ∈ peers (AddPeer q n) /\
  forall x, x ∈ peers n -> x ∈ peers (AddPeer q n).
Proof.
  unfold AddPeer. destruct (decide (q ∈ peers n)) as [Hin|Hout].
  - rewrite bool_decide_eq_true_2 by exact Hin. auto.
  - rewrite bool_decide_eq_false_2 by exact Hout. cbn. split.
    + apply elem_of_app. right. now left.
    + intros x Hx. apply elem_of_app. now left.
Qed.

Lemma peers_of_lookup net a :
  0 <= a < GetN net ->
  exists n, p2pNodes net !! Z.to_nat a = Some n /\ peers_of net a = peers n.
Proof.
  intros Ha.
  destruct (lookup_lt_is_Some_2 (p2pNodes net) (Z.to_nat a)) as [n Hn].
  { unfold GetN in Ha. lia. }
  exists n. split; [exact Hn|]. unfold peers_of, in_range.
  destruct (Z.leb_spec 0 a); [|lia].
  destruct (Z.ltb_spec a (GetN net)); [|lia].
  cbn. rewrite Hn. reflexivity.
Qed.

Lemma peers_of_range net a x : x ∈ peers_of net a -> 0 <= a < GetN net.
Proof.
  unfold peers_of, in_range.
  destruct (Z.leb_spec 0 a); destruct (Z.ltb_spec a (GetN net)); cbn;
    try (intros Hx; inversion Hx; fail). lia.
Qed.

Lemma peers_of_insert net conns K n n' :
  0 <= K -> p2pNodes net !! Z.to_nat K = Some n ->
  (forall y, y ∈ peers n -> y ∈ peers n') ->
  extends net (mkNet (<[ Z.to_nat K := n' ]> (p2pNodes net)) conns) /\
  peers_of (mkNet (<[ Z.to_nat K := n' ]> (p2pNodes net)) conns) K
  = peers n'.
Proof.
  intros HK Hn Hkeep.
  set (net' := mkNet (<[ Z.to_nat K := n' ]> (p2pNodes net)) conns).
  assert (Hlen : GetN net' = GetN net).
  { unfold GetN, net'. cbn. rewrite length_insert. reflexivity. }
  pose proof (lookup_lt_Some _ _ _ Hn) as HKlt.
  assert (HKr : 0 <= K < GetN net) by (unfold GetN; lia).
  split; [split; [exact Hlen|]|].
  - intros a x Hx. pose proof (peers_of_range _ _ _ Hx) as Ha.
    destruct (peers_of_lookup net a Ha) as (m & Hm & Hpm).
    destruct (peers_of_lookup net' a) as (m' & Hm' & Hpm'); [lia|].
    rewrite Hpm in Hx. rewrite Hpm'. unfold net' in Hm'. cbn in Hm'.
    apply list_lookup_insert_Some in Hm' as [(Heq & <- & _)|[Hne Hm']].
    + apply Hkeep. rewrite <- Heq in Hm. rewrite Hn in Hm.
      injection Hm as <-. exact Hx.
    + rewrite Hm in Hm'. injection Hm' as <-. exact Hx.
  - destruct (peers_of_lookup net' K) as (m' & Hm' & ->); [lia|].
    unfold net' in Hm'. cbn in Hm'.
    rewrite list_lookup_insert_eq in Hm' by exact HKlt. congruence.
Qed.

Lemma extends_refl net : extends net net.
Proof. split; auto. Qed.

Lemma extends_trans n1 n2 n3 : extends n1 n2 -> extends n2 n3 -> extends n1 n3.
Proof. intros [H1 H2] [H3 H4]. split; [congruence|auto]. Qed.

Lemma tcp_ConnectNodes_spec i j lat net :
  0 <= i < GetN net -> 0 <= j < GetN net ->
  exists net',
    ConnectNodes i j lat net = Some net' /\
    p2pNodes net' = p2pNodes net /\
    (forall key, is_Some (connections net' !! key) <->
                 key = (i, j) \/ is_Some (connections net !! key)).
Proof.
  intros Hi Hj. unfold ConnectNodes, in_range.
  destruct (Z.leb_spec 0 i); [|lia]. destruct (Z.ltb_spec i (GetN net)); [|lia].
  destruct (Z.leb_spec 0 j); [|lia]. destruct (Z.ltb_spec j (GetN net)); [|lia].
  cbn. eexists. split; [reflexivity|]. split; [reflexivity|].
  intros key. cbn. rewrite lookup_insert_is_Some. split.
  - intros [Heq|[_ Hs]]; [left; symmetry; exact Heq|right; exact Hs].
  - intros [->|Hs]; [left; reflexivity|].
    destruct (decide ((i, j) = key)); [left|right]; auto.
Qed.

Lemma GetN_nodes net net' : p2pNodes net' = p2pNodes net -> GetN net' = GetN net.
Proof. unfold GetN. intros ->. reflexivity. Qed.

Section TcpLoops.
Variable U : nat -> double.
Variable p lat : double.

Lemma tcp_connect_row_spec i js : forall net k c,
  0 <= i < GetN net -> Forall (fun j => 0 <= j < GetN net) js ->
  exists net' k' c',
    connect_row U p lat i js (net, k, c) = Some (net', k', c') /\
    p2pNodes net' = p2pNodes net /\
    (forall key, is_Some (connections net !! key) ->
                 is_Some (connections net' !! key)) /\
    (keys_in_range net -> keys_in_range net') /\
    (c' = true ->
     c = true \/ exists j, is_Some (connections net' !! (i, j))).
Proof.
  induction js as [|j js IH]; intros net k c Hi Hjs; cbn [connect_row].
  - exists net, k, c. split; [reflexivity|]. split; [reflexivity|].
    split; [auto|]. split; auto.
  - apply Forall_cons in Hjs as [Hj Hjs].
    destruct (Mono.Qltb (U k) p).
    + destruct (tcp_ConnectNodes_spec i j lat net Hi Hj)
        as (net1 & Hc & Hnodes & Hkeys).
      rewrite Hc. cbn [mbind option_bind].
      pose proof (GetN_nodes _ _ Hnodes) as Hn.
      destruct (IH net1 (S k) true) as (net' & k' & c' & Hrow & Hn' & Hmono & Hr & _).
      { rewrite Hn. exact Hi. }
      { rewrite Hn. exact Hjs. }
      exists net', k', c'. split; [exact Hrow|]. split; [congruence|].
      split; [|split].
      * intros key Hkey. apply Hmono, Hkeys. auto.
      * intros Hrange. apply Hr. intros a b Hab. rewrite Hn.
        apply Hkeys in Hab as [[= -> ->]|Hold]; [auto|]. apply Hrange, Hold.
      * intros _. right. exists j. apply Hmono, Hkeys. auto.
    + cbn [mbind option_bind]. apply IH; auto.
Qed.

Lemma tcp_connect_rows_spec n rows : 
  2 <= n <= 2 ^ 32 -> Forall (fun i => 0 <= i < n) rows ->
  forall net k, GetN net = n ->
  exists net' k',
    connect_rows U p lat n rows (net, k) = Some (net', k') /\
    p2pNodes net' = p2pNodes net /\
    (forall key, is_Some (connections net !! key) ->
                 is_Some (connections net' !! key)) /\
    (keys_in_range net -> keys_in_range net') /\
    (forall i, i ∈ rows -> exists j, is_Some (connections net' !! (i, j))).
Proof.
  intros Hn Hrows. induction Hrows as [|i rows Hi Hrows IH]; intros net k Hsize;
    cbn [connect_rows].
  - exists net, k. split; [reflexivity|]. split; [reflexivity|].
    split; [auto|]. split; [auto|]. intros i Hi. inversion Hi.
  - destruct (tcp_connect_row_spec i (seqZ (i + 1) (n - (i + 1))) net k false)
      as (net1 & k1 & c & Hrow & Hnodes1 & Hmono1 & Hr1 & Hc).
    { lia. }
    { apply Forall_forall. intros j Hj. apply elem_of_seqZ in Hj. lia. }
    rewrite Hrow. cbn [mbind option_bind].
    pose proof (GetN_nodes _ _ Hnodes1) as Hn1.
    assert (Hfix : exists net2,
      (if negb c then
         if (i =? 0) && (0 <? n) then ConnectNodes 0 1 lat net1
         else ConnectNodes i (u32 (i - 1)) lat net1
       else Some net1) = Some net2 /\
      p2pNodes net2 = p2pNodes net1 /\
      (forall key, is_Some (connections net1 !! key) ->
                   is_Some (connections net2 !! key)) /\
      (keys_in_range net1 -> keys_in_range net2) /\
      exists j, is_Some (connections net2 !! (i, j))).
    { destruct c; cbn [negb].
      - exists net1. split; [reflexivity|]. split; [reflexivity|].
        split; [auto|]. split; [auto|].
        destruct (Hc eq_refl) as [Hf|Hj]; [discriminate|exact Hj].
      - destruct (Z.eqb_spec i 0) as [->|Hne].
        + destruct (Z.ltb_spec 0 n); [|lia]. cbn [andb].
          destruct (tcp_ConnectNodes_spec 0 1 lat net1)
            as (net2 & Hc2 & Hnodes2 & Hkeys2); [lia|lia|].
          exists net2. split; [exact Hc2|]. split; [exact Hnodes2|].
          split; [|split].
          * intros key Hkey. apply Hkeys2. auto.
          * intros Hrange a b Hab. rewrite (GetN_nodes _ _ Hnodes2).
            apply Hkeys2 in Hab as [[= -> ->]|Hold]; [lia|].
            apply Hrange, Hold.
          * exists 1. apply Hkeys2. auto.
        + cbn [andb]. rewrite u32_small by lia.
          destruct (tcp_ConnectNodes_spec i (i - 1) lat net1)
            as (net2 & Hc2 & Hnodes2 & Hkeys2); [lia|lia|].
          exists net2. split; [exact Hc2|]. split; [exact Hnodes2|].
          split; [|split].
          * intros key Hkey. apply Hkeys2. auto.
          * intros Hrange a b Hab. rewrite (GetN_nodes _ _ Hnodes2).
            apply Hkeys2 in Hab as [[= -> ->]|Hold]; [lia|].
            apply Hrange, Hold.
          * exists (i - 1). apply Hkeys2. auto. }
    destruct Hfix as (net2 & Hfix & Hnodes2 & Hmono2 & Hr2 & j & Hj).
    rewrite Hfix. cbn [mbind option_bind].
    destruct (IH net2 k1) as (net' & k' & Hrest & Hnodes' & Hmono' & Hr' & Hall).
    { rewrite (GetN_nodes _ _ Hnodes2). lia. }
    exists net', k'. split; [exact Hrest|]. split; [congruence|].
    split; [auto|]. split; [auto|].
    intros a Ha. apply elem_of_cons in Ha as [->|Ha]; [|auto].
    exists j. auto.
Qed.

Lemma tcp_new_Network_size n : 0 <= n -> GetN (new_Network n) = n.
Proof.
  intros Hn. unfold GetN, new_Network. cbn.
  rewrite length_fmap, length_seqZ. lia.
Qed.

Lemma tcp_topology_spec n :
  2 <= n <= 2 ^ 32 ->
  exists net1,
    CreateRandomTopology U p lat (new_Network n) = Some net1 /\
    GetN net1 = n /\ keys_in_range net1 /\
    (forall i, 0 <= i < n ->
               exists j, is_Some (connections net1 !! (i, j))) /\
    (forall a, peers_of net1 a = []).
Proof.
  intros Hn. unfold CreateRandomTopology.
  rewrite tcp_new_Network_size by lia.
  destruct (tcp_connect_rows_spec n (seqZ 0 n) Hn) with (net := new_Network n) (k := O)
    as (net' & k' & Hrows & Hnodes & _ & Hr & Hall).
  { apply Forall_forall. intros i Hi. apply elem_of_seqZ in Hi. lia. }
  { apply tcp_new_Network_size. lia. }
  rewrite Hrows. cbn [mbind option_bind]. eexists. split; [reflexivity|].
  assert (Hsize : GetN (mkNet (SetupServerSocket <$> p2pNodes net')
                              (connections net')) = n).
  { unfold GetN. cbn. rewrite length_fmap, Hnodes. apply tcp_new_Network_size. lia. }
  split; [exact Hsize|]. split; [|split].
  - intros a b Hab. rewrite Hsize. cbn in Hab.
    assert (Hk : keys_in_range net').
    { apply Hr. intros x y Hxy. cbn in Hxy. rewrite lookup_empty in Hxy.
      destruct Hxy; discriminate. }
    specialize (Hk a b Hab). rewrite (GetN_nodes _ _ Hnodes) in Hk.
    rewrite tcp_new_Network_size in Hk by lia. exact Hk.
  - intros i Hi. cbn. apply Hall. apply elem_of_seqZ. lia.
  - intros a. unfold peers_of. destruct (in_range _ a); [|reflexivity].
    cbn. rewrite Hnodes. cbn. rewrite !list_lookup_fmap.
    destruct (seqZ 0 n !! Z.to_nat a); reflexivity.
Qed.

End TcpLoops.

Lemma elem_of_connection_keys net i j :
  (i, j) ∈ connection_keys net <-> is_Some (connections net !! (i, j)).
Proof.
  unfold connection_keys. rewrite merge_sort_Permutation, list_elem_of_fmap.
  split.
  - intros [[key c] [Hk Hin]]. cbn in Hk. subst key.
    apply elem_of_map_to_list in Hin. eauto.
  - intros [c Hc]. exists ((i, j), c). split; [reflexivity|].
    apply elem_of_map_to_list. exact Hc.
Qed.

Lemma tcp_connect_all_spec keys : forall net,
  Forall (fun key => 0 <= key.1 < GetN net) keys ->
  exists net2,
    connect_all keys net = Some (net2, reg_packet <$> keys) /\
    connections net2 = connections net /\
    extends net net2 /\
    (forall i j, (i, j) ∈ keys -> j ∈ peers_of net2 i).
Proof.
  induction keys as [|[i j] keys IH]; intros net Hkeys; cbn [connect_all].
  - exists net. split; [reflexivity|]. split; [reflexivity|].
    split; [apply extends_refl|]. intros i j Hij. inversion Hij.
  - apply Forall_cons in Hkeys as [Hi Hkeys]. cbn [fst] in Hi.
    unfold ConnectPeerSockets, in_range.
    destruct (Z.leb_spec 0 i); [|lia].
    destruct (Z.ltb_spec i (GetN net)); [|lia]. cbn [andb mbind option_bind].
    destruct (peers_of_lookup net i Hi) as (n & Hn & Hpn).
    rewrite (alter_as_insert _ _ _ _ Hn).
    destruct (peers_of_insert net (connections net) i n
                (AddPeer j (AddPeerSocket j (ClientSocket i j) n)))
      as [Hext Hhere]; [lia|exact Hn| |].
    { intros y Hy. apply tcp_AddPeer_peers. exact Hy. }
    set (net1 := mkNet _ _) in *.
    destruct (IH net1) as (net2 & Hall & Hconn & Hext2 & Hpeers).
    { destruct Hext as [-> _]. exact Hkeys. }
    rewrite Hall. cbn [mbind option_bind]. exists net2.
    split; [reflexivity|]. split; [exact Hconn|].
    split; [eapply extends_trans; eauto|].
    intros a b Hab. apply elem_of_cons in Hab as [[= -> ->]|Hab]; [|auto].
    apply Hext2. rewrite Hhere. apply (proj1 (tcp_AddPeer_peers j _)).
Qed.

Section Registered.
Context `{Platform}.
Variable Send : nat -> Socket -> string -> Z.
Variable uninit : Share.

Lemma tcp_deliver_all_spec keys : forall net k,
  Forall (fun key => 0 <= key.1 < 2 ^ 32 /\ 0 <= key.2 < GetN net) keys ->
  exists net3,
    deliver_all Send uninit (reg_packet <$> keys) (net, k)
    = Ok (net3, k, []) /\
    connections net3 = connections net /\
    extends net net3 /\
    (forall i j, (i, j) ∈ keys -> i ∈ peers_of net3 j).
Proof.
  induction keys as [|[i j] keys IH]; intros net k Hkeys;
    cbn [fmap list_fmap deliver_all].
  - exists net. split; [reflexivity|]. split; [reflexivity|].
    split; [apply extends_refl|]. intros i j Hij. inversion Hij.
  - apply Forall_cons in Hkeys as [[Hi Hj] Hkeys]. cbn [fst snd] in Hi, Hj.
    change (reg_packet (i, j))
      with (mkMsg i j ("REGISTER:" ++ to_string i)).
    unfold deliver. cbn [msg_to msg_from msg_text].
    destruct (peers_of_lookup net j Hj) as (n & Hn & Hpn).
    rewrite Hn. rewrite ReceiveShare_register by exact Hi. cbn [bind].
    destruct (peers_of_insert net (connections net) j n
      (set_peers (peers n ++ [i])
         (set_peersockets (<[ i := AcceptedSocket j i ]> (peersockets n)) n)))
      as [Hext Hhere]; [lia|exact Hn| |].
    { intros y Hy. cbn. apply elem_of_app. now left. }
    set (net1 := mkNet _ _) in *.
    destruct (IH net1 k) as (net3 & Hall & Hconn & Hext3 & Hpeers).
    { destruct Hext as [-> _]. exact Hkeys. }
    rewrite Hall. cbn [bind app]. exists net3.
    split; [reflexivity|]. split; [exact Hconn|].
    split; [eapply extends_trans; eauto|].
    intros a b Hab. apply elem_of_cons in Hab as [[= -> ->]|Hab]; [|auto].
    apply Hext3. rewrite Hhere. cbn. apply elem_of_app. right. now left.
Qed.

End Registered.

End TcpTopology.

(** ** The claims about the topology *)

Section TopologyClaims.
Context `{Platform}.
Import Graph.

(** C6, as the code has it.  From two nodes on (node ids are 32 bit), and
    for any connection probability: [CreateRandomTopology] of the
    single-file draft returns once the retry loop has drawn another node,
    which it does when the integer draws stay in [0, n - 1] and do not
    repeat one node for ever; every node then has a peer.  In the socket
    draft [CreateRandomTopology] always returns, with every link recorded
    but every peer list still empty; the peer lists are filled by
    [makeconnections], which always returns and leaves every node with a
    peer. *)
Theorem topology_completes_from_two_nodes
  (rng : Mono.Rng) (U : nat -> double) (p lat : double) (n : Z) :
  2 <= n <= 2 ^ 32 ->
  (draws_in_range rng n -> fair rng n ->
   exists fuel sim',
     Mono.CreateRandomTopology rng p lat fuel (Mono.new_Simulation n)
     = Some sim' /\
     Mono.GetN sim' = n /\
     forall i, 0 <= i < n -> mono_peers_of sim' i <> []) /\
  (exists net1 net2 msgs,
     Tcp.CreateRandomTopology U p lat (Tcp.new_Network n) = Some net1 /\
     (forall i, peers_of net1 i = []) /\
     Tcp.makeconnections net1 = Some (net2, msgs) /\
     Tcp.GetN net2 = n /\
     forall i, 0 <= i < n -> peers_of net2 i <> []).
Proof.
  intros Hn. split.
  - intros Hr Hf. exact (mono_topology_total rng p lat n Hn Hr Hf).
  - destruct (tcp_topology_spec U p lat n Hn)
      as (net1 & Htop & Hsize & Hkeys & Hlinks & Hempty).
    destruct (tcp_connect_all_spec (Tcp.connection_keys net1) net1)
      as (net2 & Hall & _ & Hext & Hpeers).
    { apply Forall_forall. intros [a b] Hab.
      apply elem_of_connection_keys in Hab. apply Hkeys in Hab. tauto. }
    exists net1, net2, (reg_packet <$> Tcp.connection_keys net1).
    split; [exact Htop|]. split; [exact Hempty|]. split; [exact Hall|].
    split; [destruct Hext as [-> _]; exact Hsize|].
    intros i Hi Hnil. destruct (Hlinks i Hi) as [j Hj].
    apply elem_of_connection_keys in Hj. apply Hpeers in Hj.
    rewrite Hnil in Hj. inversion Hj.
Qed.

(** C7.  Every link of the table is in the peer lists of both its ends:
    in the single-file draft as soon as [CreateRandomTopology] has
    returned, [ConnectNodes] adding both directions at once; in the socket
    draft once [makeconnections] has run and the transport has delivered
    the registration packet of every link, for any link table whose ends
    are nodes. *)
Theorem wired_links_are_symmetric
  (rng : Mono.Rng) (Send : nat -> Tcp.Socket -> string -> Z)
  (uninit : Share) (p lat : double) :
  (forall n fuel sim',
     Mono.CreateRandomTopology rng p lat fuel (Mono.new_Simulation n)
     = Some sim' ->
     mono_symmetric sim') /\
  (forall net k,
     keys_in_range net -> Tcp.GetN net <= 2 ^ 32 ->
     exists net2 msgs net3,
       Tcp.makeconnections net = Some (net2, msgs) /\
       Tcp.deliver_all Send uninit msgs (net2, k) = Ok (net3, k, []) /\
       Tcp.connections net3 = Tcp.connections net /\
       symmetric net3).
Proof.
  split.
  - intros n fuel sim' Hrun.
    apply (mono_topology_symmetric rng p lat fuel _ _ Hrun).
    apply mono_new_Simulation_symmetric.
  - intros net k Hrange Hsize. unfold Tcp.makeconnections.
    assert (Hkeys : Forall (fun key => 0 <= key.1 < Tcp.GetN net /\
                                       0 <= key.2 < Tcp.GetN net)
                           (Tcp.connection_keys net)).
    { apply Forall_forall. intros [a b] Hab.
      apply elem_of_connection_keys in Hab. apply Hrange, Hab. }
    destruct (tcp_connect_all_spec (Tcp.connection_keys net) net)
      as (net2 & Hall & Hconn & Hext & Hpeers).
    { eapply Forall_impl; [exact Hkeys|]. cbn. intros key [Hk _]. exact Hk. }
    destruct (tcp_deliver_all_spec Send uninit (Tcp.connection_keys net)
                net2 k)
      as (net3 & Hdel & Hconn3 & Hext3 & Hpeers3).
    { eapply Forall_impl; [exact Hkeys|]. cbn. intros key [Hk1 Hk2].
      destruct Hext as [-> _]. lia. }
    exists net2, (reg_packet <$> Tcp.connection_keys net), net3.
    split; [exact Hall|]. split; [exact Hdel|].
    split; [congruence|].
    intros a b Hab. rewrite Hconn3, Hconn in Hab.
    apply elem_of_connection_keys in Hab. split.
    + apply Hext3, Hpeers, Hab.
    + apply Hpeers3, Hab.
Qed.

End TopologyClaims.

Section TopologyExamples.
Import Sample Graph.
#[local] Existing Instance sample_platform.

Lemma topology_completes_from_two_nodes_witness :
  (exists fuel sim',
     Mono.CreateRandomTopology walking (1 # 4)%Q 5%Q fuel (Mono.new_Simulation 3)
     = Some sim' /\
     Mono.GetN sim' = 3 /\
     forall i, 0 <= i < 3 -> mono_peers_of sim' i <> []) /\
  (exists net1 net2 msgs,
     Tcp.CreateRandomTopology halves (1 # 4)%Q 5%Q (Tcp.new_Network 3)
     = Some net1 /\
     (forall i, peers_of net1 i = []) /\
     Tcp.makeconnections net1 = Some (net2, msgs) /\
     Tcp.GetN net2 = 3 /\
     forall i, 0 <= i < 3 -> peers_of net2 i <> []).
Proof.
  destruct (topology_completes_from_two_nodes walking halves (1 # 4)%Q 5%Q 3)
    as [Hmono Htcp]; [lia|].
  split; [|exact Htcp].
  apply Hmono; [apply walking_in_range|apply walking_fair]; lia.
Defined.

(** One node.  The retry loop of the single-file draft draws from
    [nodeDist(0, 0)], which has only node 0 to give, and never leaves:
    no number of draws completes the call.  The socket draft calls
    [ConnectNodes(0, 1)] for a node 1 that does not exist. *)
Lemma single_node_topology_does_not_complete :
  (~ exists fuel sim',
       Mono.CreateRandomTopology only_zero (1 # 4)%Q 5%Q fuel
         (Mono.new_Simulation 1) = Some sim') /\
  Tcp.CreateRandomTopology halves (1 # 4)%Q 5%Q (Tcp.new_Network 1) = None.
Proof.
  split.
  - intros (fuel & sim' & Hrun).
    rewrite mono_single_node_never_completes in Hrun; [discriminate|].
    intros m. cbn. lia.
  - vm_compute. reflexivity.
Qed.

Lemma wired_links_are_symmetric_witness :
  (exists fuel sim',
     Mono.CreateRandomTopology walking (1 # 4)%Q 5%Q fuel (Mono.new_Simulation 3)
     = Some sim' /\
     mono_symmetric sim') /\
  (exists net1 net2 msgs net3,
     Tcp.CreateRandomTopology halves (1 # 4)%Q 5%Q (Tcp.new_Network 3)
     = Some net1 /\
     Tcp.makeconnections net1 = Some (net2, msgs) /\
     Tcp.deliver_all taken zeros msgs (net2, O) = Ok (net3, O, []) /\
     symmetric net3).
Proof.
  destruct (wired_links_are_symmetric walking taken zeros (1 # 4)%Q 5%Q)
    as [Hmono Htcp].
  split.
  - destruct (mono_topology_total walking (1 # 4)%Q 5%Q 3)
      as (fuel & sim' & Hrun & _);
      [lia|apply walking_in_range; lia|apply walking_fair; lia|].
    exists fuel, sim'. split; [exact Hrun|]. exact (Hmono 3 fuel sim' Hrun).
  - destruct (tcp_topology_spec halves (1 # 4)%Q 5%Q 3)
      as (net1 & Htop & Hsize & Hkeys & _); [lia|].
    destruct (Htcp net1 O Hkeys) as (net2 & msgs & net3 & Hall & Hdel & _ & Hsym);
      [rewrite Hsize; lia|].
    exists net1, net2, msgs, net3. auto.
Defined.

End TopologyExamples.

(** ** The wire format *)

Section WireFacts.

Lemma length_append a b :
  String.length (a ++ b) = (String.length a + String.length b)%nat.
Proof.
  induction a as [|c a IH]; [reflexivity|].
  rewrite append_cons. cbn [String.length]. rewrite IH. reflexivity.
Qed.

Lemma size_append a b : size (a ++ b) = size a + size b.
Proof. unfold size. rewrite length_append. lia. Qed.

Lemma append_assoc a b c : ((a ++ b) ++ c)%string = (a ++ b ++ c)%string.
Proof.
  induction a as [|x a IH]; [reflexivity|].
  rewrite !append_cons, IH. reflexivity.
Qed.

Lemma drop_append a s : drop (String.length a) (a ++ s) = s.
Proof.
  induction a as [|c a IH]; [reflexivity|].
  rewrite append_cons. cbn [String.length drop]. exact IH.
Qed.

Lemma substring_append_skip a s m :
  String.substring (String.length a) m (a ++ s) = String.substring 0 m s.
Proof.
  induction a as [|c a IH]; [reflexivity|].
  rewrite append_cons. cbn [String.length String.substring]. exact IH.
Qed.

Lemma substring_append_head b s :
  String.substring 0 (String.length b) (b ++ s) = b.
Proof.
  induction b as [|c b IH].
  - destruct s; reflexivity.
  - rewrite append_cons. cbn [String.length String.substring].
    rewrite IH. reflexivity.
Qed.

Lemma find_in_field a rest : forall off,
  colons a = 0%nat ->
  find_in ":" (a ++ String ":" rest) off = Some (off + String.length a)%nat.
Proof.
  induction a as [|c a IH]; intros off Hc.
  - rewrite append_nil, find_in_colon_cons. cbn. f_equal. lia.
  - rewrite append_cons, find_in_colon_cons. cbn [colons] in Hc.
    destruct (Ascii.eqb c ":"); [discriminate|].
    rewrite IH by exact Hc. cbn [String.length]. f_equal. lia.
Qed.

(** The first colon at or after the end of [pre], when the field [a] that
    follows has none. *)
Lemma find_field pre a rest :
  colons a = 0%nat ->
  find (pre ++ a ++ String ":" rest) ":" (size pre) = size pre + size a.
Proof.
  intros Hc. unfold find. rewrite size_append.
  pose proof (size_nonneg (a ++ String ":" rest)).
  destruct (Z.ltb_spec (size pre + size (a ++ String ":" rest)) (size pre));
    [lia|].
  unfold size. rewrite Nat2Z.id, drop_append, find_in_field by exact Hc. lia.
Qed.

Lemma substr_field pre b rest :
  substr (pre ++ b ++ rest) (size pre) (size b) = Ok b.
Proof.
  unfold substr. rewrite !size_append.
  pose proof (size_nonneg b). pose proof (size_nonneg rest).
  destruct (Z.ltb_spec (size pre + (size b + size rest)) (size pre)); [lia|].
  rewrite Z.min_l by lia. unfold size. rewrite !Nat2Z.id.
  rewrite substring_append_skip, substring_append_head. reflexivity.
Qed.

Lemma substr_tail pre d :
  size d <= npos -> substr (pre ++ d) (size pre) npos = Ok d.
Proof.
  intros Hd. unfold substr. rewrite size_append.
  pose proof (size_nonneg d).
  destruct (Z.ltb_spec (size pre + size d) (size pre)); [lia|].
  rewrite Z.min_r by lia.
  replace (size pre + size d - size pre) with (size d) by lia.
  unfold size. rewrite !Nat2Z.id, substring_append_skip.
  rewrite substring_drop by lia. reflexivity.
Qed.

End WireFacts.

Section Fields.
Context `{Platform}.

(** [FromString] reads its three fields between the first three colons. *)
Lemma FromString_fields uninit tag so si d :
  colons tag = 0%nat -> colons so = 0%nat -> colons si = 0%nat ->
  size (tag ++ ":" ++ so ++ ":" ++ si ++ ":" ++ d) < npos ->
  FromString uninit (tag ++ ":" ++ so ++ ":" ++ si ++ ":" ++ d)
  = (o <- stoul so ;; i <- stoul si ;; t <- stod d ;;
     Ok (mkShare (u32 o) (u32 i) t ∅)).
Proof.
  intros Htag Hso Hsi Hsize.
  set (str := (tag ++ ":" ++ so ++ ":" ++ si ++ ":" ++ d)%string) in *.
  assert (Hnpos : npos = 2 ^ 64 - 1) by reflexivity.
  pose proof (size_nonneg tag) as Ptag. pose proof (size_nonneg so) as Pso.
  pose proof (size_nonneg si) as Psi. pose proof (size_nonneg d) as Pd.
  assert (Hlen : size str = size tag + 1 + size so + 1 + size si + 1 + size d).
  { unfold str. rewrite !size_append. change (size ":") with 1. lia. }
  assert (F1 : find str ":" 0 = size tag).
  { pose proof (find_field "" tag (so ++ ":" ++ si ++ ":" ++ d) Htag) as Hf.
    rewrite append_nil in Hf. exact Hf. }
  assert (F2 : find str ":" (size tag + 1) = size tag + 1 + size so).
  { pose proof (find_field (tag ++ ":") so (si ++ ":" ++ d) Hso) as Hf.
    rewrite append_assoc, size_append in Hf. exact Hf. }
  assert (F3 : find str ":" (size tag + 1 + size so + 1)
               = size tag + 1 + size so + 1 + size si).
  { pose proof (find_field (tag ++ ":" ++ so ++ ":") si d Hsi) as Hf.
    rewrite !append_assoc, !size_append in Hf.
    change (size ":") with 1 in Hf.
    replace (size tag + (1 + (size so + 1)))
      with (size tag + 1 + size so + 1) in Hf by lia.
    exact Hf. }
  unfold FromString. rewrite F1.
  rewrite (u64_small (size tag + 1)) by lia. rewrite F2.
  rewrite (u64_small (size tag + 1 + size so + 1)) by lia. rewrite F3.
  destruct (Z.eqb_spec (size tag) npos); [lia|].
  destruct (Z.eqb_spec (size tag + 1 + size so) npos); [lia|].
  destruct (Z.eqb_spec (size tag + 1 + size so + 1 + size si) npos); [lia|].
  cbn [negb andb].
  replace (u64 (size tag + 1 + size so - size tag - 1)) with (size so)
    by (rewrite u64_small; lia).
  replace (u64 (size tag + 1 + size so + 1 + size si
                - (size tag + 1 + size so) - 1)) with (size si)
    by (rewrite u64_small; lia).
  rewrite (u64_small (size tag + 1 + size so + 1 + size si + 1)) by lia.
  assert (S1 : substr str (size tag + 1) (size so) = Ok so).
  { pose proof (substr_field (tag ++ ":") so (":" ++ si ++ ":" ++ d)) as Hs.
    rewrite append_assoc, size_append in Hs. exact Hs. }
  assert (S2 : substr str (size tag + 1 + size so + 1) (size si) = Ok si).
  { pose proof (substr_field (tag ++ ":" ++ so ++ ":") si (":" ++ d)) as Hs.
    rewrite !append_assoc, !size_append in Hs.
    change (size ":") with 1 in Hs.
    replace (size tag + (1 + (size so + 1)))
      with (size tag + 1 + size so + 1) in Hs by lia.
    exact Hs. }
  assert (S3 : substr str (size tag + 1 + size so + 1 + size si + 1) npos
               = Ok d).
  { pose proof (substr_tail (tag ++ ":" ++ so ++ ":" ++ si ++ ":") d) as Hs.
    rewrite !append_assoc, !size_append in Hs.
    change (size ":") with 1 in Hs.
    replace (size tag + (1 + (size so + (1 + (size si + 1)))))
      with (size tag + 1 + size so + 1 + size si + 1) in Hs by lia.
    apply Hs. lia. }
  rewrite S1. cbn [bind]. destruct (stoul so) as [o|e]; [|reflexivity].
  cbn [bind]. rewrite S2. cbn [bind].
  destruct (stoul si) as [i|e]; [|reflexivity].
  cbn [bind]. rewrite S3. cbn [bind]. reflexivity.
Qed.

End Fields.

Section RoundTrip.
Context `{Platform}.

Lemma colons_to_string x : colons (to_string x) = 0%nat.
Proof.
  unfold to_string. generalize (N.to_uint (Z.to_N x)). intros d.
  induction d; cbn; auto.
Qed.

Lemma ToString_size S :
  0 <= originNodeId S -> 0 <= shareId S ->
  size (ToString S)
  <= originNodeId S + shareId S + size (show_double (timestamp S)) + 10.
Proof.
  intros Ho Hi. unfold ToString. rewrite !size_append.
  pose proof (to_string_size _ Ho). pose proof (to_string_size _ Hi).
  change (size "SHARE:") with 6. change (size ":") with 1. lia.
Qed.

Lemma FromString_ToString uninit S :
  0 <= originNodeId S < 2 ^ 32 -> 0 <= shareId S < 2 ^ 32 ->
  size (ToString S) < npos ->
  FromString uninit (ToString S)
  = (t <- stod (show_double (timestamp S)) ;;
     Ok (mkShare (originNodeId S) (shareId S) t ∅)).
Proof.
  intros Ho Hi Hsize. unfold ToString in *.
  change ("SHARE:" ++ to_string (originNodeId S) ++ ":" ++
          to_string (shareId S) ++ ":" ++ show_double (timestamp S))%string
    with ("SHARE" ++ ":" ++ to_string (originNodeId S) ++ ":" ++
          to_string (shareId S) ++ ":" ++ show_double (timestamp S))%string
    in *.
  rewrite FromString_fields;
    [|reflexivity|apply colons_to_string|apply colons_to_string|exact Hsize].
  rewrite !stoul_to_string by (unfold ULONG_MAX; lia). cbn [bind].
  rewrite !u32_small by lia. reflexivity.
Qed.

Lemma find_in_ge pat s : forall off k,
  find_in pat s off = Some k -> (off <= k)%nat.
Proof.
  induction s as [|c s IH]; intros off k; cbn [find_in].
  - destruct (String.prefix pat ""); [intros [= <-]; lia|discriminate].
  - destruct (String.prefix pat (String c s)); [intros [= <-]; lia|].
    intros Hk. apply IH in Hk. lia.
Qed.

Lemma prefix_split p : forall s,
  String.prefix p s = true -> s = (p ++ drop (String.length p) s)%string.
Proof.
  induction p as [|c p IH]; intros s Hp.
  - rewrite append_nil. reflexivity.
  - destruct s as [|c' s]; cbn [String.prefix] in Hp; [discriminate|].
    destruct (ascii_dec c c') as [<-|]; [|discriminate].
    rewrite append_cons. cbn [String.length drop]. f_equal. apply IH, Hp.
Qed.

Lemma find_at_start msg pat :
  find msg pat 0 = 0 -> String.prefix pat msg = true.
Proof.
  unfold find. destruct (size msg <? 0); [discriminate|].
  change (Z.to_nat 0) with 0%nat. cbn [drop].
  destruct msg as [|c s]; cbn [find_in].
  - destruct (String.prefix pat ""); [reflexivity|discriminate].
  - destruct (String.prefix pat (String c s)); [reflexivity|].
    destruct (find_in pat s 1) as [k|] eqn:Hk; [|discriminate].
    apply find_in_ge in Hk. lia.
Qed.

Lemma find_not_at_start msg pat :
  String.prefix pat msg = false -> find msg pat 0 <> 0.
Proof.
  intros Hp Hf. apply find_at_start in Hf. congruence.
Qed.

Lemma ToString_not_register S : find (ToString S) "REGISTER:" 0 <> 0.
Proof.
  apply find_not_at_start. unfold ToString.
  rewrite !append_cons. reflexivity.
Qed.

End RoundTrip.

Section RegisterBranch.
Context `{Platform}.
Variable Send : nat -> Tcp.Socket -> string -> Z.
Variable uninit : Share.

Lemma ReceiveShare_register_text t sock n k :
  size t < npos - 9 ->
  Tcp.ReceiveShare Send uninit ("REGISTER:" ++ t) sock n k
  = (v <- stoul t ;;
     Ok (Tcp.set_peers (Tcp.peers n ++ [u32 v])
           (Tcp.set_peersockets (<[ u32 v := sock ]> (Tcp.peersockets n)) n),
         k, [])).
Proof.
  intros Hlen. unfold Tcp.ReceiveShare.
  pose proof (size_nonneg t) as Hpos.
  assert (Hfind : find ("REGISTER:" ++ t) "REGISTER:" 0 = 0).
  { unfold find. rewrite register_text_size.
    destruct (Z.ltb_spec (9 + size t) 0); [lia|].
    change (Z.to_nat 0) with 0%nat. cbn [drop].
    rewrite find_in_append. reflexivity. }
  assert (Hcolon : find ("REGISTER:" ++ t) ":" 0 = 8).
  { unfold find. rewrite register_text_size.
    destruct (Z.ltb_spec (9 + size t) 0); [lia|].
    change (Z.to_nat 0) with 0%nat. cbn [drop].
    rewrite !append_cons, append_nil, !find_in_colon_cons. reflexivity. }
  rewrite Hfind, Hcolon. cbn [Z.eqb Pos.eqb negb].
  change (8 =? npos) with false. cbn [negb].
  change (u64 (8 + 1)) with 9.
  unfold substr. rewrite register_text_size.
  destruct (Z.ltb_spec (9 + size t) 9); [lia|].
  rewrite substring_drop.
  2:{ rewrite !append_cons, append_nil. cbn [String.length]. unfold size in *.
      assert (npos = 2 ^ 64 - 1) by reflexivity. lia. }
  change (Z.to_nat 9) with 9%nat. rewrite !append_cons, append_nil.
  cbn [drop]. cbn [bind]. reflexivity.
Qed.

End RegisterBranch.

(** ** What a node sent comes back as a duplicate *)

Section Echo.
Context `{Platform}.
Import Wire.

Lemma processed_find_grows S X set :
  Mono.processed_find S set = true ->
  Mono.processed_find S (Mono.processed_insert X set) = true.
Proof.
  intros Hf. unfold Mono.processed_insert.
  destruct (Mono.processed_find X set); [exact Hf|].
  unfold Mono.processed_find in *. rewrite existsb_app, Hf. reflexivity.
Qed.

Lemma mono_sends_processed_grows set set' a :
  (forall S, Mono.processed_find S set = true ->
             Mono.processed_find S set' = true) ->
  mono_sends_processed set a -> mono_sends_processed set' a.
Proof.
  intros Hgrow. destruct a as [p msg|]; [|auto].
  intros (S & Hmsg & Hfits & Hin). exists S. auto.
Qed.

Lemma mono_flood_sends share n set :
  fits share -> Mono.processed_find share set = true ->
  Forall (mono_sends_processed set) (Mono.GossipShareToPeers share n).2.
Proof.
  intros Hfits Hin. destruct (mono_gossip_spec share n) as (sent & -> & _).
  cbn [snd]. apply Forall_fmap, Forall_forall. intros p _.
  exists share. auto.
Qed.

Lemma mono_flood_keeps share n :
  Mono.m_id (Mono.GossipShareToPeers share n).1 = Mono.m_id n /\
  Mono.m_sharesGenerated (Mono.GossipShareToPeers share n).1
  = Mono.m_sharesGenerated n /\
  Mono.m_processedShares (Mono.GossipShareToPeers share n).1
  = Mono.m_processedShares n.
Proof.
  destruct (mono_gossip_spec share n) as (sent & -> & _). cbn. auto.
Qed.

Lemma FromString_fits uninit msg share :
  fits uninit -> FromString uninit msg = Ok share -> fits share.
Proof.
  intros Hu Hshare. unfold FromString in Hshare.
  destruct (_ && _) in Hshare.
  - destruct (substr _ _ _) in Hshare; cbn [bind] in Hshare;
      [|discriminate].
    destruct (stoul _) in Hshare; cbn [bind] in Hshare; [|discriminate].
    destruct (substr _ _ _) in Hshare; cbn [bind] in Hshare;
      [|discriminate].
    destruct (stoul _) in Hshare; cbn [bind] in Hshare; [|discriminate].
    destruct (substr _ _ _) in Hshare; cbn [bind] in Hshare;
      [|discriminate].
    destruct (stod _) in Hshare; cbn [bind] in Hshare; [|discriminate].
    injection Hshare as <-. split; cbn; apply u32_range.
  - injection Hshare as <-. exact Hu.
Qed.

Lemma mono_step_sends uninit ev n n1 acts :
  fits uninit ->
  Mono.step uninit ev n = Ok (n1, acts) ->
  0 <= Mono.m_id n < 2 ^ 32 -> 0 <= Mono.m_sharesGenerated n < 2 ^ 32 ->
  Mono.m_id n1 = Mono.m_id n /\
  0 <= Mono.m_sharesGenerated n1 < 2 ^ 32 /\
  (forall S, Mono.processed_find S (Mono.m_processedShares n) = true ->
             Mono.processed_find S (Mono.m_processedShares n1) = true) /\
  Forall (mono_sends_processed (Mono.m_processedShares n1)) acts.
Proof.
  intros Hu Hstep Hid Hgen.
  destruct ev as [p|now|msg]; cbn [Mono.step] in Hstep.
  - injection Hstep as <- <-. unfold Mono.AddPeer.
    destruct (bool_decide _); cbn; auto.
  - injection Hstep as Hstep. unfold Mono.GenerateAndGossipShare in Hstep.
    destruct (Mono.m_peers n) as [|q qs] eqn:Hpeers.
    { injection Hstep as <- <-. split; [reflexivity|]. split; [lia|].
      split; [auto|]. repeat constructor. }
    rewrite <- Hpeers in Hstep.
    set (share := Mono.new_share now n) in *.
    set (n0 := Mono.mkNode _ _ _ _ _ _ _) in Hstep.
    pose proof (mono_flood_keeps share n0) as (Kid & Kgen & Kset).
    pose proof (mono_flood_sends share n0
                  (Mono.processed_insert share (Mono.m_processedShares n)))
      as Hsends.
    destruct (Mono.GossipShareToPeers share n0) as [n2 acts2].
    injection Hstep as <- <-. cbn [fst snd] in *.
    rewrite Kid, Kgen, Kset. cbn.
    split; [reflexivity|]. split; [apply u32_range|].
    split; [intros S; apply processed_find_grows|].
    apply Forall_app. split; [|repeat constructor].
    apply Hsends; [split; cbn; lia|apply processed_find_insert].
  - unfold Mono.ReceiveShare in Hstep.
    destruct (FromString uninit msg) as [share|e] eqn:Hshare;
      cbn [bind] in Hstep; [|discriminate].
    pose proof (FromString_fits uninit msg share Hu Hshare) as Hfits.
    destruct (Mono.processed_find share (Mono.m_processedShares n)) eqn:Hold.
    { injection Hstep as <- <-. cbn. auto. }
    set (share' := mkShare _ _ _ _) in Hstep.
    set (n0 := Mono.mkNode _ _ _ _ _ _ _) in Hstep.
    pose proof (mono_flood_keeps share' n0) as (Kid & Kgen & Kset).
    pose proof (mono_flood_sends share' n0
                  (Mono.processed_insert share (Mono.m_processedShares n)))
      as Hsends.
    destruct (Mono.GossipShareToPeers share' n0) as [n2 acts2].
    injection Hstep as <- <-. cbn [fst snd] in *.
    rewrite Kid, Kgen, Kset. cbn.
    split; [reflexivity|]. split; [lia|].
    split; [intros S; apply processed_find_grows|].
    apply Hsends; [exact Hfits|].
    rewrite (proj2 (mono_identity_is_the_pair share' share eq_refl)).
    apply processed_find_insert.
Qed.

Lemma mono_run_sends uninit evs : forall n n' acts,
  fits uninit ->
  Mono.run uninit evs n = Ok (n', acts) ->
  0 <= Mono.m_id n < 2 ^ 32 -> 0 <= Mono.m_sharesGenerated n < 2 ^ 32 ->
  Mono.m_id n' = Mono.m_id n /\
  0 <= Mono.m_sharesGenerated n' < 2 ^ 32 /\
  (forall S, Mono.processed_find S (Mono.m_processedShares n) = true ->
             Mono.processed_find S (Mono.m_processedShares n') = true) /\
  Forall (mono_sends_processed (Mono.m_processedShares n')) acts.
Proof.
  induction evs as [|ev evs IH]; intros n n' acts Hu Hrun Hid Hgen;
    cbn [Mono.run] in Hrun.
  - injection Hrun as <- <-. auto.
  - destruct (Mono.step uninit ev n) as [[n1 acts1]|e] eqn:Hstep;
      cbn [bind] in Hrun; [|discriminate].
    destruct (Mono.run uninit evs n1) as [[n2 acts2]|e] eqn:Hrest;
      cbn [bind] in Hrun; [|discriminate].
    injection Hrun as <- <-.
    destruct (mono_step_sends uninit ev n n1 acts1 Hu Hstep Hid Hgen)
      as (Hid1 & Hgen1 & Hgrow1 & Hsends1).
    destruct (IH n1 n2 acts2 Hu Hrest) as (Hid2 & Hgen2 & Hgrow2 & Hsends2);
      [lia|exact Hgen1|].
    split; [congruence|]. split; [exact Hgen2|]. split; [auto|].
    apply Forall_app. split; [|exact Hsends2].
    eapply Forall_impl; [exact Hsends1|]. intros a.
    apply mono_sends_processed_grows. exact Hgrow2.
Qed.

Lemma mono_receive_processed uninit S n :
  fits S -> size (ToString S) < npos ->
  Mono.processed_find S (Mono.m_processedShares n) = true ->
  match Mono.ReceiveShare uninit (ToString S) n with
  | Ok (n2, acts2) =>
      acts2 = [] /\
      Mono.m_processedShares n2 = Mono.m_processedShares n /\
      Mono.m_sharesForwarded n2 = Mono.m_sharesForwarded n /\
      Mono.m_sharesReceived n2 = u32 (Mono.m_sharesReceived n + 1)
  | Throw e => stod (show_double (timestamp S)) = Throw e
  end.
Proof.
  intros [Ho Hi] Hsize Hin. unfold Mono.ReceiveShare.
  rewrite FromString_ToString by assumption.
  destruct (stod (show_double (timestamp S))) as [t|e]; cbn [bind];
    [|reflexivity].
  rewrite (proj2 (mono_identity_is_the_pair
                    (mkShare (originNodeId S) (shareId S) t ∅) S eq_refl)).
  rewrite Hin. cbn. auto.
Qed.

End Echo.

Section TcpEcho.
Context `{Platform}.
Variable Send : nat -> Tcp.Socket -> string -> Z.
Variable uninit : Share.
Import Wire Tcp.

Lemma sends_processed_grows (set set' : gset Z) a :
  set ⊆ set' -> sends_processed set a -> sends_processed set' a.
Proof.
  intros Hsub. destruct a as [p s msg b| |]; cbn; auto.
  intros (S & Hmsg & Hfits & Hin). exists S. auto.
Qed.

Lemma tcp_flood_sends share n k set :
  fits share -> shareId share ∈ set ->
  let '(n', _, acts) := GossipShareToPeers Send share n k in
  Forall (sends_processed set) acts /\
  id n' = id n /\ processedShares n' = processedShares n.
Proof.
  intros Hfits Hin. pose proof (tcp_gossip_keeps Send share n k) as Hkeep.
  unfold GossipShareToPeers in *.
  destruct (gossip_loop Send (ToString share) (peers n) (peersockets n)
              (sharesSent n) k) as [[[socks sent] k'] acts] eqn:Hloop.
  apply gossip_loop_post in Hloop as (_ & _ & _ & Hall & _).
  destruct Hkeep as (_ & _ & _ & Hset & _ & _ & Hid).
  split; [|auto]. eapply Forall_impl; [exact Hall|].
  intros a (p & s & b & -> & _). exists share. auto.
Qed.

Ltac quiet_step :=
  split; [reflexivity|split; [reflexivity|repeat constructor]].

Lemma tcp_process_sends msg n k n1 k1 acts :
  fits uninit ->
  process_share Send uninit msg n k = Ok (n1, k1, acts) ->
  id n1 = id n /\ processedShares n ⊆ processedShares n1 /\
  Forall (sends_processed (processedShares n1)) acts.
Proof.
  intros Hu Hrun. unfold process_share in Hrun.
  destruct (FromString uninit msg) as [share|e] eqn:Hshare;
    cbn [bind] in Hrun; [|discriminate].
  pose proof (FromString_fits uninit msg share Hu Hshare) as Hfits.
  destruct (bool_decide _) in Hrun.
  { injection Hrun as <- <- <-. quiet_step. }
  match type of Hrun with
  | Ok (GossipShareToPeers Send ?s ?m k) = _ =>
      assert (Hnew : shareId s ∈ processedShares m)
        by (cbn; apply elem_of_union_l, elem_of_singleton; reflexivity);
      pose proof (tcp_flood_sends s m k (processedShares m) Hfits Hnew)
        as Hf;
      destruct (GossipShareToPeers Send s m k) as [[n2 k2] acts2]
  end.
  injection Hrun as E1 E2 E3. subst n2 k2 acts2.
  destruct Hf as (Hsends & Hid & Hset).
  rewrite Hset. split; [rewrite Hid; reflexivity|].
  split; [cbn; apply union_subseteq_r|exact Hsends].
Qed.

Lemma tcp_step_sends ev n k n1 k1 acts :
  fits uninit ->
  step Send uninit ev n k = Ok (n1, k1, acts) ->
  0 <= id n < 2 ^ 32 ->
  id n1 = id n /\ processedShares n ⊆ processedShares n1 /\
  Forall (sends_processed (processedShares n1)) acts.
Proof.
  intros Hu Hstep Hid.
  destruct ev as [|p|p s| | |now|msg sock]; cbn [step] in Hstep.
  - injection Hstep as <- <- <-. quiet_step.
  - injection Hstep as <- <- <-. unfold AddPeer.
    destruct (bool_decide _); quiet_step.
  - injection Hstep as <- <- <-. quiet_step.
  - injection Hstep as <- <- <-. quiet_step.
  - injection Hstep as <- <- <-. cbn. split; [reflexivity|].
    split; [reflexivity|]. apply Forall_app. split.
    + destruct (serverSocket n); repeat constructor.
    + apply Forall_fmap, Forall_forall. intros x _. exact I.
  - injection Hstep as Hstep. unfold GenerateAndGossipShare in Hstep.
    destruct (peers n) as [|q qs] eqn:Hpeers.
    { injection Hstep as <- <- <-. quiet_step. }
    destruct (isrunning n); cbn [negb] in Hstep.
    2:{ injection Hstep as <- <- <-. quiet_step. }
    match type of Hstep with
    | context [GossipShareToPeers Send ?s ?m k] =>
        assert (Hnew : shareId s ∈ processedShares m)
        by (cbn; apply elem_of_union_l, elem_of_singleton; reflexivity);
        assert (Hfits : fits s) by (split; cbn; [lia|apply u32_range]);
        pose proof (tcp_flood_sends s m k (processedShares m) Hfits Hnew)
          as Hf;
        destruct (GossipShareToPeers Send s m k) as [[n2 k2] acts2]
    end.
    injection Hstep as <- <- <-.
    destruct Hf as (Hsends & Hid2 & Hset).
    rewrite Hset. split; [rewrite Hid2; reflexivity|].
    split; [cbn; apply union_subseteq_r|].
    apply Forall_app. split; [exact Hsends|repeat constructor].
  - unfold ReceiveShare in Hstep.
    destruct (find msg "REGISTER:" 0 =? 0);
      [|exact (tcp_process_sends msg n k n1 k1 acts Hu Hstep)].
    destruct (negb _);
      [|exact (tcp_process_sends msg n k n1 k1 acts Hu Hstep)].
    destruct (substr _ _ _) in Hstep; cbn [bind] in Hstep; [|discriminate].
    destruct (stoul _) in Hstep; cbn [bind] in Hstep; [|discriminate].
    injection Hstep as <- <- <-. quiet_step.
Qed.

Lemma tcp_run_sends evs : forall n k n' k' acts,
  fits uninit ->
  run Send uninit evs n k = Ok (n', k', acts) ->
  0 <= id n < 2 ^ 32 ->
  id n' = id n /\ processedShares n ⊆ processedShares n' /\
  Forall (sends_processed (processedShares n')) acts.
Proof.
  induction evs as [|ev evs IH]; intros n k n' k' acts Hu Hrun Hid;
    cbn [run] in Hrun.
  - injection Hrun as <- <- <-. quiet_step.
  - destruct (step Send uninit ev n k) as [[[n1 k1] acts1]|e] eqn:Hstep;
      cbn [bind] in Hrun; [|discriminate].
    destruct (run Send uninit evs n1 k1) as [[[n2 k2] acts2]|e] eqn:Hrest;
      cbn [bind] in Hrun; [|discriminate].
    injection Hrun as <- <- <-.
    destruct (tcp_step_sends ev n k n1 k1 acts1 Hu Hstep Hid)
      as (Hid1 & Hsub1 & Hsends1).
    destruct (IH n1 k1 n2 k2 acts2 Hu Hrest) as (Hid2 & Hsub2 & Hsends2);
      [lia|].
    split; [congruence|]. split; [etrans; eassumption|].
    apply Forall_app. split; [|exact Hsends2].
    eapply Forall_impl; [exact Hsends1|]. intros a.
    apply sends_processed_grows. exact Hsub2.
Qed.

Lemma tcp_receive_processed S sock n k :
  fits S -> size (ToString S) < npos ->
  shareId S ∈ processedShares n ->
  match ReceiveShare Send uninit (ToString S) sock n k with
  | Ok (n2, k2, acts2) =>
      acts2 = [] /\ k2 = k /\
      processedShares n2 = processedShares n /\
      sharesForwarded n2 = sharesForwarded n /\
      sharesReceived n2 = u32 (sharesReceived n + 1)
  | Throw e => stod (show_double (timestamp S)) = Throw e
  end.
Proof.
  intros [Ho Hi] Hsize Hin. unfold ReceiveShare.
  destruct (Z.eqb_spec (find (ToString S) "REGISTER:" 0) 0) as [Hreg|_];
    [destruct (ToString_not_register S Hreg)|].
  unfold process_share. rewrite FromString_ToString by assumption.
  destruct (stod (show_double (timestamp S))) as [t|e]; cbn [bind];
    [|reflexivity].
  cbn [shareId processedShares set_sharesReceived].
  rewrite bool_decide_eq_true_2 by exact Hin. cbn. auto.
Qed.

End TcpEcho.

(** ** A node without sockets *)

Section Stopped.
Context `{Platform}.
Variable Send : nat -> Tcp.Socket -> string -> Z.
Variable uninit : Share.
Import Tcp Quiet.

Lemma gossip_loop_no_socket msg ps sent k :
  gossip_loop Send msg ps ∅ sent k = (∅, sent, k, []).
Proof.
  induction ps as [|p ps IH]; cbn [gossip_loop]; [reflexivity|].
  rewrite lookup_empty. exact IH.
Qed.

Lemma flood_no_socket share n k :
  peersockets n = ∅ -> GossipShareToPeers Send share n k = (n, k, []).
Proof.
  intros Hs. unfold GossipShareToPeers. rewrite Hs, gossip_loop_no_socket.
  destruct n; cbn in *. subst. reflexivity.
Qed.

Lemma tcp_step_no_socket ev n k n1 k1 acts :
  step Send uninit ev n k = Ok (n1, k1, acts) ->
  adds_no_socket ev -> peersockets n = ∅ ->
  peersockets n1 = ∅ /\ sharesSent n1 = sharesSent n /\ k1 = k /\
  peers n1 = (match ev with EvAddPeer p => peers (AddPeer p n)
                          | _ => peers n end) /\
  filter is_send acts = [].
Proof.
  intros Hstep Hev Hs.
  destruct ev as [|p|p s| | |now|msg sock]; cbn [step] in Hstep.
  - injection Hstep as <- <- <-. cbn. auto.
  - injection Hstep as <- <- <-. unfold AddPeer.
    destruct (bool_decide _); cbn; auto.
  - destruct Hev.
  - injection Hstep as <- <- <-. cbn. auto.
  - injection Hstep as <- <- <-. cbn. repeat split; auto.
    rewrite Hs, map_to_list_empty. cbn. rewrite app_nil_r.
    destruct (serverSocket n); reflexivity.
  - injection Hstep as Hstep. unfold GenerateAndGossipShare in Hstep.
    destruct (peers n) as [|q qs] eqn:Hpeers.
    { injection Hstep as <- <- <-. rewrite Hpeers. auto. }
    destruct (isrunning n); cbn [negb] in Hstep.
    2:{ injection Hstep as <- <- <-. rewrite Hpeers. auto. }
    rewrite flood_no_socket in Hstep by exact Hs.
    injection Hstep as <- <- <-. cbn. rewrite Hpeers. auto.
  - cbn in Hev. unfold ReceiveShare in Hstep.
    destruct (Z.eqb_spec (find msg "REGISTER:" 0) 0) as [Hreg|_];
      [contradiction|].
    unfold process_share in Hstep.
    destruct (FromString uninit msg) as [share|e]; cbn [bind] in Hstep;
      [|discriminate].
    destruct (bool_decide _) in Hstep.
    { injection Hstep as <- <- <-. cbn. auto. }
    rewrite flood_no_socket in Hstep by exact Hs.
    injection Hstep as <- <- <-. cbn. auto.
Qed.

Lemma tcp_run_no_socket evs : forall n k n' k' acts,
  run Send uninit evs n k = Ok (n', k', acts) ->
  Forall adds_no_socket evs -> peersockets n = ∅ ->
  peersockets n' = ∅ /\ sharesSent n' = sharesSent n /\ k' = k /\
  filter is_send acts = [].
Proof.
  induction evs as [|ev evs IH]; intros n k n' k' acts Hrun Hevs Hs;
    cbn [run] in Hrun.
  - injection Hrun as <- <- <-. auto.
  - apply Forall_cons in Hevs as [Hev Hevs].
    destruct (step Send uninit ev n k) as [[[n1 k1] acts1]|e] eqn:Hstep;
      cbn [bind] in Hrun; [|discriminate].
    destruct (run Send uninit evs n1 k1) as [[[n2 k2] acts2]|e] eqn:Hrest;
      cbn [bind] in Hrun; [|discriminate].
    injection Hrun as <- <- <-.
    destruct (tcp_step_no_socket ev n k n1 k1 acts1 Hstep Hev Hs)
      as (Hs1 & Hsent1 & Hk1 & _ & Hacts1).
    destruct (IH n1 k1 n2 k2 acts2 Hrest Hevs Hs1)
      as (Hs2 & Hsent2 & Hk2 & Hacts2).
    split; [exact Hs2|]. split; [congruence|]. split; [congruence|].
    rewrite filter_app, Hacts1, Hacts2. reflexivity.
Qed.

End Stopped.

Section WireClaims.
Context `{Platform}.
Import Wire Quiet.

(** X1.  [FromString] takes its three fields from between the first three
    colons of the text: what stands before the first colon is not looked
    at, the first two fields go to [std::stoul] and are cut to 32 bits, and
    the third field runs to the end of the text, further colons
    included.  The set of visited nodes of the result is empty. *)
Theorem fields_lie_between_the_first_three_colons uninit tag so si d :
  colons tag = 0%nat -> colons so = 0%nat -> colons si = 0%nat ->
  size (tag ++ ":" ++ so ++ ":" ++ si ++ ":" ++ d) < npos ->
  FromString uninit (tag ++ ":" ++ so ++ ":" ++ si ++ ":" ++ d)
  = (o <- stoul so ;; i <- stoul si ;; t <- stod d ;;
     Ok (mkShare (u32 o) (u32 i) t ∅)).
Proof. apply FromString_fields. Qed.

(** X2.  What [ToString] writes, [FromString] reads back: the origin and
    the share id come back as they were, the time stamp comes back as
    [std::stod] reads its printed form (or the exception [std::stod]
    throws on it), and the set of visited nodes does not travel. *)
Theorem share_text_reads_back uninit S :
  fits S -> size (ToString S) < npos ->
  FromString uninit (ToString S)
  = (t <- stod (show_double (timestamp S)) ;;
     Ok (mkShare (originNodeId S) (shareId S) t ∅)).
Proof. intros [Ho Hi] Hsize. apply FromString_ToString; assumption. Qed.

(** X3.  A node drops what it sent when it comes back.  Every message a
    node has sent in a run carries a share that is in its processed set at
    the end of the run, so [ReceiveShare] on that message counts it as
    received and does nothing else: nothing is sent, the forwarded counter
    and the processed set stay.  (It throws only if [std::stod] throws on
    the printed time stamp of that share.)  [uninit], what an
    uninitialised [Share] holds, is 32 bit like the fields it stands
    for. *)
Theorem own_messages_are_dropped_on_return uninit :
  fits uninit ->
  (forall evs n n' acts p msg,
     Mono.run uninit evs n = Ok (n', acts) ->
     0 <= Mono.m_id n < 2 ^ 32 -> 0 <= Mono.m_sharesGenerated n < 2 ^ 32 ->
     Mono.ASend p msg ∈ acts -> size msg < npos ->
     match Mono.ReceiveShare uninit msg n' with
     | Ok (n2, acts2) =>
         acts2 = [] /\
         Mono.m_processedShares n2 = Mono.m_processedShares n' /\
         Mono.m_sharesForwarded n2 = Mono.m_sharesForwarded n' /\
         Mono.m_sharesReceived n2 = u32 (Mono.m_sharesReceived n' + 1)
     | Throw e =>
         exists S, msg = ToString S /\
                   stod (show_double (timestamp S)) = Throw e
     end) /\
  (forall (Send : nat -> Tcp.Socket -> string -> Z)
          evs n k n' k' acts p s msg b sock k2,
     Tcp.run Send uninit evs n k = Ok (n', k', acts) ->
     0 <= Tcp.id n < 2 ^ 32 ->
     Tcp.ASend p s msg b ∈ acts -> size msg < npos ->
     match Tcp.ReceiveShare Send uninit msg sock n' k2 with
     | Ok (n2, k3, acts2) =>
         acts2 = [] /\ k3 = k2 /\
         Tcp.processedShares n2 = Tcp.processedShares n' /\
         Tcp.sharesForwarded n2 = Tcp.sharesForwarded n' /\
         Tcp.sharesReceived n2 = u32 (Tcp.sharesReceived n' + 1)
     | Throw e =>
         exists S, msg = ToString S /\
                   stod (show_double (timestamp S)) = Throw e
     end).
Proof.
  intros Hu. split.
  - intros evs n n' acts p msg Hrun Hid Hgen Hin Hsize.
    destruct (mono_run_sends uninit evs n n' acts Hu Hrun Hid Hgen)
      as (_ & _ & _ & Hsends).
    rewrite Forall_forall in Hsends.
    destruct (Hsends _ Hin) as (S & -> & Hfits & Hfound).
    pose proof (mono_receive_processed uninit S n' Hfits Hsize Hfound) as Hr.
    destruct (Mono.ReceiveShare uninit (ToString S) n') as [[n2 acts2]|e];
      [exact Hr|eauto].
  - intros Send evs n k n' k' acts p s msg b sock k2 Hrun Hid Hin Hsize.
    destruct (tcp_run_sends Send uninit evs n k n' k' acts Hu Hrun Hid)
      as (_ & _ & Hsends).
    rewrite Forall_forall in Hsends.
    destruct (Hsends _ Hin) as (S & -> & Hfits & Hfound).
    pose proof (tcp_receive_processed Send uninit S sock n' k2 Hfits Hsize
                  Hfound) as Hr.
    destruct (Tcp.ReceiveShare Send uninit (ToString S) sock n' k2)
      as [[[n2 k3] acts2]|e]; [exact Hr|eauto].
Qed.

(** X4.  A packet that begins with [REGISTER:] is never taken for a
    share.  [ReceiveShare] of [p2pnode.cc] hands the rest of the text to
    [std::stoul]; when that throws, [ReceiveShare] throws; otherwise the
    number, cut to 32 bits, is appended to the peer list and mapped to the
    socket the packet came in on, no counter moves and nothing is
    sent. *)
Theorem register_packets_are_not_shares
    (Send : nat -> Tcp.Socket -> string -> Z) uninit msg sock n k :
  find msg "REGISTER:" 0 = 0 -> size msg < npos ->
  Tcp.ReceiveShare Send uninit msg sock n k
  = (v <- stoul (drop 9 msg) ;;
     Ok (Tcp.set_peers (Tcp.peers n ++ [u32 v])
           (Tcp.set_peersockets
              (<[ u32 v := sock ]> (Tcp.peersockets n)) n),
         k, [])).
Proof.
  intros Hreg Hsize. apply find_at_start, prefix_split in Hreg.
  change (String.length "REGISTER:") with 9%nat in Hreg.
  rewrite Hreg at 1. apply ReceiveShare_register_text.
  rewrite Hreg, register_text_size in Hsize. lia.
Qed.

(** X5.  [Stop] leaves a node without sockets, and a node without sockets
    sends nothing: through every later event that gives it no socket (no
    [AddPeerSocket], no registration packet), a new start included, no
    call of [Send] is made, [sharesSent] stands still and the socket map
    stays empty.  The server socket stays set, so a second [Stop] closes
    it again and nothing else. *)
Theorem stopped_node_sends_nothing
    (Send : nat -> Tcp.Socket -> string -> Z) uninit n evs k n' k' acts :
  Forall adds_no_socket evs ->
  Tcp.run Send uninit evs (Tcp.Stop n).1 k = Ok (n', k', acts) ->
  filter is_send acts = [] /\ k' = k /\
  Tcp.sharesSent n' = Tcp.sharesSent n /\
  Tcp.peersockets n' = ∅ /\
  Tcp.Stop (Tcp.Stop n).1
  = ((Tcp.Stop n).1,
     match Tcp.serverSocket n with
     | Some s => [Tcp.AClose s]
     | None => []
     end).
Proof.
  intros Hevs Hrun.
  destruct (tcp_run_no_socket Send uninit evs _ k n' k' acts Hrun Hevs
              eq_refl) as (Hs & Hsent & Hk & Hacts).
  split; [exact Hacts|]. split; [exact Hk|]. split; [exact Hsent|].
  split; [exact Hs|]. unfold Tcp.Stop. cbn.
  rewrite map_to_list_empty. cbn. rewrite app_nil_r. reflexivity.
Qed.

End WireClaims.

Section WireExamples.
Import Sample Wire Quiet.
#[local] Existing Instance sample_platform.

Lemma fields_lie_between_the_first_three_colons_witness :
  FromString zeros ("PING" ++ ":" ++ " 12x" ++ ":" ++ "+7" ++ ":" ++ "3:4")
  = Ok (mkShare 12 7 (inject_Z 3) ∅).
Proof.
  rewrite (fields_lie_between_the_first_three_colons zeros
             "PING" " 12x" "+7" "3:4");
    [reflexivity|reflexivity|reflexivity|reflexivity|reflexivity].
Defined.

Lemma share_text_reads_back_witness :
  FromString zeros (ToString (mkShare 3 7 (5 # 2)%Q {[ 1 ]}))
  = Ok (mkShare 3 7 (inject_Z 2) ∅).
Proof.
  rewrite (share_text_reads_back zeros (mkShare 3 7 (5 # 2)%Q {[ 1 ]}));
    [reflexivity|split; cbn; lia|reflexivity].
Defined.

Lemma register_packets_are_not_shares_witness :
  Tcp.ReceiveShare taken zeros "REGISTER: 4294967299 and more"
    (Tcp.AcceptedSocket 0 3) (Tcp.new_P2PNode 0) 0
  = Ok (Tcp.set_peers [3]
          (Tcp.set_peersockets {[ 3 := Tcp.AcceptedSocket 0 3 ]}
             (Tcp.new_P2PNode 0)), O, []).
Proof.
  rewrite (register_packets_are_not_shares taken zeros
             "REGISTER: 4294967299 and more");
    [reflexivity|reflexivity|reflexivity].
Defined.

Lemma own_messages_are_dropped_on_return_witness :
  (exists n' acts,
     Mono.run zeros [Mono.EvAddPeer 1; Mono.EvGenerate 3000000000]
       (Mono.new_P2PNode 0) = Ok (n', acts) /\
     Mono.ASend 1 "SHARE:0:0:3" ∈ acts /\
     match Mono.ReceiveShare zeros "SHARE:0:0:3" n' with
     | Ok (n2, acts2) =>
         acts2 = [] /\
         Mono.m_processedShares n2 = Mono.m_processedShares n' /\
         Mono.m_sharesForwarded n2 = Mono.m_sharesForwarded n' /\
         Mono.m_sharesReceived n2 = u32 (Mono.m_sharesReceived n' + 1)
     | Throw e =>
         exists S, "SHARE:0:0:3"%string = ToString S /\
                   stod (show_double (timestamp S)) = Throw e
     end) /\
  (exists n' k' acts,
     Tcp.run taken zeros
       [Tcp.EvReceive "SHARE:1:7:0" (Tcp.AcceptedSocket 0 1)] wired 0
     = Ok (n', k', acts) /\
     Tcp.ASend 2 (Tcp.ClientSocket 0 2) "SHARE:1:7:0" 11 ∈ acts /\
     match Tcp.ReceiveShare taken zeros "SHARE:1:7:0"
             (Tcp.AcceptedSocket 0 2) n' 9 with
     | Ok (n2, k3, acts2) =>
         acts2 = [] /\ k3 = 9%nat /\
         Tcp.processedShares n2 = Tcp.processedShares n' /\
         Tcp.sharesForwarded n2 = Tcp.sharesForwarded n' /\
         Tcp.sharesReceived n2 = u32 (Tcp.sharesReceived n' + 1)
     | Throw e =>
         exists S, "SHARE:1:7:0"%string = ToString S /\
                   stod (show_double (timestamp S)) = Throw e
     end).
Proof.
  assert (Hfits : fits zeros) by (split; cbn; lia).
  destruct (own_messages_are_dropped_on_return zeros Hfits)
    as [Hmono Htcp].
  split.
  - assert (Hok : exists n' acts,
      Mono.run zeros [Mono.EvAddPeer 1; Mono.EvGenerate 3000000000]
        (Mono.new_P2PNode 0) = Ok (n', acts) /\
      Mono.ASend 1 "SHARE:0:0:3" ∈ acts)
      by (vm_compute; eexists _, _; split; [reflexivity|repeat constructor]).
    destruct Hok as (n' & acts & Hrun & Hin).
    exists n', acts. split; [exact Hrun|]. split; [exact Hin|].
    assert (Hid : 0 <= Mono.m_id (Mono.new_P2PNode 0) < 2 ^ 32)
      by (cbn; lia).
    assert (Hgen : 0 <= Mono.m_sharesGenerated (Mono.new_P2PNode 0) < 2 ^ 32)
      by (cbn; lia).
    assert (Hsize : size "SHARE:0:0:3" < npos) by reflexivity.
    exact (Hmono _ _ n' acts 1 "SHARE:0:0:3"%string Hrun Hid Hgen Hin
             Hsize).
  - assert (Hok : exists n' k' acts,
      Tcp.run taken zeros
        [Tcp.EvReceive "SHARE:1:7:0" (Tcp.AcceptedSocket 0 1)] wired 0
      = Ok (n', k', acts) /\
      Tcp.ASend 2 (Tcp.ClientSocket 0 2) "SHARE:1:7:0" 11 ∈ acts)
      by (vm_compute; eexists _, _, _; split;
          [reflexivity|repeat constructor]).
    destruct Hok as (n' & k' & acts & Hrun & Hin).
    exists n', k', acts. split; [exact Hrun|]. split; [exact Hin|].
    assert (Hid : 0 <= Tcp.id wired < 2 ^ 32)
      by (change (Tcp.id wired) with 0; lia).
    assert (Hsize : size "SHARE:1:7:0" < npos) by reflexivity.
    exact (Htcp taken _ _ _ n' k' acts 2 (Tcp.ClientSocket 0 2)
             "SHARE:1:7:0"%string 11 (Tcp.AcceptedSocket 0 2) 9%nat Hrun
             Hid Hin Hsize).
Defined.

Lemma stopped_node_sends_nothing_witness :
  exists n' k' acts,
    Tcp.run taken zeros
      [Tcp.EvStart; Tcp.EvGenerate 5;
       Tcp.EvReceive "SHARE:1:7:0" (Tcp.AcceptedSocket 0 1)]
      (Tcp.Stop wired).1 0 = Ok (n', k', acts) /\
    filter is_send acts = [] /\ Tcp.sharesSent n' = 0.
Proof.
  assert (Hok : exists n' k' acts,
    Tcp.run taken zeros
      [Tcp.EvStart; Tcp.EvGenerate 5;
       Tcp.EvReceive "SHARE:1:7:0" (Tcp.AcceptedSocket 0 1)]
      (Tcp.Stop wired).1 0 = Ok (n', k', acts))
    by (vm_compute; eexists _, _, _; reflexivity).
  destruct Hok as (n' & k' & acts & Hrun).
  exists n', k', acts. split; [exact Hrun|].
  assert (Hevs : Forall adds_no_socket
    [Tcp.EvStart; Tcp.EvGenerate 5;
     Tcp.EvReceive "SHARE:1:7:0" (Tcp.AcceptedSocket 0 1)]).
  { repeat constructor. intros Hreg. vm_compute in Hreg. discriminate Hreg. }
  destruct (stopped_node_sends_nothing taken zeros wired _ 0%nat n' k' acts
              Hevs Hrun) as (Hacts & _ & Hsent & _).
  auto.
Defined.

End WireExamples.

(** ** The shape of the topology *)

Section MonoShape.
Import Mono Graph Shape.

Lemma mono_AddPeer_elem p n x :
  x ∈ m_peers (AddPeer p n) <-> x = p \/ x ∈ m_peers n.
Proof.
  unfold AddPeer. destruct (decide (p ∈ m_peers n)) as [Hin|Hout].
  - rewrite bool_decide_eq_true_2 by exact Hin. split; [auto|].
    intros [->|Hx]; auto.
  - rewrite bool_decide_eq_false_2 by exact Hout. cbn.
    rewrite elem_of_app, list_elem_of_singleton. tauto.
Qed.

Lemma mono_AddPeer_NoDup p n :
  NoDup (m_peers n) -> NoDup (m_peers (AddPeer p n)).
Proof.
  intros Hnd. unfold AddPeer.
  destruct (decide (p ∈ m_peers n)) as [Hin|Hout].
  - rewrite bool_decide_eq_true_2 by exact Hin. exact Hnd.
  - rewrite bool_decide_eq_false_2 by exact Hout. cbn.
    apply NoDup_app. repeat split; [exact Hnd| |apply NoDup_singleton].
    intros x Hx Hx'. apply list_elem_of_singleton in Hx'. congruence.
Qed.

Lemma mono_ConnectNodes_peers i j lat sim sim' a :
  ConnectNodes i j lat sim = Some sim' ->
  (forall x, x ∈ mono_peers_of sim' a <->
             x ∈ mono_peers_of sim a \/ (a = i /\ x = j) \/
             (a = j /\ x = i)) /\
  (NoDup (mono_peers_of sim a) -> NoDup (mono_peers_of sim' a)).
Proof.
  intros Hc.
  destruct (mono_ConnectNodes_spec i j lat sim sim' Hc)
    as (Hn & Hi & Hj & _).
  unfold ConnectNodes in Hc.
  destruct (in_range sim i && in_range sim j); [|discriminate].
  injection Hc as <-.
  destruct (decide (0 <= a < GetN sim)) as [Ha|Ha].
  2:{ assert (Hout : forall s, GetN s = GetN sim -> mono_peers_of s a = []).
      { intros s Hs. unfold mono_peers_of, in_range. rewrite Hs.
        destruct (Z.leb_spec 0 a); destruct (Z.ltb_spec a (GetN sim));
          cbn; try reflexivity. lia. }
      rewrite (Hout _ Hn), (Hout sim eq_refl). split; [|auto].
      intros x. split; [intros Hx; inversion Hx|].
      intros [Hx|[[-> _]|[-> _]]]; [inversion Hx|lia|lia]. }
  rewrite mono_peers_of_opt by lia.
  rewrite (mono_peers_of_opt sim a) by lia. cbn [m_p2pNodes].
  destruct (lookup_lt_is_Some_2 (m_p2pNodes sim) (Z.to_nat a)) as [n Hnode].
  { unfold GetN in Ha. lia. }
  destruct (decide (a = j)) as [Haj|Haj]; destruct (decide (a = i)) as [Hai|Hai].
  - subst i j. rewrite !list_lookup_alter_eq, Hnode.
    cbn [fmap option_fmap option_map opt_peers]. split.
    + intros x. rewrite !mono_AddPeer_elem. tauto.
    + intros Hnd. now do 2 apply mono_AddPeer_NoDup.
  - subst j. rewrite list_lookup_alter_eq, list_lookup_alter_ne by lia.
    rewrite Hnode. cbn [fmap option_fmap option_map opt_peers]. split.
    + intros x. rewrite !mono_AddPeer_elem. tauto.
    + apply mono_AddPeer_NoDup.
  - subst i. rewrite list_lookup_alter_ne by lia.
    rewrite list_lookup_alter_eq, Hnode.
    cbn [fmap option_fmap option_map opt_peers]. split.
    + intros x. rewrite !mono_AddPeer_elem. tauto.
    + apply mono_AddPeer_NoDup.
  - rewrite !list_lookup_alter_ne by lia. rewrite Hnode. split; [|auto].
    intros x. tauto.
Qed.

Lemma mono_ConnectNodes_shape i j lat sim sim' :
  ConnectNodes i j lat sim = Some sim' ->
  i <> j -> ~ is_Some (m_connections sim !! (j, i)) ->
  mono_links_simple sim /\ mono_peers_exact sim ->
  mono_links_simple sim' /\ mono_peers_exact sim'.
Proof.
  intros Hc Hij Hback [Hlinks Hpeers].
  destruct (mono_ConnectNodes_spec i j lat sim sim' Hc)
    as (Hn & Hi & Hj & _ & _ & _ & Hkeys).
  split.
  - intros a b Hab. rewrite Hn. rewrite (Hkeys (b, a)).
    apply Hkeys in Hab as [[= -> ->]|Hold].
    + split; [exact Hij|]. split; [exact Hi|]. split; [exact Hj|].
      intros [[= ? ?]|Hji]; [congruence|auto].
    + destruct (Hlinks a b Hold) as (Hne & Ha & Hb & Hno).
      split; [exact Hne|]. split; [exact Ha|]. split; [exact Hb|].
      intros [[= -> ->]|Hba]; auto.
  - intros a. destruct (mono_ConnectNodes_peers i j lat sim sim' a Hc)
      as [Helem Hnd]. destruct (Hpeers a) as [Hnd0 Hex].
    split; [auto|]. intros b. rewrite Helem, Hex. unfold mono_linked.
    rewrite (Hkeys (a, b)), (Hkeys (b, a)). split.
    + intros [[H1|H1]|[[-> ->]|[-> ->]]]; auto.
    + intros [[[= -> ->]|H1]|[[= -> ->]|H1]]; auto.
Qed.

Lemma pick_other_ne rng fuel n i : forall j k j' k',
  pick_other rng fuel n i j k = Some (j', k') -> j' <> i.
Proof.
  induction fuel as [|fuel IH]; intros j k j' k'; cbn [pick_other];
    destruct (Z.eqb_spec j i) as [->|Hne]; try discriminate.
  - intros [= <- <-]. exact Hne.
  - apply IH.
  - intros [= <- <-]. exact Hne.
Qed.

Section Passes.
Variable rng : Rng.
Variable p lat : double.

Lemma mono_connect_row_shape i js : forall st st',
  connect_row rng p lat i js st = Some st' ->
  Forall (fun j => i < j) js ->
  mono_ordered st.1 /\ mono_links_simple st.1 /\ mono_peers_exact st.1 ->
  mono_ordered st'.1 /\ mono_links_simple st'.1 /\ mono_peers_exact st'.1.
Proof.
  induction js as [|j js IH]; intros [sim k] st' Hrow Hjs Hinv;
    cbn [connect_row] in Hrow.
  - injection Hrow as <-. exact Hinv.
  - apply Forall_cons in Hjs as [Hj Hjs].
    destruct (Qltb (uniform_real rng k) p).
    + destruct (ConnectNodes i j lat sim) as [sim1|] eqn:Hc;
        cbn in Hrow; [|discriminate].
      apply (IH _ _ Hrow Hjs). cbn [fst] in *.
      destruct Hinv as (Hord & Hshape).
      assert (Hback : ~ is_Some (m_connections sim !! (j, i))).
      { intros Hji. apply Hord in Hji. lia. }
      split.
      * destruct (mono_ConnectNodes_spec i j lat sim sim1 Hc)
          as (_ & _ & _ & _ & _ & _ & Hkeys).
        intros a b Hab. apply Hkeys in Hab as [[= -> ->]|Hold]; auto.
      * apply (mono_ConnectNodes_shape i j lat sim sim1 Hc); [lia|auto|auto].
    + cbn in Hrow. apply (IH _ _ Hrow Hjs Hinv).
Qed.

Lemma mono_connect_rows_shape n rows : forall st st',
  connect_rows rng p lat n rows st = Some st' ->
  mono_ordered st.1 /\ mono_links_simple st.1 /\ mono_peers_exact st.1 ->
  mono_ordered st'.1 /\ mono_links_simple st'.1 /\ mono_peers_exact st'.1.
Proof.
  induction rows as [|i rows IH]; intros st st' Hrows Hinv;
    cbn [connect_rows] in Hrows.
  - injection Hrows as <-. exact Hinv.
  - destruct (connect_row rng p lat i _ st) as [st1|] eqn:Hrow;
      cbn in Hrows; [|discriminate].
    apply (IH _ _ Hrows).
    apply (mono_connect_row_shape i _ _ _ Hrow); [|exact Hinv].
    apply Forall_forall. intros j Hj. apply elem_of_seqZ in Hj. lia.
Qed.

Lemma mono_ensure_peers_shape fuel n rows : forall st st',
  ensure_peers rng lat fuel n rows st = Some st' ->
  Forall (fun i => 0 <= i) rows ->
  mono_links_simple st.1 /\ mono_peers_exact st.1 ->
  mono_links_simple st'.1 /\ mono_peers_exact st'.1.
Proof.
  induction rows as [|i rows IH]; intros [sim k] st' Hrows Hpos Hinv;
    cbn [ensure_peers] in Hrows.
  - injection Hrows as <-. exact Hinv.
  - apply Forall_cons in Hpos as [Hi Hpos].
    destruct (m_p2pNodes sim !! Z.to_nat i) as [node|] eqn:Hnode;
      [|discriminate].
    cbn [mbind option_bind] in Hrows.
    assert (Hhere : mono_peers_of sim i = m_peers node).
    { apply lookup_lt_Some in Hnode as Hlt.
      rewrite mono_peers_of_opt by (unfold GetN; lia).
      rewrite Hnode. reflexivity. }
    destruct (m_peers node) as [|q qs].
    + destruct (pick_other rng fuel n i _ (S k)) as [[j' k']|] eqn:Hpick;
        cbn in Hrows; [|discriminate].
      destruct (ConnectNodes i j' lat sim) as [sim1|] eqn:Hc;
        cbn in Hrows; [|discriminate].
      apply (IH _ _ Hrows Hpos). cbn [fst] in *.
      apply (mono_ConnectNodes_shape i j' lat sim sim1 Hc); [| |exact Hinv].
      * apply pick_other_ne in Hpick. congruence.
      * intros Hji. destruct Hinv as [_ Hpeers].
        destruct (Hpeers i) as [_ Hex].
        assert (Hin : j' ∈ mono_peers_of sim i) by (apply Hex; right; auto).
        rewrite Hhere in Hin. inversion Hin.
    + cbn in Hrows. apply (IH _ _ Hrows Hpos Hinv).
Qed.

Lemma mono_topology_shape fuel n sim' :
  CreateRandomTopology rng p lat fuel (new_Simulation n) = Some sim' ->
  mono_links_simple sim' /\ mono_peers_exact sim'.
Proof.
  unfold CreateRandomTopology. intros Hrun.
  destruct (connect_rows rng p lat _ _ _) as [st1|] eqn:H1;
    cbn in Hrun; [|discriminate].
  destruct (ensure_peers rng lat fuel _ _ st1) as [st2|] eqn:H2;
    cbn in Hrun; [|discriminate].
  injection Hrun as <-.
  apply (mono_ensure_peers_shape _ _ _ _ _ H2).
  { apply Forall_forall. intros i Hi. apply elem_of_seqZ in Hi. lia. }
  apply (mono_connect_rows_shape _ _ _ _ H1). cbn [fst].
  assert (Hnone : forall key,
            ~ is_Some (m_connections (new_Simulation n) !! key)).
  { intros key Hk. cbn in Hk. rewrite lookup_empty in Hk.
    destruct Hk; discriminate. }
  split; [|split].
  - intros a b Hab. destruct (Hnone _ Hab).
  - intros a b Hab. destruct (Hnone _ Hab).
  - intros a.
    assert (Hempty : mono_peers_of (new_Simulation n) a = []).
    { unfold mono_peers_of. destruct (in_range _ a); [|reflexivity].
      cbn. rewrite list_lookup_fmap.
      destruct (seqZ 0 n !! Z.to_nat a); reflexivity. }
    rewrite Hempty. split; [constructor|]. intros b. split.
    + intros Hb. inversion Hb.
    + intros [Hl|Hl]; destruct (Hnone _ Hl).
Qed.

End Passes.

End MonoShape.

Section TcpShape.
Import Tcp Graph Shape.

Lemma sockets_of_lookup net a :
  0 <= a < GetN net ->
  exists n, p2pNodes net !! Z.to_nat a = Some n /\
            peers_of net a = peers n /\ sockets_of net a = peersockets n.
Proof.
  intros Ha.
  destruct (lookup_lt_is_Some_2 (p2pNodes net) (Z.to_nat a)) as [n Hn].
  { unfold GetN in Ha. lia. }
  exists n. split; [exact Hn|]. unfold peers_of, sockets_of, in_range.
  destruct (Z.leb_spec 0 a); [|lia].
  destruct (Z.ltb_spec a (GetN net)); [|lia].
  cbn. rewrite Hn. auto.
Qed.

Lemma sockets_of_outside net a :
  ~ 0 <= a < GetN net -> peers_of net a = [] /\ sockets_of net a = ∅.
Proof.
  intros Ha. unfold peers_of, sockets_of, in_range.
  destruct (Z.leb_spec 0 a); destruct (Z.ltb_spec a (GetN net)); cbn; auto.
  lia.
Qed.

(** What replacing node [K] changes in the peer lists and socket maps. *)
Lemma node_insert_exact net conns K n n' a :
  0 <= K -> p2pNodes net !! Z.to_nat K = Some n ->
  peers_of (mkNet (<[ Z.to_nat K := n' ]> (p2pNodes net)) conns) a
  = (if decide (a = K) then peers n' else peers_of net a) /\
  sockets_of (mkNet (<[ Z.to_nat K := n' ]> (p2pNodes net)) conns) a
  = (if decide (a = K) then peersockets n' else sockets_of net a).
Proof.
  intros HK Hn.
  set (net' := mkNet (<[ Z.to_nat K := n' ]> (p2pNodes net)) conns).
  assert (Hlen : GetN net' = GetN net).
  { unfold GetN, net'. cbn. rewrite length_insert. reflexivity. }
  pose proof (lookup_lt_Some _ _ _ Hn) as HKlt.
  destruct (decide (0 <= a < GetN net)) as [Ha|Ha].
  2:{ destruct (sockets_of_outside net a Ha) as [-> ->].
      destruct (sockets_of_outside net' a) as [-> ->]; [lia|].
      destruct (decide (a = K)) as [->|_]; [|auto].
      unfold GetN in Ha. lia. }
  destruct (sockets_of_lookup net a Ha) as (m & Hm & -> & ->).
  destruct (sockets_of_lookup net' a) as (m' & Hm' & -> & ->); [lia|].
  unfold net' in Hm'. cbn in Hm'.
  destruct (decide (a = K)) as [->|Hne].
  - rewrite list_lookup_insert_eq in Hm' by exact HKlt.
    injection Hm' as <-. auto.
  - rewrite list_lookup_insert_ne in Hm' by lia.
    rewrite Hm in Hm'. injection Hm' as <-. auto.
Qed.

Lemma tcp_AddPeer_elem q n x :
  x ∈ peers (AddPeer q n) <-> x = q \/ x ∈ peers n.
Proof.
  unfold AddPeer. destruct (decide (q ∈ peers n)) as [Hin|Hout].
  - rewrite bool_decide_eq_true_2 by exact Hin. split; [auto|].
    intros [->|Hx]; auto.
  - rewrite bool_decide_eq_false_2 by exact Hout. cbn.
    rewrite elem_of_app, list_elem_of_singleton. tauto.
Qed.

Lemma tcp_AddPeer_sockets q n : peersockets (AddPeer q n) = peersockets n.
Proof. unfold AddPeer. destruct (bool_decide _); reflexivity. Qed.

Lemma tcp_connect_all_exact keys : forall net net2 msgs,
  connect_all keys net = Some (net2, msgs) ->
  GetN net2 = GetN net /\ connections net2 = connections net /\
  msgs = reg_packet <$> keys /\
  forall a x,
    (x ∈ peers_of net2 a <-> x ∈ peers_of net a \/ (a, x) ∈ keys) /\
    (is_Some (sockets_of net2 a !! x) <->
     is_Some (sockets_of net a !! x) \/ (a, x) ∈ keys).
Proof.
  induction keys as [|[i j] keys IH]; intros net net2 msgs Hall;
    cbn [connect_all] in Hall.
  - injection Hall as <- <-. split; [reflexivity|]. split; [reflexivity|].
    split; [reflexivity|]. intros a x.
    split; (split; [auto|intros [Hx|Hx]; [exact Hx|inversion Hx]]).
  - unfold ConnectPeerSockets, in_range in Hall.
    destruct (Z.leb_spec 0 i) as [Hi0|]; [|discriminate].
    destruct (Z.ltb_spec i (GetN net)) as [Hi1|]; [|discriminate].
    cbn [andb mbind option_bind] in Hall.
    destruct (sockets_of_lookup net i (conj Hi0 Hi1)) as (n & Hn & _).
    rewrite (alter_as_insert _ _ _ _ Hn) in Hall.
    set (n' := AddPeer j (AddPeerSocket j (ClientSocket i j) n)) in Hall.
    set (net1 := mkNet _ _) in Hall.
    destruct (connect_all keys net1) as [[net2' ms]|] eqn:Hrest;
      cbn in Hall; [|discriminate].
    injection Hall as <- <-.
    destruct (IH net1 net2' ms Hrest) as (Hsize & Hconn & -> & Hex).
    split. { rewrite Hsize. unfold GetN, net1. cbn.
             rewrite length_insert. reflexivity. }
    split; [exact Hconn|]. split; [reflexivity|].
    intros a x. destruct (Hex a x) as [Hp Hs]. rewrite Hp, Hs.
    destruct (node_insert_exact net (connections net) i n n' a Hi0 Hn)
      as [Hpa Hsa].
    fold net1 in Hpa, Hsa. rewrite Hpa, Hsa.
    rewrite !elem_of_cons.
    destruct (sockets_of_lookup net i (conj Hi0 Hi1)) as (n0 & Hn0 & Hp0 & Hs0).
    rewrite Hn in Hn0. injection Hn0 as <-.
    destruct (decide (a = i)) as [->|Hne].
    + unfold n'. rewrite tcp_AddPeer_elem, tcp_AddPeer_sockets.
      cbn [peers AddPeerSocket set_peersockets peersockets].
      rewrite lookup_insert_is_Some, Hp0, Hs0. split.
      * split.
        -- intros [[->|Hx]|Hx]; auto.
        -- intros [Hx|[[= ->]|Hx]]; auto.
      * split.
        -- intros [[->|[_ Hx]]|Hx]; auto.
        -- intros [Hx|[[= ->]|Hx]]; auto.
           destruct (decide (j = x)); auto.
    + split.
      * split; [intros [Hx|Hx]; auto|].
        intros [Hx|[[= ? ?]|Hx]]; auto. congruence.
      * split; [intros [Hx|Hx]; auto|].
        intros [Hx|[[= ? ?]|Hx]]; auto. congruence.
Qed.

Section Registered.
Context `{Platform}.
Variable Send : nat -> Socket -> string -> Z.
Variable uninit : Share.

Lemma tcp_deliver_all_exact keys : forall net k net3 k' acts,
  Forall (fun key => 0 <= key.1 < 2 ^ 32 /\ 0 <= key.2 < GetN net) keys ->
  deliver_all Send uninit (reg_packet <$> keys) (net, k)
  = Ok (net3, k', acts) ->
  GetN net3 = GetN net /\ connections net3 = connections net /\
  forall a x,
    (x ∈ peers_of net3 a <-> x ∈ peers_of net a \/ (x, a) ∈ keys) /\
    (is_Some (sockets_of net3 a !! x) <->
     is_Some (sockets_of net a !! x) \/ (x, a) ∈ keys).
Proof.
  induction keys as [|[i j] keys IH]; intros net k net3 k' acts Hkeys Hall;
    cbn [fmap list_fmap deliver_all] in Hall.
  - injection Hall as <- <- <-. split; [reflexivity|]. split; [reflexivity|].
    intros a x.
    split; (split; [auto|intros [Hx|Hx]; [exact Hx|inversion Hx]]).
  - apply Forall_cons in Hkeys as [[Hi Hj] Hkeys]. cbn [fst snd] in Hi, Hj.
    change (reg_packet (i, j))
      with (mkMsg i j ("REGISTER:" ++ to_string i)) in Hall.
    unfold deliver in Hall. cbn [msg_to msg_from msg_text] in Hall.
    destruct (sockets_of_lookup net j Hj) as (n & Hn & Hp0 & Hs0).
    rewrite Hn in Hall.
    rewrite ReceiveShare_register in Hall by exact Hi. cbn [bind] in Hall.
    set (n' := set_peers _ _) in Hall. set (net1 := mkNet _ _) in Hall.
    assert (Hsize1 : GetN net1 = GetN net).
    { unfold GetN, net1. cbn. rewrite length_insert. reflexivity. }
    destruct (deliver_all Send uninit (reg_packet <$> keys) (net1, k))
      as [[[net3' k3] acts3]|e] eqn:Hrest; cbn [bind] in Hall;
      [|discriminate].
    injection Hall as <- <- <-.
    destruct (IH net1 k net3' k3 acts3) as (Hsize & Hconn & Hex);
      [rewrite Hsize1; exact Hkeys|exact Hrest|].
    split; [congruence|]. split; [exact Hconn|].
    intros a x. destruct (Hex a x) as [Hp Hs]. rewrite Hp, Hs.
    destruct (node_insert_exact net (connections net) j n n' a
                (proj1 Hj) Hn) as [Hpa Hsa].
    fold net1 in Hpa, Hsa. rewrite Hpa, Hsa. rewrite !elem_of_cons.
    destruct (decide (a = j)) as [->|Hne].
    + unfold n'. cbn [peers set_peers set_peersockets peersockets].
      rewrite elem_of_app, list_elem_of_singleton, lookup_insert_is_Some.
      rewrite Hp0, Hs0. split.
      * split.
        -- intros [[Hx| ->]|Hx]; auto.
        -- intros [Hx|[[= ->]|Hx]]; auto.
      * split.
        -- intros [[->|[_ Hx]]|Hx]; auto.
        -- intros [Hx|[[= ->]|Hx]]; auto.
           destruct (decide (i = x)); auto.
    + split.
      * split; [intros [Hx|Hx]; auto|].
        intros [Hx|[[= ? ?]|Hx]]; auto. congruence.
      * split; [intros [Hx|Hx]; auto|].
        intros [Hx|[[= ? ?]|Hx]]; auto. congruence.
Qed.

End Registered.

End TcpShape.

Section TcpLinks.
Import Tcp Graph Shape.

Lemma u32_pred_ne i : u32 (i - 1) <> i.
Proof.
  intros Heq. pose proof (u32_range (i - 1)) as Hr. rewrite Heq in Hr.
  destruct (decide (i = 0)) as [->|Hne]; [discriminate Heq|].
  rewrite u32_small in Heq by lia. lia.
Qed.

Lemma tcp_ConnectNodes_keys i j lat net net' :
  ConnectNodes i j lat net = Some net' ->
  p2pNodes net' = p2pNodes net /\
  forall key, is_Some (connections net' !! key) <->
              key = (i, j) \/ is_Some (connections net !! key).
Proof.
  unfold ConnectNodes. destruct (_ && _); [|discriminate].
  intros [= <-]. split; [reflexivity|]. intros key. cbn.
  rewrite lookup_insert_is_Some. split.
  - intros [Heq|[_ Hs]]; [left; symmetry; exact Heq|right; exact Hs].
  - intros [->|Hs]; [left; reflexivity|].
    destruct (decide ((i, j) = key)); [left|right]; auto.
Qed.

Lemma tcp_ConnectNodes_distinct i j lat net net' :
  ConnectNodes i j lat net = Some net' -> i <> j ->
  links_distinct net -> links_distinct net'.
Proof.
  intros Hc Hij Hd a b Hab.
  apply (proj2 (tcp_ConnectNodes_keys i j lat net net' Hc)) in Hab
    as [[= -> ->]|Hold]; auto.
Qed.

Section Rows.
Variable U : nat -> double.
Variable p lat : double.

Lemma tcp_connect_row_distinct i js : forall net k c net' k' c',
  connect_row U p lat i js (net, k, c) = Some (net', k', c') ->
  Forall (fun j => i < j) js ->
  p2pNodes net' = p2pNodes net /\
  (links_distinct net -> links_distinct net').
Proof.
  induction js as [|j js IH]; intros net k c net' k' c' Hrow Hjs;
    cbn [connect_row] in Hrow.
  - injection Hrow as <- <- <-. auto.
  - apply Forall_cons in Hjs as [Hj Hjs].
    destruct (Mono.Qltb (U k) p).
    + destruct (ConnectNodes i j lat net) as [net1|] eqn:Hc;
        cbn in Hrow; [|discriminate].
      destruct (IH _ _ _ _ _ _ Hrow Hjs) as [Hnodes Hd].
      destruct (tcp_ConnectNodes_keys i j lat net net1 Hc) as [Hnodes1 _].
      split; [congruence|]. intros Hd0. apply Hd.
      apply (tcp_ConnectNodes_distinct i j lat net net1 Hc); [lia|exact Hd0].
    + cbn in Hrow. apply (IH _ _ _ _ _ _ Hrow Hjs).
Qed.

Lemma tcp_connect_rows_distinct n rows : forall net k net' k',
  connect_rows U p lat n rows (net, k) = Some (net', k') ->
  p2pNodes net' = p2pNodes net /\
  (links_distinct net -> links_distinct net').
Proof.
  induction rows as [|i rows IH]; intros net k net' k' Hrows;
    cbn [connect_rows] in Hrows.
  - injection Hrows as <- <-. auto.
  - destruct (connect_row U p lat i _ (net, k, false))
      as [[[net1 k1] c]|] eqn:Hrow; cbn in Hrows; [|discriminate].
    destruct (tcp_connect_row_distinct i _ _ _ _ _ _ _ Hrow)
      as [Hnodes1 Hd1].
    { apply Forall_forall. intros j Hj. apply elem_of_seqZ in Hj. lia. }
    match type of Hrows with
    | context [mbind _ ?fix_up] =>
        destruct fix_up as [net2|] eqn:Hfix; cbn in Hrows; [|discriminate]
    end.
    destruct (IH _ _ _ _ Hrows) as [Hnodes Hd].
    assert (Hstep : p2pNodes net2 = p2pNodes net1 /\
                    (links_distinct net1 -> links_distinct net2)).
    { destruct c; cbn [negb] in Hfix.
      - injection Hfix as <-. auto.
      - destruct ((i =? 0) && (0 <? n)).
        + destruct (tcp_ConnectNodes_keys _ _ _ _ _ Hfix) as [Hn2 _].
          split; [exact Hn2|].
          apply (tcp_ConnectNodes_distinct _ _ _ _ _ Hfix). lia.
        + destruct (tcp_ConnectNodes_keys _ _ _ _ _ Hfix) as [Hn2 _].
          split; [exact Hn2|].
          apply (tcp_ConnectNodes_distinct _ _ _ _ _ Hfix).
          intros Heq. symmetry in Heq. exact (u32_pred_ne i Heq). }
    destruct Hstep as [Hnodes2 Hd2]. split; [congruence|auto].
Qed.

Lemma tcp_topology_fresh n net1 :
  CreateRandomTopology U p lat (new_Network n) = Some net1 ->
  GetN net1 = GetN (new_Network n) /\
  links_distinct net1 /\
  forall a, peers_of net1 a = [] /\ sockets_of net1 a = ∅.
Proof.
  unfold CreateRandomTopology. intros Htop.
  destruct (connect_rows U p lat _ _ _) as [[net' k']|] eqn:Hrows;
    cbn in Htop; [|discriminate].
  injection Htop as <-.
  destruct (tcp_connect_rows_distinct _ _ _ _ _ _ Hrows) as [Hnodes Hd].
  split. { unfold GetN. cbn. rewrite length_fmap, Hnodes. reflexivity. }
  split.
  - apply Hd. intros a b Hab. cbn in Hab. rewrite lookup_empty in Hab.
    destruct Hab; discriminate.
  - intros a. unfold peers_of, sockets_of.
    destruct (in_range _ a); [|auto]. cbn. rewrite Hnodes. cbn.
    rewrite !list_lookup_fmap. destruct (seqZ 0 n !! Z.to_nat a); auto.
Qed.

End Rows.

End TcpLinks.

Section ShapeClaims.
Context `{Platform}.
Import Graph Shape.

(** X6.  The link table the single-file draft builds: every link joins
    two different nodes of the simulation, and no pair of nodes is linked
    in both directions. *)
Theorem mono_links_join_two_nodes_once rng p lat fuel n sim' :
  Mono.CreateRandomTopology rng p lat fuel (Mono.new_Simulation n)
  = Some sim' ->
  forall a b, is_Some (Mono.m_connections sim' !! (a, b)) ->
    a <> b /\ 0 <= a < Mono.GetN sim' /\ 0 <= b < Mono.GetN sim' /\
    ~ is_Some (Mono.m_connections sim' !! (b, a)).
Proof.
  intros Hrun. exact (proj1 (mono_topology_shape rng p lat fuel n sim' Hrun)).
Qed.

(** X7.  The peer lists the single-file draft builds: the peer list of a
    node holds exactly the nodes it has a link with, each of them once;
    so no node is its own peer and every peer is a node of the
    simulation. *)
Theorem mono_peers_are_the_linked_nodes rng p lat fuel n sim' :
  Mono.CreateRandomTopology rng p lat fuel (Mono.new_Simulation n)
  = Some sim' ->
  forall a,
    NoDup (mono_peers_of sim' a) /\
    (a ∉ mono_peers_of sim' a) /\
    forall b, b ∈ mono_peers_of sim' a <->
              is_Some (Mono.m_connections sim' !! (a, b)) \/
              is_Some (Mono.m_connections sim' !! (b, a)).
Proof.
  intros Hrun a.
  destruct (mono_topology_shape rng p lat fuel n sim' Hrun)
    as [Hlinks Hpeers].
  destruct (Hpeers a) as [Hnd Hex]. split; [exact Hnd|].
  split; [|exact Hex].
  intros Hself. apply Hex in Hself as [Hl|Hl];
    destruct (Hlinks a a Hl) as [Hne _]; congruence.
Qed.

(** X8.  The wiring of the socket draft, from a new network to the
    delivery of every registration packet: no link joins a node to
    itself; the peer list of a node holds exactly the nodes it has a link
    with, in whichever direction the link was recorded; and a node has a
    socket for a peer exactly when that peer is in its list. *)
Theorem tcp_wiring_gives_every_peer_a_socket
    (U : nat -> double) (Send : nat -> Tcp.Socket -> string -> Z)
    uninit p lat n net1 net2 msgs k net3 k' acts :
  2 <= n <= 2 ^ 32 ->
  Tcp.CreateRandomTopology U p lat (Tcp.new_Network n) = Some net1 ->
  Tcp.makeconnections net1 = Some (net2, msgs) ->
  Tcp.deliver_all Send uninit msgs (net2, k) = Ok (net3, k', acts) ->
  (forall a b, is_Some (Tcp.connections net3 !! (a, b)) -> a <> b) /\
  (forall a x, x ∈ peers_of net3 a <->
               is_Some (Tcp.connections net3 !! (a, x)) \/
               is_Some (Tcp.connections net3 !! (x, a))) /\
  (forall a x, is_Some (sockets_of net3 a !! x) <-> x ∈ peers_of net3 a).
Proof.
  intros Hn Htop Hmake Hdel.
  destruct (tcp_topology_spec U p lat n Hn)
    as (net1' & Htop' & Hsize & Hkeys & _).
  rewrite Htop in Htop'. injection Htop' as <-.
  destruct (tcp_topology_fresh U p lat n net1 Htop) as (_ & Hd & Hfresh).
  unfold Tcp.makeconnections in Hmake.
  destruct (tcp_connect_all_exact _ _ _ _ Hmake)
    as (Hsize2 & Hconn2 & -> & Hex2).
  assert (Hin : Forall (fun key => 0 <= key.1 < 2 ^ 32 /\
                                   0 <= key.2 < Tcp.GetN net2)
                       (Tcp.connection_keys net1)).
  { apply Forall_forall. intros [a b] Hab.
    apply elem_of_connection_keys in Hab. apply Hkeys in Hab.
    cbn. lia. }
  destruct (tcp_deliver_all_exact Send uninit _ _ _ _ _ _ Hin Hdel)
    as (Hsize3 & Hconn3 & Hex3).
  assert (Hpeers : forall a x, x ∈ peers_of net3 a <->
            is_Some (Tcp.connections net3 !! (a, x)) \/
            is_Some (Tcp.connections net3 !! (x, a))).
  { intros a x. rewrite (proj1 (Hex3 a x)), (proj1 (Hex2 a x)).
    rewrite (proj1 (Hfresh a)), !elem_of_connection_keys.
    rewrite Hconn3, Hconn2. split.
    - intros [[Hx|Hx]|Hx]; [inversion Hx|auto|auto].
    - intros [Hx|Hx]; auto. }
  split; [|split; [exact Hpeers|]].
  - intros a b Hab. rewrite Hconn3, Hconn2 in Hab. exact (Hd a b Hab).
  - intros a x. rewrite Hpeers.
    rewrite (proj2 (Hex3 a x)), (proj2 (Hex2 a x)).
    rewrite (proj2 (Hfresh a)), lookup_empty, !elem_of_connection_keys.
    rewrite Hconn3, Hconn2. split.
    + intros [[[? Hx]|Hx]|Hx]; [discriminate|auto|auto].
    + intros [Hx|Hx]; auto.
Qed.

End ShapeClaims.

Section ShapeExamples.
Import Sample Graph Shape.
#[local] Existing Instance sample_platform.

Lemma mono_links_join_two_nodes_once_witness :
  exists fuel sim',
    Mono.CreateRandomTopology walking (1 # 4)%Q 5%Q fuel
      (Mono.new_Simulation 3) = Some sim' /\
    forall a b, is_Some (Mono.m_connections sim' !! (a, b)) ->
      a <> b /\ 0 <= a < Mono.GetN sim' /\ 0 <= b < Mono.GetN sim' /\
      ~ is_Some (Mono.m_connections sim' !! (b, a)).
Proof.
  destruct (mono_topology_total walking (1 # 4)%Q 5%Q 3)
    as (fuel & sim' & Hrun & _);
    [lia|apply walking_in_range; lia|apply walking_fair; lia|].
  exists fuel, sim'. split; [exact Hrun|].
  exact (mono_links_join_two_nodes_once walking _ _ fuel 3 sim' Hrun).
Defined.

Lemma mono_peers_are_the_linked_nodes_witness :
  exists fuel sim',
    Mono.CreateRandomTopology walking (1 # 4)%Q 5%Q fuel
      (Mono.new_Simulation 3) = Some sim' /\
    forall a,
      NoDup (mono_peers_of sim' a) /\
      (a ∉ mono_peers_of sim' a) /\
      forall b, b ∈ mono_peers_of sim' a <->
                is_Some (Mono.m_connections sim' !! (a, b)) \/
                is_Some (Mono.m_connections sim' !! (b, a)).
Proof.
  destruct (mono_topology_total walking (1 # 4)%Q 5%Q 3)
    as (fuel & sim' & Hrun & _);
    [lia|apply walking_in_range; lia|apply walking_fair; lia|].
  exists fuel, sim'. split; [exact Hrun|].
  exact (mono_peers_are_the_linked_nodes walking _ _ fuel 3 sim' Hrun).
Defined.

Lemma tcp_wiring_gives_every_peer_a_socket_witness :
  exists net1 net2 msgs net3,
    Tcp.CreateRandomTopology halves 1%Q 5%Q (Tcp.new_Network 3)
    = Some net1 /\
    Tcp.makeconnections net1 = Some (net2, msgs) /\
    Tcp.deliver_all taken zeros msgs (net2, O) = Ok (net3, O, []) /\
    (forall a b, is_Some (Tcp.connections net3 !! (a, b)) -> a <> b) /\
    (forall a x, x ∈ peers_of net3 a <->
                 is_Some (Tcp.connections net3 !! (a, x)) \/
                 is_Some (Tcp.connections net3 !! (x, a))) /\
    (forall a x, is_Some (sockets_of net3 a !! x) <-> x ∈ peers_of net3 a).
Proof.
  destruct (tcp_topology_spec halves 1%Q 5%Q 3)
    as (net1 & Htop & Hsize & Hkeys & _); [lia|].
  destruct (tcp_connect_all_spec (Tcp.connection_keys net1) net1)
    as (net2 & Hall & _ & [Hsize2 _] & _).
  { apply Forall_forall. intros [a b] Hab.
    apply elem_of_connection_keys in Hab. apply Hkeys in Hab. tauto. }
  destruct (tcp_deliver_all_spec taken zeros (Tcp.connection_keys net1)
              net2 O) as (net3 & Hdel & _).
  { apply Forall_forall. intros [a b] Hab.
    apply elem_of_connection_keys in Hab. apply Hkeys in Hab.
    cbn. lia. }
  exists net1, net2, (reg_packet <$> Tcp.connection_keys net1), net3.
  split; [exact Htop|]. split; [exact Hall|]. split; [exact Hdel|].
  apply (tcp_wiring_gives_every_peer_a_socket halves taken zeros 1%Q 5%Q 3
           net1 net2 _ O net3 O [] ltac:(lia) Htop Hall Hdel).
Defined.

End ShapeExamples.

(** ** What the statistics add up to *)

Section MonoStats.
Context `{Platform}.
Import Mono Stat.

Lemma mono_gossip_loop_range msg ps : forall sent,
  0 <= sent < 2 ^ 32 -> 0 <= (gossip_loop msg ps sent).1 < 2 ^ 32.
Proof.
  induction ps as [|q ps IH]; intros sent Hs; cbn [gossip_loop].
  - exact Hs.
  - specialize (IH (u32 (sent + 1)) (u32_range _)).
    destruct (gossip_loop msg ps (u32 (sent + 1))). exact IH.
Qed.

Lemma mono_flood_counts share n :
  0 <= m_sharesSent n < 2 ^ 32 ->
  exists sent,
    GossipShareToPeers share n
    = (mkNode (m_id n) (m_peers n) (m_processedShares n) sent
              (m_sharesReceived n) (m_sharesGenerated n)
              (m_sharesForwarded n),
       (fun q => ASend q (ToString share)) <$> m_peers n) /\
    sent = u32 (m_sharesSent n + Z.of_nat (length (m_peers n))).
Proof.
  intros Hs. destruct (mono_gossip_spec share n) as (sent & Heq & Hsent).
  exists sent. split; [exact Heq|].
  assert (Hr : 0 <= sent < 2 ^ 32).
  { pose proof (mono_gossip_loop_range (ToString share) (m_peers n)
                  (m_sharesSent n) Hs) as Hr.
    unfold GossipShareToPeers in Heq.
    destruct (gossip_loop _ _ _) as [sent0 acts0]. cbn in Hr.
    injection Heq as -> _. exact Hr. }
  rewrite <- Hsent. symmetry. apply u32_small. exact Hr.
Qed.

(** One event on a node whose counters have room: the processed set grows
    by at most what the generated and forwarded counters grow by, and the
    sent counter by one for every peer and flood. *)
Lemma mono_step_stats uninit ev n n' acts :
  step uninit ev n = Ok (n', acts) ->
  mono_is_AddPeer ev = false ->
  let deg := Z.of_nat (length (m_peers n)) in
  let floods := m_sharesGenerated n + m_sharesForwarded n in
  0 <= m_sharesGenerated n -> 0 <= m_sharesForwarded n ->
  0 <= m_sharesSent n ->
  floods + 1 < 2 ^ 32 -> m_sharesSent n + deg < 2 ^ 32 ->
  m_peers n' = m_peers n /\
  0 <= m_sharesGenerated n' /\ 0 <= m_sharesForwarded n' /\
  exists d, 0 <= d <= 1 /\
    m_sharesGenerated n' + m_sharesForwarded n' = floods + d /\
    m_sharesSent n' = m_sharesSent n + deg * d /\
    mono_GetProcessedSharesCount n' <= mono_GetProcessedSharesCount n + d.
Proof.
  intros Hstep Hev deg floods Hg Hf Hs Hroom Hsroom. subst deg floods.
  unfold mono_GetProcessedSharesCount.
  destruct ev as [q|now|msg]; cbn [step] in Hstep; [discriminate Hev| |].
  - injection Hstep as Hstep. unfold GenerateAndGossipShare in Hstep.
    destruct (m_peers n) as [|q qs] eqn:Hpeers.
    { injection Hstep as <- <-. rewrite Hpeers. split; [reflexivity|].
      split; [lia|]. split; [lia|]. exists 0. lia. }
    rewrite <- Hpeers in Hstep, Hsroom |- *.
    set (share := new_share now n) in *.
    set (n0 := mkNode _ _ _ _ _ _ _) in Hstep.
    destruct (mono_flood_counts share n0) as (sent & Heq & Hsent);
      [cbn; lia|].
    rewrite Heq in Hstep. injection Hstep as <- <-. cbn in *.
    split; [reflexivity|]. rewrite u32_small in * by lia.
    split; [lia|]. split; [lia|]. exists 1. split; [lia|].
    split; [lia|]. split; [lia|].
    unfold processed_insert.
    destruct (processed_find share (m_processedShares n));
      [|rewrite length_app]; cbn; lia.
  - unfold ReceiveShare in Hstep.
    destruct (FromString uninit msg) as [share|e]; cbn [bind] in Hstep;
      [|discriminate].
    destruct (processed_find share (m_processedShares n)) eqn:Hold.
    { injection Hstep as <- <-. cbn. split; [reflexivity|].
      split; [lia|]. split; [lia|]. exists 0. lia. }
    set (share' := mkShare _ _ _ _) in Hstep.
    set (n0 := mkNode _ _ _ _ _ _ _) in Hstep.
    destruct (mono_flood_counts share' n0) as (sent & Heq & Hsent);
      [cbn; lia|].
    rewrite Heq in Hstep. injection Hstep as <- <-. cbn in *.
    split; [reflexivity|]. rewrite u32_small in * by lia.
    split; [lia|]. split; [lia|]. exists 1. split; [lia|].
    split; [lia|]. split; [lia|].
    unfold processed_insert. rewrite Hold, length_app. cbn. lia.
Qed.

Lemma mono_run_stats uninit evs : forall n n' acts,
  run uninit evs n = Ok (n', acts) ->
  forallb (fun ev => negb (mono_is_AddPeer ev)) evs = true ->
  let deg := Z.of_nat (length (m_peers n)) in
  let floods := m_sharesGenerated n + m_sharesForwarded n in
  let m := Z.of_nat (length evs) in
  0 <= m_sharesGenerated n -> 0 <= m_sharesForwarded n ->
  0 <= m_sharesSent n ->
  floods + m < 2 ^ 32 -> m_sharesSent n + deg * m < 2 ^ 32 ->
  m_peers n' = m_peers n /\
  0 <= m_sharesGenerated n' /\ 0 <= m_sharesForwarded n' /\
  exists d, 0 <= d <= m /\
    m_sharesGenerated n' + m_sharesForwarded n' = floods + d /\
    m_sharesSent n' = m_sharesSent n + deg * d /\
    mono_GetProcessedSharesCount n' <= mono_GetProcessedSharesCount n + d.
Proof.
  induction evs as [|ev evs IH]; intros n n' acts Hrun Hevs;
    cbn [run] in Hrun; cbn zeta.
  - injection Hrun as <- <-. intros. split; [reflexivity|].
    split; [lia|]. split; [lia|]. exists 0. cbn. lia.
  - cbn [forallb] in Hevs. apply andb_true_iff in Hevs as [Hev Hevs].
    apply negb_true_iff in Hev.
    destruct (step uninit ev n) as [[n1 acts1]|e] eqn:Hstep;
      cbn [bind] in Hrun; [|discriminate].
    destruct (run uninit evs n1) as [[n2 acts2]|e] eqn:Hrest;
      cbn [bind] in Hrun; [|discriminate].
    injection Hrun as <- <-. cbn [length]. rewrite Nat2Z.inj_succ.
    intros Hg Hf Hs Hroom Hsroom.
    pose proof (Zle_0_nat (length (m_peers n))) as Hdeg.
    pose proof (Zle_0_nat (length evs)) as Hm.
    destruct (mono_step_stats uninit ev n n1 acts1 Hstep Hev)
      as (Hp1 & Hg1 & Hf1 & d1 & Hd1 & Hfl1 & Hs1 & Hc1);
      [lia|lia|lia|lia|nia|].
    destruct (IH n1 n2 acts2 Hrest Hevs)
      as (Hp2 & Hg2 & Hf2 & d2 & Hd2 & Hfl2 & Hs2 & Hc2);
      [lia|lia|nia|lia|rewrite Hp1; nia|].
    split; [congruence|]. split; [lia|]. split; [lia|].
    exists (d1 + d2). rewrite Hp1 in Hs2.
    split; [lia|]. split; [lia|]. split; [lia|]. lia.
Qed.

Lemma mono_step_processed uninit ev n n' acts :
  step uninit ev n = Ok (n', acts) ->
  0 <= m_sharesGenerated n -> 0 <= m_sharesForwarded n ->
  m_sharesGenerated n + m_sharesForwarded n + 1 < 2 ^ 32 ->
  0 <= m_sharesGenerated n' /\ 0 <= m_sharesForwarded n' /\
  exists d, 0 <= d <= 1 /\
    m_sharesGenerated n' + m_sharesForwarded n'
    = m_sharesGenerated n + m_sharesForwarded n + d /\
    mono_GetProcessedSharesCount n' <= mono_GetProcessedSharesCount n + d.
Proof.
  intros Hstep Hg Hf Hroom. unfold mono_GetProcessedSharesCount.
  destruct ev as [q|now|msg]; cbn [step] in Hstep.
  - injection Hstep as <- <-. unfold AddPeer.
    destruct (bool_decide _); cbn; (split; [lia|]); (split; [lia|]);
      exists 0; lia.
  - injection Hstep as Hstep. unfold GenerateAndGossipShare in Hstep.
    destruct (m_peers n) as [|q qs] eqn:Hpeers.
    { injection Hstep as <- <-. split; [lia|]. split; [lia|].
      exists 0. lia. }
    rewrite <- Hpeers in Hstep.
    set (share := new_share now n) in *.
    set (n0 := mkNode _ _ _ _ _ _ _) in Hstep.
    destruct (mono_gossip_spec share n0) as (sent & Heq & _).
    rewrite Heq in Hstep. injection Hstep as <- <-. cbn in *.
    rewrite u32_small by lia. split; [lia|]. split; [lia|].
    exists 1. split; [lia|]. split; [lia|]. unfold processed_insert.
    destruct (processed_find share (m_processedShares n));
      [|rewrite length_app]; cbn; lia.
  - unfold ReceiveShare in Hstep.
    destruct (FromString uninit msg) as [share|e]; cbn [bind] in Hstep;
      [|discriminate].
    destruct (processed_find share (m_processedShares n)) eqn:Hold.
    { injection Hstep as <- <-. cbn. split; [lia|]. split; [lia|].
      exists 0. lia. }
    set (share' := mkShare _ _ _ _) in Hstep.
    set (n0 := mkNode _ _ _ _ _ _ _) in Hstep.
    destruct (mono_gossip_spec share' n0) as (sent & Heq & _).
    rewrite Heq in Hstep. injection Hstep as <- <-. cbn in *.
    rewrite u32_small by lia. split; [lia|]. split; [lia|].
    exists 1. split; [lia|]. split; [lia|].
    unfold processed_insert. rewrite Hold, length_app. cbn. lia.
Qed.

Lemma mono_run_processed uninit evs : forall n n' acts,
  run uninit evs n = Ok (n', acts) ->
  0 <= m_sharesGenerated n -> 0 <= m_sharesForwarded n ->
  m_sharesGenerated n + m_sharesForwarded n + Z.of_nat (length evs)
  < 2 ^ 32 ->
  0 <= m_sharesGenerated n' /\ 0 <= m_sharesForwarded n' /\
  exists d, 0 <= d <= Z.of_nat (length evs) /\
    m_sharesGenerated n' + m_sharesForwarded n'
    = m_sharesGenerated n + m_sharesForwarded n + d /\
    mono_GetProcessedSharesCount n' <= mono_GetProcessedSharesCount n + d.
Proof.
  induction evs as [|ev evs IH]; intros n n' acts Hrun Hg Hf Hroom;
    cbn [run] in Hrun.
  - injection Hrun as <- <-. split; [lia|]. split; [lia|].
    exists 0. cbn. lia.
  - destruct (step uninit ev n) as [[n1 acts1]|e] eqn:Hstep;
      cbn [bind] in Hrun; [|discriminate].
    destruct (run uninit evs n1) as [[n2 acts2]|e] eqn:Hrest;
      cbn [bind] in Hrun; [|discriminate].
    injection Hrun as <- <-. cbn [length] in *.
    rewrite Nat2Z.inj_succ in *.
    destruct (mono_step_processed uninit ev n n1 acts1 Hstep Hg Hf)
      as (Hg1 & Hf1 & d1 & Hd1 & Hfl1 & Hc1); [lia|].
    destruct (IH n1 n2 acts2 Hrest Hg1 Hf1)
      as (Hg2 & Hf2 & d2 & Hd2 & Hfl2 & Hc2); [lia|].
    split; [lia|]. split; [lia|]. exists (d1 + d2). lia.
Qed.

End MonoStats.

Section TcpStats.
Context `{Platform}.
Variable Send : nat -> Tcp.Socket -> string -> Z.
Variable uninit : Share.
Import Tcp Stat.

Lemma size_insert_id (x : Z) (set : gset Z) :
  Z.of_nat (base.size ({[ x ]} ∪ set)) <= Z.of_nat (base.size set) + 1.
Proof.
  pose proof (size_union_alt {[ x ]} set) as Hu.
  pose proof (subseteq_size (set ∖ {[ x ]}) set) as Hd.
  rewrite size_singleton in Hu. rewrite Hu.
  assert (set ∖ {[ x ]} ⊆ set) as Hsub
    by apply subseteq_difference_l, reflexivity.
  specialize (Hd Hsub). lia.
Qed.

Lemma tcp_process_stats msg n k n' k' acts :
  process_share Send uninit msg n k = Ok (n', k', acts) ->
  0 <= sharesForwarded n -> sharesForwarded n + 1 < 2 ^ 32 ->
  sharesGenerated n' = sharesGenerated n /\
  exists d, 0 <= d <= 1 /\
    sharesForwarded n' = sharesForwarded n + d /\
    GetProcessedSharesCount n' <= GetProcessedSharesCount n + d.
Proof.
  intros Hrun Hf Hroom. unfold process_share in Hrun.
  destruct (FromString uninit msg) as [share|e]; cbn [bind] in Hrun;
    [|discriminate].
  destruct (bool_decide _) in Hrun.
  { injection Hrun as <- <- <-. cbn. split; [reflexivity|].
    exists 0. unfold GetProcessedSharesCount. cbn. lia. }
  match type of Hrun with
  | Ok (GossipShareToPeers Send ?s ?m k) = _ =>
      pose proof (tcp_gossip_keeps Send s m k) as Hkeep;
      destruct (GossipShareToPeers Send s m k) as [[n2 k2] acts2]
  end.
  injection Hrun as <- <- <-.
  destruct Hkeep as (Hfw & _ & Hgen & Hset & _).
  split; [rewrite Hgen; reflexivity|]. exists 1. split; [lia|].
  unfold GetProcessedSharesCount. rewrite Hfw, Hset. cbn.
  split; [apply u32_small; lia|apply size_insert_id].
Qed.

Lemma tcp_step_stats ev n k n' k' acts :
  step Send uninit ev n k = Ok (n', k', acts) ->
  0 <= sharesGenerated n -> 0 <= sharesForwarded n ->
  sharesGenerated n + sharesForwarded n + 1 < 2 ^ 32 ->
  0 <= sharesGenerated n' /\ 0 <= sharesForwarded n' /\
  exists d, 0 <= d <= 1 /\
    sharesGenerated n' + sharesForwarded n'
    = sharesGenerated n + sharesForwarded n + d /\
    GetProcessedSharesCount n' <= GetProcessedSharesCount n + d.
Proof.
  intros Hstep Hg Hf Hroom.
  assert (Hsame : n' = n \/
            (sharesGenerated n' = sharesGenerated n /\
             sharesForwarded n' = sharesForwarded n /\
             processedShares n' = processedShares n) ->
          0 <= sharesGenerated n' /\ 0 <= sharesForwarded n' /\
          exists d, 0 <= d <= 1 /\
            sharesGenerated n' + sharesForwarded n'
            = sharesGenerated n + sharesForwarded n + d /\
            GetProcessedSharesCount n' <= GetProcessedSharesCount n + d).
  { unfold GetProcessedSharesCount.
    intros [->|(-> & -> & ->)]; (split; [lia|]); (split; [lia|]);
      exists 0; lia. }
  destruct ev as [|q|q s| | |now|msg sock]; cbn [step] in Hstep.
  - injection Hstep as <- <- <-. apply Hsame. right. cbn. auto.
  - injection Hstep as <- <- <-. apply Hsame. unfold AddPeer.
    destruct (bool_decide _); [left|right]; cbn; auto.
  - injection Hstep as <- <- <-. apply Hsame. right. cbn. auto.
  - injection Hstep as <- <- <-. apply Hsame. right. cbn. auto.
  - injection Hstep as <- <- <-. apply Hsame. right. cbn. auto.
  - injection Hstep as Hstep. unfold GenerateAndGossipShare in Hstep.
    destruct (peers n) as [|q qs].
    { injection Hstep as <- <- <-. apply Hsame. auto. }
    destruct (isrunning n); cbn [negb] in Hstep.
    2:{ injection Hstep as <- <- <-. apply Hsame. auto. }
    match type of Hstep with
    | context [GossipShareToPeers Send ?s ?m k] =>
        pose proof (tcp_gossip_keeps Send s m k) as Hkeep;
        destruct (GossipShareToPeers Send s m k) as [[n2 k2] acts2]
    end.
    injection Hstep as <- <- <-.
    destruct Hkeep as (Hfw & _ & Hgen & Hset & _).
    unfold GetProcessedSharesCount. rewrite Hfw, Hgen, Hset. cbn.
    rewrite u32_small by lia. split; [lia|]. split; [lia|].
    exists 1. split; [lia|]. split; [lia|]. apply size_insert_id.
  - assert (Hshare : process_share Send uninit msg n k = Ok (n', k', acts) ->
      0 <= sharesGenerated n' /\ 0 <= sharesForwarded n' /\
      exists d, 0 <= d <= 1 /\
        sharesGenerated n' + sharesForwarded n'
        = sharesGenerated n + sharesForwarded n + d /\
        GetProcessedSharesCount n' <= GetProcessedSharesCount n + d).
    { intros Hp.
      destruct (tcp_process_stats msg n k n' k' acts Hp Hf)
        as (Hgen & d & Hd & Hfw & Hc); [lia|].
      split; [lia|]. split; [lia|]. exists d. split; [lia|].
      split; [lia|exact Hc]. }
    unfold ReceiveShare in Hstep.
    destruct (find msg "REGISTER:" 0 =? 0); [|auto].
    destruct (negb _); [|auto].
    destruct (substr _ _ _) in Hstep; cbn [bind] in Hstep; [|discriminate].
    destruct (stoul _) in Hstep; cbn [bind] in Hstep; [|discriminate].
    injection Hstep as <- <- <-. apply Hsame. right. cbn. auto.
Qed.

Lemma tcp_run_stats evs : forall n k n' k' acts,
  run Send uninit evs n k = Ok (n', k', acts) ->
  0 <= sharesGenerated n -> 0 <= sharesForwarded n ->
  sharesGenerated n + sharesForwarded n + Z.of_nat (length evs) < 2 ^ 32 ->
  0 <= sharesGenerated n' /\ 0 <= sharesForwarded n' /\
  exists d, 0 <= d <= Z.of_nat (length evs) /\
    sharesGenerated n' + sharesForwarded n'
    = sharesGenerated n + sharesForwarded n + d /\
    GetProcessedSharesCount n' <= GetProcessedSharesCount n + d.
Proof.
  induction evs as [|ev evs IH]; intros n k n' k' acts Hrun Hg Hf Hroom;
    cbn [run] in Hrun.
  - injection Hrun as <- <- <-. split; [lia|]. split; [lia|].
    exists 0. cbn. lia.
  - destruct (step Send uninit ev n k) as [[[n1 k1] acts1]|e] eqn:Hstep;
      cbn [bind] in Hrun; [|discriminate].
    destruct (run Send uninit evs n1 k1) as [[[n2 k2] acts2]|e] eqn:Hrest;
      cbn [bind] in Hrun; [|discriminate].
    injection Hrun as <- <- <-. cbn [length] in *.
    rewrite Nat2Z.inj_succ in *.
    destruct (tcp_step_stats ev n k n1 k1 acts1 Hstep Hg Hf)
      as (Hg1 & Hf1 & d1 & Hd1 & Hfl1 & Hc1); [lia|].
    destruct (IH n1 k1 n2 k2 acts2 Hrest Hg1 Hf1)
      as (Hg2 & Hf2 & d2 & Hd2 & Hfl2 & Hc2); [lia|].
    split; [lia|]. split; [lia|]. exists (d1 + d2). lia.
Qed.

End TcpStats.

Section StatsClaims.
Context `{Platform}.
Import Stat.

(** X9.  In the single-file draft every flood goes to every peer: on a
    node whose peer list no longer changes and whose counters started at
    zero, [m_sharesSent] is the number of peers times the shares generated
    and forwarded, as long as the 32 bit counters have not wrapped. *)
Theorem mono_sent_is_degree_times_floods uninit evs n n' acts :
  Mono.run uninit evs n = Ok (n', acts) ->
  forallb (fun ev => negb (mono_is_AddPeer ev)) evs = true ->
  Mono.m_sharesSent n = 0 -> Mono.m_sharesGenerated n = 0 ->
  Mono.m_sharesForwarded n = 0 ->
  (1 + Z.of_nat (length (Mono.m_peers n))) * Z.of_nat (length evs)
  < 2 ^ 32 ->
  Mono.m_peers n' = Mono.m_peers n /\
  Mono.m_sharesSent n'
  = Z.of_nat (length (Mono.m_peers n)) *
    (Mono.m_sharesGenerated n' + Mono.m_sharesForwarded n').
Proof.
  intros Hrun Hevs Hs Hg Hf Hroom.
  pose proof (Zle_0_nat (length (Mono.m_peers n))) as Hdeg.
  pose proof (Zle_0_nat (length evs)) as Hm.
  destruct (mono_run_stats uninit evs n n' acts Hrun Hevs)
    as (Hp & _ & _ & d & Hd & Hfl & Hsent & _); [lia|lia|lia|nia|nia|].
  split; [exact Hp|]. rewrite Hsent, Hfl, Hs, Hg, Hf. ring.
Qed.

(** X10.  Every insertion into the processed set comes with an increment
    of the generated or of the forwarded counter: in a run from a new
    node, as long as the counters have not wrapped, the processed count of
    the statistics is at most generated plus forwarded. *)
Theorem processed_count_is_at_most_the_floods :
  (forall uninit evs i n acts,
     Mono.run uninit evs (Mono.new_P2PNode i) = Ok (n, acts) ->
     Z.of_nat (length evs) < 2 ^ 32 ->
     mono_GetProcessedSharesCount n
     <= Mono.m_sharesGenerated n + Mono.m_sharesForwarded n) /\
  (forall (Send : nat -> Tcp.Socket -> string -> Z)
          uninit evs i k n k' acts,
     Tcp.run Send uninit evs (Tcp.new_P2PNode i) k = Ok (n, k', acts) ->
     Z.of_nat (length evs) < 2 ^ 32 ->
     GetProcessedSharesCount n
     <= Tcp.sharesGenerated n + Tcp.sharesForwarded n).
Proof.
  split.
  - intros uninit evs i n acts Hrun Hroom.
    destruct (mono_run_processed uninit evs _ n acts Hrun)
      as (_ & _ & d & Hd & Hfl & Hc); [cbn; lia|cbn; lia|cbn; lia|].
    rewrite Hfl. cbn in *. unfold mono_GetProcessedSharesCount in *.
    cbn in Hc. lia.
  - intros Send uninit evs i k n k' acts Hrun Hroom.
    destruct (tcp_run_stats Send uninit evs _ k n k' acts Hrun)
      as (_ & _ & d & Hd & Hfl & Hc); [cbn; lia|cbn; lia|cbn; lia|].
    rewrite Hfl. cbn in *. unfold GetProcessedSharesCount in *. cbn in Hc.
    rewrite size_empty in Hc. lia.
Qed.

End StatsClaims.

Section StatsExamples.
Import Sample Stat.
#[local] Existing Instance sample_platform.

Lemma mono_sent_is_degree_times_floods_witness :
  exists n' acts,
    Mono.run zeros [Mono.EvGenerate 5; Mono.EvReceive "SHARE:1:7:0";
                    Mono.EvReceive "SHARE:1:7:0"] mono_wired
    = Ok (n', acts) /\
    Mono.m_sharesSent n'
    = 3 * (Mono.m_sharesGenerated n' + Mono.m_sharesForwarded n').
Proof.
  assert (Hok : exists n' acts,
    Mono.run zeros [Mono.EvGenerate 5; Mono.EvReceive "SHARE:1:7:0";
                    Mono.EvReceive "SHARE:1:7:0"] mono_wired
    = Ok (n', acts)) by (vm_compute; eexists _, _; reflexivity).
  destruct Hok as (n' & acts & Hrun). exists n', acts.
  split; [exact Hrun|].
  destruct (mono_sent_is_degree_times_floods zeros _ mono_wired n' acts Hrun)
    as [_ Hsent]; [reflexivity|reflexivity|reflexivity|reflexivity| |].
  - vm_compute. reflexivity.
  - exact Hsent.
Defined.

Lemma processed_count_is_at_most_the_floods_witness :
  (exists n acts,
     Mono.run zeros [Mono.EvAddPeer 1; Mono.EvReceive "SHARE:0:0:0";
                     Mono.EvGenerate 5] (Mono.new_P2PNode 0)
     = Ok (n, acts) /\
     mono_GetProcessedSharesCount n
     <= Mono.m_sharesGenerated n + Mono.m_sharesForwarded n) /\
  (exists n k' acts,
     Tcp.run taken zeros
       [Tcp.EvAddPeer 1; Tcp.EvStart; Tcp.EvGenerate 5;
        Tcp.EvReceive "SHARE:1:7:0" (Tcp.AcceptedSocket 0 1)]
       (Tcp.new_P2PNode 0) 0 = Ok (n, k', acts) /\
     GetProcessedSharesCount n
     <= Tcp.sharesGenerated n + Tcp.sharesForwarded n).
Proof.
  destruct processed_count_is_at_most_the_floods as [Hmono Htcp]. split.
  - assert (Hok : exists n acts,
      Mono.run zeros [Mono.EvAddPeer 1; Mono.EvReceive "SHARE:0:0:0";
                      Mono.EvGenerate 5] (Mono.new_P2PNode 0)
      = Ok (n, acts)) by (vm_compute; eexists _, _; reflexivity).
    destruct Hok as (n & acts & Hrun). exists n, acts.
    split; [exact Hrun|]. apply (Hmono zeros _ 0 n acts Hrun). cbn. lia.
  - assert (Hok : exists n k' acts,
      Tcp.run taken zeros
        [Tcp.EvAddPeer 1; Tcp.EvStart; Tcp.EvGenerate 5;
         Tcp.EvReceive "SHARE:1:7:0" (Tcp.AcceptedSocket 0 1)]
        (Tcp.new_P2PNode 0) 0 = Ok (n, k', acts))
      by (vm_compute; eexists _, _, _; reflexivity).
    destruct Hok as (n & k' & acts & Hrun). exists n, k', acts.
    split; [exact Hrun|]. apply (Htcp taken zeros _ 0 O n k' acts Hrun).
    cbn. lia.
Defined.

End StatsExamples.

(** ** The single-file draft as a network *)

Section MonoNetFacts.
Context `{Platform}.
Import Mono MonoNet Wire Flood.

Lemma SendShareToPeer_share peerId S w :
  fits S ->
  SendShareToPeer peerId (ToString S) w
  = Ok (if in_range (w_sim w) peerId && in_range (w_sim w) (originNodeId S)
        then Some (mkWorld (w_sim w) (u32 (m_totalMessagesSent w + 1))
                     (in_flight w ++
                      [mkPacket (originNodeId S) peerId (ToString S)]))
        else None).
Proof.
  intros [Ho Hi]. unfold SendShareToPeer.
  set (so := to_string (originNodeId S)).
  set (rest := (to_string (shareId S) ++ ":" ++
                show_double (timestamp S))%string).
  assert (Hmsg : ToString S = ("SHARE" ++ ":" ++ so ++ ":" ++ rest)%string)
    by reflexivity.
  pose proof (to_string_size _ (proj1 Ho)) as Hlen. fold so in Hlen.
  pose proof (size_nonneg so) as Hpos.
  assert (Hso : colons so = 0%nat) by apply colons_to_string.
  assert (F1 : find (ToString S) ":" 0 = 5).
  { rewrite Hmsg.
    pose proof (find_field "" "SHARE" (so ++ ":" ++ rest) eq_refl) as Hf.
    rewrite append_nil in Hf. exact Hf. }
  assert (F2 : find (ToString S) ":" 6 = 6 + size so).
  { rewrite Hmsg.
    pose proof (find_field ("SHARE" ++ ":") so rest Hso) as Hf.
    rewrite append_assoc in Hf. exact Hf. }
  assert (S1 : substr (ToString S) 6 (size so) = Ok so).
  { rewrite Hmsg.
    pose proof (substr_field ("SHARE" ++ ":") so (":" ++ rest)) as Hs.
    rewrite append_assoc in Hs. exact Hs. }
  rewrite F1. change (u64 (5 + 1)) with 6. rewrite F2.
  replace (u64 (6 + size so - 5 - 1)) with (size so)
    by (rewrite u64_small; lia).
  rewrite S1. cbn [bind]. unfold so.
  rewrite stoul_to_string by (unfold ULONG_MAX; lia). cbn [bind].
  rewrite u32_small by lia.
  destruct (in_range (w_sim w) peerId && in_range (w_sim w) (originNodeId S));
    reflexivity.
Qed.

End MonoNetFacts.

Section MonoNetSteps.
Context `{Platform}.
Import Mono MonoNet Wire Flood.

Lemma u32_eq_iff a b : u32 a = u32 b <-> exists q, a = b + q * 2 ^ 32.
Proof.
  unfold u32. split.
  - intros Heq. exists (a / 2 ^ 32 - b / 2 ^ 32).
    pose proof (Z.div_mod a (2 ^ 32)). pose proof (Z.div_mod b (2 ^ 32)).
    lia.
  - intros [q ->]. apply Z_mod_plus_full.
Qed.

Lemma SendShareToPeer_inv peerId msg w w' :
  SendShareToPeer peerId msg w = Ok (Some w') ->
  in_range (w_sim w) peerId = true /\
  exists src,
    w' = mkWorld (w_sim w) (u32 (m_totalMessagesSent w + 1))
           (in_flight w ++ [mkPacket src peerId msg]).
Proof.
  unfold SendShareToPeer. intros Hsend.
  destruct (substr _ _ _) in Hsend; cbn [bind] in Hsend; [|discriminate].
  destruct (stoul _) as [v|] in Hsend; cbn [bind] in Hsend; [|discriminate].
  destruct (in_range (w_sim w) peerId); [|discriminate].
  destruct (in_range (w_sim w) (u32 v)); [|discriminate].
  injection Hsend as <-. eauto.
Qed.

Lemma send_all_spec acts : forall w w',
  send_all acts w = Ok (Some w') ->
  w_sim w' = w_sim w /\
  u32 (m_totalMessagesSent w')
  = u32 (m_totalMessagesSent w + Z.of_nat (length (sends acts))) /\
  exists pk,
    in_flight w' = in_flight w ++ pk /\
    (fun pkt => (pkt_dest pkt, pkt_text pkt)) <$> pk = sends acts /\
    Forall (fun pkt => in_range (w_sim w) (pkt_dest pkt) = true) pk.
Proof.
  induction acts as [|[p msg|] acts IH]; intros w w' Hall;
    cbn [send_all] in Hall.
  - injection Hall as <-. split; [reflexivity|].
    split; [cbn; f_equal; lia|]. exists []. rewrite app_nil_r. auto.
  - destruct (SendShareToPeer p msg w) as [[w1|]|e] eqn:Hsend;
      cbn [bind] in Hall; try discriminate.
    apply SendShareToPeer_inv in Hsend as (Hin & src & ->).
    destruct (IH _ _ Hall) as (Hsim & Htotal & pk & Hflight & Hpk & Hok).
    cbn in Hsim, Htotal, Hflight, Hok.
    split; [exact Hsim|]. split.
    + rewrite Htotal.
      change (sends (ASend p msg :: acts)) with ((p, msg) :: sends acts).
      cbn [length]. rewrite Nat2Z.inj_succ.
      apply u32_eq_iff.
      destruct (proj1 (u32_eq_iff (u32 (m_totalMessagesSent w + 1))
                         (m_totalMessagesSent w + 1))) as [q Hq].
      { unfold u32. apply Z.mod_mod. discriminate. }
      exists q. rewrite Hq. lia.
    + exists (mkPacket src p msg :: pk). rewrite Hflight, <- app_assoc.
      split; [reflexivity|]. split.
      * change (sends (ASend p msg :: acts)) with ((p, msg) :: sends acts).
        cbn [fmap list_fmap]. f_equal. exact Hpk.
      * constructor; [exact Hin|exact Hok].
  - apply IH in Hall. exact Hall.
Qed.

Lemma sends_flood msg ps :
  sends ((fun q => ASend q msg) <$> ps) = (fun q => (q, msg)) <$> ps.
Proof. induction ps as [|q ps IH]; cbn; [reflexivity|]. f_equal. exact IH. Qed.

Lemma sends_app a b : sends (a ++ b) = sends a ++ sends b.
Proof. unfold sends. apply omap_app. Qed.

Lemma mono_generate_net now n n' acts :
  GenerateAndGossipShare now n = (n', acts) ->
  m_peers n' = m_peers n /\ m_id n' = m_id n /\
  u32 (m_sharesSent n')
  = u32 (m_sharesSent n + Z.of_nat (length (sends acts))) /\
  ((n' = n /\ sends acts = []) \/
   (m_processedShares n'
    = processed_insert (new_share now n) (m_processedShares n) /\
    m_sharesGenerated n' = u32 (m_sharesGenerated n + 1) /\
    sends acts = (fun q => (q, ToString (new_share now n))) <$> m_peers n)).
Proof.
  unfold GenerateAndGossipShare. destruct (m_peers n) as [|q qs] eqn:Hpeers.
  { intros [= <- <-]. rewrite Hpeers. cbn. rewrite Z.add_0_r. auto 10. }
  rewrite <- Hpeers. set (share := new_share now n).
  set (n0 := mkNode _ _ _ _ _ _ _).
  destruct (mono_gossip_spec share n0) as (sent & -> & Hsent).
  intros [= <- <-]. cbn [m_peers m_id m_sharesSent m_processedShares
                        m_sharesGenerated n0] in *.
  rewrite sends_app, sends_flood. cbn [sends omap list_omap].
  rewrite app_nil_r, length_fmap.
  split; [reflexivity|]. split; [reflexivity|]. split; [exact Hsent|].
  right. auto.
Qed.

Lemma ToString_fields a b :
  originNodeId a = originNodeId b -> shareId a = shareId b ->
  timestamp a = timestamp b -> ToString a = ToString b.
Proof. unfold ToString. intros -> -> ->. reflexivity. Qed.

Lemma mono_receive_net uninit msg n n' acts :
  ReceiveShare uninit msg n = Ok (n', acts) ->
  exists share,
    FromString uninit msg = Ok share /\
    m_peers n' = m_peers n /\ m_id n' = m_id n /\
    m_sharesGenerated n' = m_sharesGenerated n /\
    u32 (m_sharesSent n')
    = u32 (m_sharesSent n + Z.of_nat (length (sends acts))) /\
    ((processed_find share (m_processedShares n) = true /\
      m_processedShares n' = m_processedShares n /\ sends acts = []) \/
     (processed_find share (m_processedShares n) = false /\
      m_processedShares n' = m_processedShares n ++ [share] /\
      sends acts = (fun q => (q, ToString share)) <$> m_peers n)).
Proof.
  unfold ReceiveShare. intros Hrun.
  destruct (FromString uninit msg) as [share|e]; cbn [bind] in Hrun;
    [|discriminate].
  exists share. split; [reflexivity|].
  destruct (processed_find share (m_processedShares n)) eqn:Hold.
  { injection Hrun as <- <-. cbn. rewrite Z.add_0_r. auto 10. }
  set (share' := mkShare _ _ _ _) in Hrun.
  set (n0 := mkNode _ _ _ _ _ _ _) in Hrun.
  destruct (mono_gossip_spec share' n0) as (sent & Heq & Hsent).
  rewrite Heq in Hrun. injection Hrun as <- <-.
  cbn [m_peers m_id m_sharesSent m_processedShares m_sharesGenerated n0]
    in *.
  rewrite sends_flood, length_fmap.
  split; [reflexivity|]. split; [reflexivity|]. split; [reflexivity|].
  split; [exact Hsent|]. right. split; [reflexivity|].
  unfold processed_insert. rewrite Hold. split; [reflexivity|].
  rewrite (ToString_fields share' share) by reflexivity. reflexivity.
Qed.

Lemma sent_sum_insert nodes : forall i n n',
  nodes !! i = Some n ->
  sent_sum (<[ i := n' ]> nodes)
  = sent_sum nodes - m_sharesSent n + m_sharesSent n'.
Proof.
  unfold sent_sum.
  induction nodes as [|x nodes IH]; intros [|i] n n' Hn.
  - discriminate.
  - discriminate.
  - injection Hn as ->. cbn. lia.
  - change (<[ S i := n' ]> (x :: nodes)) with (x :: <[ i := n' ]> nodes).
    cbn [foldr]. rewrite (IH i n n' Hn). lia.
Qed.

(** One flood: the node's counter and the counter of the simulation move
    together. *)
Lemma totals_after_flood w a n n' flight acts w' :
  m_p2pNodes (w_sim w) !! Z.to_nat a = Some n ->
  u32 (m_sharesSent n')
  = u32 (m_sharesSent n + Z.of_nat (length (sends acts))) ->
  send_all acts (put_node a n' flight w) = Ok (Some w') ->
  u32 (m_totalMessagesSent w) = u32 (sent_sum (m_p2pNodes (w_sim w))) ->
  u32 (m_totalMessagesSent w') = u32 (sent_sum (m_p2pNodes (w_sim w'))).
Proof.
  intros Hn Hsent Hall Hinv.
  destruct (send_all_spec acts _ _ Hall) as (Hsim & Htotal & _).
  rewrite Hsim, Htotal. unfold put_node.
  cbn [w_sim m_p2pNodes m_totalMessagesSent].
  rewrite (sent_sum_insert _ _ n n' Hn).
  apply u32_eq_iff in Hsent as [q1 Hq1]. apply u32_eq_iff in Hinv as [q2 Hq2].
  apply u32_eq_iff. exists (q2 - q1). lia.
Qed.

Lemma net_step_totals uninit ev w w' :
  net_step uninit ev w = Ok (Some w') ->
  u32 (m_totalMessagesSent w) = u32 (sent_sum (m_p2pNodes (w_sim w))) ->
  u32 (m_totalMessagesSent w') = u32 (sent_sum (m_p2pNodes (w_sim w'))).
Proof.
  intros Hstep Hinv. destruct ev as [a now|k]; cbn [net_step] in Hstep.
  - destruct (in_range (w_sim w) a); [|discriminate].
    destruct (m_p2pNodes (w_sim w) !! Z.to_nat a) as [n|] eqn:Hn;
      [|discriminate].
    destruct (GenerateAndGossipShare now n) as [n' acts] eqn:Hgen.
    apply mono_generate_net in Hgen as (_ & _ & Hsent & _).
    exact (totals_after_flood w a n n' _ acts w' Hn Hsent Hstep Hinv).
  - destruct (in_flight w !! k) as [pkt|]; [|injection Hstep as <-; auto].
    destruct (in_range (w_sim w) (pkt_dest pkt)); [|discriminate].
    destruct (m_p2pNodes (w_sim w) !! Z.to_nat (pkt_dest pkt)) as [n|] eqn:Hn;
      [|discriminate].
    destruct (ReceiveShare uninit (pkt_text pkt) n) as [[n' acts]|e] eqn:Hrcv;
      cbn [bind] in Hstep; [|discriminate].
    apply mono_receive_net in Hrcv as (share & _ & _ & _ & _ & Hsent & _).
    exact (totals_after_flood w _ n n' _ acts w' Hn Hsent Hstep Hinv).
Qed.

Lemma net_run_totals uninit evs : forall w w',
  net_run uninit evs w = Ok (Some w') ->
  u32 (m_totalMessagesSent w) = u32 (sent_sum (m_p2pNodes (w_sim w))) ->
  u32 (m_totalMessagesSent w') = u32 (sent_sum (m_p2pNodes (w_sim w'))).
Proof.
  induction evs as [|ev evs IH]; intros w w' Hrun Hinv; cbn [net_run] in Hrun.
  - injection Hrun as <-. exact Hinv.
  - destruct (net_step uninit ev w) as [[w1|]|e] eqn:Hstep;
      cbn [bind] in Hrun; try discriminate.
    apply (IH w1 w' Hrun). exact (net_step_totals uninit ev w w1 Hstep Hinv).
Qed.

End MonoNetSteps.

Section FloodInvariant.
Context `{Platform}.
Import Mono MonoNet Wire Flood Graph.

Lemma processed_find_identity a b set :
  identity a = identity b -> processed_find a set = processed_find b set.
Proof. intros Hid. apply (proj2 (mono_identity_is_the_pair a b Hid)). Qed.

Lemma processed_find_app S set X :
  processed_find S (set ++ [X]) = true ->
  processed_find S set = true \/ identity S = identity X.
Proof.
  unfold processed_find. rewrite existsb_app. cbn. rewrite orb_false_r.
  intros Hf. apply orb_true_iff in Hf as [Hf|Hf]; [auto|].
  right. apply Share_eq_identity. exact Hf.
Qed.

Lemma processed_find_insert_inv S set X :
  processed_find S (processed_insert X set) = true ->
  processed_find S set = true \/ identity S = identity X.
Proof.
  unfold processed_insert. destruct (processed_find X set); [auto|].
  apply processed_find_app.
Qed.

Lemma ToString_short S :
  prints_fit -> fits S -> size (ToString S) < npos.
Proof.
  intros Hshort [Ho Hi].
  pose proof (ToString_size S (proj1 Ho) (proj1 Hi)) as Hlen.
  specialize (Hshort (timestamp S)).
  assert (npos = 2 ^ 64 - 1) by reflexivity. lia.
Qed.

(** The share that [FromString] reads from the text of [S] has the
    identity of [S]. *)
Lemma FromString_identity uninit S share :
  prints_fit -> fits S ->
  FromString uninit (ToString S) = Ok share ->
  identity share = identity S /\ fits share.
Proof.
  intros Hshort Hfits Hshare. destruct Hfits as [Ho Hi].
  rewrite FromString_ToString in Hshare
    by first [assumption
             |apply ToString_short; [assumption|split; assumption]].
  destruct (stod _) as [t|e]; cbn [bind] in Hshare; [|discriminate].
  injection Hshare as <-. split; [reflexivity|split; assumption].
Qed.

Lemma in_range_put a n' flight w b :
  in_range (w_sim (put_node a n' flight w)) b = in_range (w_sim w) b.
Proof.
  unfold in_range, GetN, put_node. cbn. rewrite length_insert. reflexivity.
Qed.

Lemma lookup_put a n' flight w b :
  in_range (w_sim w) a = true -> in_range (w_sim w) b = true ->
  m_p2pNodes (w_sim (put_node a n' flight w)) !! Z.to_nat b
  = if decide (b = a) then Some n'
    else m_p2pNodes (w_sim w) !! Z.to_nat b.
Proof.
  unfold in_range, GetN, put_node. cbn. intros Ha Hb.
  apply andb_true_iff in Ha as [Ha0 Ha1].
  apply andb_true_iff in Hb as [Hb0 Hb1].
  apply Z.leb_le in Ha0, Hb0. apply Z.ltb_lt in Ha1, Hb1.
  destruct (decide (b = a)) as [->|Hne].
  - apply list_lookup_insert_eq. lia.
  - apply list_lookup_insert_ne. lia.
Qed.

Lemma peers_put a n n' flight w b :
  in_range (w_sim w) a = true ->
  m_p2pNodes (w_sim w) !! Z.to_nat a = Some n ->
  m_peers n' = m_peers n ->
  mono_peers_of (w_sim (put_node a n' flight w)) b
  = mono_peers_of (w_sim w) b.
Proof.
  intros Ha Hn Hpeers. unfold mono_peers_of.
  rewrite in_range_put. destruct (in_range (w_sim w) b) eqn:Hb;
    [|reflexivity].
  rewrite lookup_put by assumption.
  destruct (decide (b = a)) as [->|_]; [|reflexivity].
  rewrite Hn. exact Hpeers.
Qed.

Lemma flood_inv_step w a n n' flight1 pk w' S0 :
  flood_inv w ->
  in_range (w_sim w) a = true ->
  m_p2pNodes (w_sim w) !! Z.to_nat a = Some n ->
  m_peers n' = m_peers n ->
  0 <= m_id n' < 2 ^ 32 /\ 0 <= m_sharesGenerated n' < 2 ^ 32 /\
  Forall fits (m_processedShares n') ->
  (forall S, processed_find S (m_processedShares n) = true ->
             processed_find S (m_processedShares n') = true) ->
  (forall S, processed_find S (m_processedShares n') = true ->
     processed_find S (m_processedShares n) = true \/
     (identity S = identity S0 /\
      forall b, b ∈ m_peers n ->
        exists pkt, pkt ∈ pk /\ pkt_dest pkt = b /\ carries pkt S0)) ->
  (forall pkt, pkt ∈ in_flight w ->
     pkt ∈ flight1 \/
     (pkt_dest pkt = a /\
      forall S, carries pkt S ->
                processed_find S (m_processedShares n') = true)) ->
  (forall pkt, pkt ∈ flight1 -> pkt ∈ in_flight w) ->
  (forall pkt, pkt ∈ pk ->
     in_range (w_sim w) (pkt_dest pkt) = true /\
     exists S', pkt_text pkt = ToString S' /\ fits S') ->
  w_sim w' = w_sim (put_node a n' flight1 w) ->
  in_flight w' = flight1 ++ pk ->
  flood_inv w'.
Proof.
  intros (Hcover & Hpkts & Hnodes) Ha Hn Hpeers Hn' Hgrow Hnew Hgone Hsub
         Hpk Hsim Hflight.
  assert (Hrange : forall b, in_range (w_sim w') b = in_range (w_sim w) b).
  { intros b. rewrite Hsim. apply in_range_put. }
  assert (Hlook : forall b, in_range (w_sim w) b = true ->
            m_p2pNodes (w_sim w') !! Z.to_nat b
            = if decide (b = a) then Some n'
              else m_p2pNodes (w_sim w) !! Z.to_nat b).
  { intros b Hb. rewrite Hsim. apply lookup_put; assumption. }
  assert (Hps : forall b, mono_peers_of (w_sim w') b
                          = mono_peers_of (w_sim w) b).
  { intros b. rewrite Hsim. eapply peers_put; eassumption. }
  assert (Hholds : forall b S, holds w b S -> holds w' b S).
  { intros b S (m & Hb & Hm & Hfound). unfold holds.
    rewrite Hrange, (Hlook b Hb).
    destruct (decide (b = a)) as [->|_].
    - exists n'. rewrite Hn in Hm. injection Hm as <-. auto.
    - exists m. auto. }
  assert (Hhere : forall S, processed_find S (m_processedShares n') = true ->
                            holds w' a S).
  { intros S Hfound. exists n'. rewrite Hrange, (Hlook a Ha).
    rewrite decide_True by reflexivity. auto. }
  assert (Hlift : forall b S, covered w b S -> covered w' b S).
  { intros b S [Hb|(pkt & Hin & Hdest & Hcar)]; [left; auto|].
    destruct (Hgone pkt Hin) as [Hstay|[Hto Hfound]].
    - right. exists pkt. rewrite Hflight, elem_of_app. auto.
    - left. rewrite <- Hdest, Hto. apply Hhere, Hfound, Hcar. }
  split; [|split].
  - intros a1 S b (n1 & Ha1 & Hn1 & Hfound) Hb.
    rewrite Hps in Hb. rewrite Hrange in Ha1.
    rewrite (Hlook a1 Ha1) in Hn1.
    destruct (decide (a1 = a)) as [->|Hne].
    + injection Hn1 as <-.
      destruct (Hnew S Hfound) as [Hold|[Hid Hsent]].
      * apply Hlift, (Hcover a S b); [|exact Hb]. exists n. auto.
      * assert (Hbn : b ∈ m_peers n).
        { unfold mono_peers_of in Hb. rewrite Ha, Hn in Hb. exact Hb. }
        destruct (Hsent b Hbn) as (pkt & Hin & Hdest & S' & Ht & Hf & Hi).
        right. exists pkt. rewrite Hflight, elem_of_app.
        split; [auto|]. split; [exact Hdest|].
        exists S'. split; [exact Ht|]. split; [exact Hf|congruence].
    + apply Hlift, (Hcover a1 S b); [|exact Hb]. exists n1. auto.
  - intros pkt Hin. rewrite Hflight, elem_of_app in Hin. rewrite Hrange.
    destruct Hin as [Hin|Hin]; [apply Hpkts, Hsub, Hin|apply Hpk, Hin].
  - intros m Hm. rewrite Hsim in Hm. unfold put_node in Hm. cbn in Hm.
    apply list_elem_of_lookup in Hm as [i Hi].
    apply list_lookup_insert_Some in Hi as [(_ & <- & _)|[_ Hi]];
      [exact Hn'|].
    apply Hnodes. apply list_elem_of_lookup. eauto.
Qed.

Lemma packets_of_flood (pk : list Packet) (ps : list Z) msg b :
  (fun pkt => (pkt_dest pkt, pkt_text pkt)) <$> pk
  = (fun q => (q, msg)) <$> ps ->
  (b ∈ ps -> exists pkt, pkt ∈ pk /\ pkt_dest pkt = b /\
                         pkt_text pkt = msg) /\
  (forall pkt, pkt ∈ pk -> pkt_text pkt = msg).
Proof.
  intros Heq. split.
  - intros Hb.
    assert (Hin : (b, msg) ∈ (fun q => (q, msg)) <$> ps).
    { apply list_elem_of_fmap. eauto. }
    rewrite <- Heq in Hin. apply list_elem_of_fmap in Hin as (pkt & Hp & Hin).
    injection Hp as -> ->. eauto.
  - intros pkt Hin.
    assert (Hp : (pkt_dest pkt, pkt_text pkt)
                 ∈ (fun pkt => (pkt_dest pkt, pkt_text pkt)) <$> pk).
    { apply list_elem_of_fmap. eauto. }
    rewrite Heq in Hp. apply list_elem_of_fmap in Hp as (q & Hq & _).
    injection Hq as _ ->. reflexivity.
Qed.

Lemma elem_of_delete_or {A} (l : list A) k x y :
  l !! k = Some y -> x ∈ l -> x ∈ delete k l \/ x = y.
Proof.
  revert k. induction l as [|z l IH]; intros [|k] Hk Hx; cbn in *;
    try discriminate.
  - injection Hk as ->. apply elem_of_cons in Hx as [Heq|Hx]; auto.
  - apply elem_of_cons in Hx as [->|Hx].
    + left. now left.
    + destruct (IH k Hk Hx) as [Hd|Heq]; [|auto]. left. now right.
Qed.

Lemma elem_of_delete_sub {A} (l : list A) k x : x ∈ delete k l -> x ∈ l.
Proof.
  revert k. induction l as [|z l IH]; intros [|k] Hx; cbn in *.
  - exact Hx.
  - exact Hx.
  - now right.
  - apply elem_of_cons in Hx as [->|Hx]; [now left|].
    right. exact (IH k Hx).
Qed.

Lemma net_step_flood uninit ev w w' :
  prints_fit -> fits uninit ->
  net_step uninit ev w = Ok (Some w') -> flood_inv w -> flood_inv w'.
Proof.
  intros Hshort Hu Hstep Hinv.
  destruct ev as [a now|k]; cbn [net_step] in Hstep.
  - destruct (in_range (w_sim w) a) eqn:Ha; [|discriminate].
    destruct (m_p2pNodes (w_sim w) !! Z.to_nat a) as [n|] eqn:Hn;
      [|discriminate].
    destruct (GenerateAndGossipShare now n) as [n' acts] eqn:Hgen.
    destruct (send_all_spec acts _ _ Hstep)
      as (Hsim & _ & pk & Hflight & Hpk & Hok).
    cbn [in_flight put_node] in Hflight.
    assert (Hnode : 0 <= m_id n < 2 ^ 32 /\
                    0 <= m_sharesGenerated n < 2 ^ 32 /\
                    Forall fits (m_processedShares n)).
    { apply Hinv. apply list_elem_of_lookup. eauto. }
    destruct Hnode as (Hid & Hg & Hall).
    apply mono_generate_net in Hgen
      as (Hpeers & Hid' & _ & [[-> Hnone]|(Hset & Hgen' & Hsends)]).
    + rewrite Hnone in Hpk. apply fmap_nil_inv in Hpk. subst pk.
      apply (flood_inv_step w a n n (in_flight w) [] w' uninit Hinv Ha Hn);
        auto.
      intros pkt Hin. inversion Hin.
    + set (share := new_share now n) in *.
      assert (Hfits : fits share) by (split; cbn; lia).
      rewrite Hsends in Hpk.
      apply (flood_inv_step w a n n' (in_flight w) pk w' share Hinv Ha Hn
               Hpeers); auto.
      * rewrite Hid', Hgen', Hset. split; [exact Hid|].
        split; [apply u32_range|]. unfold processed_insert.
        destruct (processed_find share (m_processedShares n)); [exact Hall|].
        apply Forall_app. split; [exact Hall|]. repeat constructor; apply Hfits.
      * intros S. rewrite Hset. apply processed_find_grows.
      * intros S. rewrite Hset. intros Hfound.
        apply processed_find_insert_inv in Hfound as [Hold|Hid0]; [auto|].
        right. split; [exact Hid0|]. intros b Hb.
        destruct (proj1 (packets_of_flood pk _ _ b Hpk) Hb)
          as (pkt & Hin & Hdest & Htext).
        exists pkt. split; [exact Hin|]. split; [exact Hdest|].
        exists share. auto.
      * intros pkt Hin. split.
        -- rewrite Forall_forall in Hok. specialize (Hok pkt Hin).
           rewrite in_range_put in Hok. exact Hok.
        -- exists share. split; [|exact Hfits].
           exact (proj2 (packets_of_flood pk _ _ 0 Hpk) pkt Hin).
  - destruct (in_flight w !! k) as [pkt|] eqn:Hk;
      [|injection Hstep as <-; exact Hinv].
    destruct (in_range (w_sim w) (pkt_dest pkt)) eqn:Ha; [|discriminate].
    destruct (m_p2pNodes (w_sim w) !! Z.to_nat (pkt_dest pkt)) as [n|] eqn:Hn;
      [|discriminate].
    destruct (ReceiveShare uninit (pkt_text pkt) n) as [[n' acts]|e] eqn:Hrcv;
      cbn [bind] in Hstep; [|discriminate].
    destruct (send_all_spec acts _ _ Hstep)
      as (Hsim & _ & pk & Hflight & Hpk & Hok).
    cbn [in_flight put_node] in Hflight.
    assert (Hnode : 0 <= m_id n < 2 ^ 32 /\
                    0 <= m_sharesGenerated n < 2 ^ 32 /\
                    Forall fits (m_processedShares n)).
    { apply Hinv. apply list_elem_of_lookup. eauto. }
    destruct Hnode as (Hid & Hg & Hall).
    assert (Hpkt : pkt ∈ in_flight w) by (apply list_elem_of_lookup; eauto).
    destruct (proj1 (proj2 Hinv) pkt Hpkt) as (_ & S' & Htext & Hfits').
    apply mono_receive_net in Hrcv
      as (share & Hshare & Hpeers & Hid' & Hgen' & _ & Hcases).
    assert (Hcarried : forall S, carries pkt S ->
              identity share = identity S /\ fits share).
    { intros S (S2 & Ht2 & Hf2 & Hi2). rewrite Ht2 in Hshare.
      destruct (FromString_identity uninit S2 share Hshort Hf2 Hshare)
        as [Hi Hf]. split; [congruence|exact Hf]. }
    assert (Hfits : fits share).
    { apply (Hcarried S'). exists S'. auto. }
    assert (Hgone : processed_find share (m_processedShares n') = true ->
              forall x, x ∈ in_flight w ->
                x ∈ delete k (in_flight w) \/
                (pkt_dest x = pkt_dest pkt /\
                 forall S, carries x S ->
                   processed_find S (m_processedShares n') = true)).
    { intros Hfound x Hx.
      destruct (elem_of_delete_or _ k x pkt Hk Hx) as [Hd|Heq]; [auto|].
      subst x.
      right. split; [reflexivity|]. intros S Hcar.
      rewrite (processed_find_identity S share); [exact Hfound|].
      symmetry. apply Hcarried, Hcar. }
    destruct Hcases as [(Hold & Hset & Hnone)|(Hfresh & Hset & Hsends)].
    + rewrite Hnone in Hpk. apply fmap_nil_inv in Hpk. subst pk.
      apply (flood_inv_step w _ n n' (delete k (in_flight w)) [] w' share
               Hinv Ha Hn Hpeers); auto.
      * rewrite Hid', Hgen', Hset. auto.
      * intros S. rewrite Hset. auto.
      * intros S. rewrite Hset. auto.
      * apply Hgone. rewrite Hset. exact Hold.
      * intros x. apply elem_of_delete_sub.
      * intros x Hx. inversion Hx.
    + rewrite Hsends in Hpk.
      assert (Hfound : processed_find share (m_processedShares n') = true).
      { rewrite Hset. unfold processed_find. rewrite existsb_app. cbn.
        rewrite Share_eq_refl. apply orb_true_iff. auto. }
      apply (flood_inv_step w _ n n' (delete k (in_flight w)) pk w' share
               Hinv Ha Hn Hpeers); auto.
      * rewrite Hid', Hgen', Hset. split; [exact Hid|]. split; [exact Hg|].
        apply Forall_app. split; [exact Hall|]. repeat constructor; apply Hfits.
      * intros S Hs. rewrite Hset. unfold processed_find in *.
        rewrite existsb_app, Hs. reflexivity.
      * intros S. rewrite Hset. intros Hs.
        apply processed_find_app in Hs as [Hs|Hid0]; [auto|].
        right. split; [exact Hid0|]. intros b Hb.
        destruct (proj1 (packets_of_flood pk _ _ b Hpk) Hb)
          as (x & Hin & Hdest & Hxt).
        exists x. split; [exact Hin|]. split; [exact Hdest|].
        exists share. auto.
      * intros x. apply elem_of_delete_sub.
      * intros x Hin. split.
        -- rewrite Forall_forall in Hok. specialize (Hok x Hin).
           rewrite in_range_put in Hok. exact Hok.
        -- exists share. split; [|exact Hfits].
           exact (proj2 (packets_of_flood pk _ _ 0 Hpk) x Hin).
Qed.

Lemma net_run_flood uninit evs : forall w w',
  prints_fit -> fits uninit ->
  net_run uninit evs w = Ok (Some w') -> flood_inv w -> flood_inv w'.
Proof.
  induction evs as [|ev evs IH]; intros w w' Hshort Hu Hrun Hinv;
    cbn [net_run] in Hrun.
  - injection Hrun as <-. exact Hinv.
  - destruct (net_step uninit ev w) as [[w1|]|e] eqn:Hstep;
      cbn [bind] in Hrun; try discriminate.
    apply (IH w1 w' Hshort Hu Hrun).
    exact (net_step_flood uninit ev w w1 Hshort Hu Hstep Hinv).
Qed.

End FloodInvariant.

Section NetClaims.
Context `{Platform}.
Import Mono MonoNet Wire Flood Graph.

(** X11.  [SendShareToPeer] reads the node at which it creates the
    sending socket from the first field of the text.  For the text of a
    share that is the origin of the share, whichever node forwards it;
    the call throws nothing, and it indexes past the node container only
    if the peer or the origin is not a node. *)
Theorem sending_socket_is_made_at_the_origin peerId S w :
  fits S ->
  SendShareToPeer peerId (ToString S) w
  = Ok (if in_range (w_sim w) peerId && in_range (w_sim w) (originNodeId S)
        then Some (mkWorld (w_sim w) (u32 (m_totalMessagesSent w + 1))
                     (in_flight w ++
                      [mkPacket (originNodeId S) peerId (ToString S)]))
        else None).
Proof. apply SendShareToPeer_share. Qed.

(** X12.  The message counter of the simulation and the sent counters of
    the nodes move together: after any run of generation events and
    deliveries, [m_totalMessagesSent] is the sum of [m_sharesSent] over
    the nodes, both taken in 32 bits. *)
Theorem total_messages_is_the_sum_of_sent uninit evs w w' :
  net_run uninit evs w = Ok (Some w') ->
  u32 (m_totalMessagesSent w) = u32 (sent_sum (m_p2pNodes (w_sim w))) ->
  u32 (m_totalMessagesSent w') = u32 (sent_sum (m_p2pNodes (w_sim w'))).
Proof. apply net_run_totals. Qed.

(** X13.  Flooding reaches every peer.  Start from nodes that have
    processed nothing and a network that holds no packet; let any
    generation events fire and any packets be delivered, in any order;
    whenever no packet is left on its way, every share a node has in its
    processed set is in the processed set of each of its peers.  (Printed
    time stamps are short, and [uninit] fits 32 bits.) *)
Theorem flood_reaches_every_peer_at_rest uninit evs w w' :
  prints_fit -> fits uninit ->
  in_flight w = [] ->
  (forall n, n ∈ m_p2pNodes (w_sim w) ->
     m_processedShares n = [] /\
     0 <= m_id n < 2 ^ 32 /\ 0 <= m_sharesGenerated n < 2 ^ 32) ->
  net_run uninit evs w = Ok (Some w') ->
  in_flight w' = [] ->
  forall a S b,
    holds w' a S -> b ∈ mono_peers_of (w_sim w') a -> holds w' b S.
Proof.
  intros Hshort Hu Hempty Hnew Hrun Hrest a S b Ha Hb.
  assert (Hinv : flood_inv w).
  { split; [|split].
    - intros a0 S0 b0 (n & _ & Hn & Hfound) _.
      assert (Hin : n ∈ m_p2pNodes (w_sim w))
        by (apply list_elem_of_lookup; eauto).
      destruct (Hnew n Hin) as [Hnone _]. rewrite Hnone in Hfound.
      discriminate Hfound.
    - intros pkt Hin. rewrite Hempty in Hin. inversion Hin.
    - intros n Hin. destruct (Hnew n Hin) as (-> & Hid & Hg).
      split; [exact Hid|]. split; [exact Hg|constructor]. }
  destruct (net_run_flood uninit evs w w' Hshort Hu Hrun Hinv)
    as (Hcover & _).
  destruct (Hcover a S b Ha Hb) as [Hdone|(pkt & Hin & _)]; [exact Hdone|].
  rewrite Hrest in Hin. inversion Hin.
Qed.

End NetClaims.

Section NetExamples.
Import Mono MonoNet Wire Flood Graph Line Sample.
#[local] Existing Instance capped_platform.

Lemma capped_prints_fit : prints_fit.
Proof.
  intros t. cbn [show_double capped_platform].
  destruct (Z.min (Qfloor t) 4294967295) as [|x|x] eqn:Hx.
  - vm_compute. discriminate.
  - pose proof (to_string_size (Z.pos x)). lia.
  - vm_compute. discriminate.
Qed.

Lemma sending_socket_is_made_at_the_origin_witness :
  SendShareToPeer 2 (ToString (mkShare 0 0 5%Q ∅)) line
  = Ok (Some (mkWorld (w_sim line) 1
                [mkPacket 0 2 (ToString (mkShare 0 0 5%Q ∅))])).
Proof.
  rewrite (sending_socket_is_made_at_the_origin 2 (mkShare 0 0 5%Q ∅) line);
    [reflexivity|split; cbn; lia].
Defined.

Lemma total_messages_is_the_sum_of_sent_witness :
  exists w',
    net_run zeros one_flood line = Ok (Some w') /\
    u32 (m_totalMessagesSent w') = u32 (sent_sum (m_p2pNodes (w_sim w'))).
Proof.
  assert (Hok : exists w', net_run zeros one_flood line = Ok (Some w'))
    by (vm_compute; eexists; reflexivity).
  destruct Hok as (w' & Hrun). exists w'. split; [exact Hrun|].
  apply (total_messages_is_the_sum_of_sent zeros one_flood line w' Hrun).
  reflexivity.
Defined.

Lemma flood_reaches_every_peer_at_rest_witness :
  exists w',
    net_run zeros one_flood line = Ok (Some w') /\
    in_flight w' = [] /\
    forall a S b,
      holds w' a S -> b ∈ mono_peers_of (w_sim w') a -> holds w' b S.
Proof.
  assert (Hok : exists w', net_run zeros one_flood line = Ok (Some w') /\
                           in_flight w' = [])
    by (vm_compute; eexists; split; reflexivity).
  destruct Hok as (w' & Hrun & Hrest). exists w'.
  split; [exact Hrun|]. split; [exact Hrest|].
  apply (flood_reaches_every_peer_at_rest zeros one_flood line w'
           capped_prints_fit); [split; cbn; lia|reflexivity| |exact Hrun
                               |exact Hrest].
  intros n Hn. cbn in Hn.
  repeat (apply elem_of_cons in Hn as [->|Hn]; [vm_compute; repeat split;
                                                 discriminate|]).
  inversion Hn.
Defined.

End NetExamples.

(** ** The grid of the animation *)

Section Grid.
Import NetAnim.

Lemma gridSize_spec n :
  1 <= n -> 1 <= gridSize n /\ n <= gridSize n * gridSize n.
Proof.
  intros Hn. unfold gridSize.
  pose proof (Z.sqrt_up_spec n ltac:(lia)) as [Hlo Hhi].
  split; [|exact Hhi]. pose proof (proj2 (Z.sqrt_up_pos n) ltac:(lia)). lia.
Qed.

Lemma grid_cell g i :
  1 <= g -> 0 <= i < g * g -> 0 <= i mod g < g /\ 0 <= i / g < g.
Proof.
  intros Hg Hi. split; [apply Z.mod_pos_bound; lia|]. split.
  - apply Z.div_pos; lia.
  - apply Z.div_lt_upper_bound; lia.
Qed.

Lemma grid_cell_inj g i j :
  1 <= g -> i mod g = j mod g -> i / g = j / g -> i = j.
Proof.
  intros Hg Hm Hd.
  rewrite (Z.div_mod i g), (Z.div_mod j g) by lia. congruence.
Qed.

Lemma node_anim_place g i d :
  (anim_x (node_anim g i d), anim_y (node_anim g i d))
  = (Qmake (100 * (Z.of_nat i mod g)) 1, Qmake (100 * (Z.of_nat i / g)) 1).
Proof. reflexivity. Qed.

(** X14.  [SetupNetAnim] needs a node, and then gives every node a cell
    of its own in a square grid of side [ceil(sqrt(numNodes))]: one entry
    per node, the coordinates are multiples of 100 from 0 up to 100 times
    the side less one, and no two nodes are put at the same place.  (The
    number of nodes is a 32 bit number.) *)
Theorem netanim_gives_every_node_its_own_cell degrees :
  SetupNetAnim [] = None /\
  (degrees <> [] -> Z.of_nat (length degrees) < 2 ^ 32 ->
   exists anims,
     SetupNetAnim degrees = Some anims /\
     length anims = length degrees /\
     let g := gridSize (Z.of_nat (length degrees)) in
     (forall i a, anims !! i = Some a ->
        exists col row,
          0 <= col < g /\ 0 <= row < g /\
          anim_x a = (100 * inject_Z col)%Q /\
          anim_y a = (100 * inject_Z row)%Q) /\
     (forall i j a b,
        anims !! i = Some a -> anims !! j = Some b ->
        anim_x a = anim_x b -> anim_y a = anim_y b -> i = j)).
Proof.
  split; [reflexivity|]. intros Hne _. unfold SetupNetAnim.
  assert (Hn : 1 <= Z.of_nat (length degrees)).
  { destruct degrees; [congruence|cbn [length]; lia]. }
  destruct (Z.eqb_spec (Z.of_nat (length degrees)) 0) as [H0|_]; [lia|].
  eexists. split; [reflexivity|]. split; [apply length_imap|].
  destruct (gridSize_spec _ Hn) as [Hg Hsq].
  set (g := gridSize (Z.of_nat (length degrees))) in *. cbn zeta. split.
  - intros i a Ha. rewrite list_lookup_imap in Ha.
    destruct (degrees !! i) as [d|] eqn:Hd; [|discriminate].
    injection Ha as <-. apply lookup_lt_Some in Hd.
    destruct (grid_cell g (Z.of_nat i) Hg) as [Hc Hr]; [lia|].
    exists (Z.of_nat i mod g), (Z.of_nat i / g). auto.
  - intros i j a b Ha Hb Hx Hy. rewrite list_lookup_imap in Ha, Hb.
    destruct (degrees !! i) as [d|]; [|discriminate].
    destruct (degrees !! j) as [e|]; [|discriminate].
    injection Ha as <-. injection Hb as <-.
    pose proof (node_anim_place g i d) as Pi.
    pose proof (node_anim_place g j e) as Pj.
    rewrite Hx, Hy, Pj in Pi. injection Pi as Hcol Hrow.
    apply Nat2Z.inj. apply (grid_cell_inj g); [exact Hg|lia|lia].
Qed.

Lemma netanim_gives_every_node_its_own_cell_witness :
  exists anims,
    SetupNetAnim [1; 2; 5; 3; 1] = Some anims /\
    length anims = 5%nat /\
    forall i j a b,
      anims !! i = Some a -> anims !! j = Some b ->
      anim_x a = anim_x b -> anim_y a = anim_y b -> i = j.
Proof.
  destruct (proj2 (netanim_gives_every_node_its_own_cell [1; 2; 5; 3; 1]))
    as (anims & Hrun & Hlen & _ & Hinj); [discriminate|cbn; lia|].
  exists anims. auto.
Defined.

End Grid.

(** ** The flood over the sockets *)

Section TcpNetSteps.
Context `{Platform}.
Variable Send : nat -> Tcp.Socket -> string -> Z.
Import Tcp Trace TcpNet Wire TcpFlood.

Lemma elem_of_segments seg acts :
  seg ∈ segments acts <->
  exists p b, ASend p (seg_socket seg) (seg_text seg) b ∈ acts /\ 0 < b.
Proof.
  unfold segments. rewrite list_elem_of_omap. split.
  - intros (a & Ha & Hsome). destruct a as [p s m b| |]; try discriminate.
    destruct (Z.ltb_spec 0 b); [|discriminate].
    injection Hsome as <-. cbn. eauto.
  - intros (p & b & Ha & Hb). exists (ASend p (seg_socket seg) (seg_text seg) b).
    split; [exact Ha|].
    destruct (Z.ltb_spec 0 b); [|lia]. destruct seg; reflexivity.
Qed.

Lemma segments_app a1 a2 : segments (a1 ++ a2) = segments a1 ++ segments a2.
Proof. apply omap_app. Qed.

Lemma tcp_flood_net share n0 k n' k' acts :
  GossipShareToPeers Send share n0 k = (n', k', acts) ->
  id n' = id n0 /\ peers n' = peers n0 /\
  processedShares n' = processedShares n0 /\
  (forall b s, peersockets n' !! b = Some s ->
     peersockets n0 !! b = Some s /\
     (b ∈ peers n0 -> mkSegment s (ToString share) ∈ segments acts)) /\
  (forall seg, seg ∈ segments acts ->
     seg_text seg = ToString share /\
     exists p, peersockets n0 !! p = Some (seg_socket seg)).
Proof.
  unfold GossipShareToPeers. intros Hrun.
  destruct (gossip_loop Send (ToString share) (peers n0) (peersockets n0)
              (sharesSent n0) k) as [[[socks sent] k1] acts1] eqn:Hloop.
  injection Hrun as <- <- <-.
  apply gossip_loop_post in Hloop as (_ & _ & Hsocks & Hall & Hevery & _).
  cbn [id peers processedShares peersockets set_sharesSent set_peersockets].
  split; [reflexivity|]. split; [reflexivity|]. split; [reflexivity|].
  split.
  - intros b s Hb. rewrite Hsocks in Hb.
    destruct (existsb (failed_to b) acts1) eqn:Hf; [discriminate|].
    split; [exact Hb|]. intros Hin.
    destruct (Hevery b s Hin Hb) as [bytes Hsend].
    apply elem_of_segments. exists b, bytes. split; [exact Hsend|].
    destruct (Z.ltb_spec 0 bytes) as [|Hle]; [assumption|]. exfalso.
    assert (Hex : existsb (failed_to b) acts1 = true).
    { apply existsb_exists. eexists. split.
      - apply list_elem_of_In. exact Hsend.
      - rewrite failed_to_refused by (apply Z.ltb_ge; exact Hle).
        apply bool_decide_eq_true. reflexivity. }
    congruence.
  - intros seg Hseg. apply elem_of_segments in Hseg as (p & b & Hin & Hb).
    rewrite Forall_forall in Hall.
    destruct (Hall _ Hin) as (p' & s' & b' & Heq & _ & Hs).
    injection Heq as -> -> Hm ->. split; [exact Hm|]. eauto.
Qed.

Lemma tcp_generate_net now n k n' k' acts :
  GenerateAndGossipShare Send now n k = (n', k', acts) ->
  (n' = n /\ segments acts = []) \/
  exists n2 acts2,
    id n2 = id n /\ peers n2 = peers n /\ peersockets n2 = peersockets n /\
    processedShares n2
    = {[ shareId (new_share now n) ]} ∪ processedShares n /\
    GossipShareToPeers Send (new_share now n) n2 k = (n', k', acts2) /\
    segments acts = segments acts2.
Proof.
  unfold GenerateAndGossipShare. intros Hgen.
  destruct (peers n) as [|q qs] eqn:Hpeers.
  { injection Hgen as <- <- <-. left. auto. }
  destruct (isrunning n); cbn [negb] in Hgen.
  2:{ injection Hgen as <- <- <-. left. auto. }
  set (n2 := set_processedShares _ _) in Hgen.
  destruct (GossipShareToPeers Send (new_share now n) n2 k)
    as [[n3 k3] acts3] eqn:Hflood.
  injection Hgen as <- <- <-. right. exists n2, acts3.
  split; [reflexivity|]. split; [exact Hpeers|].
  split; [reflexivity|]. split; [reflexivity|]. split; [exact Hflood|].
  rewrite segments_app. cbn. apply app_nil_r.
Qed.

Lemma FromString_shareId uninit S share :
  Flood.prints_fit -> fits S ->
  FromString uninit (ToString S) = Ok share ->
  shareId share = shareId S /\ fits share.
Proof.
  intros Hshort Hfits Hshare.
  destruct (FromString_identity uninit S share Hshort Hfits Hshare)
    as [Hid Hf].
  split; [|exact Hf]. exact (f_equal snd Hid).
Qed.

Lemma tcp_receive_net uninit S' sock n k n' k' acts :
  Flood.prints_fit -> fits S' ->
  ReceiveShare Send uninit (ToString S') sock n k = Ok (n', k', acts) ->
  exists share,
    FromString uninit (ToString S') = Ok share /\
    ((shareId S' ∈ processedShares n /\ id n' = id n /\
      peers n' = peers n /\ peersockets n' = peersockets n /\
      processedShares n' = processedShares n /\ acts = []) \/
     (exists n2,
        fits share /\ shareId share = shareId S' /\
        id n2 = id n /\ peers n2 = peers n /\
        peersockets n2 = peersockets n /\
        processedShares n2 = {[ shareId S' ]} ∪ processedShares n /\
        GossipShareToPeers Send share n2 k = (n', k', acts))).
Proof.
  intros Hshort Hfits Hrcv. unfold ReceiveShare in Hrcv.
  destruct (Z.eqb_spec (find (ToString S') "REGISTER:" 0) 0) as [Hreg|_];
    [destruct (ToString_not_register S' Hreg)|].
  unfold process_share in Hrcv.
  destruct (FromString uninit (ToString S')) as [share|e] eqn:Hshare;
    cbn [bind] in Hrcv; [|discriminate].
  destruct (FromString_shareId uninit S' share Hshort Hfits Hshare)
    as [Hid Hf].
  cbn [processedShares set_sharesReceived] in Hrcv. rewrite Hid in Hrcv.
  exists share. split; [reflexivity|].
  destruct (bool_decide_reflect (shareId S' ∈ processedShares n))
    as [Hold|Hnew].
  - injection Hrcv as <- <- <-. left. cbn.
    split; [exact Hold|]. auto 10.
  - injection Hrcv as Hrcv. right. eexists.
    split; [exact Hf|]. split; [exact Hid|].
    split; [|split; [|split; [|split; [|exact Hrcv]]]]; reflexivity.
Qed.

End TcpNetSteps.

Section TcpFloodInvariant.
Context `{Platform}.
Variable Send : nat -> Tcp.Socket -> string -> Z.
Import Tcp Trace TcpNet Wire TcpFlood.

Lemma tcp_in_range_put a n' k wire w b :
  in_range (w_net (put_node a n' k wire w)) b = in_range (w_net w) b.
Proof.
  unfold in_range, GetN, put_node. cbn. rewrite length_insert. reflexivity.
Qed.

Lemma tcp_lookup_put a n' k wire w b :
  in_range (w_net w) a = true -> in_range (w_net w) b = true ->
  p2pNodes (w_net (put_node a n' k wire w)) !! Z.to_nat b
  = if decide (b = a) then Some n' else p2pNodes (w_net w) !! Z.to_nat b.
Proof.
  unfold in_range, GetN, put_node. cbn. intros Ha Hb.
  apply andb_true_iff in Ha as [Ha0 Ha1].
  apply andb_true_iff in Hb as [Hb0 Hb1].
  apply Z.leb_le in Ha0, Hb0. apply Z.ltb_lt in Ha1, Hb1.
  destruct (decide (b = a)) as [->|Hne].
  - apply list_lookup_insert_eq. lia.
  - apply list_lookup_insert_ne. lia.
Qed.

Lemma tcp_flood_inv_step w a n n' k' wire1 segs x0 :
  flood_inv w ->
  in_range (w_net w) a = true ->
  p2pNodes (w_net w) !! Z.to_nat a = Some n ->
  id n' = id n -> peers n' = peers n ->
  (forall b s, peersockets n' !! b = Some s ->
               peersockets n !! b = Some s) ->
  (forall x, x ∈ processedShares n -> x ∈ processedShares n') ->
  (forall x, x ∈ processedShares n' ->
     x ∈ processedShares n \/
     (x = x0 /\
      forall b s, peersockets n' !! b = Some s -> b ∈ peers n ->
        exists seg, seg ∈ segs /\ remote (seg_socket seg) = Some b /\
                    carries seg x0)) ->
  (forall seg, seg ∈ on_wire w ->
     seg ∈ wire1 \/
     (remote (seg_socket seg) = Some a /\
      forall x, carries seg x -> x ∈ processedShares n')) ->
  (forall seg, seg ∈ wire1 -> seg ∈ on_wire w) ->
  (forall seg, seg ∈ segs ->
     (exists p, peersockets n !! p = Some (seg_socket seg)) /\
     exists S', seg_text seg = ToString S' /\ fits S') ->
  flood_inv (put_node a n' k' (wire1 ++ segs) w).
Proof.
  intros (Hcover & Hpkts & Hnodes) Ha Hn Hid Hpeers Hshrink Hgrow Hnew
         Hgone Hsub Hsegs.
  set (w' := put_node a n' k' (wire1 ++ segs) w).
  assert (Hrange : forall b, in_range (w_net w') b = in_range (w_net w) b).
  { intros b. apply tcp_in_range_put. }
  assert (Hlook : forall b, in_range (w_net w) b = true ->
            p2pNodes (w_net w') !! Z.to_nat b
            = if decide (b = a) then Some n'
              else p2pNodes (w_net w) !! Z.to_nat b).
  { intros b Hb. apply tcp_lookup_put; assumption. }
  assert (Hwired : 0 <= id n < 2 ^ 32 /\ well_wired (w_net w) n).
  { apply Hnodes. apply list_elem_of_lookup. eauto. }
  assert (Hholds : forall b x, holds w b x -> holds w' b x).
  { intros b x (m & Hb & Hm & Hfound). unfold holds.
    rewrite Hrange, (Hlook b Hb).
    destruct (decide (b = a)) as [->|_].
    - exists n'. rewrite Hn in Hm. injection Hm as <-. auto.
    - exists m. auto. }
  assert (Hhere : forall x, x ∈ processedShares n' -> holds w' a x).
  { intros x Hfound. exists n'. rewrite Hrange, (Hlook a Ha).
    rewrite decide_True by reflexivity. auto. }
  assert (Hlift : forall b x, covered w b x -> covered w' b x).
  { intros b x [Hb|(seg & Hin & Hdest & Hcar)]; [left; auto|].
    destruct (Hgone seg Hin) as [Hstay|[Hto Hfound]].
    - right. exists seg. unfold w', put_node. cbn [on_wire].
      rewrite elem_of_app. auto.
    - left. replace b with a by congruence. apply Hhere, Hfound, Hcar. }
  split; [|split].
  - intros a1 n1 b s x Ha1 Hn1 Hsock Hx.
    rewrite Hrange in Ha1. rewrite (Hlook a1 Ha1) in Hn1.
    destruct (decide (a1 = a)) as [->|Hne].
    + injection Hn1 as <-. pose proof (Hshrink b s Hsock) as Hold.
      destruct (Hnew x Hx) as [Hx0|[-> Hsent]].
      * apply Hlift. exact (Hcover a n b s x Ha Hn Hold Hx0).
      * destruct (Hsent b s Hsock) as (seg & Hin & Hdest & Hcar).
        { exact (proj1 (proj2 Hwired b s Hold)). }
        right. exists seg. unfold w', put_node. cbn [on_wire].
        rewrite elem_of_app. auto.
    + apply Hlift. exact (Hcover a1 n1 b s x Ha1 Hn1 Hsock Hx).
  - intros seg Hin. unfold w', put_node in Hin. cbn [on_wire] in Hin.
    apply elem_of_app in Hin as [Hin|Hin].
    + destruct (Hpkts seg (Hsub seg Hin)) as (d & Hd & Hr & Hs).
      exists d. rewrite Hrange. auto.
    + destruct (Hsegs seg Hin) as [[p Hp] Hs].
      destruct (proj2 Hwired p _ Hp) as (_ & Hr & Hp').
      exists p. rewrite Hrange. auto.
  - intros m Hm. unfold w', put_node in Hm. cbn [w_net p2pNodes] in Hm.
    apply list_elem_of_lookup in Hm as [i Hi].
    apply list_lookup_insert_Some in Hi as [(_ & <- & _)|[_ Hi]].
    + split; [rewrite Hid; apply Hwired|].
      intros b s Hbs. destruct (proj2 Hwired b s (Hshrink b s Hbs))
        as (Hb & Hr & Hin).
      rewrite Hpeers, Hrange. auto.
    + destruct (Hnodes m) as [Hidm Hwm].
      { apply list_elem_of_lookup. eauto. }
      split; [exact Hidm|]. intros b s Hbs.
      destruct (Hwm b s Hbs) as (Hb & Hr & Hin). rewrite Hrange. auto.
Qed.

(** A pass over all nodes that leaves identifiers, peers and processed
    shares alone and adds no socket. *)
Lemma tcp_flood_inv_map (f : P2PNode -> P2PNode) w :
  (forall n, id (f n) = id n /\ peers (f n) = peers n /\
             processedShares (f n) = processedShares n /\
             forall b s, peersockets (f n) !! b = Some s ->
                         peersockets n !! b = Some s) ->
  flood_inv w ->
  flood_inv (mkWorld (mkNet (f <$> p2pNodes (w_net w))
                            (connections (w_net w)))
                     (w_calls w) (on_wire w)).
Proof.
  intros Hf (Hcover & Hpkts & Hnodes).
  set (w' := mkWorld _ _ _).
  assert (Hrange : forall b, in_range (w_net w') b = in_range (w_net w) b).
  { intros b. unfold in_range, GetN, w'. cbn. rewrite length_fmap.
    reflexivity. }
  assert (Hlook : forall i, p2pNodes (w_net w') !! i
                            = f <$> p2pNodes (w_net w) !! i).
  { intros i. apply list_lookup_fmap. }
  assert (Hlift : forall b x, covered w b x -> covered w' b x).
  { intros b x [(m & Hb & Hm & Hx)|Hseg]; [left|right; exact Hseg].
    exists (f m). rewrite Hrange, Hlook, Hm.
    destruct (Hf m) as (_ & _ & -> & _). auto. }
  split; [|split].
  - intros a n1 b s x Ha Hn1 Hsock Hx. rewrite Hrange in Ha.
    rewrite Hlook in Hn1.
    destruct (p2pNodes (w_net w) !! Z.to_nat a) as [n0|] eqn:Hn0;
      [|discriminate].
    injection Hn1 as <-. destruct (Hf n0) as (_ & _ & Hp & Hs).
    rewrite Hp in Hx. apply Hlift.
    exact (Hcover a n0 b s x Ha Hn0 (Hs b s Hsock) Hx).
  - intros seg Hin. destruct (Hpkts seg Hin) as (d & Hd & Hr & HS).
    exists d. rewrite Hrange. auto.
  - intros m Hm. unfold w' in Hm. cbn [w_net p2pNodes] in Hm.
    apply list_elem_of_fmap in Hm as (n0 & -> & Hn0).
    destruct (Hnodes n0 Hn0) as [Hid Hw].
    destruct (Hf n0) as (Hi & Hp & _ & Hs).
    split; [rewrite Hi; exact Hid|].
    intros b s Hbs. destruct (Hw b s (Hs b s Hbs)) as (Hb & Hr & Hin).
    rewrite Hp, Hrange. auto.
Qed.

Lemma tcp_net_step_flood uninit ev w w' :
  Flood.prints_fit ->
  net_step Send uninit ev w = Ok (Some w') -> flood_inv w -> flood_inv w'.
Proof.
  intros Hshort Hstep Hinv.
  destruct ev as [| |a now|i]; cbn [net_step] in Hstep.
  - injection Hstep as <-. apply (tcp_flood_inv_map _ w); [|exact Hinv].
    intros n. cbn. auto.
  - injection Hstep as <-. apply (tcp_flood_inv_map _ w); [|exact Hinv].
    intros n. cbn. split; [reflexivity|]. split; [reflexivity|].
    split; [reflexivity|]. intros b s Hbs.
    rewrite lookup_empty in Hbs. discriminate.
  - destruct (in_range (w_net w) a) eqn:Ha; [|discriminate].
    destruct (p2pNodes (w_net w) !! Z.to_nat a) as [n|] eqn:Hn;
      [|discriminate].
    destruct (GenerateAndGossipShare Send now n (w_calls w))
      as [[n' k'] acts] eqn:Hgen.
    injection Hstep as <-.
    assert (Hwired : 0 <= id n < 2 ^ 32 /\ well_wired (w_net w) n).
    { apply Hinv. apply list_elem_of_lookup. eauto. }
    apply tcp_generate_net in Hgen
      as [[-> Hnone]|(n2 & acts2 & Hid2 & Hp2 & Hs2 & Hset & Hflood & Hsegs)].
    + rewrite Hnone.
      apply (tcp_flood_inv_step w a n n _ (on_wire w) [] 0 Hinv Ha Hn);
        auto.
      intros seg Hin. inversion Hin.
    + rewrite Hsegs. set (share := new_share now n) in *.
      assert (Hfits : fits share).
      { split; cbn; [apply Hwired|apply u32_range]. }
      apply tcp_flood_net in Hflood as (Hid & Hp & Hproc & Hsock & Hsent).
      apply (tcp_flood_inv_step w a n n' _ (on_wire w) (segments acts2)
               (shareId share) Hinv Ha Hn); auto.
      * congruence.
      * congruence.
      * intros b s Hbs. rewrite <- Hs2. apply Hsock, Hbs.
      * intros x Hx. rewrite Hproc, Hset. apply elem_of_union_r, Hx.
      * intros x. rewrite Hproc, Hset.
        intros [Hx|Hx]%elem_of_union; [|auto].
        apply elem_of_singleton in Hx. right. split; [exact Hx|].
        intros b s Hbs Hb. eexists. split.
        -- apply (Hsock b s Hbs). rewrite Hp2. exact Hb.
        -- cbn [seg_socket seg_text]. split.
           ++ apply (proj2 Hwired b s). rewrite <- Hs2. apply Hsock, Hbs.
           ++ exists share. auto.
      * intros seg Hin. destruct (Hsent seg Hin) as [Ht [p Hp']].
        split; [exists p; rewrite <- Hs2; exact Hp'|].
        exists share. auto.
  - destruct (on_wire w !! i) as [seg|] eqn:Hi;
      [|injection Hstep as <-; exact Hinv].
    destruct (remote (seg_socket seg)) as [d|] eqn:Hd; [|discriminate].
    destruct (in_range (w_net w) d) eqn:Ha; [|discriminate].
    destruct (p2pNodes (w_net w) !! Z.to_nat d) as [n|] eqn:Hn;
      [|discriminate].
    destruct (ReceiveShare Send uninit (seg_text seg)
                (far_end (seg_socket seg)) n (w_calls w))
      as [[[n' k'] acts]|e] eqn:Hrcv; cbn [bind] in Hstep; [|discriminate].
    injection Hstep as <-.
    assert (Hwired : 0 <= id n < 2 ^ 32 /\ well_wired (w_net w) n).
    { apply Hinv. apply list_elem_of_lookup. eauto. }
    assert (Hseg : seg ∈ on_wire w) by (apply list_elem_of_lookup; eauto).
    destruct (proj1 (proj2 Hinv) seg Hseg) as (_ & _ & _ & S' & Htext & Hf').
    rewrite Htext in Hrcv.
    apply tcp_receive_net in Hrcv as (share & Hshare & Hcases);
      [|exact Hshort|exact Hf'].
    assert (Hgone : forall y, shareId S' ∈ processedShares y ->
              forall x, x ∈ on_wire w ->
                x ∈ delete i (on_wire w) \/
                (remote (seg_socket x) = Some d /\
                 forall c, carries x c -> c ∈ processedShares y)).
    { intros y Hfound x Hx.
      destruct (elem_of_delete_or _ i x seg Hi Hx) as [Hdel|Heq]; [auto|].
      subst x. right. split; [exact Hd|]. intros c (S2 & Ht2 & Hf2 & Hi2).
      rewrite Htext in Ht2.
      destruct (FromString_shareId uninit S' share Hshort Hf' Hshare)
        as [Hs1 _].
      rewrite Ht2 in Hshare.
      destruct (FromString_shareId uninit S2 share Hshort Hf2 Hshare)
        as [Hs2 _].
      replace c with (shareId S') by congruence. exact Hfound. }
    destruct Hcases
      as [(Hold & Hid & Hp & Hs & Hproc & ->)
         |(n2 & Hfits & Hsid & Hid2 & Hp2 & Hs2 & Hset & Hflood)].
    + cbn [segments omap].
      apply (tcp_flood_inv_step w d n n' _ (delete i (on_wire w)) []
               0 Hinv Ha Hn); auto.
      * intros b s. rewrite Hs. auto.
      * intros x. rewrite Hproc. auto.
      * intros x. rewrite Hproc. auto.
      * apply Hgone. rewrite Hproc. exact Hold.
      * intros x. apply elem_of_delete_sub.
      * intros x Hx. inversion Hx.
    + apply tcp_flood_net in Hflood as (Hid & Hp & Hproc & Hsock & Hsent).
      apply (tcp_flood_inv_step w d n n' _ (delete i (on_wire w))
               (segments acts) (shareId S') Hinv Ha Hn); auto.
      * congruence.
      * congruence.
      * intros b s Hbs. rewrite <- Hs2. apply Hsock, Hbs.
      * intros x Hx. rewrite Hproc, Hset. apply elem_of_union_r, Hx.
      * intros x. rewrite Hproc, Hset.
        intros [Hx|Hx]%elem_of_union; [|auto].
        apply elem_of_singleton in Hx. right. split; [exact Hx|].
        intros b s Hbs Hb. eexists. split.
        -- apply (Hsock b s Hbs). rewrite Hp2. exact Hb.
        -- cbn [seg_socket seg_text]. split.
           ++ apply (proj2 Hwired b s). rewrite <- Hs2. apply Hsock, Hbs.
           ++ exists share. auto.
      * apply Hgone. rewrite Hproc, Hset.
        apply elem_of_union_l, elem_of_singleton. reflexivity.
      * intros x. apply elem_of_delete_sub.
      * intros x Hin. destruct (Hsent x Hin) as [Ht [p Hp']].
        split; [exists p; rewrite <- Hs2; exact Hp'|].
        exists share. auto.
Qed.

Lemma tcp_net_run_flood uninit evs : forall w w',
  Flood.prints_fit ->
  net_run Send uninit evs w = Ok (Some w') -> flood_inv w -> flood_inv w'.
Proof.
  induction evs as [|ev evs IH]; intros w w' Hshort Hrun Hinv;
    cbn [net_run] in Hrun.
  - injection Hrun as <-. exact Hinv.
  - destruct (net_step Send uninit ev w) as [[w1|]|e] eqn:Hstep;
      cbn [bind] in Hrun; try discriminate.
    apply (IH w1 w' Hshort Hrun).
    exact (tcp_net_step_flood uninit ev w w1 Hshort Hstep Hinv).
Qed.

Lemma fresh_flood_inv w : fresh w -> flood_inv w.
Proof.
  intros [Hwire Hnodes]. rewrite Forall_forall in Hnodes.
  split; [|split].
  - intros a n b s x _ Hn _ Hx.
    destruct (Hnodes n) as (Hempty & _).
    { apply list_elem_of_lookup. eauto. }
    rewrite Hempty in Hx. apply elem_of_empty in Hx. destruct Hx.
  - intros seg Hin. rewrite Hwire in Hin. inversion Hin.
  - intros n Hn. destruct (Hnodes n Hn) as (_ & Hid & Hw). auto.
Qed.

End TcpFloodInvariant.

(** ** From the wiring to the flood *)

Section TcpWired.
Import Tcp Graph TcpNet TcpFlood.

(** What [fresh] asks of one node. *)
Lemma well_wired_size net net' n :
  GetN net' = GetN net -> well_wired net n -> well_wired net' n.
Proof.
  intros Hsize Hw b s Hbs. destruct (Hw b s Hbs) as (Hb & Hr & Hin).
  unfold in_range in *. rewrite Hsize. auto.
Qed.

Lemma tidy_size net net' (nodes : list P2PNode) :
  GetN net' = GetN net ->
  Forall (fun n => processedShares n = ∅ /\ 0 <= id n < 2 ^ 32 /\
                   well_wired net n) nodes ->
  Forall (fun n => processedShares n = ∅ /\ 0 <= id n < 2 ^ 32 /\
                   well_wired net' n) nodes.
Proof.
  intros Hsize Hall. eapply Forall_impl; [exact Hall|].
  intros n (Hp & Hid & Hw).
  split; [exact Hp|]. split; [exact Hid|].
  exact (well_wired_size net net' n Hsize Hw).
Qed.

Lemma tcp_new_Network_tidy n net :
  0 <= n <= 2 ^ 32 ->
  Forall (fun m => processedShares m = ∅ /\ 0 <= id m < 2 ^ 32 /\
                   well_wired net m)
         (SetupServerSocket <$> p2pNodes (new_Network n)).
Proof.
  intros Hn. apply Forall_forall. intros m Hm.
  apply list_elem_of_fmap in Hm as (m0 & -> & Hm0).
  unfold new_Network in Hm0. cbn [p2pNodes] in Hm0.
  apply list_elem_of_fmap in Hm0 as (i & -> & Hi).
  apply elem_of_seqZ in Hi. cbn. split; [reflexivity|]. split; [lia|].
  apply map_Forall_empty.
Qed.

Lemma tcp_connect_all_tidy keys : forall net net2 msgs,
  connect_all keys net = Some (net2, msgs) ->
  Forall (fun key => 0 <= key.2 < GetN net) keys ->
  Forall (fun n => processedShares n = ∅ /\ 0 <= id n < 2 ^ 32 /\
                   well_wired net n) (p2pNodes net) ->
  GetN net2 = GetN net /\
  Forall (fun n => processedShares n = ∅ /\ 0 <= id n < 2 ^ 32 /\
                   well_wired net2 n) (p2pNodes net2).
Proof.
  induction keys as [|[i j] keys IH]; intros net net2 msgs Hall Hkeys Htidy;
    cbn [connect_all] in Hall.
  - injection Hall as <- <-. auto.
  - apply Forall_cons in Hkeys as [Hj Hkeys]. cbn [snd] in Hj.
    unfold ConnectPeerSockets in Hall.
    destruct (in_range net i) eqn:Hi; [|discriminate].
    cbn [mbind option_bind] in Hall.
    set (net1 := mkNet _ _) in Hall.
    destruct (connect_all keys net1) as [[net2' ms]|] eqn:Hrest;
      cbn in Hall; [|discriminate].
    injection Hall as <- <-.
    assert (Hsize1 : GetN net1 = GetN net).
    { unfold GetN, net1. cbn. rewrite length_alter. reflexivity. }
    destruct (IH net1 net2' ms Hrest) as [Hsize Hdone].
    + rewrite Hsize1. exact Hkeys.
    + apply (tidy_size net net1 _ Hsize1). unfold net1. cbn [p2pNodes].
      apply Forall_alter; [exact Htidy|].
      intros n _ (Hp & Hid & Hw).
      split; [unfold AddPeer; destruct (bool_decide _); exact Hp|].
      split; [unfold AddPeer; destruct (bool_decide _); exact Hid|].
      intros b s. rewrite tcp_AddPeer_sockets.
      cbn [AddPeerSocket set_peersockets peersockets].
      intros Hbs. apply lookup_insert_Some in Hbs as [[<- <-]|[_ Hbs]].
      * split; [apply tcp_AddPeer_elem; left; reflexivity|].
        split; [reflexivity|].
        unfold in_range. destruct (Z.leb_spec 0 j); [|lia].
        destruct (Z.ltb_spec j (GetN net)); [reflexivity|lia].
      * destruct (Hw b s Hbs) as (Hb & Hr & Hin).
        split; [apply tcp_AddPeer_elem; right; exact Hb|]. auto.
    + split; [congruence|exact Hdone].
Qed.

Section Registered.
Context `{Platform}.
Variable Send : nat -> Socket -> string -> Z.
Variable uninit : Share.

Lemma tcp_deliver_all_tidy keys : forall net k net3 k' acts,
  Forall (fun key => 0 <= key.1 < GetN net /\ GetN net <= 2 ^ 32) keys ->
  deliver_all Send uninit (reg_packet <$> keys) (net, k)
  = Ok (net3, k', acts) ->
  Forall (fun n => processedShares n = ∅ /\ 0 <= id n < 2 ^ 32 /\
                   well_wired net n) (p2pNodes net) ->
  Forall (fun n => processedShares n = ∅ /\ 0 <= id n < 2 ^ 32 /\
                   well_wired net3 n) (p2pNodes net3).
Proof.
  induction keys as [|[i j] keys IH]; intros net k net3 k' acts Hkeys Hall
    Htidy; cbn [fmap list_fmap deliver_all] in Hall.
  - injection Hall as <- <- <-. exact Htidy.
  - apply Forall_cons in Hkeys as [[Hi Hn] Hkeys]. cbn [fst] in Hi.
    change (reg_packet (i, j))
      with (mkMsg i j ("REGISTER:" ++ to_string i)) in Hall.
    unfold deliver in Hall. cbn [msg_to msg_from msg_text] in Hall.
    destruct (p2pNodes net !! Z.to_nat j) as [n|] eqn:Hnj.
    + rewrite ReceiveShare_register in Hall by lia. cbn [bind] in Hall.
      set (n' := set_peers _ _) in Hall. set (net1 := mkNet _ _) in Hall.
      assert (Hsize1 : GetN net1 = GetN net).
      { unfold GetN, net1. cbn. rewrite length_insert. reflexivity. }
      destruct (deliver_all Send uninit (reg_packet <$> keys) (net1, k))
        as [[[net3' k3] acts3]|e] eqn:Hrest; cbn [bind] in Hall;
        [|discriminate].
      injection Hall as <- <- <-.
      apply (IH net1 k net3' k3 acts3); [|exact Hrest|].
      * rewrite Hsize1. exact Hkeys.
      * apply (tidy_size net net1 _ Hsize1). unfold net1. cbn [p2pNodes].
        rewrite Forall_forall in Htidy.
        destruct (Htidy n) as (Hp & Hid & Hw).
        { apply list_elem_of_lookup. eauto. }
        apply Forall_insert; [apply Forall_forall; exact Htidy|].
        split; [exact Hp|]. split; [exact Hid|].
        intros b s. unfold n'.
        cbn [set_peers set_peersockets peersockets peers].
        intros Hbs. apply lookup_insert_Some in Hbs as [[<- <-]|[_ Hbs]].
        -- split; [apply elem_of_app; right; now left|].
           split; [reflexivity|]. unfold in_range.
           destruct (Z.leb_spec 0 i); [|lia].
           destruct (Z.ltb_spec i (GetN net)); [reflexivity|lia].
        -- destruct (Hw b s Hbs) as (Hb & Hr & Hin).
           split; [apply elem_of_app; now left|]. auto.
    + cbn [bind] in Hall.
      destruct (deliver_all Send uninit (reg_packet <$> keys) (net, k))
        as [[[net3' k3] acts3]|e] eqn:Hrest; cbn [bind] in Hall;
        [|discriminate].
      injection Hall as <- <- <-.
      exact (IH net k net3' k3 acts3 Hkeys Hrest Htidy).
Qed.

Variable U : nat -> double.
Variable p lat : double.

Lemma tcp_wired_fresh n net1 net2 msgs k net3 k' acts :
  2 <= n <= 2 ^ 32 ->
  CreateRandomTopology U p lat (new_Network n) = Some net1 ->
  makeconnections net1 = Some (net2, msgs) ->
  deliver_all Send uninit msgs (net2, k) = Ok (net3, k', acts) ->
  fresh (mkWorld net3 k' []).
Proof.
  intros Hn Htop Hmake Hdel.
  destruct (tcp_topology_spec U p lat n Hn)
    as (net1' & Htop' & Hsize & Hkeys & _).
  rewrite Htop in Htop'. injection Htop' as <-.
  assert (Hnodes : p2pNodes net1
                   = SetupServerSocket <$> p2pNodes (new_Network n)).
  { unfold CreateRandomTopology in Htop.
    destruct (connect_rows U p lat _ _ _) as [[net' k0]|] eqn:Hrows;
      cbn in Htop; [|discriminate].
    injection Htop as <-. cbn [p2pNodes].
    destruct (tcp_connect_rows_distinct _ _ _ _ _ _ _ _ _ Hrows) as [-> _].
    reflexivity. }
  unfold makeconnections in Hmake.
  destruct (tcp_connect_all_exact _ _ _ _ Hmake) as (_ & _ & -> & _).
  destruct (tcp_connect_all_tidy _ _ _ _ Hmake) as [Hsize2 Htidy2].
  { apply Forall_forall. intros [a b] Hab.
    apply elem_of_connection_keys in Hab. apply Hkeys in Hab. tauto. }
  { rewrite Hnodes. apply tcp_new_Network_tidy. lia. }
  split; [reflexivity|]. cbn [w_net].
  apply (tcp_deliver_all_tidy _ _ _ _ _ _ ) with (3 := Htidy2) (2 := Hdel).
  apply Forall_forall. intros [a b] Hab.
  apply elem_of_connection_keys in Hab. apply Hkeys in Hab. cbn. lia.
Qed.

End Registered.

End TcpWired.

Section Drained.
Context `{Platform}.
Variable Send : nat -> Tcp.Socket -> string -> Z.
Variable uninit : Share.
Import Tcp TcpNet Quiet.

Lemma segments_no_send acts : filter is_send acts = [] -> segments acts = [].
Proof.
  induction acts as [|a acts IH]; [reflexivity|].
  destruct a as [p s m b|s|].
  - rewrite filter_cons_True by exact I. discriminate.
  - rewrite filter_cons_False by (cbn; auto). exact IH.
  - rewrite filter_cons_False by (cbn; auto). exact IH.
Qed.

Lemma tcp_net_step_drained ev w w' :
  net_step Send uninit ev w = Ok (Some w') ->
  Forall (fun n => peersockets n = ∅) (p2pNodes (w_net w)) ->
  Forall (fun seg => find (seg_text seg) "REGISTER:" 0 <> 0) (on_wire w) ->
  Forall (fun n => peersockets n = ∅) (p2pNodes (w_net w')) /\
  w_calls w' = w_calls w /\ on_wire w' `sublist_of` on_wire w.
Proof.
  intros Hstep Hnone Hwire.
  destruct ev as [| |a now|i]; cbn [net_step] in Hstep.
  - injection Hstep as <-. cbn. split; [|auto].
    apply Forall_fmap. eapply Forall_impl; [exact Hnone|]. auto.
  - injection Hstep as <-. cbn. split; [|auto].
    apply Forall_fmap. eapply Forall_impl; [exact Hnone|]. auto.
  - destruct (in_range (w_net w) a); [|discriminate].
    destruct (p2pNodes (w_net w) !! Z.to_nat a) as [n|] eqn:Hn;
      [|discriminate].
    destruct (GenerateAndGossipShare Send now n (w_calls w))
      as [[n' k'] acts] eqn:Hgen.
    injection Hstep as <-.
    destruct (tcp_step_no_socket Send uninit (EvGenerate now) n (w_calls w)
                n' k' acts) as (Hs & _ & Hk & _ & Hacts).
    { cbn [step]. rewrite Hgen. reflexivity. }
    { exact I. }
    { rewrite Forall_forall in Hnone. apply Hnone.
      apply list_elem_of_lookup. eauto. }
    cbn. rewrite (segments_no_send acts Hacts), app_nil_r.
    split; [apply Forall_insert; assumption|]. auto.
  - destruct (on_wire w !! i) as [seg|] eqn:Hi;
      [|injection Hstep as <-; auto].
    destruct (remote (seg_socket seg)) as [d|]; [|discriminate].
    destruct (in_range (w_net w) d); [|discriminate].
    destruct (p2pNodes (w_net w) !! Z.to_nat d) as [n|] eqn:Hn;
      [|discriminate].
    destruct (ReceiveShare Send uninit (seg_text seg)
                (far_end (seg_socket seg)) n (w_calls w))
      as [[[n' k'] acts]|e] eqn:Hrcv; cbn [bind] in Hstep; [|discriminate].
    injection Hstep as <-.
    destruct (tcp_step_no_socket Send uninit
                (EvReceive (seg_text seg) (far_end (seg_socket seg)))
                n (w_calls w) n' k' acts) as (Hs & _ & Hk & _ & Hacts).
    { exact Hrcv. }
    { cbn. rewrite Forall_forall in Hwire. apply Hwire.
      apply list_elem_of_lookup. eauto. }
    { rewrite Forall_forall in Hnone. apply Hnone.
      apply list_elem_of_lookup. eauto. }
    cbn. rewrite (segments_no_send acts Hacts), app_nil_r.
    split; [apply Forall_insert; assumption|].
    split; [exact Hk|]. apply sublist_delete.
Qed.

Lemma tcp_net_run_drained evs : forall w w',
  net_run Send uninit evs w = Ok (Some w') ->
  Forall (fun n => peersockets n = ∅) (p2pNodes (w_net w)) ->
  Forall (fun seg => find (seg_text seg) "REGISTER:" 0 <> 0) (on_wire w) ->
  Forall (fun n => peersockets n = ∅) (p2pNodes (w_net w')) /\
  w_calls w' = w_calls w /\ on_wire w' `sublist_of` on_wire w.
Proof.
  induction evs as [|ev evs IH]; intros w w' Hrun Hnone Hwire;
    cbn [net_run] in Hrun.
  - injection Hrun as <-. auto.
  - destruct (net_step Send uninit ev w) as [[w1|]|e] eqn:Hstep;
      cbn [bind] in Hrun; try discriminate.
    destruct (tcp_net_step_drained ev w w1 Hstep Hnone Hwire)
      as (Hnone1 & Hk1 & Hsub1).
    destruct (IH w1 w' Hrun Hnone1) as (Hnone2 & Hk2 & Hsub2).
    { apply Forall_forall. intros seg Hseg.
      rewrite Forall_forall in Hwire.
      exact (Hwire seg (elem_of_sublist _ _ _ Hseg Hsub1)). }
    split; [exact Hnone2|]. split; [congruence|].
    etrans; eassumption.
Qed.

End Drained.

Section TcpTotalsFacts.
Context `{Platform}.
Variable Send : nat -> Tcp.Socket -> string -> Z.
Variable uninit : Share.
Import Tcp Trace TcpNet Wire TcpFlood TcpTotals.

Lemma length_segments acts :
  length (segments acts) = length (filter succeeded acts).
Proof.
  induction acts as [|a acts IH]; [reflexivity|].
  destruct a as [p s m b|s|].
  - change (segments (ASend p s m b :: acts))
      with (match (if 0 <? b then Some (mkSegment s m) else None) with
            | Some x => x :: segments acts
            | None => segments acts
            end).
    destruct (0 <? b) eqn:Hb.
    + rewrite filter_cons_True by (cbn; rewrite Hb; exact I).
      cbn [length]. rewrite IH. reflexivity.
    + rewrite filter_cons_False by (cbn; rewrite Hb; auto). exact IH.
  - rewrite filter_cons_False by (cbn; auto). exact IH.
  - rewrite filter_cons_False by (cbn; auto). exact IH.
Qed.

Lemma tcp_flood_counts share n k n' k' acts :
  GossipShareToPeers Send share n k = (n', k', acts) ->
  sharesReceived n' = sharesReceived n /\
  u32 (sharesSent n')
  = u32 (sharesSent n + Z.of_nat (length (segments acts))).
Proof.
  unfold GossipShareToPeers. intros Hrun.
  destruct (gossip_loop Send (ToString share) (peers n) (peersockets n)
              (sharesSent n) k) as [[[socks sent] k1] acts1] eqn:Hloop.
  injection Hrun as <- <- <-.
  apply gossip_loop_post in Hloop as (Hsent & _).
  cbn. split; [reflexivity|]. rewrite length_segments. exact Hsent.
Qed.

Lemma tcp_generate_counts now n k n' k' acts :
  GenerateAndGossipShare Send now n k = (n', k', acts) ->
  sharesReceived n' = sharesReceived n /\
  u32 (sharesSent n')
  = u32 (sharesSent n + Z.of_nat (length (segments acts))).
Proof.
  unfold GenerateAndGossipShare. intros Hgen.
  destruct (peers n) as [|q qs].
  { injection Hgen as <- <- <-. cbn. rewrite Z.add_0_r. auto. }
  destruct (isrunning n); cbn [negb] in Hgen.
  2:{ injection Hgen as <- <- <-. cbn. rewrite Z.add_0_r. auto. }
  match type of Hgen with
  | context [GossipShareToPeers Send ?s ?m k] =>
      destruct (GossipShareToPeers Send s m k) as [[n3 k3] acts3] eqn:Hflood
  end.
  injection Hgen as <- <- <-.
  apply tcp_flood_counts in Hflood as [Hr Hs].
  rewrite segments_app. cbn [segments omap list_omap]. rewrite app_nil_r.
  auto.
Qed.

Lemma tcp_receive_counts S' sock n k n' k' acts :
  ReceiveShare Send uninit (ToString S') sock n k = Ok (n', k', acts) ->
  sharesReceived n' = u32 (sharesReceived n + 1) /\
  u32 (sharesSent n')
  = u32 (sharesSent n + Z.of_nat (length (segments acts))).
Proof.
  intros Hrcv. unfold ReceiveShare in Hrcv.
  destruct (Z.eqb_spec (find (ToString S') "REGISTER:" 0) 0) as [Hreg|_];
    [destruct (ToString_not_register S' Hreg)|].
  unfold process_share in Hrcv.
  destruct (FromString uninit (ToString S')) as [share|e];
    cbn [bind] in Hrcv; [|discriminate].
  destruct (bool_decide _) in Hrcv.
  { injection Hrcv as <- <- <-. cbn. rewrite Z.add_0_r. auto. }
  injection Hrcv as Hrcv. apply tcp_flood_counts in Hrcv as [Hr Hs].
  auto.
Qed.

Lemma sum_over_insert f nodes : forall i n n',
  nodes !! i = Some n ->
  sum_over f (<[ i := n' ]> nodes) = sum_over f nodes - f n + f n'.
Proof.
  unfold sum_over.
  induction nodes as [|x nodes IH]; intros [|i] n n' Hn.
  - discriminate.
  - discriminate.
  - injection Hn as ->. cbn. lia.
  - change (<[ S i := n' ]> (x :: nodes)) with (x :: <[ i := n' ]> nodes).
    cbn [foldr]. rewrite (IH i n n' Hn). lia.
Qed.

Lemma sum_over_fmap f (g : P2PNode -> P2PNode) nodes :
  (forall n, f (g n) = f n) ->
  sum_over f (g <$> nodes) = sum_over f nodes.
Proof.
  intros Hfg. unfold sum_over.
  induction nodes as [|x nodes IH]; [reflexivity|].
  cbn [fmap list_fmap foldr]. rewrite Hfg. f_equal. exact IH.
Qed.

(** The totals are the sums, wrapped once. *)
Lemma PrintStatistics_sums nodes : forall t,
  0 <= totalSharesSent t < 2 ^ 32 ->
  0 <= totalSharesReceived t < 2 ^ 32 ->
  totalSharesSent (fold_left add_node nodes t)
  = u32 (totalSharesSent t + sum_over sharesSent nodes) /\
  totalSharesReceived (fold_left add_node nodes t)
  = u32 (totalSharesReceived t + sum_over sharesReceived nodes).
Proof.
  induction nodes as [|x nodes IH]; intros t Hs Hr.
  - cbn. rewrite !Z.add_0_r, !u32_small by assumption. auto.
  - cbn [fold_left]. destruct (IH (add_node t x)) as [Hs' Hr'].
    { cbn. apply u32_range. }
    { cbn. apply u32_range. }
    rewrite Hs', Hr'. cbn [add_node totalSharesSent totalSharesReceived].
    rewrite !u32_add_l. unfold sum_over. cbn [foldr].
    split; f_equal; lia.
Qed.

Lemma tcp_net_step_counts ev w w' :
  flood_inv w ->
  net_step Send uninit ev w = Ok (Some w') ->
  u32 (sum_over sharesSent (p2pNodes (w_net w)))
  = u32 (sum_over sharesReceived (p2pNodes (w_net w)) +
         Z.of_nat (length (on_wire w))) ->
  u32 (sum_over sharesSent (p2pNodes (w_net w')))
  = u32 (sum_over sharesReceived (p2pNodes (w_net w')) +
         Z.of_nat (length (on_wire w'))).
Proof.
  intros Hinv Hstep Hcount.
  destruct ev as [| |a now|i]; cbn [net_step] in Hstep.
  - injection Hstep as <-. cbn [w_net on_wire StartAll p2pNodes].
    rewrite !sum_over_fmap by reflexivity. exact Hcount.
  - injection Hstep as <-. cbn [w_net on_wire StopAllNodes p2pNodes fst].
    rewrite !sum_over_fmap by reflexivity. exact Hcount.
  - destruct (in_range (w_net w) a); [|discriminate].
    destruct (p2pNodes (w_net w) !! Z.to_nat a) as [n|] eqn:Hn;
      [|discriminate].
    destruct (GenerateAndGossipShare Send now n (w_calls w))
      as [[n' k'] acts] eqn:Hgen.
    injection Hstep as <-.
    apply tcp_generate_counts in Hgen as [Hr Hs].
    unfold put_node. cbn [w_net on_wire p2pNodes].
    rewrite !(sum_over_insert _ _ _ n n' Hn), Hr, length_app.
    apply u32_eq_iff in Hs as [q1 Hs]. apply u32_eq_iff in Hcount as [q2 Hc].
    apply u32_eq_iff. exists (q1 + q2). lia.
  - destruct (on_wire w !! i) as [seg|] eqn:Hi;
      [|injection Hstep as <-; exact Hcount].
    destruct (remote (seg_socket seg)) as [d|]; [|discriminate].
    destruct (in_range (w_net w) d); [|discriminate].
    destruct (p2pNodes (w_net w) !! Z.to_nat d) as [n|] eqn:Hn;
      [|discriminate].
    destruct (ReceiveShare Send uninit (seg_text seg)
                (far_end (seg_socket seg)) n (w_calls w))
      as [[[n' k'] acts]|e] eqn:Hrcv; cbn [bind] in Hstep; [|discriminate].
    injection Hstep as <-.
    assert (Hseg : seg ∈ on_wire w) by (apply list_elem_of_lookup; eauto).
    destruct (proj1 (proj2 Hinv) seg Hseg) as (_ & _ & _ & S' & Htext & _).
    rewrite Htext in Hrcv. apply tcp_receive_counts in Hrcv as [Hr Hs].
    unfold put_node. cbn [w_net on_wire p2pNodes].
    rewrite !(sum_over_insert _ _ _ n n' Hn), length_app.
    rewrite length_delete by eauto.
    pose proof (lookup_lt_Some _ _ _ Hi) as Hlen.
    assert (Hr' : u32 (sharesReceived n') = u32 (sharesReceived n + 1)).
    { rewrite Hr. apply u32_idem. }
    apply u32_eq_iff in Hs as [q1 Hs]. apply u32_eq_iff in Hr' as [q3 Hr'].
    apply u32_eq_iff in Hcount as [q2 Hc].
    apply u32_eq_iff. exists (q1 + q2 - q3). lia.
Qed.

Lemma tcp_net_run_counts evs : forall w w',
  Flood.prints_fit -> flood_inv w ->
  net_run Send uninit evs w = Ok (Some w') ->
  u32 (sum_over sharesSent (p2pNodes (w_net w)))
  = u32 (sum_over sharesReceived (p2pNodes (w_net w)) +
         Z.of_nat (length (on_wire w))) ->
  u32 (sum_over sharesSent (p2pNodes (w_net w')))
  = u32 (sum_over sharesReceived (p2pNodes (w_net w')) +
         Z.of_nat (length (on_wire w'))).
Proof.
  induction evs as [|ev evs IH]; intros w w' Hshort Hinv Hrun Hcount;
    cbn [net_run] in Hrun.
  - injection Hrun as <-. exact Hcount.
  - destruct (net_step Send uninit ev w) as [[w1|]|e] eqn:Hstep;
      cbn [bind] in Hrun; try discriminate.
    apply (IH w1 w' Hshort); [|exact Hrun|].
    + exact (tcp_net_step_flood Send uninit ev w w1 Hshort Hstep Hinv).
    + exact (tcp_net_step_counts ev w w1 Hinv Hstep Hcount).
Qed.

Lemma sum_over_zero f nodes :
  Forall (fun n => f n = 0) nodes -> sum_over f nodes = 0.
Proof.
  unfold sum_over. induction 1 as [|x nodes Hx _ IH]; [reflexivity|].
  cbn [foldr]. lia.
Qed.

End TcpTotalsFacts.

Section TcpNetClaims.
Context `{Platform}.
Variable Send : nat -> Tcp.Socket -> string -> Z.
Variable uninit : Share.
Import Tcp Graph TcpNet TcpFlood TcpTotals.

(** X15.  The sockets the wiring leaves are filed under the node at their
    far end.  After [CreateRandomTopology], [makeconnections] and the
    delivery of the registration packets, every socket in the socket map
    of a node is connected to the peer it is filed under, and that peer is
    a node of the network and is in the peer list. *)
Theorem wired_sockets_lead_to_the_peer_they_are_filed_under
    U p lat n net1 net2 msgs k net3 k' acts :
  2 <= n <= 2 ^ 32 ->
  CreateRandomTopology U p lat (new_Network n) = Some net1 ->
  makeconnections net1 = Some (net2, msgs) ->
  deliver_all Send uninit msgs (net2, k) = Ok (net3, k', acts) ->
  Forall (fun m =>
            forall b s, peersockets m !! b = Some s ->
              b ∈ peers m /\ remote s = Some b /\ in_range net3 b = true)
         (p2pNodes net3).
Proof.
  intros Hn Htop Hmake Hdel.
  pose proof (proj2 (tcp_wired_fresh Send uninit U p lat n net1 net2 msgs k
                       net3 k' acts Hn Htop Hmake Hdel)) as Hall.
  eapply Forall_impl; [exact Hall|].
  intros m (_ & _ & Hw). exact Hw.
Qed.

(** X16.  Flooding over the sockets reaches every connected peer.  Start
    from a network whose sockets are filed under the node at their far
    end, with nothing processed and nothing on its way; let the nodes be
    started and stopped, shares be generated and packets be delivered, in
    any order, with any sends failing.  Whenever no packet is left on its
    way, every share id a node has processed has been processed by each
    peer it still has a socket to.  (Printed time stamps are short.) *)
Theorem tcp_flood_reaches_every_connected_peer_at_rest evs w w' :
  Flood.prints_fit -> fresh w ->
  net_run Send uninit evs w = Ok (Some w') ->
  on_wire w' = [] ->
  forall a n b s x,
    0 <= a -> p2pNodes (w_net w') !! Z.to_nat a = Some n ->
    peersockets n !! b = Some s -> x ∈ processedShares n ->
    exists m, 0 <= b /\ p2pNodes (w_net w') !! Z.to_nat b = Some m /\
              x ∈ processedShares m.
Proof.
  intros Hshort Hfresh Hrun Hrest a n b s x Ha Hn Hs Hx.
  destruct (tcp_net_run_flood Send uninit evs w w' Hshort Hrun
              (fresh_flood_inv w Hfresh)) as (Hcover & _).
  assert (Hin : in_range (w_net w') a = true).
  { apply lookup_lt_Some in Hn. unfold in_range, GetN.
    destruct (Z.leb_spec 0 a); [|lia].
    destruct (Z.ltb_spec a (Z.of_nat (length (p2pNodes (w_net w')))));
      [reflexivity|lia]. }
  destruct (Hcover a n b s x Hin Hn Hs Hx)
    as [(m & Hb & Hm & Hxm)|(seg & Hseg & _)].
  - exists m. split; [|auto]. unfold in_range in Hb.
    apply andb_true_iff in Hb as [Hb _]. apply Z.leb_le. exact Hb.
  - rewrite Hrest in Hseg. inversion Hseg.
Qed.

(** X17.  After [StopAllNodes] nothing is sent.  If no registration
    packet is on its way when the nodes are stopped, then whatever is
    still delivered, generated or started afterwards, the transport is not
    called again, no packet is added to the ones on their way, and no node
    has a socket. *)
Theorem nothing_is_sent_after_StopAllNodes evs w w' :
  Forall (fun seg => find (seg_text seg) "REGISTER:" 0 <> 0) (on_wire w) ->
  net_run Send uninit (NStopAllNodes :: evs) w = Ok (Some w') ->
  w_calls w' = w_calls w /\ on_wire w' `sublist_of` on_wire w /\
  Forall (fun n => peersockets n = ∅) (p2pNodes (w_net w')).
Proof.
  intros Hwire Hrun. cbn [net_run net_step bind] in Hrun.
  destruct (tcp_net_run_drained Send uninit evs _ w' Hrun)
    as (Hnone & Hk & Hsub).
  - cbn. apply Forall_fmap, Forall_true. reflexivity.
  - exact Hwire.
  - auto.
Qed.

(** X18.  The totals of [PrintStatistics] balance.  From a freshly wired
    network whose counters are zero, after any run of the network, the
    total of shares sent is the total of shares received plus the number
    of packets still on their way, in 32 bits: every packet the transport
    took is counted once by its sender and once by its receiver.
    (Printed time stamps are short.) *)
Theorem sent_total_is_received_total_plus_on_wire evs w w' :
  Flood.prints_fit -> fresh w ->
  Forall (fun n => sharesSent n = 0 /\ sharesReceived n = 0)
         (p2pNodes (w_net w)) ->
  net_run Send uninit evs w = Ok (Some w') ->
  totalSharesSent (PrintStatistics (w_net w'))
  = u32 (totalSharesReceived (PrintStatistics (w_net w')) +
         Z.of_nat (length (on_wire w'))).
Proof.
  intros Hshort Hfresh Hzero Hrun.
  pose proof (tcp_net_run_counts Send uninit evs w w' Hshort
                (fresh_flood_inv w Hfresh) Hrun) as Hcount.
  destruct (PrintStatistics_sums (p2pNodes (w_net w')) (mkTotals 0 0 0 0 0))
    as [Hs Hr]; [cbn; lia|cbn; lia|].
  unfold PrintStatistics. rewrite Hs, Hr. cbn [totalSharesSent
    totalSharesReceived]. rewrite !Z.add_0_l, u32_add_l.
  apply Hcount. destruct Hfresh as [-> _].
  rewrite !sum_over_zero; [reflexivity| |].
  - eapply Forall_impl; [exact Hzero|]. intros n [_ Hn]. exact Hn.
  - eapply Forall_impl; [exact Hzero|]. intros n [Hn _]. exact Hn.
Qed.

End TcpNetClaims.

Section TcpNetExamples.
Import Tcp Graph TcpNet TcpFlood TcpTotals Sample Triangle.
#[local] Existing Instance Line.capped_platform.

Lemma wired_sockets_lead_to_the_peer_they_are_filed_under_witness :
  exists net1 net2 msgs net3,
    CreateRandomTopology halves 1%Q 5%Q (new_Network 3) = Some net1 /\
    makeconnections net1 = Some (net2, msgs) /\
    deliver_all taken zeros msgs (net2, O) = Ok (net3, O, []) /\
    Forall (fun m =>
              forall b s, peersockets m !! b = Some s ->
                b ∈ peers m /\ remote s = Some b /\ in_range net3 b = true)
           (p2pNodes net3).
Proof.
  destruct (tcp_topology_spec halves 1%Q 5%Q 3)
    as (net1 & Htop & Hsize & Hkeys & _); [lia|].
  destruct (tcp_connect_all_spec (connection_keys net1) net1)
    as (net2 & Hall & _ & [Hsize2 _] & _).
  { apply Forall_forall. intros [a b] Hab.
    apply elem_of_connection_keys in Hab. apply Hkeys in Hab. tauto. }
  destruct (tcp_deliver_all_spec taken zeros (connection_keys net1)
              net2 O) as (net3 & Hdel & _).
  { apply Forall_forall. intros [a b] Hab.
    apply elem_of_connection_keys in Hab. apply Hkeys in Hab.
    cbn. lia. }
  exists net1, net2, (reg_packet <$> connection_keys net1), net3.
  split; [exact Htop|]. split; [exact Hall|]. split; [exact Hdel|].
  apply (wired_sockets_lead_to_the_peer_they_are_filed_under taken zeros
           halves 1%Q 5%Q 3 net1 net2 _ O net3 O [] ltac:(lia) Htop Hall
           Hdel).
Defined.

Lemma tcp_flood_reaches_every_connected_peer_at_rest_witness :
  exists net1 net2 msgs net3 w',
    CreateRandomTopology halves 1%Q 5%Q (new_Network 3) = Some net1 /\
    makeconnections net1 = Some (net2, msgs) /\
    deliver_all taken zeros msgs (net2, O) = Ok (net3, O, []) /\
    net_run taken zeros one_flood (mkWorld net3 O []) = Ok (Some w') /\
    on_wire w' = [] /\
    forall a n b s x,
      0 <= a -> p2pNodes (w_net w') !! Z.to_nat a = Some n ->
      peersockets n !! b = Some s -> x ∈ processedShares n ->
      exists m, 0 <= b /\ p2pNodes (w_net w') !! Z.to_nat b = Some m /\
                x ∈ processedShares m.
Proof.
  assert (Hok : exists net1 net2 msgs net3 w',
    CreateRandomTopology halves 1%Q 5%Q (new_Network 3) = Some net1 /\
    makeconnections net1 = Some (net2, msgs) /\
    deliver_all taken zeros msgs (net2, O) = Ok (net3, O, []) /\
    net_run taken zeros one_flood (mkWorld net3 O []) = Ok (Some w') /\
    on_wire w' = []).
  { do 5 eexists.
    split; [vm_compute; reflexivity|]. split; [vm_compute; reflexivity|].
    split; [vm_compute; reflexivity|]. split; vm_compute; reflexivity. }
  destruct Hok as (net1 & net2 & msgs & net3 & w' & Htop & Hmake & Hdel
                   & Hrun & Hrest).
  exists net1, net2, msgs, net3, w'.
  split; [exact Htop|]. split; [exact Hmake|]. split; [exact Hdel|].
  split; [exact Hrun|]. split; [exact Hrest|].
  apply (tcp_flood_reaches_every_connected_peer_at_rest taken zeros
           one_flood (mkWorld net3 O []) w' capped_prints_fit);
    [|exact Hrun|exact Hrest].
  exact (tcp_wired_fresh taken zeros halves 1%Q 5%Q 3 net1 net2 msgs O net3
           O [] ltac:(lia) Htop Hmake Hdel).
Defined.

Lemma nothing_is_sent_after_StopAllNodes_witness :
  exists net1 net2 msgs net3 w1 w',
    CreateRandomTopology halves 1%Q 5%Q (new_Network 3) = Some net1 /\
    makeconnections net1 = Some (net2, msgs) /\
    deliver_all taken zeros msgs (net2, O) = Ok (net3, O, []) /\
    net_run taken zeros first_sends (mkWorld net3 O []) = Ok (Some w1) /\
    on_wire w1 = [mkSegment (ClientSocket 0 1) "SHARE:0:0:5";
                  mkSegment (ClientSocket 0 2) "SHARE:0:0:5"] /\
    net_run taken zeros (NStopAllNodes :: leftovers) w1 = Ok (Some w') /\
    w_calls w' = w_calls w1 /\ on_wire w' `sublist_of` on_wire w1 /\
    Forall (fun n => peersockets n = ∅) (p2pNodes (w_net w')).
Proof.
  assert (Hok : exists net1 net2 msgs net3 w1 w',
    CreateRandomTopology halves 1%Q 5%Q (new_Network 3) = Some net1 /\
    makeconnections net1 = Some (net2, msgs) /\
    deliver_all taken zeros msgs (net2, O) = Ok (net3, O, []) /\
    net_run taken zeros first_sends (mkWorld net3 O []) = Ok (Some w1) /\
    on_wire w1 = [mkSegment (ClientSocket 0 1) "SHARE:0:0:5";
                  mkSegment (ClientSocket 0 2) "SHARE:0:0:5"] /\
    net_run taken zeros (NStopAllNodes :: leftovers) w1 = Ok (Some w')).
  { do 6 eexists.
    split; [vm_compute; reflexivity|]. split; [vm_compute; reflexivity|].
    split; [vm_compute; reflexivity|]. split; [vm_compute; reflexivity|].
    split; vm_compute; reflexivity. }
  destruct Hok as (net1 & net2 & msgs & net3 & w1 & w' & Htop & Hmake & Hdel
                   & Hfirst & Hwire & Hrun).
  exists net1, net2, msgs, net3, w1, w'.
  split; [exact Htop|]. split; [exact Hmake|]. split; [exact Hdel|].
  split; [exact Hfirst|]. split; [exact Hwire|]. split; [exact Hrun|].
  apply (nothing_is_sent_after_StopAllNodes taken zeros leftovers w1 w');
    [|exact Hrun].
  rewrite Hwire. repeat constructor; vm_compute; discriminate.
Defined.

Lemma sent_total_is_received_total_plus_on_wire_witness :
  exists net1 net2 msgs net3 w',
    CreateRandomTopology halves 1%Q 5%Q (new_Network 3) = Some net1 /\
    makeconnections net1 = Some (net2, msgs) /\
    deliver_all taken zeros msgs (net2, O) = Ok (net3, O, []) /\
    net_run taken zeros mid_flood (mkWorld net3 O []) = Ok (Some w') /\
    length (on_wire w') = 4%nat /\
    totalSharesReceived (PrintStatistics (w_net w')) = 1 /\
    totalSharesSent (PrintStatistics (w_net w'))
    = u32 (totalSharesReceived (PrintStatistics (w_net w')) +
           Z.of_nat (length (on_wire w'))).
Proof.
  assert (Hok : exists net1 net2 msgs net3 w',
    CreateRandomTopology halves 1%Q 5%Q (new_Network 3) = Some net1 /\
    makeconnections net1 = Some (net2, msgs) /\
    deliver_all taken zeros msgs (net2, O) = Ok (net3, O, []) /\
    net_run taken zeros mid_flood (mkWorld net3 O []) = Ok (Some w') /\
    length (on_wire w') = 4%nat /\
    totalSharesReceived (PrintStatistics (w_net w')) = 1 /\
    Forall (fun n => sharesSent n = 0 /\ sharesReceived n = 0)
           (p2pNodes net3)).
  { do 5 eexists.
    split; [vm_compute; reflexivity|]. split; [vm_compute; reflexivity|].
    split; [vm_compute; reflexivity|]. split; [vm_compute; reflexivity|].
    split; [vm_compute; reflexivity|]. split; [vm_compute; reflexivity|].
    vm_compute. repeat constructor. }
  destruct Hok as (net1 & net2 & msgs & net3 & w' & Htop & Hmake & Hdel
                   & Hrun & Hwire & Hrcv & Hzero).
  exists net1, net2, msgs, net3, w'.
  split; [exact Htop|]. split; [exact Hmake|]. split; [exact Hdel|].
  split; [exact Hrun|]. split; [exact Hwire|]. split; [exact Hrcv|].
  apply (sent_total_is_received_total_plus_on_wire taken zeros mid_flood
           (mkWorld net3 O []) w' capped_prints_fit);
    [|exact Hzero|exact Hrun].
  exact (tcp_wired_fresh taken zeros halves 1%Q 5%Q 3 net1 net2 msgs O net3
           O [] ltac:(lia) Htop Hmake Hdel).
Defined.

End TcpNetExamples.
